(* ===== verification/_CoqProject ===== *)
-Q . S2P
Prelude.v
Monad.v
Bytes.v
Bitmap.v
LowerBound.v
Comparator.v
LruCache.v
MemPool.v
BufferPool.v
BufferPoolSpec.v
RecordPage.v
RecordFile.v
NodePool.v
BplusNode.v
NodeLogic.v
BplusTree.v
BplusScan.v
BplusSpec.v
BplusSearch.v
BplusOrder.v
BplusInsert.v
BplusEntry.v
BplusScanSpec.v
BplusLevels.v
BplusMove.v
BplusDelete.v
BplusRemove.v
BplusIndex.v
ClogRecord.v
Clog.v
ClogSpec.v
ClogLog.v
ClogRecover.v
Redo.v
Trx.v
Store.v
Table.v
TableSpec.v
TableRecover.v
Session.v
SessionSpec.v
Sample.v
TableTheorems.v
Durability.v
Histories.v
Float.v
Item.v
Expr.v
Filter.v
ExprSpec.v
FilterSpec.v
Select.v
SelectSpec.v
Aggregate.v
AggregateSpec.v
Queries.v
