(* ===== verification/Prelude.v ===== *)
(** * A verification development of miniob (the OceanBase teaching database)

    The program is a small relational database server: a buffer pool over paged
    files, record files and B+ tree indexes on top of it, tables that combine the
    two, transactions with a redo log, sessions whose SQL statements drive them,
    and a query engine on relations in memory.  The development models this storage
    core, from the bits of a page to the recovery of a database, and the evaluation
    of queries, and proves what each layer promises to the one above.  All paths below are under src/src/observer, or src/deps/common where
    they begin with common/.

    ** The parts and their files

    - This file: machine integers with their wrap-around, the return codes (rc.h),
      lists indexed by C integers, counting.
    - [Monad]: computations on a state that return a value, an error code or run
      into undefined behaviour; [Bytes]: memory blocks of [char]s and little-endian
      integers.
    - [Bitmap] (common/lang/bitmap.cpp), [LowerBound] (common/lang/lower_bound.h),
      [LruCache] (common/lang/lru_cache.h, with its heap of list nodes; [Lru] is
      its specification), [MemPool] (common/mm/mem_pool.h).
    - [Comparator]: util/comparator.cpp, LIKE in util/util.cpp, the order of
      record identifiers and index keys; [CmpOrder] is the interface to the tree.
    - [BufferPool], [BufferPoolSpec]: storage/default/disk_buffer_pool.{h,cpp}.
      The state [BP] is the frame manager, the pools by address, the directories
      of the manager and the files.  [content] is the page a client sees.
    - [RecordPage] (one page, on its bytes) and [RecordFile] (files, scans):
      storage/record/record_manager.{h,cpp}.
    - The B+ tree, storage/index/bplus_tree.{h,cpp}: [NodePool] is the page
      store it relies on, [BplusNode] the node handlers, [BplusTree] insertion and
      deletion, [BplusScan] scans and lookup.  The proofs are layered: [NodeLogic]
      (a program logic), [BplusSpec] (a tree as a sequence of entries),
      [BplusSearch] (descent), [BplusOrder] (sorted entries), [BplusInsert] and
      [BplusEntry] (insertion), [BplusScanSpec] (scans), [BplusLevels], [BplusMove],
      [BplusDelete] and [BplusRemove] (deletion: one level at a time, items moving
      between siblings, rebalancing the internal levels, the leaves), [BplusIndex]
      (what the index promises).
    - The redo log, storage/clog/clog.{h,cpp}: [ClogRecord] (records and their
      bytes), [Clog] (buffer, file, recovery, manager), [ClogSpec] (the layout of a
      log), [ClogLog] (appending), [ClogRecover] (reading back), [Redo] (what the
      log guarantees).
    - Tables and transactions: [Trx] (storage/trx/trx.{h,cpp}), [Store] (the
      contracts of records and indexes, as type classes with instances), [Table]
      (storage/common/table.cpp and db.cpp: insertion, update, deletion, commit,
      rollback, replay, [Db::recover]), [TableSpec] and [TableTheorems]
      (operations), [TableRecover] (recovery against the reference [replay]).
    - Sessions: [Session] (sql/executor/execute_stage.cpp, the operators that
      change data, session/session.cpp), [SessionSpec] and [Durability] (committed
      insertions survive), [Histories] (runs in which atomicity and durability
      fail), [Sample] (a concrete database for the witnesses).
    - Queries, sql/expr, sql/operator/select and sql/stmt: [Float] (floats and the
      texts of numbers), [Item] (items, rows, relations, from a record to a row),
      [Expr] (expressions, which keep their last value), [Filter] (comparisons, the
      array of filter units), [Select] (the operators and plans), [Aggregate]
      (aggregates and their operator).  [ExprSpec] shows that expressions without
      aggregates have no history, [FilterSpec] relates the array of a filter to its
      tree, [SelectSpec] has the algebra that plans compute and the odometer of the
      join, [AggregateSpec] the groups, [Queries] the theorems and samples.

    ** How the parts interact

    A handler that calls another keeps its state inside its own ([lift]), or asks
    for an interface: the tree for a [NodeHandler] and a [CmpOrder], a table for a
    [RecordStore] with [RecordStoreLaws] and an [IndexStore] with [IndexStoreLaws].
    The laws of the records are discharged for a record page; those of an index for
    a set of entries.  The tree works on [NodePool], the view of the buffer pool
    that [BufferPoolSpec] establishes (content does not depend on caching), with
    eviction of clean, unpinned pages as a step that can occur at any time.  The
    query operators rely on a filter only through [implements]: it decides rows by a
    function, whatever it has decided before.

    ** What the theorems show

    - Common parts: the searches and the binary search are correct, the LRU cache
      refines a list in the order of use without touching freed nodes, a memory pool
      never hands out an item twice.
    - Buffer pool: loading, evicting and flushing are invisible to clients; flushing
      persists what they see; errors are accounted for.
    - Records: a page is a map from slots to records and its layout fits the page.
    - B+ tree: insertion refines insertion into a sorted list through all splits;
      deletion refines removal from it through redistributions and merges, with
      every node but the root at least half full, provided leaves have room for four
      items and internal nodes for six (with less, deletion can lose keys); scans and
      lookups deliver exactly the entries asked for; the content survives closing.
    - Redo log: records read back as written, appending extends the log, recovery
      from the file returns it, provided the log is [safe_log]; the other case loses a
      record ([Redo.recovery_loses_record]).
    - Tables and sessions: insertion, deletion and rollback of insertions do what
      they promise on rows, index entries and log together; recovery equals [replay];
      committed insertions survive a crash.  Histories show where the code falls short.
    - Queries: the plan of a query without aggregates computes the algebra, errors
      included; a join enumerates the product of its operands; WHERE means its tree of
      conditions; an aggregate is taken group by group and COUNT counts.  Aggregates
      behind a NULL and ORDER BY are shown to be wrong as the code has them.

    ** Bounds and fuel

    Integers are 32 bits wide, [char] is signed.  Loops over C integers run with
    fuel that the state bounds: the bits of a bitmap, the items of a node, one more
    than the pages of a file for the descent and the recursion in a tree (each step
    goes to another level), the blocks of a log file for recovery.  The theorems
    state that the result is returned, so the fuel is enough wherever they apply.

    ** Not modelled

    - The SQL parser (generated), resolution of names, the construction of
      expressions from parsed ones (a parameter of the filters), LENGTH, ROUND and
      DATE_FORMAT, sub-queries (a list of values has a fixed relation; a sub-query is
      evaluated anew for each row), display names.  Plans with aggregates, HAVING or
      ORDER BY are not put together: there [SelectStmt] shares the aggregate objects
      between the operators; the aggregate operator and [sortRow] stand alone.
    - The scans below a query: a plan starts from the records that they deliver, and
      the identifiers that an UPDATE or DELETE selects are given.
    - The JSON files of tables and indexes (jsoncpp), directories, opening and
      creating tables: input and output through libraries.
    - Network, staged events, logging, configuration; vendored libraries.
    - Locks: the only ones are those of the frame manager, around its operations; the
      model runs one operation at a time.
*)

From stdpp Require Import base gmap list strings.
From Stdlib Require Import ZArith Lia.
#[global] Open Scope Z_scope.

(** ** Machine integers *)

Module Int.
(** The signed two's complement value of the low [w] bits of [x]. *)
Definition swrap (w x : Z) : Z := (x + 2 ^ (w - 1)) mod 2 ^ w - 2 ^ (w - 1).
(** The unsigned value of the low [w] bits of [x]. *)
Definition uwrap (w x : Z) : Z := x mod 2 ^ w.

Definition to_char (x : Z) : Z := swrap 8 x.
Definition to_int16 (x : Z) : Z := swrap 16 x.
Definition to_int32 (x : Z) : Z := swrap 32 x.
Definition to_uint32 (x : Z) : Z := uwrap 32 x.

Definition INT_MAX : Z := 2 ^ 31 - 1.
Definition INT_MIN : Z := - 2 ^ 31.

Definition is_int32 (x : Z) : Prop := INT_MIN <= x <= INT_MAX.
Definition is_char (x : Z) : Prop := -128 <= x <= 127.

Lemma swrap_range w x : 0 < w -> - 2 ^ (w - 1) <= swrap w x < 2 ^ (w - 1).
Proof.
  intros Hw. unfold swrap.
  pose proof (Z.mod_pos_bound (x + 2 ^ (w - 1)) (2 ^ w) ltac:(apply Z.pow_pos_nonneg; lia)).
  replace (2 ^ w) with (2 * 2 ^ (w - 1)) in * by (rewrite <- Z.pow_succ_r by lia; f_equal; lia).
  lia.
Qed.

Lemma swrap_small w x : 0 < w -> - 2 ^ (w - 1) <= x < 2 ^ (w - 1) -> swrap w x = x.
Proof.
  intros Hw Hx. unfold swrap. rewrite Z.mod_small; [lia|].
  replace (2 ^ w) with (2 * 2 ^ (w - 1)) by (rewrite <- Z.pow_succ_r by lia; f_equal; lia).
  lia.
Qed.

Lemma swrap_mod w x : 0 < w -> swrap w x mod 2 ^ w = x mod 2 ^ w.
Proof.
  intros Hw. unfold swrap. rewrite Zminus_mod_idemp_l. f_equal. lia.
Qed.

Lemma swrap_testbit w x i : 0 < w -> 0 <= i < w -> Z.testbit (swrap w x) i = Z.testbit x i.
Proof.
  intros Hw Hi.
  rewrite <- (Z.mod_pow2_bits_low (swrap w x) w i) by lia.
  rewrite swrap_mod by lia. apply Z.mod_pow2_bits_low; lia.
Qed.

Lemma to_int32_small x : is_int32 x -> to_int32 x = x.
Proof. unfold is_int32, INT_MIN, INT_MAX. intros. apply swrap_small; lia. Qed.

Lemma to_int32_range x : is_int32 (to_int32 x).
Proof. unfold is_int32, INT_MIN, INT_MAX, to_int32. pose proof (swrap_range 32 x). lia. Qed.

Lemma to_char_range x : is_char (to_char x).
Proof. unfold is_char, to_char. pose proof (swrap_range 8 x). lia. Qed.

(** The C operators [/] and [%] on ints truncate toward zero. *)
Abbreviation cdiv := Z.quot (only parsing).
Abbreviation cmod := Z.rem (only parsing).

Lemma cdiv_nonneg x d : 0 <= x -> 0 < d -> Z.quot x d = x / d.
Proof. intros. apply Z.quot_div_nonneg; lia. Qed.
Lemma cmod_nonneg x d : 0 <= x -> 0 < d -> Z.rem x d = x mod d.
Proof. intros. apply Z.rem_mod_nonneg; lia. Qed.
End Int.
Export Int.

(** ** Return codes (src/observer/rc.h) *)

(** The enumerators of [enum RC] that the modelled code returns or tests. *)
Inductive RC : Type :=
| SUCCESS | GENERIC_ERROR | INVALID_ARGUMENT | INTERNAL | NOMEM | EMPTY
| MISMATCH | SHOULD_NOT_BE_CALLED | UNKNOWN_TYPE | ERROR_INPUT_TYPE
| ERROR_LOGIC_PLAN | EXPR_PARSE_ERROR | CONST_PARSE_ERROR
| BUFFERPOOL_OPEN | BUFFERPOOL_NOBUF | BUFFERPOOL_INVALID_PAGE_NUM
| RECORD_OPENNED | RECORD_INVALIDRID | RECORD_INVALID_KEY | RECORD_DUPLICATE_KEY
| RECORD_NOMEM | RECORD_EOF | RECORD_RECORD_NOT_EXIST
| SCHEMA_DB_EXIST | SCHEMA_TABLE_NOT_EXIST | SCHEMA_TABLE_EXIST
| SCHEMA_FIELD_NOT_EXIST | SCHEMA_FIELD_MISSING | SCHEMA_FIELD_TYPE_MISMATCH
| SCHEMA_FIELD_NOT_NULL | SCHEMA_INDEX_EXIST
| IOERR_READ | IOERR_WRITE | IOERR_ACCESS | IOERR_CLOSE | IOERR_SEEK
| LOCKED_UNLOCK | FILE_EXIST | LOGBUF_FULL.

#[global] Instance RC_eq_dec : EqDecision RC.
Proof. solve_decision. Defined.

Definition RC_sub (base part : Z) : Z := Z.lor base (Z.shiftl part 8).

(** The integer value of an enumerator. *)
Definition rc_code (rc : RC) : Z :=
  match rc with
  | SUCCESS => 0 | GENERIC_ERROR => 1 | INVALID_ARGUMENT => 2 | INTERNAL => 7
  | NOMEM => 12 | EMPTY => 21 | MISMATCH => 25 | UNKNOWN_TYPE => 35
  | SHOULD_NOT_BE_CALLED => 34 | ERROR_INPUT_TYPE => 38 | ERROR_LOGIC_PLAN => 39
  | EXPR_PARSE_ERROR => 40 | CONST_PARSE_ERROR => 41
  | BUFFERPOOL_OPEN => RC_sub 5 6 | BUFFERPOOL_NOBUF => RC_sub 5 7
  | BUFFERPOOL_INVALID_PAGE_NUM => RC_sub 5 9
  | RECORD_OPENNED => RC_sub 6 2 | RECORD_INVALIDRID => RC_sub 6 4
  | RECORD_INVALID_KEY => RC_sub 6 8 | RECORD_DUPLICATE_KEY => RC_sub 6 9
  | RECORD_NOMEM => RC_sub 6 10 | RECORD_EOF => RC_sub 6 13
  | RECORD_RECORD_NOT_EXIST => RC_sub 6 14
  | SCHEMA_DB_EXIST => RC_sub 22 1 | SCHEMA_TABLE_NOT_EXIST => RC_sub 22 4
  | SCHEMA_TABLE_EXIST => RC_sub 22 5 | SCHEMA_FIELD_NOT_EXIST => RC_sub 22 7
  | SCHEMA_FIELD_MISSING => RC_sub 22 10 | SCHEMA_FIELD_TYPE_MISMATCH => RC_sub 22 12
  | SCHEMA_FIELD_NOT_NULL => RC_sub 22 13 | SCHEMA_INDEX_EXIST => RC_sub 22 15
  | IOERR_READ => RC_sub 15 1 | IOERR_WRITE => RC_sub 15 3
  | IOERR_ACCESS => RC_sub 15 10 | IOERR_CLOSE => RC_sub 15 12
  | IOERR_SEEK => RC_sub 15 16 | LOCKED_UNLOCK => RC_sub 11 2
  | FILE_EXIST => RC_sub 32 1 | LOGBUF_FULL => RC_sub 33 1
  end.

Lemma rc_code_inj r1 r2 : rc_code r1 = rc_code r2 -> r1 = r2.
Proof. destruct r1; destruct r2; vm_compute; congruence. Qed.

Lemma rc_code_success rc : rc_code rc = 0 <-> rc = SUCCESS.
Proof. split; [|by intros ->]. intros H. by apply rc_code_inj. Qed.

(** ** Record identifiers and page numbers (src/observer/defs.h, record.h) *)

Abbreviation PageNum := Z (only parsing).
Abbreviation SlotNum := Z (only parsing).
Definition BP_INVALID_PAGE_NUM : PageNum := -1.

(** ** Lists indexed by C integers *)

Section zlist.
Context {A : Type}.
Implicit Types (l : list A) (i j : Z).

(** Reading element [i] of an array; [None] when [i] is out of bounds. *)
Definition zget l i : option A := if decide (0 <= i) then l !! Z.to_nat i else None.
(** Writing element [i]; [None] when [i] is out of bounds. *)
Definition zset l i (x : A) : option (list A) :=
  if decide (0 <= i < Z.of_nat (length l)) then Some (<[Z.to_nat i := x]> l) else None.
Definition zlen l : Z := Z.of_nat (length l).

Lemma zget_Some_bound l i x : zget l i = Some x -> 0 <= i < zlen l.
Proof.
  unfold zget, zlen. case_decide; [|done]. intros Hl%lookup_lt_Some. lia.
Qed.
Lemma zget_is_Some l i : 0 <= i < zlen l -> is_Some (zget l i).
Proof.
  unfold zget, zlen. intros. rewrite decide_True by lia. apply lookup_lt_is_Some. lia.
Qed.
Lemma zset_Some l i x : 0 <= i < zlen l -> zset l i x = Some (<[Z.to_nat i := x]> l).
Proof. unfold zset, zlen. intros. by rewrite decide_True by lia. Qed.
Lemma zset_length l l' i x : zset l i x = Some l' -> zlen l' = zlen l.
Proof. unfold zset, zlen. case_decide; [|done]. intros [= <-]. by rewrite length_insert. Qed.
Lemma zget_zset_eq l l' i x : zset l i x = Some l' -> zget l' i = Some x.
Proof.
  unfold zset, zget. case_decide; [|done]. intros [= <-].
  rewrite decide_True by lia. apply list_lookup_insert_eq. lia.
Qed.
Lemma zget_zset_ne l l' i j x : zset l i x = Some l' -> i <> j -> zget l' j = zget l j.
Proof.
  unfold zset, zget. case_decide; [|done]. intros [= <-] Hne. case_decide; [|done].
  apply list_lookup_insert_ne. lia.
Qed.
End zlist.

(** ** Counting the elements of a list that satisfy a boolean test *)

Section count.
Context {A : Type}.
Implicit Types (f g : A -> bool) (l : list A).

Definition count f l : Z := Z.of_nat (length (filter (fun x => f x = true) l)).

Lemma count_nil f : count f [] = 0.
Proof. done. Qed.
Lemma count_cons f x l : count f (x :: l) = (if f x then 1 else 0) + count f l.
Proof. unfold count. rewrite filter_cons. destruct (f x); case_decide; simpl; lia || done. Qed.
Lemma count_bounds f l : 0 <= count f l <= zlen l.
Proof. unfold count, zlen. pose proof (length_filter (fun x => f x = true) l). lia. Qed.
Lemma count_ext f g l : (forall x, x ∈ l -> f x = g x) -> count f l = count g l.
Proof.
  induction l as [|x l IH]; intros H; [done|]. rewrite !count_cons.
  rewrite H, IH by set_solver. done.
Qed.
Lemma count_flip f g l x :
  NoDup l -> x ∈ l -> f x = false -> g x = true ->
  (forall y, y ∈ l -> y <> x -> f y = g y) -> count g l = count f l + 1.
Proof.
  induction 1 as [|y l Hy Hl IH]; intros Hx Hf Hg Hext; [set_solver|]. rewrite !count_cons.
  apply elem_of_cons in Hx as [<-|Hx].
  - rewrite Hf, Hg. rewrite (count_ext f g) by set_solver. lia.
  - rewrite (Hext y) by set_solver. rewrite IH by set_solver. lia.
Qed.
Lemma count_zero f l : count f l = 0 <-> forall x, x ∈ l -> f x = false.
Proof.
  induction l as [|x l IH]; [split; [set_solver|done]|]. rewrite count_cons.
  pose proof (count_bounds f l). destruct (f x) eqn:E; split; intros H'.
  - lia.
  - rewrite (H' x) in E by set_solver. done.
  - intros y [->|Hy]%elem_of_cons; [done|]. apply IH; [lia|done].
  - rewrite (proj2 IH) by set_solver. done.
Qed.
Lemma count_full f l : count f l = zlen l <-> forall x, x ∈ l -> f x = true.
Proof.
  induction l as [|x l IH]; [split; [set_solver|done]|]. rewrite count_cons.
  unfold zlen in *. simpl length. pose proof (count_bounds f l). unfold zlen in *.
  destruct (f x) eqn:E; split; intros H'.
  - intros y [->|Hy]%elem_of_cons; [done|]. apply IH; [lia|done].
  - rewrite (proj2 IH) by set_solver. lia.
  - lia.
  - rewrite (H' x) in E by set_solver. done.
Qed.
End count.

Lemma filter_ext_elem {A} (P Q : A -> Prop) `{!forall x, Decision (P x), !forall x, Decision (Q x)} (l : list A) :
  (forall x, x ∈ l -> P x <-> Q x) -> filter P l = filter Q l.
Proof.
  induction l as [|x l IH]; intros Hpq; [done|].
  assert (Hx : P x <-> Q x) by (apply Hpq; by left).
  assert (Hl : filter P l = filter Q l) by (apply IH; intros y Hy; apply Hpq; by right).
  rewrite !filter_cons, Hl. repeat case_decide; tauto.
Qed.

(** ** Proof automation *)

Create HintDb miniob.
#[export] Hint Resolve zset_length zget_zset_eq to_int32_range to_char_range : miniob.

(** Splits conjunctions of booleans and reflects the integer tests. *)
Ltac zbool :=
  repeat match goal with
  | H : (_ && _)%bool = true |- _ => apply andb_true_iff in H; destruct H
  | H : (_ || _)%bool = false |- _ => apply orb_false_iff in H; destruct H
  | H : negb _ = true |- _ => apply negb_true_iff in H
  | H : negb _ = false |- _ => apply negb_false_iff in H
  | H : (_ <? _) = true |- _ => apply Z.ltb_lt in H
  | H : (_ <? _) = false |- _ => apply Z.ltb_ge in H
  | H : (_ <=? _) = true |- _ => apply Z.leb_le in H
  | H : (_ <=? _) = false |- _ => apply Z.leb_gt in H
  | H : (_ =? _) = true |- _ => apply Z.eqb_eq in H
  | H : (_ =? _) = false |- _ => apply Z.eqb_neq in H
  | H : (_ >? _) = _ |- _ => rewrite Z.gtb_ltb in H
  | H : (_ >=? _) = _ |- _ => rewrite Z.geb_leb in H
  end.

(** Case analysis on the head test of the goal, reflecting integer tests. *)
Ltac case_test :=
  match goal with
  | |- context [ if ?b then _ else _ ] => destruct b eqn:?; zbool
  end.

(** Evaluates the arithmetic on literals that [cbn] leaves alone. *)
Ltac is_zlit v := lazymatch v with Z0 => idtac | Zpos _ => idtac | Zneg _ => idtac end.
Ltac zeval_term t := let v := eval vm_compute in t in is_zlit v; change t with v.
Ltac zeval :=
  repeat match goal with
  | |- context [?x + ?y] => is_zlit x; is_zlit y; zeval_term (x + y)
  | |- context [?x - ?y] => is_zlit x; is_zlit y; zeval_term (x - y)
  | |- context [Z.of_nat ?n] => zeval_term (Z.of_nat n)
  | |- context [Z.to_nat ?x] => is_zlit x; let v := eval vm_compute in (Z.to_nat x) in change (Z.to_nat x) with v
  end.
