(* ===== verification/Monad.v ===== *)
(** * The effects of the C++ code

    A method that threads state and returns an [RC] is a computation of the
    monad [M S]: it ends with a value ([Ret]), it returns an error code other
    than [SUCCESS] early ([Err]), or it runs into undefined behaviour or a
    failed assertion ([Stuck]).  The state reached so far is kept on an error
    return, because the callers go on with it. *)

From S2P Require Import Prelude.
From stdpp Require Import base tactics.

Inductive outcome (S A : Type) : Type :=
| Ret (a : A) (s : S)
| Err (rc : RC) (s : S)
| Stuck.
Arguments Ret {S A}. Arguments Err {S A}. Arguments Stuck {S A}.

Definition M (S A : Type) : Type := S -> outcome S A.

#[export] Instance M_ret S : MRet (M S) := fun A a s => Ret a s.
#[export] Instance M_bind S : MBind (M S) := fun A B f m s =>
  match m s with Ret a s => f a s | Err rc s => Err rc s | Stuck => Stuck end.

Section effects.
Context {S A : Type}.

(** The whole state, and its update. *)
Definition get_state : M S S := fun s => Ret s s.
Definition gets (f : S -> A) : M S A := fun s => Ret (f s) s.
Definition modify (f : S -> S) : M S unit := fun s => Ret tt (f s).

(** [return rc] with an error code *)
Definition throw (rc : RC) : M S A := fun s => Err rc s.

(** An access that is undefined when it yields nothing. *)
Definition of_option (o : option A) : M S A := fun s => match o with Some a => Ret a s | None => Stuck end.

(** [assert(b)] *)
Definition check (b : bool) : M S unit := fun s => if b then Ret tt s else Stuck.

(** [if ((rc = m) != SUCCESS) { h; }]: [h] decides how to go on. *)
Definition catch (m : M S A) (h : RC -> M S A) : M S A := fun s =>
  match m s with Ret a s => Ret a s | Err rc s => h rc s | Stuck => Stuck end.
End effects.

(** [rc = m]: the error code as a value. *)
Definition rc_of {S A} (m : M S A) : M S RC := fun s =>
  match m s with Ret _ s => Ret SUCCESS s | Err rc s => Ret rc s | Stuck => Stuck end.

(** [rc = m] with the value that [m] delivers on success. *)
Definition attempt {S A} (m : M S A) : M S (RC + A) := fun s =>
  match m s with Ret a s => Ret (inr a) s | Err rc s => Ret (inl rc) s | Stuck => Stuck end.

(** [return rc] for any code *)
Definition return_rc {S} (rc : RC) : M S unit :=
  if decide (rc = SUCCESS) then mret tt else throw rc.

(** A computation on a part of the state. *)
Definition zoom {S T A} (get : S -> T) (put : T -> S -> S) (m : M T A) : M S A := fun s =>
  match m (get s) with
  | Ret a t => Ret a (put t s)
  | Err rc t => Err rc (put t s)
  | Stuck => Stuck
  end.

(** ** Outcomes *)

(** The state an outcome ends in. *)
Definition final {S A} (o : outcome S A) : option S :=
  match o with Ret _ s => Some s | Err _ s => Some s | Stuck => None end.

(** [triple P m Q E]: from a state in [P], [m] does not get stuck; it returns in
    [Q] or fails in [E]. *)
Definition triple {S A} (P : S -> Prop) (m : M S A) (Q : A -> S -> Prop) (E : RC -> S -> Prop) : Prop :=
  forall s, P s -> match m s with Ret a s' => Q a s' | Err rc s' => E rc s' | Stuck => False end.

Section triple.
Context {S A B : Type}.
Implicit Types (P : S -> Prop) (Q : A -> S -> Prop) (R : B -> S -> Prop) (E : RC -> S -> Prop).

Lemma triple_ret P (a : A) Q E : (forall s, P s -> Q a s) -> triple P (mret a) Q E.
Proof. intros H s Hs. by apply H. Qed.

Lemma triple_bind P m Q (f : A -> M S B) R E :
  triple P m Q E -> (forall a, triple (Q a) (f a) R E) -> triple P (m ≫= f) R E.
Proof.
  intros H1 H2 s Hs. specialize (H1 s Hs). unfold mbind, M_bind.
  destruct (m s) as [a s'|rc s'|]; [by apply H2|done|done].
Qed.

Lemma triple_weaken P P' m Q Q' E E' :
  triple P m Q E -> (forall s, P' s -> P s) -> (forall a s, Q a s -> Q' a s) ->
  (forall rc s, E rc s -> E' rc s) -> triple P' m Q' E'.
Proof.
  intros H HP HQ HE s Hs. specialize (H s (HP s Hs)). destruct (m s); auto.
Qed.

Lemma triple_catch P m h Q E E' :
  triple P m Q E -> (forall rc, triple (E rc) (h rc) Q E') -> triple P (catch m h) Q E'.
Proof.
  intros H1 H2 s Hs. specialize (H1 s Hs). unfold catch. destruct (m s); auto. by apply H2.
Qed.
End triple.

Lemma bind_Ret {S A B} (m : M S A) (f : A -> M S B) s a s' : m s = Ret a s' -> (m ≫= f) s = f a s'.
Proof. intros E. unfold mbind, M_bind. by rewrite E. Qed.

Lemma bind_Err {S A B} (m : M S A) (f : A -> M S B) s rc s' : m s = Err rc s' -> (m ≫= f) s = Err rc s'.
Proof. intros E. unfold mbind, M_bind. by rewrite E. Qed.

Lemma bind_modify {S B} (g : S -> S) (f : unit -> M S B) s : (modify g ≫= f) s = f tt (g s).
Proof. done. Qed.

Lemma bind_gets {S A B} (g : S -> A) (f : A -> M S B) s : (gets g ≫= f) s = f (g s) s.
Proof. done. Qed.

(** Runs the steps at the head of a computation whose results are known. *)
Ltac mrun :=
  cbv beta iota zeta delta [mbind M_bind mret M_ret get_state gets modify throw of_option check catch rc_of attempt].
