(* ===== verification/Bytes.v ===== *)
(** * Memory blocks and little-endian integers

    The pages, records and log buffers of the program are blocks of [char]s
    that it reads and writes through casts and [memcpy].  A block is a list of
    signed bytes; an access outside the block gives [None].  Integers are in
    the byte order of the machine, least significant byte first. *)

From S2P Require Import Prelude.
From stdpp Require Import base list.
From Stdlib Require Import ZArith Lia.
#[local] Open Scope Z_scope.

(** The [n] bytes at offset [off]. *)
Definition load (d : list Z) (off n : Z) : option (list Z) :=
  if decide (0 <= off /\ 0 <= n /\ off + n <= zlen d) then Some (take (Z.to_nat n) (drop (Z.to_nat off) d))
  else None.

(** [memcpy(d + off, bs, size of bs)] *)
Definition store (d : list Z) (off : Z) (bs : list Z) : option (list Z) :=
  if decide (0 <= off /\ off + zlen bs <= zlen d) then
    Some (take (Z.to_nat off) d ++ bs ++ drop (Z.to_nat off + length bs) d)
  else None.

(** [memset(d + off, 0, n)] *)
Definition zero_fill (d : list Z) (off n : Z) : option (list Z) :=
  store d off (replicate (Z.to_nat n) 0).

(** The value of a [char] as an [unsigned char]. *)
Definition uchar (c : Z) : Z := uwrap 8 c.

(** The unsigned integer in the bytes [bs], and the [n] bytes of [v]. *)
Fixpoint le_decode (bs : list Z) : Z :=
  match bs with [] => 0 | b :: bs => uchar b + 256 * le_decode bs end.
Fixpoint le_encode (n : nat) (v : Z) : list Z :=
  match n with O => [] | S n => to_char v :: le_encode n (v / 256) end.

Definition get_i32 (d : list Z) (off : Z) : option Z :=
  bs ← load d off 4; Some (to_int32 (le_decode bs)).
Definition put_i32 (d : list Z) (off v : Z) : option (list Z) := store d off (le_encode 4 v).

(** ** Blocks *)

Lemma load_Some d off n bs :
  load d off n = Some bs <->
  0 <= off /\ 0 <= n /\ off + n <= zlen d /\ bs = take (Z.to_nat n) (drop (Z.to_nat off) d).
Proof. unfold load. case_decide; split; intros; simplify_eq; naive_solver. Qed.

Lemma load_length d off n bs : load d off n = Some bs -> zlen bs = n.
Proof.
  rewrite load_Some. unfold zlen. intros (? & ? & ? & ->). rewrite length_take, length_drop. lia.
Qed.

Lemma load_is_Some d off n : 0 <= off -> 0 <= n -> off + n <= zlen d -> is_Some (load d off n).
Proof. intros. unfold load. rewrite decide_True by lia. eauto. Qed.

Lemma store_is_Some d off bs : 0 <= off -> off + zlen bs <= zlen d -> is_Some (store d off bs).
Proof. intros. unfold store. rewrite decide_True by lia. eauto. Qed.

Lemma store_bounds d off bs d' : store d off bs = Some d' -> 0 <= off /\ off + zlen bs <= zlen d.
Proof. unfold store. by case_decide. Qed.

Lemma store_length d off bs d' : store d off bs = Some d' -> zlen d' = zlen d.
Proof.
  unfold store, zlen. case_decide as Hd; [|done]. intros [= <-].
  rewrite !length_app, length_take, length_drop. lia.
Qed.

(** Reading an index of a block after a [store]. *)
Lemma store_lookup d off bs d' i :
  store d off bs = Some d' ->
  d' !! i = if decide (off <= Z.of_nat i < off + zlen bs) then bs !! (i - Z.to_nat off)%nat else d !! i.
Proof.
  unfold store, zlen. case_decide as Hd; [|done]. intros [= <-]. unfold zlen in Hd.
  destruct (decide (Z.of_nat i < off)).
  - rewrite decide_False by lia. rewrite lookup_app_l by (rewrite length_take; lia).
    apply lookup_take_lt. lia.
  - rewrite lookup_app_r by (rewrite length_take; lia). rewrite length_take_le by lia.
    case_decide.
    + apply lookup_app_l. lia.
    + rewrite lookup_app_r by lia. rewrite lookup_drop. f_equal. lia.
Qed.

Lemma load_store_eq d off bs d' : store d off bs = Some d' -> load d' off (zlen bs) = Some bs.
Proof.
  intros Hs. pose proof (store_length _ _ _ _ Hs). pose proof (store_bounds _ _ _ _ Hs).
  apply load_Some. split; [lia|]. split; [unfold zlen; lia|]. split; [lia|].
  apply list_eq. intros i. destruct (decide (i < length bs)%nat).
  - rewrite lookup_take_lt by (unfold zlen; lia). rewrite lookup_drop, (store_lookup _ _ _ _ _ Hs).
    rewrite decide_True by (unfold zlen; lia). f_equal. lia.
  - rewrite lookup_ge_None_2 by lia. rewrite lookup_take_ge; [done|unfold zlen; lia].
Qed.

Lemma load_store_disjoint d off bs d' o n :
  store d off bs = Some d' -> o + n <= off \/ off + zlen bs <= o -> load d' o n = load d o n.
Proof.
  intros Hs Hdisj. pose proof (store_length _ _ _ _ Hs). unfold load. rewrite H. case_decide as Hd; [|done].
  f_equal. apply list_eq. intros i. destruct (decide (i < Z.to_nat n)%nat).
  - rewrite !lookup_take_lt, !lookup_drop by lia. rewrite (store_lookup _ _ _ _ _ Hs).
    by rewrite decide_False by lia.
  - rewrite !lookup_take_ge by lia. done.
Qed.

Lemma store_is_char d off bs d' :
  Forall is_char d -> Forall is_char bs -> store d off bs = Some d' -> Forall is_char d'.
Proof.
  intros Hd Hb. unfold store. case_decide; [|done]. intros [= <-].
  rewrite !Forall_app. split; [by apply Forall_take|]. split; [done|by apply Forall_drop].
Qed.

Lemma load_is_char d off n bs : Forall is_char d -> load d off n = Some bs -> Forall is_char bs.
Proof. intros Hd. rewrite load_Some. intros (_ & _ & _ & ->). by apply Forall_take, Forall_drop. Qed.

(** ** Integers *)

Lemma uchar_to_char v : uchar (to_char v) = v mod 256.
Proof. unfold uchar, uwrap, to_char. by rewrite swrap_mod. Qed.

Lemma le_encode_length n v : zlen (le_encode n v) = Z.of_nat n.
Proof.
  unfold zlen. f_equal. revert v. induction n; intros v; simpl; [done|]. by rewrite IHn.
Qed.

Lemma le_encode_is_char n v : Forall is_char (le_encode n v).
Proof. revert v. induction n; intros v; simpl; constructor; auto using to_char_range. Qed.

Lemma le_decode_encode n v : le_decode (le_encode n v) = v mod 256 ^ Z.of_nat n.
Proof.
  revert v. induction n as [|n IH]; intros v; simpl; [by rewrite Z.mod_1_r|].
  rewrite IH, uchar_to_char. replace (Z.of_nat (S n)) with (Z.of_nat n + 1) by lia.
  rewrite Z.pow_add_r, Z.pow_1_r by lia. rewrite (Z.mul_comm (256 ^ _)).
  rewrite Z.rem_mul_r by (try apply Z.pow_pos_nonneg; lia). lia.
Qed.

Lemma le_decode_range bs : 0 <= le_decode bs < 256 ^ zlen bs.
Proof.
  unfold zlen. induction bs as [|b bs IH]; simpl; [lia|].
  replace (Z.of_nat (S (length bs))) with (Z.of_nat (length bs) + 1) by lia.
  rewrite Z.pow_add_r, Z.pow_1_r by lia. unfold uchar, uwrap.
  pose proof (Z.mod_pos_bound b (2 ^ 8) ltac:(lia)). change (2 ^ 8) with 256 in *. lia.
Qed.

Lemma get_put_i32_eq d off v d' : put_i32 d off v = Some d' -> get_i32 d' off = Some (to_int32 v).
Proof.
  intros Hp. unfold get_i32. pose proof (load_store_eq _ _ _ _ Hp) as E.
  rewrite le_encode_length in E. change (Z.of_nat 4) with 4 in E. rewrite E.
  change (Some (to_int32 (le_decode (le_encode 4 v))) = Some (to_int32 v)). f_equal.
  rewrite le_decode_encode. unfold to_int32, swrap. change (256 ^ Z.of_nat 4) with (2 ^ 32).
  by rewrite Zplus_mod_idemp_l.
Qed.

Lemma get_put_i32_ne d off v d' o :
  put_i32 d off v = Some d' -> o + 4 <= off \/ off + 4 <= o -> get_i32 d' o = get_i32 d o.
Proof.
  intros Hp Hd. unfold get_i32. erewrite load_store_disjoint; [done|exact Hp|].
  rewrite le_encode_length. lia.
Qed.

Lemma get_i32_is_Some d off : 0 <= off -> off + 4 <= zlen d -> is_Some (get_i32 d off).
Proof. intros. unfold get_i32. destruct (load_is_Some d off 4) as [bs ->]; eauto; lia. Qed.

Lemma put_i32_is_Some d off v : 0 <= off -> off + 4 <= zlen d -> is_Some (put_i32 d off v).
Proof. intros. apply store_is_Some; rewrite ?le_encode_length; lia. Qed.

Lemma put_i32_length d off v d' : put_i32 d off v = Some d' -> zlen d' = zlen d.
Proof. apply store_length. Qed.

Lemma get_i32_range d off v : get_i32 d off = Some v -> is_int32 v.
Proof. unfold get_i32. destruct (load d off 4); simpl; [|done]. intros [= <-]. apply to_int32_range. Qed.

(** ** The tail of a block, changed in place *)

Lemma splice_length (d : list Z) off (b : list Z) : 0 <= off <= zlen d -> zlen b = zlen d - off -> zlen (take (Z.to_nat off) d ++ b) = zlen d.
Proof. unfold zlen. rewrite length_app, length_take. lia. Qed.

Lemma drop_splice (d : list Z) off (b : list Z) : 0 <= off <= zlen d -> drop (Z.to_nat off) (take (Z.to_nat off) d ++ b) = b.
Proof.
  intros. rewrite drop_app_length'; [done|]. rewrite length_take. unfold zlen in *. lia.
Qed.

(** A load before the tail, or from bytes of the tail that did not change. *)
Lemma load_splice d off b o n :
  0 <= off <= zlen d -> zlen b = zlen d - off ->
  o + n <= off \/ (forall i, o <= i < o + n -> off <= i /\ zget b (i - off) = zget d i) ->
  load (take (Z.to_nat off) d ++ b) o n = load d o n.
Proof.
  intros Ho Hb Hs. unfold load. rewrite splice_length by done. case_decide as Hd; [|done]. f_equal.
  apply list_eq. intros i. destruct (decide (i < Z.to_nat n)%nat); [|rewrite !lookup_take_ge by lia; done].
  rewrite !lookup_take_lt, !lookup_drop by lia. unfold zlen in *.
  destruct Hs as [Hs|Hs].
  - rewrite lookup_app_l by (rewrite length_take; lia). apply lookup_take_lt. lia.
  - destruct (Hs (o + Z.of_nat i) ltac:(lia)) as [H1 H2]. rewrite lookup_app_r by (rewrite length_take; lia).
    rewrite length_take_le by lia. unfold zget in H2. rewrite !decide_True in H2 by lia.
    replace (Z.to_nat o + i)%nat with (Z.to_nat (o + Z.of_nat i)) by lia. rewrite <- H2. f_equal. lia.
Qed.

#[export] Hint Resolve store_length put_i32_length le_encode_is_char : miniob.
