(* ===== verification/Bitmap.v ===== *)
(** * [common::Bitmap] (deps/common/lang/bitmap.cpp)

    A bitmap is a [char *] into a larger memory area and a number of bits.  The
    memory is a list of [char] values (the bytes from [bitmap_] on, which the
    page that holds the bitmap continues), so a read outside of it is [None].
    The abstract view is the predicate [bit]; [count_set] counts the set bits. *)

From stdpp Require Import base list.
From Stdlib Require Import ZArith Lia.
From S2P Require Import Prelude.

(** ** The code *)

(** The loop of [find_first_zero] and [find_first_setted]: [n] iterations are left. *)
Fixpoint find_first (test : Z -> bool) (i : Z) (n : nat) : Z :=
  match n with
  | O => -1
  | S n => if test i then i else find_first test (i + 1) n
  end.

Definition find_first_zero (byte start : Z) : Z :=
  find_first (fun i => Z.land byte (Z.shiftl 1 i) =? 0) start (Z.to_nat (8 - start)).

Definition find_first_setted (byte start : Z) : Z :=
  find_first (fun i => negb (Z.land byte (Z.shiftl 1 i) =? 0)) start (Z.to_nat (8 - start)).

(** [1 << k]; a negative shift is undefined. *)
Definition shl1 (k : Z) : option Z := if k <? 0 then None else Some (Z.shiftl 1 k).

Definition get_bit (mem : list Z) (index : Z) : option bool :=
  bits ← zget mem (cdiv index 8); mask ← shl1 (cmod index 8);
  Some (negb (Z.land bits mask =? 0)).

Definition set_bit (mem : list Z) (index : Z) : option (list Z) :=
  bits ← zget mem (cdiv index 8); mask ← shl1 (cmod index 8);
  zset mem (cdiv index 8) (to_char (Z.lor bits mask)).

Definition clear_bit (mem : list Z) (index : Z) : option (list Z) :=
  bits ← zget mem (cdiv index 8); mask ← shl1 (cmod index 8);
  zset mem (cdiv index 8) (to_char (Z.land bits (Z.lnot mask))).

(** The common loop of [next_unsetted_bit] ([skip] is [-1] and [find] is
    [find_first_zero]) and [next_setted_bit] ([0] and [find_first_setted]);
    [n] iterations are left.  [start_in_byte] is reset only after a byte that
    was searched. *)
Fixpoint next_bit_loop (skip : Z) (find : Z -> Z -> Z) (mem : list Z)
    (iter start_in_byte : Z) (n : nat) : option Z :=
  match n with
  | O => Some (-1)
  | S n =>
      byte ← zget mem iter;
      if negb (byte =? skip) then
        let index_in_byte := find byte start_in_byte in
        if 0 <=? index_in_byte then Some (iter * 8 + index_in_byte)
        else next_bit_loop skip find mem (iter + 1) 0 n
      else next_bit_loop skip find mem (iter + 1) start_in_byte n
  end.

(** [end] of the loops: the number of bytes of the bitmap. *)
Definition bitmap_end (size : Z) : Z :=
  if cmod size 8 =? 0 then cdiv size 8 else cdiv size 8 + 1.

Definition next_bit (skip : Z) (find : Z -> Z -> Z) (mem : list Z) (size start : Z) : option Z :=
  let iter := cdiv start 8 in
  ret ← next_bit_loop skip find mem iter (cmod start 8) (Z.to_nat (bitmap_end size + 1 - iter));
  Some (if size <=? ret then -1 else ret).

Definition next_unsetted_bit : list Z -> Z -> Z -> option Z := next_bit (-1) find_first_zero.
Definition next_setted_bit : list Z -> Z -> Z -> option Z := next_bit 0 find_first_setted.

(** ** The abstract view *)

Definition bit (mem : list Z) (i : Z) : bool :=
  match zget mem (i / 8) with Some b => Z.testbit b (i mod 8) | None => false end.

Definition count_set (mem : list Z) (size : Z) : Z :=
  count (bit mem) (seqZ 0 size).

(** The result of searching [mem] for the first bit equal to [v] in [start, size). *)
Definition is_next (v : bool) (mem : list Z) (size start r : Z) : Prop :=
  (r = -1 /\ forall i, start <= i < size -> bit mem i = negb v) \/
  (start <= r < size /\ bit mem r = v /\ forall i, start <= i < r -> bit mem i = negb v).

(** ** Single bits *)

Lemma land_bit_zero b i : 0 <= i -> (Z.land b (Z.shiftl 1 i) =? 0) = negb (Z.testbit b i).
Proof.
  intros Hi. rewrite Z.shiftl_1_l. destruct (Z.testbit b i) eqn:E; simpl.
  - apply Z.eqb_neq. intros H0.
    assert (H1 : Z.testbit (Z.land b (2 ^ i)) i = false) by by rewrite H0, Z.bits_0.
    rewrite Z.land_spec, E, Z.pow2_bits_true in H1 by lia. done.
  - apply Z.eqb_eq, Z.bits_inj'. intros j Hj.
    rewrite Z.land_spec, Z.pow2_bits_eqb, Z.bits_0 by lia.
    destruct (Z.eqb_spec i j) as [->|]; [by rewrite E | apply andb_false_r].
Qed.

Lemma shl1_mod i : shl1 (i mod 8) = Some (Z.shiftl 1 (i mod 8)).
Proof. unfold shl1. pose proof (Z.mod_pos_bound i 8 ltac:(lia)). by rewrite (proj2 (Z.ltb_ge _ _)) by lia. Qed.

Lemma get_bit_spec mem i : 0 <= i < 8 * zlen mem -> get_bit mem i = Some (bit mem i).
Proof.
  intros Hi. unfold get_bit, bit. rewrite cdiv_nonneg, cmod_nonneg, shl1_mod by lia.
  destruct (zget_is_Some mem (i / 8)) as [b ->]; [split; [apply Z.div_pos|apply Z.div_lt_upper_bound]; lia|].
  simpl. rewrite land_bit_zero, negb_involutive by (apply Z.mod_pos_bound; lia). done.
Qed.

(** Changing one char of the memory through a function on its low eight bits. *)
Lemma bit_update mem mem' i b f :
  0 <= i -> zget mem (i / 8) = Some b -> zset mem (i / 8) (to_char (f b)) = Some mem' ->
  (forall j, 0 <= j < 8 -> j <> i mod 8 -> Z.testbit (f b) j = Z.testbit b j) ->
  forall j, 0 <= j -> bit mem' j = if j =? i then Z.testbit (f b) (i mod 8) else bit mem j.
Proof.
  intros Hi Hb Hs Hf j Hj. unfold bit.
  pose proof (Z.mod_pos_bound j 8 ltac:(lia)).
  destruct (decide (j / 8 = i / 8)) as [E|E].
  - rewrite E, (zget_zset_eq _ _ _ _ Hs), Hb. unfold to_char. rewrite swrap_testbit by lia.
    destruct (Z.eqb_spec j i) as [->|Hne]; [done|]. apply Hf; [lia|].
    intros Hm. apply Hne. rewrite (Z.div_mod j 8), (Z.div_mod i 8); lia.
  - rewrite (zget_zset_ne _ _ _ _ _ Hs) by done.
    destruct (Z.eqb_spec j i) as [->|]; done.
Qed.

Lemma set_bit_spec mem i :
  0 <= i < 8 * zlen mem ->
  exists mem', set_bit mem i = Some mem' /\ zlen mem' = zlen mem /\
    forall j, 0 <= j -> bit mem' j = (j =? i) || bit mem j.
Proof.
  intros Hi. unfold set_bit. rewrite cdiv_nonneg, cmod_nonneg, shl1_mod by lia.
  assert (Hd : 0 <= i / 8 < zlen mem) by (split; [apply Z.div_pos|apply Z.div_lt_upper_bound]; lia).
  destruct (zget_is_Some mem _ Hd) as [b Hb]. rewrite Hb. simpl.
  pose proof (Z.mod_pos_bound i 8 ltac:(lia)).
  set (f b := Z.lor b (Z.shiftl 1 (i mod 8))).
  pose proof (zset_Some mem _ (to_char (f b)) Hd) as Hs. unfold f in Hs at 1.
  eexists; split; [exact Hs|]. split; [eauto with miniob|].
  intros j Hj. rewrite (bit_update mem _ i b f ltac:(lia) Hb Hs); [|..|done].
  - unfold f. rewrite Z.lor_spec, Z.shiftl_1_l, Z.pow2_bits_true by lia.
    destruct (j =? i); [by rewrite orb_true_r|done].
  - intros k Hk Hne. unfold f. rewrite Z.lor_spec, Z.shiftl_1_l, Z.pow2_bits_false by lia.
    apply orb_false_r.
Qed.

Lemma clear_bit_spec mem i :
  0 <= i < 8 * zlen mem ->
  exists mem', clear_bit mem i = Some mem' /\ zlen mem' = zlen mem /\
    forall j, 0 <= j -> bit mem' j = negb (j =? i) && bit mem j.
Proof.
  intros Hi. unfold clear_bit. rewrite cdiv_nonneg, cmod_nonneg, shl1_mod by lia.
  assert (Hd : 0 <= i / 8 < zlen mem) by (split; [apply Z.div_pos|apply Z.div_lt_upper_bound]; lia).
  destruct (zget_is_Some mem _ Hd) as [b Hb]. rewrite Hb. simpl.
  pose proof (Z.mod_pos_bound i 8 ltac:(lia)).
  set (f b := Z.land b (Z.lnot (Z.shiftl 1 (i mod 8)))).
  pose proof (zset_Some mem _ (to_char (f b)) Hd) as Hs. unfold f in Hs at 1.
  eexists; split; [exact Hs|]. split; [eauto with miniob|].
  intros j Hj. rewrite (bit_update mem _ i b f ltac:(lia) Hb Hs); [|..|done].
  - unfold f. rewrite Z.land_spec, Z.lnot_spec, Z.shiftl_1_l, Z.pow2_bits_true by lia.
    destruct (j =? i); simpl; [by rewrite andb_false_r|done].
  - intros k Hk Hne. unfold f. rewrite Z.land_spec, Z.lnot_spec, Z.shiftl_1_l, Z.pow2_bits_false by lia.
    apply andb_true_r.
Qed.

(** Both change the byte of the bit only. *)
Lemma set_bit_bytes mem mem' i j :
  0 <= i -> set_bit mem i = Some mem' -> j <> i / 8 -> zget mem' j = zget mem j.
Proof.
  intros Hi. unfold set_bit. rewrite cdiv_nonneg, cmod_nonneg, shl1_mod by lia.
  destruct (zget mem (i / 8)); simpl; [|done]. intros Hs Hj. eapply zget_zset_ne; [done|congruence].
Qed.
Lemma clear_bit_bytes mem mem' i j :
  0 <= i -> clear_bit mem i = Some mem' -> j <> i / 8 -> zget mem' j = zget mem j.
Proof.
  intros Hi. unfold clear_bit. rewrite cdiv_nonneg, cmod_nonneg, shl1_mod by lia.
  destruct (zget mem (i / 8)); simpl; [|done]. intros Hs Hj. eapply zget_zset_ne; [done|congruence].
Qed.

Lemma zset_is_char mem mem' i x :
  Forall is_char mem -> zset mem i (to_char x) = Some mem' -> Forall is_char mem'.
Proof.
  unfold zset. case_decide; [|done]. intros Hm [= <-].
  apply Forall_insert; auto with miniob.
Qed.

Lemma set_bit_is_char mem mem' i :
  Forall is_char mem -> set_bit mem i = Some mem' -> Forall is_char mem'.
Proof. unfold set_bit. destruct (zget mem _); simpl; [|done]. destruct (shl1 _); simpl; [apply zset_is_char|done]. Qed.
Lemma clear_bit_is_char mem mem' i :
  Forall is_char mem -> clear_bit mem i = Some mem' -> Forall is_char mem'.
Proof. unfold clear_bit. destruct (zget mem _); simpl; [|done]. destruct (shl1 _); simpl; [apply zset_is_char|done]. Qed.
#[export] Hint Resolve set_bit_is_char clear_bit_is_char : miniob.

(** ** Searching *)

Lemma find_first_spec test i n :
  let r := find_first test i n in
  (r = -1 /\ forall j, i <= j < i + Z.of_nat n -> test j = false) \/
  (i <= r < i + Z.of_nat n /\ test r = true /\ forall j, i <= j < r -> test j = false).
Proof.
  revert i. induction n as [|n IH]; intros i; simpl.
  - left. split; [done|lia].
  - destruct (test i) eqn:E.
    + right. split; [lia|]. split; [done|lia].
    + destruct (IH (i + 1)) as [[-> Hn]|(Hr & Ht & Hn)].
      * left. split; [done|]. intros j Hj. destruct (decide (j = i)) as [->|]; [done|apply Hn; lia].
      * right. split; [lia|]. split; [done|].
        intros j Hj. destruct (decide (j = i)) as [->|]; [done|apply Hn; lia].
Qed.

(** What [find_first_zero] ([v = false]) and [find_first_setted] ([v = true]) return. *)
Definition finds (v : bool) (find : Z -> Z -> Z) : Prop :=
  forall b s, 0 <= s < 8 ->
    (find b s = -1 /\ forall j, s <= j < 8 -> Z.testbit b j = negb v) \/
    (s <= find b s < 8 /\ Z.testbit b (find b s) = v /\
     forall j, s <= j < find b s -> Z.testbit b j = negb v).

(** A byte equal to [skip] holds no bit [v]. *)
Definition skips (v : bool) (skip : Z) : Prop :=
  forall j, 0 <= j -> Z.testbit skip j = negb v.

Lemma find_first_zero_finds : finds false find_first_zero.
Proof.
  intros b s Hs. unfold find_first_zero.
  pose proof (find_first_spec (fun i => Z.land b (Z.shiftl 1 i) =? 0) s (Z.to_nat (8 - s))) as H.
  rewrite Z2Nat.id in H by lia. destruct H as [[-> H]|(Hr & Ht & H)]; [left|right].
  - split; [done|]. intros j Hj. specialize (H j ltac:(lia)). rewrite land_bit_zero in H by lia.
    by apply negb_false_iff in H.
  - rewrite land_bit_zero in Ht by lia. split; [lia|]. split; [by apply negb_true_iff in Ht|].
    intros j Hj. specialize (H j Hj). rewrite land_bit_zero in H by lia.
    by apply negb_false_iff in H.
Qed.

Lemma find_first_setted_finds : finds true find_first_setted.
Proof.
  intros b s Hs. unfold find_first_setted.
  pose proof (find_first_spec (fun i => negb (Z.land b (Z.shiftl 1 i) =? 0)) s (Z.to_nat (8 - s))) as H.
  rewrite Z2Nat.id in H by lia. destruct H as [[-> H]|(Hr & Ht & H)]; [left|right].
  - split; [done|]. intros j Hj. specialize (H j ltac:(lia)).
    by rewrite land_bit_zero, negb_involutive in H by lia.
  - rewrite land_bit_zero, negb_involutive in Ht by lia. split; [lia|]. split; [done|].
    intros j Hj. specialize (H j Hj). by rewrite land_bit_zero, negb_involutive in H by lia.
Qed.

Lemma skips_zero : skips true 0.
Proof. intros j Hj. apply Z.bits_0. Qed.
Lemma skips_ones : skips false (-1).
Proof. intros j Hj. apply Z.bits_m1. lia. Qed.

Section search.
Context (v : bool) (skip : Z) (find : Z -> Z -> Z) (mem : list Z).
Context (Hskip : skips v skip) (Hfind : finds v find).

Definition none_in (lo hi : Z) : Prop := forall i, lo <= i < hi -> bit mem i = negb v.

(** The bits of one byte, seen through the memory. *)
Lemma byte_bits iter b j :
  zget mem iter = Some b -> 0 <= j < 8 -> bit mem (iter * 8 + j) = Z.testbit b j.
Proof.
  intros Hb Hj. unfold bit.
  rewrite Z.div_add_l, Z.div_small, Z.add_0_r, Hb by lia.
  by rewrite Z.add_comm, Z_mod_plus_full, Z.mod_small by lia.
Qed.

Lemma none_in_byte iter b lo hi :
  zget mem iter = Some b -> 0 <= lo -> hi <= 8 ->
  (forall j, lo <= j < hi -> Z.testbit b j = negb v) -> none_in (iter * 8 + lo) (iter * 8 + hi).
Proof.
  intros Hb Hlo Hhi H i Hi. replace i with (iter * 8 + (i - iter * 8)) by lia.
  rewrite (byte_bits iter b) by (done || lia). apply H. lia.
Qed.

Lemma none_in_app lo mid hi : none_in lo mid -> none_in mid hi -> none_in lo hi.
Proof. intros H1 H2 i Hi. destruct (decide (i < mid)); [apply H1 | apply H2]; lia. Qed.

(** What the loop returns from bit [lo] on, when it searches the bytes below [hi]. *)
Definition found_from (lo hi r : Z) : Prop :=
  (r = -1 /\ none_in lo hi) \/ (lo <= r < hi /\ bit mem r = v /\ none_in lo r).

Lemma found_from_app lo mid hi r :
  lo <= mid -> none_in lo mid -> found_from mid hi r -> found_from lo hi r.
Proof.
  intros Hle H [[-> Hn]|(Hr & Hb & Hn)]; [left|right].
  - split; [done|]. by apply none_in_app with mid.
  - split; [lia|]. split; [done|]. by apply none_in_app with mid.
Qed.

(** One searched byte. *)
Lemma find_in_byte iter b s :
  zget mem iter = Some b -> 0 <= s < 8 ->
  (find b s = -1 /\ none_in (iter * 8 + s) (iter * 8 + 8)) \/
  (0 <= find b s < 8 /\ found_from (iter * 8 + s) (iter * 8 + 8) (iter * 8 + find b s)).
Proof.
  intros Hb Hs. destruct (Hfind b s Hs) as [[Hf Hn]|(Hr & Ht & Hn)]; [left|right].
  - split; [done|]. by apply none_in_byte with b; try lia.
  - split; [lia|]. right. split; [lia|]. split.
    + rewrite (byte_bits iter b) by (done || lia). done.
    + apply none_in_byte with b; try done; lia.
Qed.

Lemma next_bit_loop_aligned n iter :
  0 <= iter -> iter + Z.of_nat n <= zlen mem ->
  exists r, next_bit_loop skip find mem iter 0 n = Some r /\
    found_from (iter * 8) ((iter + Z.of_nat n) * 8) r.
Proof.
  revert iter. induction n as [|n IH]; intros iter Hi Hn; simpl next_bit_loop.
  { exists (-1). split; [done|]. left. split; [done|]. intros i. lia. }
  destruct (zget_is_Some mem iter ltac:(lia)) as [b Hb]. rewrite Hb. simpl.
  destruct (IH (iter + 1) ltac:(lia) ltac:(lia)) as (r & Hr & Hf).
  replace ((iter + 1 + Z.of_nat n) * 8) with ((iter + Z.of_nat (S n)) * 8) in Hf by lia.
  replace ((iter + 1) * 8) with (iter * 8 + 8) in Hf by lia.
  destruct (Z.eqb_spec b skip) as [->|Hne]; simpl.
  - exists r. split; [done|]. eapply found_from_app; [| |done]; [lia|].
    rewrite <- (Z.add_0_r (iter * 8)) at 1.
    apply none_in_byte with skip; try done; intros; apply Hskip; lia.
  - destruct (find_in_byte iter b 0 Hb ltac:(lia)) as [[-> Hn0]|[Hr0 Hf0]]; rewrite ?Z.add_0_r in *.
    + exists r. split; [done|]. eapply found_from_app; [|done|done]. lia.
    + rewrite (proj2 (Z.leb_le _ _)) by lia. eexists; split; [done|].
      destruct Hf0 as [[? _]|(? & ? & ?)]; [lia|]. right. split; [lia|done].
Qed.

(** The first iteration may start inside a byte: it must be searched, not skipped. *)
Lemma next_bit_loop_first n iter s :
  0 <= iter -> iter + Z.of_nat (S n) <= zlen mem -> 0 <= s < 8 ->
  (s = 0 \/ zget mem iter <> Some skip) ->
  exists r, next_bit_loop skip find mem iter s (S n) = Some r /\
    found_from (iter * 8 + s) ((iter + Z.of_nat (S n)) * 8) r.
Proof.
  intros Hi Hn Hs Hc. destruct (decide (s = 0)) as [->|Hs0].
  { rewrite Z.add_0_r. by apply next_bit_loop_aligned. }
  destruct Hc as [?|Hc]; [done|]. simpl next_bit_loop.
  destruct (zget_is_Some mem iter ltac:(lia)) as [b Hb]. rewrite Hb in *. simpl.
  destruct (Z.eqb_spec b skip) as [->|Hne]; simpl; [done|].
  destruct (next_bit_loop_aligned n (iter + 1) ltac:(lia) ltac:(lia)) as (r & Hr & Hf).
  replace ((iter + 1 + Z.of_nat n) * 8) with ((iter + Z.of_nat (S n)) * 8) in Hf by lia.
  replace ((iter + 1) * 8) with (iter * 8 + 8) in Hf by lia.
  destruct (find_in_byte iter b s Hb Hs) as [[-> Hn0]|[Hr0 Hf0]].
  - exists r. split; [done|]. eapply found_from_app; [|done|done]. lia.
  - rewrite (proj2 (Z.leb_le _ _)) by lia. eexists; split; [done|].
    destruct Hf0 as [[? _]|(? & ? & ?)]; [lia|]. right. split; [lia|done].
Qed.

(** [start] is at a byte boundary, or the bit before it is a [v]. *)
Definition start_ok (start : Z) : Prop := start mod 8 = 0 \/ bit mem (start - 1) = v.

Lemma next_bit_spec size start :
  0 <= size -> 0 <= start -> bitmap_end size < zlen mem -> start_ok start ->
  exists r, next_bit skip find mem size start = Some r /\ is_next v mem size start r.
Proof.
  intros Hsz Hst Hlen Hok. unfold next_bit. rewrite cdiv_nonneg, cmod_nonneg by lia.
  assert (Hend : 8 * bitmap_end size >= size).
  { unfold bitmap_end. rewrite cdiv_nonneg, cmod_nonneg by lia.
    pose proof (Z.div_mod size 8 ltac:(lia)). pose proof (Z.mod_pos_bound size 8 ltac:(lia)).
    destruct (Z.eqb_spec (size mod 8) 0); lia. }
  pose proof (Z.div_mod start 8 ltac:(lia)) as Hdm.
  pose proof (Z.mod_pos_bound start 8 ltac:(lia)).
  assert (Hcut : forall hi r, size <= hi -> found_from start hi r ->
    is_next v mem size start (if size <=? r then -1 else r)).
  { intros hi r Hhi [[-> Hn]|(Hr & Hb & Hn)].
    - rewrite (proj2 (Z.leb_gt _ _)) by lia. left. split; [done|]. intros; apply Hn; lia.
    - destruct (Z.leb_spec size r); [left|right].
      + split; [done|]. intros; apply Hn; lia.
      + split; [lia|]. split; [done|]. intros; apply Hn; lia. }
  destruct (Z.to_nat (bitmap_end size + 1 - start / 8)) as [|n] eqn:En.
  { eexists; split; [reflexivity|]. apply (Hcut start); [lia|]. left. split; [done|]. intros i; lia. }
  destruct (next_bit_loop_first n (start / 8) (start mod 8)) as (r & -> & Hf); [|lia|lia| |].
  - apply Z.div_pos; lia.
  - destruct Hok as [?|Hv]; [by left|]. destruct (decide (start mod 8 = 0)) as [|Hne]; [by left|].
    right. intros Hb.
    replace (start - 1) with (start / 8 * 8 + (start mod 8 - 1)) in Hv by lia.
    rewrite (byte_bits _ _ _ Hb), Hskip in Hv by lia. by destruct v.
  - simpl. eexists; split; [reflexivity|].
    replace (start / 8 * 8 + start mod 8) with start in Hf by lia.
    eapply Hcut; [|exact Hf]. lia.
Qed.
End search.

(** C21: [next_unsetted_bit] and [next_setted_bit] return the first clear
    (set) bit at or after [start] below [size], and -1 when there is none,
    provided the search starts at a byte boundary or just after a bit of the
    searched kind, as every caller does, and one byte after the bitmap is readable. *)
Theorem next_bit_correct mem size start :
  0 <= size -> 0 <= start -> bitmap_end size < zlen mem ->
  (start_ok false mem start ->
   exists r, next_unsetted_bit mem size start = Some r /\ is_next false mem size start r) /\
  (start_ok true mem start ->
   exists r, next_setted_bit mem size start = Some r /\ is_next true mem size start r).
Proof.
  intros. split; intros; apply next_bit_spec;
    auto using skips_zero, skips_ones, find_first_zero_finds, find_first_setted_finds.
Qed.

(** Without that precondition the searches skip bits: when the byte of
    [start] holds no bit of the searched kind, [start_in_byte] is carried over
    to the next byte, and the bits of the next byte before it are missed.  The
    first eligible bit below is bit 8, and the code returns bit [8 + s]. *)
Theorem next_bit_skips_bits s :
  0 < s < 8 ->
  next_unsetted_bit [-1; 0; 0] 16 s = Some (8 + s) /\ bit [-1; 0; 0] 8 = false /\
  next_setted_bit [0; -1; 0] 16 s = Some (8 + s) /\ bit [0; -1; 0] 8 = true.
Proof.
  intros Hs.
  assert (s = 1 \/ s = 2 \/ s = 3 \/ s = 4 \/ s = 5 \/ s = 6 \/ s = 7) as Hc by lia.
  repeat destruct Hc as [->|Hc]; try subst s; vm_compute; auto.
Qed.

Lemma next_bit_correct_witness :
  exists r, next_unsetted_bit [-1; 3; 0] 16 8 = Some r /\ is_next false [-1; 3; 0] 16 8 r.
Proof.
  apply (proj1 (next_bit_correct [-1; 3; 0] 16 8 ltac:(lia) ltac:(lia) ltac:(vm_compute; reflexivity))).
  left. reflexivity.
Defined.

Lemma next_bit_skips_bits_witness :
  next_unsetted_bit [-1; 0; 0] 16 3 = Some (8 + 3) /\ bit [-1; 0; 0] 8 = false /\
  next_setted_bit [0; -1; 0] 16 3 = Some (8 + 3) /\ bit [0; -1; 0] 8 = true.
Proof. apply (next_bit_skips_bits 3). lia. Defined.

(** A full bitmap makes the search read one byte past it. *)
Example next_unsetted_bit_reads_past : next_unsetted_bit [-1] 8 0 = None.
Proof. reflexivity. Qed.

(** ** Counting set bits *)

Lemma elem_of_slots i size : i ∈ seqZ 0 size <-> 0 <= i < size.
Proof. rewrite elem_of_seqZ. lia. Qed.

Lemma zlen_slots size : 0 <= size -> zlen (seqZ 0 size) = size.
Proof. intros. unfold zlen. rewrite length_seqZ. lia. Qed.

Lemma count_set_bounds mem size : 0 <= size -> 0 <= count_set mem size <= size.
Proof.
  intros. unfold count_set. pose proof (count_bounds (bit mem) (seqZ 0 size)) as H1.
  rewrite zlen_slots in H1 by done. done.
Qed.

Lemma count_set_full mem size :
  0 <= size -> count_set mem size = size <-> forall i, 0 <= i < size -> bit mem i = true.
Proof.
  intros Hs. unfold count_set. rewrite <- (zlen_slots size) at 2 by done.
  rewrite count_full. by setoid_rewrite elem_of_slots.
Qed.

Lemma count_set_zero mem size :
  count_set mem size = 0 <-> forall i, 0 <= i < size -> bit mem i = false.
Proof. unfold count_set. rewrite count_zero. by setoid_rewrite elem_of_slots. Qed.

Lemma count_set_flip mem mem' size i :
  0 <= i < size -> bit mem i = false -> bit mem' i = true ->
  (forall j, 0 <= j < size -> j <> i -> bit mem' j = bit mem j) ->
  count_set mem' size = count_set mem size + 1.
Proof.
  intros Hi Hf Ht Ho. unfold count_set. apply count_flip with i.
  - apply NoDup_seqZ.
  - by apply elem_of_slots.
  - done.
  - done.
  - intros j Hj%elem_of_slots Hne. by rewrite Ho.
Qed.

(** A bitmap with a free bit below [size]: the search from 0 finds one. *)
Lemma next_unsetted_bit_free mem size :
  0 <= size -> bitmap_end size < zlen mem -> count_set mem size < size ->
  exists r, next_unsetted_bit mem size 0 = Some r /\ 0 <= r < size /\ bit mem r = false.
Proof.
  intros Hs Hl Hc.
  destruct (next_bit_spec false (-1) find_first_zero mem skips_ones find_first_zero_finds size 0)
    as (r & Hr & [[-> Hn]|(Hb & Hv & _)]); try done; [by left| |by exists r].
  apply count_set_full in Hn; lia.
Qed.
