(* ===== verification/LowerBound.v ===== *)
(** * [common::lower_bound] (deps/common/lang/lower_bound.h)

    The binary search the B+ tree nodes use.  The sequence is given by [cmp],
    the result of the comparison of the element at an index with the searched
    value; [BinaryIterator] steps through fixed-width items of a byte array. *)

From stdpp Require Import base list.
From Stdlib Require Import ZArith Lia.
From S2P Require Import Prelude.

(** ** [BinaryIterator] *)

Record BinaryIterator : Type := mk_iter { item_num : Z; data_ : Z (* an address *) }.

Definition iter_advance (it : BinaryIterator) (n : Z) : BinaryIterator :=
  mk_iter (item_num it) (data_ it + item_num it * n).

Definition iter_distance (left right : BinaryIterator) : Z :=
  cdiv (data_ left - data_ right) (item_num left).

Lemma iter_distance_advance it n : item_num it <> 0 -> iter_distance (iter_advance it n) it = n.
Proof.
  intros H. unfold iter_distance, iter_advance. simpl.
  replace (data_ it + item_num it * n - data_ it) with (n * item_num it) by lia.
  by apply Z.quot_mul.
Qed.

(** ** The search *)

(** The [while (last_count > 0)] loop; [fuel] bounds its iterations. *)
Fixpoint lower_bound_loop (cmp : Z -> Z) (first last_count : Z) (fuel : nat) : option (Z * bool) :=
  if 0 <? last_count then
    match fuel with
    | O => None
    | S fuel =>
        let step := cdiv last_count 2 in
        let iter := first + step in
        let result := cmp iter in
        if result =? 0 then Some (iter, true)
        else if result <? 0 then lower_bound_loop cmp (iter + 1) (last_count - (step + 1)) fuel
        else lower_bound_loop cmp first step fuel
    end
  else Some (first, false).

(** The loop at least halves [last_count]: [count] iterations are more than enough. *)
Definition lower_bound (cmp : Z -> Z) (count : Z) : option (Z * bool) :=
  lower_bound_loop cmp 0 count (Z.to_nat count).

(** The comparisons with the value of a sequence sorted for the order of [cmp]. *)
Definition ascending (cmp : Z -> Z) (count : Z) : Prop :=
  forall i j, 0 <= i -> i < j -> j < count -> (cmp j <= 0 -> cmp i < 0) /\ (0 <= cmp i -> 0 < cmp j).

(** ... where equal elements may repeat. *)
Definition weakly_ascending (cmp : Z -> Z) (count : Z) : Prop :=
  forall i j, 0 <= i -> i < j -> j < count -> (cmp j < 0 -> cmp i < 0) /\ (0 < cmp i -> 0 < cmp j).

Lemma ascending_weakly cmp count : ascending cmp count -> weakly_ascending cmp count.
Proof. intros H i j Hi Hij Hj. destruct (H i j Hi Hij Hj). split; intros; lia. Qed.

(** The position [r] splits the sequence into smaller and not smaller elements. *)
Definition splits (cmp : Z -> Z) (count r : Z) : Prop :=
  0 <= r <= count /\ (forall i, 0 <= i < r -> cmp i < 0) /\ (forall i, r <= i < count -> 0 <= cmp i).

Lemma lower_bound_loop_spec cmp count fuel first last_count :
  weakly_ascending cmp count ->
  0 <= first -> 0 <= last_count <= Z.of_nat fuel -> first + last_count <= count ->
  (forall i, 0 <= i < first -> cmp i < 0) ->
  (forall i, first + last_count <= i < count -> 0 < cmp i) ->
  exists r found, lower_bound_loop cmp first last_count fuel = Some (r, found) /\
    if found then 0 <= r < count /\ cmp r = 0
    else 0 <= r <= count /\ (forall i, 0 <= i < r -> cmp i < 0) /\
         (forall i, r <= i < count -> 0 < cmp i).
Proof.
  intros Hasc. revert first last_count.
  induction fuel as [|fuel IH]; intros first last_count Hf Hl Hc Hlo Hhi; simpl;
    destruct (Z.ltb_spec 0 last_count); try lia;
    try (exists first, false; split; [done|]; replace (first + last_count) with first in Hhi by lia;
         split; [lia|done]).
  rewrite cdiv_nonneg by lia.
  pose proof (Z.div_pos last_count 2 ltac:(lia) ltac:(lia)).
  pose proof (Z.div_lt last_count 2 ltac:(lia) ltac:(lia)).
  set (iter := first + last_count / 2).
  destruct (Z.eqb_spec (cmp iter) 0).
  { exists iter, true. split; [done|]. unfold iter in *. split; [lia|done]. }
  destruct (Z.ltb_spec (cmp iter) 0).
  - apply IH; unfold iter in *; try lia.
    + intros i Hi. destruct (decide (i = first + last_count / 2)) as [->|]; [lia|].
      apply (Hasc i (first + last_count / 2)); lia.
    + intros i Hi. apply Hhi. lia.
  - apply IH; unfold iter in *; try lia; [done|].
    intros i Hi. destruct (decide (i = first + last_count / 2)) as [->|]; [lia|].
    apply (Hasc (first + last_count / 2) i); lia.
Qed.

Lemma lower_bound_weak cmp count :
  0 <= count -> weakly_ascending cmp count ->
  exists r found, lower_bound cmp count = Some (r, found) /\
    if found then 0 <= r < count /\ cmp r = 0
    else splits cmp count r /\ forall i, 0 <= i < count -> cmp i <> 0.
Proof.
  intros Hc Hasc. unfold lower_bound.
  destruct (lower_bound_loop_spec cmp count (Z.to_nat count) 0 count) as (r & found & Hr & H);
    try done; try lia.
  exists r, found. split; [done|]. destruct found; [done|].
  destruct H as (Hb & Hlo & Hhi). split; [split; [done|split; [done|]]|].
  - intros i Hi. specialize (Hhi i Hi). lia.
  - intros i Hi. destruct (decide (i < r)); [specialize (Hlo i)|specialize (Hhi i)]; lia.
Qed.

(** The position is determined by where the sequence crosses the value. *)
Lemma lower_bound_at cmp count m :
  ascending cmp count -> 0 <= m <= count ->
  (forall i, 0 <= i < m -> cmp i < 0) -> (forall i, m <= i < count -> 0 <= cmp i) ->
  exists found, lower_bound cmp count = Some (m, found) /\ (found = true <-> m < count /\ cmp m = 0).
Proof.
  intros Hasc Hm Hlo Hhi.
  destruct (lower_bound_weak cmp count ltac:(lia) (ascending_weakly _ _ Hasc)) as (r & [] & Hr & H);
    rewrite Hr.
  - destruct H as [Hb H0]. assert (r = m) as ->.
    { destruct (Z.lt_trichotomy r m) as [Hlt|[|Hgt]]; [specialize (Hlo r); lia|done|].
      specialize (Hhi m). specialize (Hasc m r). lia. }
    exists true. split; [done|]. split; [split; [lia|done]|done].
  - destruct H as [(Hb & H1 & H2) Hne]. assert (r = m) as ->.
    { destruct (Z.lt_trichotomy r m) as [Hlt|[|Hgt]]; [|done|].
      - specialize (Hlo r). specialize (H2 r). lia.
      - specialize (Hhi m). specialize (H1 m). lia. }
    exists false. split; [done|]. split; [done|]. intros [Hlt H0]. by destruct (Hne m ltac:(lia)).
Qed.

(** C22: On a strictly sorted sequence [lower_bound] terminates and returns the
    first position whose element is not smaller than the value, and [found]
    tells whether the element there is equal to it. *)
Theorem lower_bound_correct cmp count :
  0 <= count -> ascending cmp count ->
  exists r found, lower_bound cmp count = Some (r, found) /\ splits cmp count r /\
    (found = true <-> r < count /\ cmp r = 0) /\
    (found = false -> forall i, 0 <= i < count -> cmp i <> 0).
Proof.
  intros Hc Hasc.
  destruct (lower_bound_weak cmp count Hc (ascending_weakly _ _ Hasc)) as (r & [] & Hr & H);
    exists r; eexists; (split; [exact Hr|]).
  - destruct H as [Hb H0]. split; [|split; [split; [lia|done]|done]].
    split; [lia|]. split; intros i Hi.
    + apply (Hasc i r); lia.
    + destruct (decide (i = r)) as [->|]; [lia|]. pose proof (Hasc r i). lia.
  - destruct H as [Hs Hne]. split; [done|]. split; [split; [done|]|done].
    intros [Hlt H0]. destruct Hs as [Hb _]. by destruct (Hne r ltac:(lia)).
Qed.

Lemma lower_bound_correct_witness :
  let cmp := fun i => 2 * i - 4 in
  exists r found, lower_bound cmp 5 = Some (r, found) /\ splits cmp 5 r /\
    (found = true <-> r < 5 /\ cmp r = 0) /\ (found = false -> forall i, 0 <= i < 5 -> cmp i <> 0).
Proof. intros cmp. apply (lower_bound_correct cmp 5); [lia|]. unfold cmp. intros i j. lia. Defined.

(** With repeated elements the search stops at any equal one: here the first
    of the three elements equal to the value is at position 1, not 2. *)
Example lower_bound_not_first :
  lower_bound (fun i => if i =? 0 then -1 else if i <? 4 then 0 else 1) 5 = Some (2, true).
Proof. reflexivity. Qed.
