(* ===== verification/Comparator.v ===== *)
(** * Value comparison (src/observer/util/comparator.cpp, util.cpp, record.h)

    Integers are 32-bit, [float] and [double] are the IEEE 754 formats of
    [SpecFloat], strings are lists of [char] values.  [CmpOrder] is the
    interface the B+ tree relies on: a comparison function that is a strict
    total order on a domain of keys. *)

From stdpp Require Import base list.
From Stdlib Require Import ZArith Lia SpecFloat.
From S2P Require Import Prelude.
From S2P Require Import Bytes.

(** ** Attribute types and comparison operators (sql/parser/parse_defs.h) *)

Inductive AttrType : Type := UNDEFINED | CHARS | INTS | FLOATS | DATES | RELATIONS | NULLS.
#[global] Instance AttrType_eq_dec : EqDecision AttrType.
Proof. solve_decision. Defined.

Inductive CompOp : Type :=
| EQUAL_TO | LESS_EQUAL | NOT_EQUAL | LESS_THAN | GREAT_EQUAL | GREAT_THAN | LIKE | NOT_LIKE
| IS | IS_NOT | IN | NOT_IN | EXISTS | NOT_EXISTS | AND_OP | OR_OP | NO_OP.
#[global] Instance CompOp_eq_dec : EqDecision CompOp.
Proof. solve_decision. Defined.

(** ** The interface of a comparator *)

(** [cmp] orders the keys of [dom]: the sign of [cmp a b] is that of [a - b]. *)
Class CmpOrder {K : Type} (dom : K -> Prop) (cmp : K -> K -> Z) : Prop := {
  cmp_refl a : dom a -> cmp a a = 0;
  cmp_eq a b : dom a -> dom b -> cmp a b = 0 -> a = b;
  cmp_opp a b : dom a -> dom b -> cmp a b < 0 <-> 0 < cmp b a;
  cmp_trans a b c : dom a -> dom b -> dom c -> cmp a b < 0 -> cmp b c < 0 -> cmp a c < 0;
}.

Section cmp_order.
Context {K : Type} (dom : K -> Prop) (cmp : K -> K -> Z) `{!CmpOrder dom cmp}.

Lemma cmp_ge_trans a b c :
  dom a -> dom b -> dom c -> 0 < cmp a b -> 0 < cmp b c -> 0 < cmp a c.
Proof.
  intros Ha Hb Hc H1 H2. apply (cmp_opp c a); auto.
  apply (cmp_trans c b a); auto; apply cmp_opp; auto.
Qed.
Lemma cmp_le_lt_trans a b c :
  dom a -> dom b -> dom c -> cmp a b <= 0 -> cmp b c < 0 -> cmp a c < 0.
Proof.
  intros Ha Hb Hc H1 H2. destruct (decide (cmp a b = 0)) as [E|].
  - by apply cmp_eq in E as ->.
  - apply (cmp_trans a b c); auto. lia.
Qed.
Lemma cmp_lt_le_trans a b c :
  dom a -> dom b -> dom c -> cmp a b < 0 -> cmp b c <= 0 -> cmp a c < 0.
Proof.
  intros Ha Hb Hc H1 H2. destruct (decide (cmp b c = 0)) as [E|].
  - apply cmp_eq in E as <-; auto.
  - apply (cmp_trans a b c); auto. lia.
Qed.
Lemma cmp_le_opp a b : dom a -> dom b -> cmp a b <= 0 <-> 0 <= cmp b a.
Proof.
  intros Ha Hb. pose proof (cmp_opp a b Ha Hb). pose proof (cmp_opp b a Hb Ha).
  split; [|lia]. intros Hle. destruct (decide (cmp a b = 0)) as [E|]; [|lia].
  apply cmp_eq in E as ->; auto. by rewrite cmp_refl.
Qed.
End cmp_order.

(** ** Integers *)

Definition compare_int (v1 v2 : Z) : Z := to_int32 (v1 - v2).

(** The domain on which the subtraction of [compare_int] cannot overflow. *)
Definition half_int32 (v : Z) : Prop := - 2 ^ 30 <= v < 2 ^ 30.

Lemma compare_int_small v1 v2 : is_int32 (v1 - v2) -> compare_int v1 v2 = v1 - v2.
Proof. apply to_int32_small. Qed.

#[global] Instance compare_int_order : CmpOrder half_int32 compare_int.
Proof.
  assert (H : forall a b, half_int32 a -> half_int32 b -> compare_int a b = a - b).
  { unfold half_int32. intros. apply compare_int_small. unfold is_int32, INT_MIN, INT_MAX. lia. }
  split; intros; rewrite !H in * by done; lia.
Qed.

(** [compare_int] subtracts.  Whenever the difference of two 32-bit values
    does not fit in 32 bits, the (wrapped) result has the wrong sign, so the
    comparison orders the two values the wrong way round. *)
Theorem compare_int_overflow v1 v2 :
  is_int32 v1 -> is_int32 v2 -> ~ is_int32 (v1 - v2) ->
  (v1 < v2 <-> 0 < compare_int v1 v2) /\ (v2 < v1 <-> compare_int v1 v2 < 0).
Proof.
  unfold is_int32, INT_MIN, INT_MAX. intros H1 H2 H3.
  assert (Hc : v1 < v2 /\ compare_int v1 v2 = v1 - v2 + 2 ^ 32 \/
               v2 <= v1 /\ compare_int v1 v2 = v1 - v2 - 2 ^ 32).
  { unfold compare_int, to_int32, swrap. change (32 - 1) with 31.
    destruct (decide (v1 < v2)); [left|right]; (split; [lia|]).
    - replace (v1 - v2 + 2 ^ 31) with (v1 - v2 + 2 ^ 31 + 2 ^ 32 + (-1) * 2 ^ 32) by lia.
      rewrite Z_mod_plus_full, Z.mod_small; lia.
    - replace (v1 - v2 + 2 ^ 31) with (v1 - v2 - 2 ^ 31 + 1 * 2 ^ 32) by lia.
      rewrite Z_mod_plus_full, Z.mod_small; lia. }
  lia.
Qed.

Lemma compare_int_overflow_witness :
  (INT_MAX < -1 <-> 0 < compare_int INT_MAX (-1)) /\ (-1 < INT_MAX <-> compare_int INT_MAX (-1) < 0).
Proof.
  apply (compare_int_overflow INT_MAX (-1)); unfold is_int32, INT_MAX, INT_MIN; lia.
Defined.

(** ** Record identifiers (storage/record/record.h) *)

Record RID : Type := mk_RID { page_num : PageNum; slot_num : SlotNum }.
#[global] Instance RID_eq_dec : EqDecision RID.
Proof. solve_decision. Defined.

Definition RID_compare (rid1 rid2 : RID) : Z :=
  let page_diff := to_int32 (page_num rid1 - page_num rid2) in
  if negb (page_diff =? 0) then page_diff
  else to_int32 (slot_num rid1 - slot_num rid2).

Definition RID_min : RID := mk_RID 0 0.
Definition RID_max : RID := mk_RID INT_MAX INT_MAX.

(** The identifiers that occur: neither number is negative. *)
Definition valid_rid (rid : RID) : Prop :=
  0 <= page_num rid <= INT_MAX /\ 0 <= slot_num rid <= INT_MAX.

Lemma RID_compare_spec rid1 rid2 :
  valid_rid rid1 -> valid_rid rid2 ->
  RID_compare rid1 rid2 =
    if page_num rid1 =? page_num rid2 then slot_num rid1 - slot_num rid2
    else page_num rid1 - page_num rid2.
Proof.
  unfold valid_rid, INT_MAX. intros H1 H2. unfold RID_compare.
  rewrite !to_int32_small by (unfold is_int32, INT_MIN, INT_MAX; lia).
  destruct (Z.eqb_spec (page_num rid1) (page_num rid2)) as [->|].
  - by rewrite Z.sub_diag.
  - by rewrite (proj2 (Z.eqb_neq _ _)) by lia.
Qed.

#[global] Instance RID_compare_order : CmpOrder valid_rid RID_compare.
Proof.
  split.
  - intros [p s] Ha. rewrite RID_compare_spec, Z.eqb_refl by done. lia.
  - intros [p1 s1] [p2 s2] Ha Hb. rewrite RID_compare_spec by done. simpl.
    destruct (Z.eqb_spec p1 p2); intros; [f_equal|]; lia.
  - intros [p1 s1] [p2 s2] Ha Hb. rewrite !RID_compare_spec by done. simpl.
    destruct (Z.eqb_spec p1 p2), (Z.eqb_spec p2 p1); lia.
  - intros [p1 s1] [p2 s2] [p3 s3] Ha Hb Hc. rewrite !RID_compare_spec by done. simpl.
    destruct (Z.eqb_spec p1 p2), (Z.eqb_spec p2 p3), (Z.eqb_spec p1 p3); lia.
Qed.

Lemma RID_min_max rid : valid_rid rid -> RID_compare RID_min rid <= 0 /\ RID_compare rid RID_max <= 0.
Proof.
  intros H. rewrite !RID_compare_spec; try done; unfold valid_rid, RID_min, RID_max, INT_MAX in *;
    simpl; try lia.
  split; case_test; lia.
Qed.

(** ** Pairs: [KeyComparator] compares the attribute first, then the RID *)

Section key.
Context {A : Type} (attr_comparator : A -> A -> Z).

Definition KeyComparator (v1 v2 : A * RID) : Z :=
  let result := attr_comparator v1.1 v2.1 in
  if negb (result =? 0) then result else RID_compare v1.2 v2.2.

#[global] Instance KeyComparator_order (dom : A -> Prop) `{!CmpOrder dom attr_comparator} :
  CmpOrder (fun k => dom k.1 /\ valid_rid k.2) KeyComparator.
Proof.
  unfold KeyComparator. split.
  - intros [a r] [Ha Hr]; simpl in *. rewrite (cmp_refl a Ha). simpl. by apply cmp_refl.
  - intros [a r] [b q] [Ha Hr] [Hb Hq]; simpl in *.
    destruct (Z.eqb_spec (attr_comparator a b) 0) as [E|]; simpl; [|done].
    intros E2. f_equal; eapply cmp_eq; eauto.
  - intros [a r] [b q] [Ha Hr] [Hb Hq]; simpl in *.
    pose proof (cmp_opp a b Ha Hb). pose proof (cmp_opp r q Hr Hq).
    destruct (Z.eqb_spec (attr_comparator a b) 0) as [E|E];
      destruct (Z.eqb_spec (attr_comparator b a) 0) as [E'|E']; simpl; try lia.
    + apply (cmp_eq a b) in E; auto. subst. by rewrite cmp_refl in E'.
    + apply (cmp_eq b a) in E'; auto. subst. by rewrite cmp_refl in E.
  - intros [a r] [b q] [c t] [Ha Hr] [Hb Hq] [Hc Ht]; simpl in *.
    destruct (Z.eqb_spec (attr_comparator a b) 0) as [E|E]; simpl.
    + apply (cmp_eq a b) in E; auto. subst b.
      destruct (Z.eqb_spec (attr_comparator a c) 0); simpl; [|done].
      intros. eapply cmp_trans; [| | |eassumption|eassumption]; auto.
    + destruct (Z.eqb_spec (attr_comparator b c) 0) as [E2|E2]; simpl.
      * apply (cmp_eq b c) in E2; auto. subst c.
        rewrite (proj2 (Z.eqb_neq _ _) E). done.
      * intros H1 H2. pose proof (cmp_trans a b c Ha Hb Hc H1 H2).
        rewrite (proj2 (Z.eqb_neq _ _)) by lia. done.
Qed.
End key.

(** ** Strings *)

(** [strncmp]: the sign of the first difference of the first [n] characters. *)
Fixpoint strncmp (s1 s2 : list Z) (n : nat) {struct n} : option Z :=
  match n with
  | O => Some 0
  | S n =>
      match s1, s2 with
      | c1 :: s1, c2 :: s2 =>
          if negb (c1 =? c2) then Some (uchar c1 - uchar c2)
          else if c1 =? 0 then Some 0 else strncmp s1 s2 n
      | _, _ => None
      end
  end.

Definition compare_string (s1 : list Z) (arg1_max_length : Z)
    (s2 : list Z) (arg2_max_length : Z) : option Z :=
  let maxlen := Z.min arg1_max_length arg2_max_length in
  result ← strncmp s1 s2 (Z.to_nat maxlen);
  if negb (result =? 0) then Some result
  else if maxlen <? arg1_max_length then zget s1 maxlen
  else if maxlen <? arg2_max_length then c ← zget s2 maxlen; Some (- c)
  else Some 0.

(** The C string held in the first [n] characters: up to the first NUL. *)
Fixpoint cstr (n : nat) (s : list Z) : list Z :=
  match n, s with
  | S n, c :: s => if c =? 0 then [] else c :: cstr n s
  | _, _ => []
  end.

(** The lexicographic order of strings of unsigned characters. *)
Fixpoint lex_lt (s1 s2 : list Z) : Prop :=
  match s1, s2 with
  | [], [] => False
  | [], _ :: _ => True
  | _ :: _, [] => False
  | c1 :: s1, c2 :: s2 => uchar c1 < uchar c2 \/ c1 = c2 /\ lex_lt s1 s2
  end.

Lemma uchar_inj c1 c2 : is_char c1 -> is_char c2 -> uchar c1 = uchar c2 -> c1 = c2.
Proof.
  unfold is_char, uchar, uwrap. intros H1 H2 H.
  rewrite (Z.mod_eq c1), (Z.mod_eq c2) in H by lia.
  pose proof (Z.mod_pos_bound c1 256). pose proof (Z.mod_pos_bound c2 256).
  change (2 ^ 8) with 256 in *.
  pose proof (Z.div_mod c1 256). pose proof (Z.div_mod c2 256). lia.
Qed.

Lemma uchar_pos c : is_char c -> c <> 0 -> 0 < uchar c.
Proof.
  intros Hc Hne. pose proof (Z.mod_pos_bound c (2 ^ 8) ltac:(lia)). unfold uchar, uwrap.
  destruct (decide (c mod 2 ^ 8 = 0)) as [E|]; [|lia].
  destruct Hne. apply uchar_inj; auto; unfold is_char; lia.
Qed.

(** [strncmp] on two character buffers of at least [n] characters orders
    the C strings they hold lexicographically by unsigned character values. *)
Theorem strncmp_lexicographic n s1 s2 :
  Forall is_char s1 -> Forall is_char s2 -> (n <= length s1)%nat -> (n <= length s2)%nat ->
  exists r, strncmp s1 s2 n = Some r /\
    (r = 0 <-> cstr n s1 = cstr n s2) /\
    (r < 0 <-> lex_lt (cstr n s1) (cstr n s2)) /\ (0 < r <-> lex_lt (cstr n s2) (cstr n s1)).
Proof.
  revert s1 s2. induction n as [|n IH]; intros s1 s2 H1 H2 Hl1 Hl2; simpl.
  { exists 0. split; [done|]. simpl. intuition lia. }
  destruct s1 as [|c1 s1], s2 as [|c2 s2]; simpl in Hl1, Hl2; try lia.
  inversion_clear H1 as [|? ? Hc1 Hs1]. inversion_clear H2 as [|? ? Hc2 Hs2].
  assert (H0 : uchar 0 = 0) by done.
  destruct (Z.eqb_spec c1 c2) as [->|Hne]; simpl.
  - destruct (Z.eqb_spec c2 0) as [->|Hc]; simpl.
    { exists 0. split; [done|]. simpl. intuition lia. }
    destruct (IH s1 s2) as (r & Hr & He & Hlt & Hgt); auto; try lia.
    exists r. split; [done|]. rewrite He, Hlt, Hgt.
    split; [split; [by intros ->|congruence]|]. simpl. intuition lia.
  - exists (uchar c1 - uchar c2). split; [done|].
    pose proof (uchar_inj c1 c2 Hc1 Hc2) as Hinj.
    assert (Hu : uchar c1 <> uchar c2) by auto.
    pose proof (uchar_pos c1 Hc1). pose proof (uchar_pos c2 Hc2).
    destruct (Z.eqb_spec c1 0) as [->|], (Z.eqb_spec c2 0) as [->|]; simpl;
      rewrite ?H0 in *; repeat split; intros; try done; try lia; try congruence;
      try (by right); intuition lia.
Qed.

Lemma strncmp_lexicographic_witness :
  exists r, strncmp [97; 98; 0] [97; 99; 0] 3 = Some r /\
    (r = 0 <-> cstr 3 [97; 98; 0] = cstr 3 [97; 99; 0]) /\
    (r < 0 <-> lex_lt (cstr 3 [97; 98; 0]) (cstr 3 [97; 99; 0])) /\
    (0 < r <-> lex_lt (cstr 3 [97; 99; 0]) (cstr 3 [97; 98; 0])).
Proof.
  apply (strncmp_lexicographic 3 [97; 98; 0] [97; 99; 0]); try (simpl; lia);
    repeat constructor; unfold is_char; lia.
Defined.

(** [compare_string] compares the character after the common part as a
    signed [char]: a proper prefix compares greater than the longer string when
    the next character is a byte at or above 0x80 (any UTF-8 multi-byte text). *)
Theorem compare_string_non_ascii_prefix s c :
  Forall (fun x => x <> 0) s -> is_char c -> c < 0 ->
  exists r, compare_string (s ++ [c]) (zlen s + 1) s (zlen s) = Some r /\ r < 0.
Proof.
  intros Hs Hc Hneg. exists c. split; [|done]. unfold compare_string.
  replace (Z.min (zlen s + 1) (zlen s)) with (zlen s) by lia.
  assert (Hn : strncmp (s ++ [c]) s (Z.to_nat (zlen s)) = Some 0).
  { unfold zlen. rewrite Nat2Z.id. clear Hc Hneg. induction Hs as [|x s Hx Hs IH]; [done|].
    simpl. rewrite Z.eqb_refl, (proj2 (Z.eqb_neq x 0)) by done. done. }
  rewrite Hn. simpl. rewrite (proj2 (Z.ltb_lt _ _)) by lia.
  unfold zget, zlen. rewrite decide_True, Nat2Z.id by lia.
  by rewrite list_lookup_middle.
Qed.

Lemma compare_string_non_ascii_prefix_witness :
  exists r, compare_string ([97] ++ [-28]) (zlen [97] + 1) [97] (zlen [97]) = Some r /\ r < 0.
Proof.
  apply (compare_string_non_ascii_prefix [97] (-28)); [repeat constructor; lia|unfold is_char; lia|lia].
Defined.

(** ** LIKE *)

Definition PERCENT : Z := 37.
Definition UNDERSCORE : Z := 95.

(** Reading [p[j]] of a C string: the terminating NUL is readable. *)
Definition pat_at (p : list Z) (j : Z) : Z := default 0 (zget p j).

(** [while (j < p_len && p[j] == '%') j++] *)
Fixpoint skip_percent (p : list Z) (j : Z) (n : nat) : Z :=
  match n with
  | O => j
  | S n => if (j <? zlen p) && (pat_at p j =? PERCENT) then skip_percent p (j + 1) n else j
  end.

(** [while (j > 0 && p[j - 1] != '%') j--] *)
Fixpoint back_after_percent (p : list Z) (j : nat) : Z :=
  match j with
  | O => 0
  | S j' => if negb (pat_at p (Z.of_nat j') =? PERCENT) then back_after_percent p j' else Z.of_nat j
  end.

(** [while (j >= 0 && p[j] != '%') j--], from [j - 1] for the argument [j] *)
Fixpoint back_to_percent (p : list Z) (j : nat) : Z :=
  match j with
  | O => -1
  | S j' => if negb (pat_at p (Z.of_nat j') =? PERCENT) then back_to_percent p j' else Z.of_nat j'
  end.

(** The loop over the characters of the subject: [inl] is a [return] inside
    the loop, [inr j] its end. *)
Fixpoint like_loop (p s : list Z) (j : Z) : bool + Z :=
  match s with
  | [] => inr j
  | c :: s =>
      let step j :=
        if (c =? pat_at p j) || (pat_at p j =? UNDERSCORE) then like_loop p s (j + 1)
        else let j := back_to_percent p (Z.to_nat (j + 1)) in
             if j <? 0 then inl false else like_loop p s j in
      let j := skip_percent p j (length p) in
      if j =? zlen p then
        if pat_at p (j - 1) =? PERCENT then inl true
        else let j := back_after_percent p (Z.to_nat j) in
             if j =? 0 then inl false else step j
      else step j
  end.

Definition compare_like (s p : list Z) : bool :=
  if (0 <? zlen s) && (zlen p =? 0) then false
  else match like_loop p s 0 with
       | inl r => r
       | inr j => skip_percent p j (length p) =? zlen p
       end.

(** What LIKE means: [%] stands for any text, [_] for any character. *)
Inductive like : list Z -> list Z -> Prop :=
| like_nil : like [] []
| like_char c pc s p :
    pc <> PERCENT -> c = pc \/ pc = UNDERSCORE -> like s p -> like (c :: s) (pc :: p)
| like_percent s t p : like s p -> like (t ++ s) (PERCENT :: p).

Lemma like_app s1 p1 s2 p2 : like s1 p1 -> like s2 p2 -> like (s1 ++ s2) (p1 ++ p2).
Proof.
  intros H1 H2. induction H1; simpl; [done|by constructor|].
  rewrite <- app_assoc. by constructor.
Qed.

Lemma like_split s p q : like s (p ++ q) -> exists s1 s2, s = s1 ++ s2 /\ like s1 p /\ like s2 q.
Proof.
  revert s. induction p as [|c p IH]; intros s H; simpl in H.
  { exists [], s. repeat split; auto. constructor. }
  inversion H; subst.
  - destruct (IH _ ltac:(eassumption)) as (s1 & s2 & -> & ? & ?).
    exists (c0 :: s1), s2. repeat split; auto. by constructor.
  - destruct (IH _ ltac:(eassumption)) as (s1 & s2 & -> & ? & ?).
    exists (t ++ s1), s2. rewrite app_assoc. repeat split; auto. by constructor.
Qed.

Lemma like_percent_only t : like t [PERCENT].
Proof. rewrite <- (app_nil_r t). constructor. constructor. Qed.

(** Any text can follow what matched a pattern, if the match is cut at a [%]. *)
Lemma like_cut s t p q : like s (p ++ PERCENT :: q) -> like (s ++ t) (p ++ [PERCENT]).
Proof.
  intros (s1 & s2 & -> & H1 & _)%like_split. rewrite <- app_assoc.
  apply like_app; [done|apply like_percent_only].
Qed.

Section like_sound.
Context (p : list Z).
Let pre (j : Z) := take (Z.to_nat j) p.

Lemma pre_succ j : 0 <= j < zlen p -> pre (j + 1) = pre j ++ [pat_at p j].
Proof.
  intros Hj. unfold pre, pat_at. replace (Z.to_nat (j + 1)) with (S (Z.to_nat j)) by lia.
  destruct (zget_is_Some p j Hj) as [c Hc]. rewrite Hc. simpl. apply take_S_r.
  unfold zget in Hc. by rewrite decide_True in Hc by lia.
Qed.
Lemma pre_all : pre (zlen p) = p.
Proof. unfold pre, zlen. rewrite Nat2Z.id. apply firstn_all. Qed.
(** A prefix that reaches past index [i] factors through it. *)
Lemma pre_factor i j : 0 <= i < j -> j <= zlen p -> exists q, pre j = pre i ++ pat_at p i :: q.
Proof.
  intros Hi Hj. exists (drop (S (Z.to_nat i)) (pre j)).
  assert (Hl : pre j !! Z.to_nat i = Some (pat_at p i)).
  { unfold pre. rewrite lookup_take_lt by lia. unfold pat_at.
    destruct (zget_is_Some p i ltac:(lia)) as [c Hc]. rewrite Hc. simpl.
    unfold zget in Hc. by rewrite decide_True in Hc by lia. }
  rewrite <- (take_drop_middle _ _ _ Hl) at 1. f_equal.
  unfold pre. rewrite take_take. f_equal. lia.
Qed.

Lemma like_pre_cut s t i j :
  like s (pre j) -> 0 <= i <= j -> j <= zlen p -> i < zlen p -> pat_at p i = PERCENT ->
  like (s ++ t) (pre (i + 1)).
Proof.
  intros H Hi Hj Hip Hc. rewrite pre_succ, Hc by lia.
  destruct (decide (i = j)) as [->|].
  - apply like_app; [done|apply like_percent_only].
  - destruct (pre_factor i j ltac:(lia) Hj) as [q Hq]. rewrite Hq, Hc in H. by apply (like_cut s t _ q).
Qed.

Lemma skip_percent_spec n s j :
  0 <= j <= zlen p -> like s (pre j) ->
  let j' := skip_percent p j n in j <= j' <= zlen p /\ like s (pre j').
Proof.
  revert j. induction n as [|n IH]; intros j Hj H; simpl; [auto with lia|].
  destruct ((j <? zlen p) && (pat_at p j =? PERCENT)) eqn:E; zbool; [|auto with lia].
  destruct (IH (j + 1)) as [Hb Hl]; [lia| |split; [lia|done]].
  rewrite <- (app_nil_r s). apply (like_pre_cut s [] j j); auto; lia.
Qed.

Lemma back_after_spec j :
  Z.of_nat j <= zlen p -> let j' := back_after_percent p j in
  j' = 0 \/ (0 < j' <= Z.of_nat j /\ pat_at p (j' - 1) = PERCENT).
Proof.
  induction j as [|j IH]; intros Hj; cbn -[Z.of_nat]; [by left|].
  destruct (Z.eqb_spec (pat_at p (Z.of_nat j)) PERCENT) as [E|E]; simpl negb; cbv iota.
  - right. split; [lia|]. by replace (Z.of_nat (S j) - 1) with (Z.of_nat j) by lia.
  - destruct (IH ltac:(lia)) as [?|[? ?]]; [by left|]. right. split; [lia|done].
Qed.

Lemma back_to_spec j :
  Z.of_nat j <= zlen p + 1 -> let j' := back_to_percent p j in
  j' < 0 \/ (0 <= j' < Z.of_nat j /\ pat_at p j' = PERCENT).
Proof.
  induction j as [|j IH]; intros Hj; cbn -[Z.of_nat]; [left; lia|].
  destruct (Z.eqb_spec (pat_at p (Z.of_nat j)) PERCENT) as [E|E]; simpl negb; cbv iota.
  - right. split; [lia|done].
  - destruct (IH ltac:(lia)) as [?|[? ?]]; [by left|]. right. split; [lia|done].
Qed.

Lemma pat_at_percent_bound j : pat_at p j = PERCENT -> 0 <= j < zlen p.
Proof.
  unfold pat_at. destruct (zget p j) eqn:E; [by apply zget_Some_bound in E|].
  simpl. unfold PERCENT. lia.
Qed.

(** The invariant of the loop: the text consumed so far matches the pattern
    up to [j], or up to and including the [%] at [j]. *)
Definition like_inv (s : list Z) (j : Z) : Prop :=
  0 <= j <= zlen p /\ (like s (pre j) \/ pat_at p j = PERCENT /\ like s (pre (j + 1))).

Lemma like_inv_skip s j :
  like_inv s j -> let j' := skip_percent p j (length p) in j <= j' <= zlen p /\ like s (pre j').
Proof.
  intros [Hj [H|[Hp H]]]; [by apply skip_percent_spec|].
  pose proof (pat_at_percent_bound j Hp) as Hb. unfold zlen in Hb.
  destruct (length p) as [|n] eqn:En; [lia|]. simpl. rewrite Hp.
  rewrite (proj2 (Z.ltb_lt _ _)) by (unfold zlen; lia). simpl.
  destruct (skip_percent_spec n s (j + 1)) as [? ?]; [unfold zlen; lia|done|split; [lia|done]].
Qed.

Lemma like_step s c j :
  0 <= j <= zlen p -> like s (pre j) -> c <> 0 ->
  (c = pat_at p j \/ pat_at p j = UNDERSCORE) -> like_inv (s ++ [c]) (j + 1).
Proof.
  intros Hj H Hc Hm.
  assert (Hjp : j < zlen p).
  { unfold pat_at in Hm. destruct (zget p j) eqn:E; [apply zget_Some_bound in E; lia|].
    simpl in Hm. unfold UNDERSCORE in Hm. destruct Hm; [congruence|lia]. }
  split; [lia|]. left. destruct (decide (pat_at p j = PERCENT)) as [E|E].
  - apply (like_pre_cut s [c] j j); auto; lia.
  - rewrite pre_succ by lia. apply like_app; [done|]. constructor; auto. constructor.
Qed.

Lemma like_back s c j :
  0 <= j <= zlen p -> like s (pre j) ->
  let j' := back_to_percent p (Z.to_nat (j + 1)) in 0 <= j' -> like_inv (s ++ [c]) j'.
Proof.
  intros Hj H j' Hj'. pose proof (back_to_spec (Z.to_nat (j + 1)) ltac:(lia)) as Hb.
  change (j' < 0 \/ (0 <= j' < Z.of_nat (Z.to_nat (j + 1)) /\ pat_at p j' = PERCENT)) in Hb.
  clearbody j'. destruct Hb as [?|[Hb Hp]]; [lia|]. pose proof (pat_at_percent_bound _ Hp).
  split; [lia|]. right. split; [done|]. apply (like_pre_cut s [c] j' j); auto; lia.
Qed.

Lemma like_loop_sound s s0 j :
  Forall (fun c => c <> 0) s -> like_inv s0 j ->
  match like_loop p s j with
  | inl true => like (s0 ++ s) p
  | inl false => True
  | inr j' => like_inv (s0 ++ s) j'
  end.
Proof.
  intros Hs. revert s0 j. induction Hs as [|c s Hc Hs IH]; intros s0 j Hinv; simpl.
  { by rewrite app_nil_r. }
  destruct (like_inv_skip s0 j Hinv) as [Hj' H']. pose proof (proj1 Hinv) as Hj0.
  set (j' := skip_percent p j (length p)) in *.
  assert (Hstep : forall j, 0 <= j <= zlen p -> like s0 (pre j) ->
    match (if (c =? pat_at p j) || (pat_at p j =? UNDERSCORE) then like_loop p s (j + 1)
           else if back_to_percent p (Z.to_nat (j + 1)) <? 0 then inl false
                else like_loop p s (back_to_percent p (Z.to_nat (j + 1)))) with
    | inl true => like (s0 ++ c :: s) p | inl false => True
    | inr j' => like_inv (s0 ++ c :: s) j' end).
  { intros k Hk Hlk. rewrite (cons_middle c s0 s), app_assoc.
    destruct ((c =? pat_at p k) || (pat_at p k =? UNDERSCORE)) eqn:E.
    - apply IH, like_step; auto. apply orb_true_iff in E as [E|E]; zbool; auto.
    - destruct (Z.ltb_spec (back_to_percent p (Z.to_nat (k + 1))) 0); [done|].
      apply IH. by apply like_back. }
  destruct (Z.eqb_spec j' (zlen p)) as [E|E]; [|apply Hstep; [lia|done]].
  destruct (Z.eqb_spec (pat_at p (j' - 1)) PERCENT) as [Ep|Ep].
  - pose proof (pat_at_percent_bound _ Ep). rewrite <- pre_all.
    replace (zlen p) with (j' - 1 + 1) by lia. apply (like_pre_cut s0 (c :: s) (j' - 1) j'); auto; lia.
  - destruct (back_after_spec (Z.to_nat j')) as [E0|[Hb Hp]]; [lia|by rewrite E0|].
    rewrite (proj2 (Z.eqb_neq _ _)) by lia. apply Hstep; [lia|].
    rewrite <- (app_nil_r s0).
    replace (back_after_percent p (Z.to_nat j')) with (back_after_percent p (Z.to_nat j') - 1 + 1) by lia.
    apply (like_pre_cut s0 [] (back_after_percent p (Z.to_nat j') - 1) j'); auto; lia.
Qed.
End like_sound.

(** [compare_like] is sound: a text it accepts matches the pattern (texts
    and patterns are C strings: no character is NUL). *)
Theorem compare_like_sound s p :
  Forall (fun c => c <> 0) s -> compare_like s p = true -> like s p.
Proof.
  intros Hs. unfold compare_like. destruct (_ && _) eqn:E; [done|].
  pose proof (like_loop_sound p s [] 0 Hs) as H. simpl in H.
  destruct (like_loop p s 0) as [[]|j]; [intros _|done|intros Hj%Z.eqb_eq].
  - apply H. split; [unfold zlen; lia|]. left. constructor.
  - destruct (like_inv_skip p s j) as [_ Hl].
    { apply H. split; [unfold zlen; lia|]. left. constructor. }
    by rewrite Hj, pre_all in Hl.
Qed.

Lemma compare_like_sound_witness : compare_like [97; 98; 99] [97; 37] = true /\ like [97; 98; 99] [97; 37].
Proof.
  split; [reflexivity|]. apply compare_like_sound; [repeat constructor; lia | reflexivity].
Defined.

Section like_no_percent.
Context (p : list Z) (Hp : Forall (fun c => c <> PERCENT) p).

Lemma no_percent_at j : pat_at p j <> PERCENT.
Proof.
  unfold pat_at, zget. case_decide; simpl; [|unfold PERCENT; lia].
  destruct (p !! Z.to_nat j) eqn:E; simpl; [|unfold PERCENT; lia].
  rewrite Forall_lookup in Hp. by apply Hp in E.
Qed.
Lemma no_percent_skip j n : skip_percent p j n = j.
Proof.
  destruct n; simpl; [done|]. rewrite (proj2 (Z.eqb_neq _ _)) by apply no_percent_at.
  by rewrite andb_false_r.
Qed.
Lemma no_percent_after j : back_after_percent p j = 0.
Proof. induction j; cbn; [done|]. by rewrite (proj2 (Z.eqb_neq _ _)) by apply no_percent_at. Qed.
Lemma no_percent_to j : back_to_percent p j = -1.
Proof. induction j; cbn; [done|]. by rewrite (proj2 (Z.eqb_neq _ _)) by apply no_percent_at. Qed.

Lemma like_loop_no_percent s q :
  like s q -> forall j, 0 <= j <= zlen p -> drop (Z.to_nat j) p = q ->
  like_loop p s j = inr (zlen p).
Proof.
  induction 1 as [|c pc s q Hne Hm Hl IH|s t q Hl IH]; intros j Hj Hq; cbn [like_loop].
  - f_equal. apply (f_equal length) in Hq. rewrite length_drop in Hq. unfold zlen in *.
    simpl in Hq. lia.
  - rewrite no_percent_skip.
    assert (Hlk : p !! Z.to_nat j = Some pc).
    { rewrite <- (Nat.add_0_r (Z.to_nat j)), <- lookup_drop, Hq. done. }
    assert (Hpc : pat_at p j = pc).
    { unfold pat_at, zget. by rewrite decide_True, Hlk by lia. }
    pose proof (lookup_lt_Some _ _ _ Hlk).
    rewrite (proj2 (Z.eqb_neq j (zlen p))) by (unfold zlen; lia). rewrite Hpc.
    replace ((c =? pc) || (pc =? UNDERSCORE)) with true.
    + apply IH; [unfold zlen; lia|]. replace (Z.to_nat (j + 1)) with (S (Z.to_nat j)) by lia.
      rewrite <- Nat.add_1_r, <- drop_drop, Hq. done.
    + symmetry. apply orb_true_iff. destruct Hm; [left|right]; by apply Z.eqb_eq.
  - exfalso. apply (no_percent_at j). unfold pat_at, zget. rewrite decide_True by lia.
    replace (p !! Z.to_nat j) with (Some PERCENT); [done|].
    rewrite <- (Nat.add_0_r (Z.to_nat j)), <- lookup_drop, Hq. done.
Qed.
End like_no_percent.

(** C25: On patterns without [%], [compare_like] decides LIKE exactly. *)
Theorem compare_like_exact s p :
  Forall (fun c => c <> 0) s -> Forall (fun c => c <> PERCENT) p ->
  compare_like s p = true <-> like s p.
Proof.
  intros Hs Hp. split; [by apply compare_like_sound|]. intros Hl. unfold compare_like.
  rewrite (like_loop_no_percent p Hp s p Hl) by (done || unfold zlen; lia).
  rewrite no_percent_skip, Z.eqb_refl by done.
  destruct (_ && _) eqn:E; [exfalso|done]. zbool. unfold zlen in *.
  destruct p; [inversion Hl; subst|]; simpl in *; lia.
Qed.

Lemma compare_like_exact_witness :
  compare_like [97; 98] [97; 95] = true <-> like [97; 98] [97; 95].
Proof. apply compare_like_exact; repeat constructor; unfold PERCENT; lia. Defined.

#[local] Arguments pat_at : simpl never.

(** With [%], [compare_like] is incomplete: after a failed attempt it
    resumes behind the characters the attempt consumed instead of one behind
    its start, so a repeated first character hides the match: for every [a]
    and [b] that differ, [aab] is not found to match [%ab]. *)
Theorem compare_like_incomplete a b :
  a <> b -> a <> PERCENT -> b <> PERCENT -> a <> UNDERSCORE -> b <> UNDERSCORE -> a <> 0 ->
  like [a; a; b] [PERCENT; a; b] /\ compare_like [a; a; b] [PERCENT; a; b] = false.
Proof.
  intros Hab Ha Hb Hau Hbu Ha0. split.
  { apply (like_percent [a; b] [a]). do 2 (apply like_char; auto). constructor. }
  assert (E0 : (PERCENT =? PERCENT) = true) by apply Z.eqb_refl.
  assert (E1 : (a =? a) = true) by apply Z.eqb_refl.
  assert (E2 : (a =? PERCENT) = false) by by apply Z.eqb_neq.
  assert (E3 : (b =? PERCENT) = false) by by apply Z.eqb_neq.
  assert (E4 : (b =? UNDERSCORE) = false) by by apply Z.eqb_neq.
  assert (E5 : (a =? b) = false) by by apply Z.eqb_neq.
  assert (E6 : (b =? a) = false) by (apply Z.eqb_neq; congruence).
  set (p := [PERCENT; a; b]).
  assert (P0 : pat_at p 0 = PERCENT) by done.
  assert (P1 : pat_at p 1 = a) by done.
  assert (P2 : pat_at p 2 = b) by done.
  assert (L : length p = 3%nat) by done. assert (Z3 : zlen p = 3) by done. clearbody p.
  unfold compare_like. rewrite L, Z3.
  assert (S0 : skip_percent p 0 3 = 1) by (cbn; rewrite Z3, P0; cbn; zeval; by rewrite P1, E2).
  assert (S2 : skip_percent p 2 3 = 2) by (cbn; rewrite Z3, P2; cbn; by rewrite E3).
  assert (B3 : back_to_percent p 3 = 0) by (cbn; zeval; by rewrite P2, P1, P0, E2, E3).
  assert (B2 : back_to_percent p 2 = 0) by (cbn; zeval; by rewrite P1, P0, E2).
  cbn [like_loop]. rewrite L, Z3, S0. cbn -[back_to_percent skip_percent].
  rewrite P1, E1. cbn -[back_to_percent skip_percent]. zeval.
  rewrite S2. cbn -[back_to_percent skip_percent]. rewrite P2, E5, E4. cbn -[back_to_percent skip_percent].
  zeval. rewrite B3. cbn -[skip_percent back_to_percent]. rewrite S0.
  cbn -[back_to_percent skip_percent]. rewrite P1, E6.
  rewrite (proj2 (Z.eqb_neq a UNDERSCORE)) by done. cbn -[back_to_percent skip_percent].
  zeval. rewrite B2. cbn -[skip_percent]. by rewrite S0.
Qed.

Lemma compare_like_incomplete_witness :
  like [97; 97; 98] [PERCENT; 97; 98] /\ compare_like [97; 97; 98] [PERCENT; 97; 98] = false.
Proof. apply compare_like_incomplete; unfold PERCENT, UNDERSCORE; lia. Defined.
