(* ===== verification/LruCache.v ===== *)
(** * The LRU cache (deps/common/lang/lru_cache.h)

    [LruCache] is a hash set of heap-allocated list nodes that are also linked
    into a doubly linked list, most recently used first.  The pointers are
    modelled: a heap of nodes, the two end pointers and the hash set (which
    compares nodes by key, hence a map from keys to nodes).  Dereferencing a
    dangling or null pointer gives [None].

    [Lru] is the specification, a list of key/value pairs in order of use, and
    [represents] the relation between the two: every operation is proved to run
    without an invalid access and to refine the operation on the list. *)

From S2P Require Import Prelude.
From stdpp Require Import base gmap list.
From Stdlib Require Import ZArith Lia.
#[local] Open Scope Z_scope.

(** ** The specification *)

Module Lru.
Section spec.
Context {K V : Type} `{EqDecision K}.
Implicit Types (l : list (K * V)) (k : K) (v : V).

Fixpoint lookup k l : option V :=
  match l with
  | [] => None
  | (k', v) :: l => if decide (k' = k) then Some v else lookup k l
  end.

Definition remove k l : list (K * V) := filter (fun kv => kv.1 <> k) l.

(** A hit moves the entry to the front. *)
Definition get k l : option V * list (K * V) :=
  match lookup k l with
  | Some v => (Some v, (k, v) :: remove k l)
  | None => (None, l)
  end.

Definition put k v l : list (K * V) := (k, v) :: remove k l.

(** Calls [func] on the entries in turn until it returns [false]. *)
Fixpoint foreach {S} (func : S -> K -> V -> S * bool) (s : S) l : S :=
  match l with
  | [] => s
  | (k, v) :: l => let (s, ret) := func s k v in if ret : bool then foreach func s l else s
  end.
Definition foreach_reverse {S} (func : S -> K -> V -> S * bool) (s : S) l : S :=
  foreach func s (reverse l).

Lemma lookup_Some_elem k v l : lookup k l = Some v -> (k, v) ∈ l.
Proof.
  induction l as [|[k' v'] l IH]; simpl; [done|].
  case_decide; intros; simplify_eq; apply elem_of_cons; auto.
Qed.
Lemma lookup_elem k v l : NoDup l.*1 -> (k, v) ∈ l -> lookup k l = Some v.
Proof.
  induction l as [|[k' v'] l IH]; simpl; intros Hnd Hin; [set_solver|].
  apply NoDup_cons in Hnd as [Hk Hnd]. apply elem_of_cons in Hin as [[= -> ->]|Hin].
  - by rewrite decide_True.
  - rewrite decide_False; [auto|]. intros ->. apply Hk. apply list_elem_of_fmap. by exists (k, v).
Qed.
Lemma lookup_None k l : lookup k l = None <-> k ∉ l.*1.
Proof. induction l as [|[k' v'] l IH]; simpl; [set_solver|]. case_decide; set_solver. Qed.
Lemma remove_notin k l : k ∉ l.*1 -> remove k l = l.
Proof.
  unfold remove. induction l as [|[k' v'] l IH]; simpl; intros; [done|].
  rewrite filter_cons_True by (simpl; set_solver). f_equal. set_solver.
Qed.
Lemma remove_middle k v l1 l2 :
  k ∉ l1.*1 -> k ∉ l2.*1 -> remove k (l1 ++ (k, v) :: l2) = l1 ++ l2.
Proof.
  intros H1 H2. unfold remove. rewrite filter_app, filter_cons_False by (simpl; tauto).
  fold (remove k l1) (remove k l2). by rewrite !remove_notin.
Qed.
Lemma elem_remove k k' v l : (k', v) ∈ remove k l <-> k' <> k /\ (k', v) ∈ l.
Proof. unfold remove. by rewrite list_elem_of_filter. Qed.
Lemma remove_keys k l : (remove k l).*1 = filter (fun k' => k' <> k) l.*1.
Proof.
  unfold remove. induction l as [|[k' v'] l IH]; simpl; [done|].
  rewrite !filter_cons. simpl. case_decide; simpl; [f_equal|]; apply IH.
Qed.
Lemma remove_NoDup k l : NoDup l.*1 -> NoDup (remove k l).*1 /\ k ∉ (remove k l).*1.
Proof.
  intros. rewrite remove_keys. split; [by apply NoDup_filter|].
  rewrite list_elem_of_filter. tauto.
Qed.
Lemma lookup_remove_ne k k' l : k' <> k -> lookup k' (remove k l) = lookup k' l.
Proof.
  intros. unfold remove. induction l as [|[k1 v1] l IH]; simpl; [done|].
  rewrite filter_cons. simpl. case_decide; simpl; repeat case_decide; simplify_eq; try done.
Qed.
Lemma lookup_remove k l : lookup k (remove k l) = None.
Proof. apply lookup_None. rewrite remove_keys, list_elem_of_filter. tauto. Qed.
Lemma put_NoDup k v l : NoDup l.*1 -> NoDup (put k v l).*1.
Proof. intros [? ?]%(remove_NoDup k). by apply NoDup_cons. Qed.
End spec.
End Lru.

(** ** The implementation *)

Abbreviation addr := positive (only parsing).

Module Impl.
Section lru_cache.
Context {K V : Type} `{EqDecision K, Countable K}.

Record ListNode : Type := mk_node {
  key_ : K; value_ : V; prev_ : option addr; next_ : option addr }.

Record LruCache : Type := mk_cache {
  heap : gmap addr ListNode;
  searcher_ : gmap K addr;
  lru_front_ : option addr;
  lru_tail_ : option addr }.

Implicit Types (st : LruCache) (h : gmap addr ListNode).

Definition empty_cache : LruCache := mk_cache ∅ ∅ None None.

(** [p->next_ = x] and [p->prev_ = x] *)
Definition upd_next h (p : addr) (x : option addr) : option (gmap addr ListNode) :=
  n ← h !! p; Some (<[p := mk_node (key_ n) (value_ n) (prev_ n) x]> h).
Definition upd_prev h (p : addr) (x : option addr) : option (gmap addr ListNode) :=
  n ← h !! p; Some (<[p := mk_node (key_ n) (value_ n) x (next_ n)]> h).

Definition lru_touch st (node : addr) : option LruCache :=
  n ← heap st !! node;
  match prev_ n with
  | None => Some st
  | Some pp =>
      h ← upd_next (heap st) pp (next_ n);
      '(h, tail) ← match next_ n with
                   | Some nx => h ← upd_prev h nx (prev_ n); Some (h, lru_tail_ st)
                   | None => Some (h, prev_ n)
                   end;
      h ← upd_prev h node None;
      h ← upd_next h node (lru_front_ st);
      h ← match lru_front_ st with
          | Some f => upd_prev h f (Some node)
          | None => Some h
          end;
      Some (mk_cache h (searcher_ st) (Some node) tail)
  end.

(** [node] is already allocated. *)
Definition lru_push st (node : addr) : option LruCache :=
  let tail := match lru_tail_ st with None => Some node | t => t end in
  h ← upd_prev (heap st) node None;
  h ← upd_next h node (lru_front_ st);
  h ← match lru_front_ st with
      | Some f => upd_prev h f (Some node)
      | None => Some h
      end;
  n ← h !! node;
  Some (mk_cache h (<[key_ n := node]> (searcher_ st)) (Some node) tail).

Definition lru_remove st (node : addr) : option LruCache :=
  n ← heap st !! node;
  h ← match prev_ n with Some pp => upd_next (heap st) pp (next_ n) | None => Some (heap st) end;
  h ← match next_ n with Some nx => upd_prev h nx (prev_ n) | None => Some h end;
  let front := if decide (lru_front_ st = Some node) then next_ n else lru_front_ st in
  let tail := if decide (lru_tail_ st = Some node) then prev_ n else lru_tail_ st in
  Some (mk_cache (delete node h) (delete (key_ n) (searcher_ st)) front tail).

Definition get st (key : K) : option (option V * LruCache) :=
  match searcher_ st !! key with
  | None => Some (None, st)
  | Some node =>
      st ← lru_touch st node;
      n ← heap st !! node;
      Some (Some (value_ n), st)
  end.

(** [ln] is the address [new ListNode] returns. *)
Definition put st (key : K) (value : V) (ln : addr) : option LruCache :=
  match searcher_ st !! key with
  | Some node =>
      n ← heap st !! node;
      lru_touch (mk_cache (<[node := mk_node (key_ n) value (prev_ n) (next_ n)]> (heap st))
                   (searcher_ st) (lru_front_ st) (lru_tail_ st)) node
  | None =>
      lru_push (mk_cache (<[ln := mk_node key value None None]> (heap st))
                  (searcher_ st) (lru_front_ st) (lru_tail_ st)) ln
  end.

Definition remove st (key : K) : option LruCache :=
  match searcher_ st !! key with
  | Some node => lru_remove st node
  | None => Some st
  end.

Definition lru_count st : Z := Z.of_nat (size (searcher_ st)).

Definition destroy st : LruCache :=
  mk_cache (foldr (fun p h => delete p h) (heap st) (snd <$> map_to_list (searcher_ st))) ∅ None None.

(** The loops over the nodes; [None] also when the fuel runs out. *)
Fixpoint foreach_loop {S} (func : S -> K -> V -> S * bool) (step : ListNode -> option addr)
    h (node : option addr) (s : S) (fuel : nat) : option S :=
  match node with
  | None => Some s
  | Some p =>
      match fuel with
      | O => None
      | Datatypes.S fuel =>
          n ← h !! p;
          let (s, ret) := func s (key_ n) (value_ n) in
          if ret : bool then foreach_loop func step h (step n) s fuel else Some s
      end
  end.

Definition foreach {S} (func : S -> K -> V -> S * bool) st (s : S) : option S :=
  foreach_loop func next_ (heap st) (lru_front_ st) s (size (heap st)).
Definition foreach_reverse {S} (func : S -> K -> V -> S * bool) st (s : S) : option S :=
  foreach_loop func prev_ (heap st) (lru_tail_ st) s (size (heap st)).

(** ** Doubly linked segments *)

(** A cell: its address, its key and its value. *)
Abbreviation cell := (addr * (K * V))%type.
Implicit Types (cs : list cell).

Definition hd_ptr cs (next : option addr) : option addr :=
  match cs with [] => next | (p, _) :: _ => Some p end.
Definition last_ptr (prev : option addr) cs : option addr :=
  match last cs with Some (p, _) => Some p | None => prev end.

Fixpoint dll h (prev : option addr) cs (next : option addr) : Prop :=
  match cs with
  | [] => True
  | (p, (k, v)) :: cs => h !! p = Some (mk_node k v prev (hd_ptr cs next)) /\ dll h (Some p) cs next
  end.

Lemma hd_ptr_app cs1 cs2 next : hd_ptr (cs1 ++ cs2) next = hd_ptr cs1 (hd_ptr cs2 next).
Proof. by destruct cs1 as [|[p c] cs1]. Qed.
Lemma last_ptr_cons prev p c cs : last_ptr prev ((p, c) :: cs) = last_ptr (Some p) cs.
Proof. unfold last_ptr. rewrite last_cons. by destruct (last cs) as [[? ?]|]. Qed.
Lemma last_ptr_app prev cs1 cs2 : last_ptr prev (cs1 ++ cs2) = last_ptr (last_ptr prev cs1) cs2.
Proof.
  revert prev. induction cs1 as [|[p c] cs1 IH]; intros prev; [done|]. simpl.
  by rewrite !last_ptr_cons, IH.
Qed.
Lemma last_ptr_elem prev cs p : last_ptr prev cs = Some p -> prev = Some p \/ p ∈ cs.*1.
Proof.
  unfold last_ptr. destruct (last cs) as [[q c]|] eqn:E; [|auto]. intros [= ->]. right.
  apply last_Some in E as [l ->]. rewrite fmap_app. set_solver.
Qed.
Lemma hd_ptr_elem cs next p : hd_ptr cs next = Some p -> next = Some p \/ p ∈ cs.*1.
Proof. destruct cs as [|[q c] cs]; simpl; [auto|]. intros [= ->]. set_solver. Qed.

Lemma dll_app h prev cs1 cs2 next :
  dll h prev (cs1 ++ cs2) next <->
  dll h prev cs1 (hd_ptr cs2 next) /\ dll h (last_ptr prev cs1) cs2 next.
Proof.
  revert prev. induction cs1 as [|[p [k v]] cs1 IH]; intros prev; simpl; [tauto|].
  rewrite IH, last_ptr_cons, hd_ptr_app. tauto.
Qed.
Lemma dll_ext h h' prev cs next :
  (forall p, p ∈ cs.*1 -> h' !! p = h !! p) -> dll h prev cs next -> dll h' prev cs next.
Proof.
  revert prev. induction cs as [|[p [k v]] cs IH]; intros prev Hext; simpl; [done|].
  intros [Hp Hcs]. rewrite Hext by set_solver. split; [done|]. apply IH; [set_solver|done].
Qed.
Lemma dll_lookup h prev cs next p k v :
  dll h prev cs next -> (p, (k, v)) ∈ cs -> exists pr nx, h !! p = Some (mk_node k v pr nx).
Proof.
  revert prev. induction cs as [|[q [k' v']] cs IH]; intros prev; simpl; [set_solver|].
  intros [Hq Hcs] [[= -> -> ->]|Hin]%elem_of_cons; eauto.
Qed.

(** Redirecting the pointers at the two ends of a segment. *)
Lemma upd_prev_first h prev p c cs next x :
  dll h prev ((p, c) :: cs) next -> p ∉ cs.*1 ->
  exists h', upd_prev h p x = Some h' /\ dll h' x ((p, c) :: cs) next /\
    (forall q, q <> p -> h' !! q = h !! q) /\ dom h' = dom h.
Proof.
  destruct c as [k v]. simpl. intros [Hp Hcs] Hnot. unfold upd_prev. rewrite Hp. simpl.
  eexists. split; [done|]. rewrite lookup_insert_eq. repeat split.
  - apply (dll_ext h); [|done]. intros q Hq. apply lookup_insert_ne. set_solver.
  - intros q Hq. by apply lookup_insert_ne.
  - rewrite dom_insert_L. apply elem_of_dom_2 in Hp. set_solver.
Qed.
Lemma upd_next_last h prev cs p c next x :
  dll h prev (cs ++ [(p, c)]) next -> p ∉ cs.*1 ->
  exists h', upd_next h p x = Some h' /\ dll h' prev (cs ++ [(p, c)]) x /\
    (forall q, q <> p -> h' !! q = h !! q) /\ dom h' = dom h.
Proof.
  destruct c as [k v]. rewrite dll_app. simpl. intros (Hcs & Hp & _) Hnot.
  unfold upd_next. rewrite Hp. simpl.
  eexists. split; [done|]. rewrite dll_app. simpl. rewrite lookup_insert_eq. repeat split.
  - apply (dll_ext h); [|done]. intros q Hq. apply lookup_insert_ne. set_solver.
  - intros q Hq. by apply lookup_insert_ne.
  - rewrite dom_insert_L. apply elem_of_dom_2 in Hp. set_solver.
Qed.

(** Taking a cell out of the list. *)
Lemma unlink_ok h c1 p c c2 :
  dll h None (c1 ++ (p, c) :: c2) None -> NoDup (c1 ++ (p, c) :: c2).*1 ->
  exists h1 h2,
    match last_ptr None c1 with Some pp => upd_next h pp (hd_ptr c2 None) | None => Some h end = Some h1 /\
    match hd_ptr c2 None with Some nx => upd_prev h1 nx (last_ptr None c1) | None => Some h1 end = Some h2 /\
    dll h2 None (c1 ++ c2) None /\ h2 !! p = h !! p /\ dom h2 = dom h.
Proof.
  rewrite fmap_app, dll_app. simpl. intros [H1 Hpc] Hnd. csimpl in Hnd.
  apply NoDup_app in Hnd as (Hnd1 & Hdisj & Hnd2). apply NoDup_cons in Hnd2 as [Hp2 Hnd2].
  assert (Hp1 : p ∉ c1.*1) by (intros Hin; apply (Hdisj p Hin); set_solver).
  assert (H2 : dll h (Some p) c2 None) by (destruct c; apply Hpc). clear Hpc.
  assert (exists h1,
    match last_ptr None c1 with Some pp => upd_next h pp (hd_ptr c2 None) | None => Some h end = Some h1 /\
    dll h1 None c1 (hd_ptr c2 None) /\ dll h1 (Some p) c2 None /\ h1 !! p = h !! p /\ dom h1 = dom h)
    as (h1 & E1 & D1 & D2 & L1 & M1).
  { destruct c1 as [|[pp cc] c0 _] using rev_ind; [by exists h|].
    rewrite last_ptr_app. cbn [last_ptr last].
    rewrite fmap_app in *. simpl in *.
    apply NoDup_app in Hnd1 as (_ & Hd0 & _).
    destruct (upd_next_last h None c0 pp cc (Some p) (hd_ptr c2 None)) as (h1 & E & D & L & M);
      [done|intros Hin; apply (Hd0 _ Hin); set_solver|].
    exists h1. split; [done|]. split; [done|]. split; [|split; [apply L; set_solver|done]].
    apply (dll_ext h); [|done]. intros q Hq. apply L. intros ->. apply (Hdisj pp); set_solver. }
  exists h1.
  assert (exists h2,
    match hd_ptr c2 None with Some nx => upd_prev h1 nx (last_ptr None c1) | None => Some h1 end = Some h2 /\
    dll h2 None c1 (hd_ptr c2 None) /\ dll h2 (last_ptr None c1) c2 None /\ h2 !! p = h1 !! p /\
    dom h2 = dom h1) as (h2 & E2 & D3 & D4 & L2 & M2).
  { destruct c2 as [|[nx cc] c2]; [by exists h1|]. cbn [hd_ptr]. csimpl in *.
    apply NoDup_cons in Hnd2 as [Hnx _].
    destruct (upd_prev_first h1 (Some p) nx cc c2 None (last_ptr None c1)) as (h2 & E & D & L & M);
      [done|done|].
    exists h2. split; [done|]. split; [|split; [done|split; [apply L; set_solver|done]]].
    apply (dll_ext h1); [|done]. intros q Hq. apply L. intros ->. apply (Hdisj nx); set_solver. }
  exists h2. rewrite dll_app. repeat split; congruence.
Qed.

(** Linking an allocated cell in at the front. *)
Lemma link_front_ok h p k v pr nx cs :
  dll h None cs None -> NoDup cs.*1 -> p ∉ cs.*1 -> h !! p = Some (mk_node k v pr nx) ->
  exists h1 h2 h3,
    upd_prev h p None = Some h1 /\ upd_next h1 p (hd_ptr cs None) = Some h2 /\
    match hd_ptr cs None with Some f => upd_prev h2 f (Some p) | None => Some h2 end = Some h3 /\
    dll h3 None ((p, (k, v)) :: cs) None /\ dom h3 = dom h.
Proof.
  intros Hd Hnd Hp Hl.
  assert (Hdom : p ∈ dom h) by (eapply elem_of_dom_2; eauto).
  set (h2 := <[p:=mk_node k v None (hd_ptr cs None)]> h).
  exists (<[p:=mk_node k v None nx]> h), h2.
  assert (E1 : upd_prev h p None = Some (<[p:=mk_node k v None nx]> h)).
  { unfold upd_prev. by rewrite Hl. }
  assert (E2 : upd_next (<[p:=mk_node k v None nx]> h) p (hd_ptr cs None) = Some h2).
  { unfold upd_next. rewrite lookup_insert_eq. simpl. by rewrite insert_insert_eq. }
  assert (Hd2 : dll h2 None cs None).
  { apply (dll_ext h); [|done]. intros q Hq. apply lookup_insert_ne. set_solver. }
  assert (Hp2 : h2 !! p = Some (mk_node k v None (hd_ptr cs None))) by apply lookup_insert_eq.
  assert (Hm : dom h2 = dom h) by (unfold h2; rewrite dom_insert_L; set_solver).
  clearbody h2.
  destruct cs as [|[f c] cs].
  { exists h2. repeat (split; [done|]). repeat split; done. }
  csimpl in *. apply NoDup_cons in Hnd as [Hf Hnd].
  destruct (upd_prev_first h2 None f c cs None (Some p)) as (h3 & E & D & L & M); [done|done|].
  exists h3. do 3 (split; [done|]). split; [|congruence].
  destruct c as [k1 v1]. split; [|done]. rewrite L by set_solver. done.
Qed.

(** ** Refinement *)

Record rep st cs : Prop := {
  rep_dll : dll (heap st) None cs None;
  rep_front : lru_front_ st = hd_ptr cs None;
  rep_tail : lru_tail_ st = last_ptr None cs;
  rep_ptrs : NoDup cs.*1;
  rep_keys : NoDup cs.*2.*1;
  rep_dom : dom (heap st) = list_to_set cs.*1;
  rep_searcher : forall k p, searcher_ st !! k = Some p <-> exists v, (p, (k, v)) ∈ cs }.

Definition represents st (l : list (K * V)) : Prop := exists cs, rep st cs /\ cs.*2 = l.

Lemma rep_empty : rep empty_cache [].
Proof.
  split; simpl; try done; try constructor; try set_solver.
Qed.

Lemma elem_ptr cs p c : (p, c) ∈ cs -> p ∈ cs.*1.
Proof. intros. apply list_elem_of_fmap. by exists (p, c). Qed.
Lemma elem_kv cs p c : (p, c) ∈ cs -> c ∈ cs.*2.
Proof. intros. apply list_elem_of_fmap. by exists (p, c). Qed.

Lemma searcher_None st cs k : rep st cs -> searcher_ st !! k = None -> k ∉ cs.*2.*1.
Proof.
  intros R Hk Hin. apply list_elem_of_fmap in Hin as ([k' v] & -> & Hin).
  apply list_elem_of_fmap in Hin as ([p c] & E & Hin). simpl in *. subst c.
  assert (searcher_ st !! k' = Some p) by (apply (rep_searcher _ _ R); eauto). congruence.
Qed.

Lemma searcher_split st cs k p :
  rep st cs -> searcher_ st !! k = Some p ->
  exists c1 v c2, cs = c1 ++ (p, (k, v)) :: c2 /\
    heap st !! p = Some (mk_node k v (last_ptr None c1) (hd_ptr c2 None)) /\
    Lru.lookup k cs.*2 = Some v /\ Lru.remove k cs.*2 = c1.*2 ++ c2.*2.
Proof.
  intros R Hk. apply (rep_searcher _ _ R) in Hk as [v Hin].
  apply list_elem_of_split in Hin as (c1 & c2 & ->). exists c1, v, c2. split; [done|].
  pose proof (rep_dll _ _ R) as D. rewrite dll_app in D. simpl in D.
  pose proof (rep_keys _ _ R) as N. rewrite !fmap_app in *. csimpl in *.
  split; [apply D|]. split.
  - apply Lru.lookup_elem; [rewrite fmap_app; done|]. set_solver.
  - apply NoDup_app in N as (_ & N1 & N2). apply NoDup_cons in N2 as [N2 _].
    apply Lru.remove_middle; [|done]. intros Hin. apply (N1 k Hin). set_solver.
Qed.

Lemma rep_perm_side st cs cs' h front tail :
  rep st cs -> cs' ≡ₚ cs -> dll h None cs' None -> front = hd_ptr cs' None ->
  tail = last_ptr None cs' -> dom h = dom (heap st) ->
  rep (mk_cache h (searcher_ st) front tail) cs'.
Proof.
  intros R Hp Hd Hf Ht Hdom. split; simpl; auto.
  - rewrite Hp. apply R.
  - rewrite Hp. apply R.
  - rewrite Hdom, Hp. apply R.
  - intros k p. rewrite (rep_searcher _ _ R). by setoid_rewrite Hp.
Qed.

Lemma touch_ok st c1 p k v c2 :
  rep st (c1 ++ (p, (k, v)) :: c2) ->
  exists st', lru_touch st p = Some st' /\ rep st' ((p, (k, v)) :: c1 ++ c2).
Proof.
  intros R. pose proof (rep_dll _ _ R) as D. pose proof (rep_ptrs _ _ R) as N.
  destruct (unlink_ok _ _ _ _ _ D N) as (h1 & h2 & E1 & E2 & D2 & L2 & M2).
  rewrite dll_app in D. simpl in D. destruct D as (_ & Hp & _).
  unfold lru_touch. rewrite Hp. simpl.
  destruct (last_ptr None c1) as [pp|] eqn:Epp.
  2:{ exists st. split; [done|]. destruct c1 as [|c c1 _] using rev_ind; [done|].
      rewrite last_ptr_app in Epp. by destruct c. }
  rewrite E1. simpl.
  assert (Hrest : NoDup (c1 ++ c2).*1 /\ p ∉ (c1 ++ c2).*1).
  { rewrite <- (Permutation_middle c1 c2) in N. csimpl in N. apply NoDup_cons in N. tauto. }
  destruct Hrest as [Hnd Hnot].
  assert (Hc1 : exists c c1', c1 = c :: c1').
  { destruct c1 as [|c c1']; [done|]. by exists c, c1'. }
  assert (Hf : lru_front_ st = hd_ptr (c1 ++ c2) None).
  { rewrite (rep_front _ _ R). by destruct Hc1 as ([q d] & c1' & ->). }
  destruct (link_front_ok h2 p k v (Some pp) (hd_ptr c2 None) (c1 ++ c2)) as (h3 & h4 & h5 & E3 & E4 & E5 & D5 & M5);
    [done..|congruence|].
  assert (Ht : exists tail, match hd_ptr c2 None with
    | Some nx => h ← upd_prev h1 nx (Some pp); Some (h, lru_tail_ st)
    | None => Some (h1, Some pp) end = Some (h2, tail) /\ tail = last_ptr None ((p, (k, v)) :: c1 ++ c2)).
  { rewrite (rep_tail _ _ R), last_ptr_cons, !last_ptr_app, last_ptr_cons.
    destruct Hc1 as ([q d] & c1' & ->). rewrite !last_ptr_cons in *.
    destruct c2 as [|[q2 d2] c2]; simpl in *.
    - simplify_eq. eexists. split; [done|]. by rewrite Epp.
    - rewrite E2. simpl. eexists. split; [done|]. by rewrite !last_ptr_cons. }
  destruct Ht as (tail & -> & Ht). simpl. rewrite E3. simpl. rewrite Hf, E4. simpl.
  rewrite E5. simpl. eexists. split; [done|].
  eapply rep_perm_side; eauto; [|congruence]. by rewrite (Permutation_middle c1 c2).
Qed.

Lemma push_ok st cs p k v :
  rep st cs -> heap st !! p = None -> k ∉ cs.*2.*1 ->
  exists st', lru_push (mk_cache (<[p := mk_node k v None None]> (heap st)) (searcher_ st)
                          (lru_front_ st) (lru_tail_ st)) p = Some st' /\
    rep st' ((p, (k, v)) :: cs).
Proof.
  intros R Hfresh Hk.
  assert (Hp : p ∉ cs.*1).
  { intros Hin. apply not_elem_of_dom in Hfresh. rewrite (rep_dom _ _ R) in Hfresh. set_solver. }
  unfold lru_push. cbn [heap searcher_ lru_front_ lru_tail_].
  destruct (link_front_ok (<[p := mk_node k v None None]> (heap st)) p k v None None cs)
    as (h3 & h4 & h5 & E3 & E4 & E5 & D5 & M5); [|apply R|done|apply lookup_insert_eq|].
  { apply (dll_ext (heap st)); [|apply R]. intros q Hq. apply lookup_insert_ne. set_solver. }
  rewrite E3. simpl. rewrite (rep_front _ _ R), E4. simpl. rewrite E5. simpl.
  assert (Hl : h5 !! p = Some (mk_node k v None (hd_ptr cs None))) by apply D5.
  rewrite Hl. simpl. eexists. split; [done|].
  split; cbn [heap searcher_ lru_front_ lru_tail_]; auto.
  - rewrite (rep_tail _ _ R), last_ptr_cons. destruct cs as [|[q c] cs]; [done|].
    rewrite !last_ptr_cons. unfold last_ptr. by destruct (last cs) as [[? ?]|].
  - csimpl. apply NoDup_cons. split; [done|apply R].
  - csimpl. apply NoDup_cons. split; [done|apply R].
  - rewrite M5, dom_insert_L, (rep_dom _ _ R). csimpl. set_solver.
  - intros k' p'. destruct (decide (k' = k)) as [->|Hne].
    + rewrite lookup_insert_eq. split.
      * intros [= ->]. exists v. set_solver.
      * intros [v' [[= -> _]|Hin]%elem_of_cons]; [done|].
        destruct Hk. apply elem_kv in Hin. apply list_elem_of_fmap. by exists (k, v').
    + rewrite lookup_insert_ne by done. rewrite (rep_searcher _ _ R).
      split; intros [v' Hin]; exists v'; [set_solver|].
      apply elem_of_cons in Hin as [[= -> -> ->]|]; done.
Qed.

Lemma remove_ok st c1 p k v c2 :
  rep st (c1 ++ (p, (k, v)) :: c2) ->
  exists st', lru_remove st p = Some st' /\ rep st' (c1 ++ c2).
Proof.
  intros R. pose proof (rep_dll _ _ R) as D. pose proof (rep_ptrs _ _ R) as N.
  destruct (unlink_ok _ _ _ _ _ D N) as (h1 & h2 & E1 & E2 & D2 & L2 & M2).
  rewrite dll_app in D. simpl in D. destruct D as (_ & Hp & _).
  unfold lru_remove. rewrite Hp. simpl. rewrite E1. simpl. rewrite E2. simpl.
  eexists. split; [done|].
  rewrite <- (Permutation_middle c1 c2) in N. csimpl in N. apply NoDup_cons in N as [Hnot N].
  pose proof (rep_keys _ _ R) as Nk. rewrite <- (Permutation_middle c1 c2) in Nk.
  csimpl in Nk. apply NoDup_cons in Nk as [Hk Nk].
  split; cbn [heap searcher_ lru_front_ lru_tail_]; auto.
  - apply (dll_ext h2); [|done]. intros q Hq. apply lookup_delete_ne. set_solver.
  - rewrite (rep_front _ _ R). destruct c1 as [|[q c] c1]; simpl.
    + by rewrite decide_True.
    + rewrite decide_False; [done|]. intros [= ->]. apply Hnot. csimpl. set_solver.
  - rewrite (rep_tail _ _ R), !last_ptr_app, last_ptr_cons.
    destruct c2 as [|[q c] c2]; cbn [last_ptr last].
    + by rewrite decide_True.
    + rewrite !last_ptr_cons. rewrite decide_False; [done|]. intros Hl.
      apply last_ptr_elem in Hl. apply Hnot. rewrite fmap_app. csimpl. set_solver.
  - rewrite dom_delete_L, M2, (rep_dom _ _ R), !fmap_app, !list_to_set_app_L. csimpl.
    rewrite fmap_app in Hnot. set_solver.
  - intros k' p'. destruct (decide (k' = k)) as [->|Hne].
    + rewrite lookup_delete_eq. split; [done|]. intros [v' Hin]. destruct Hk.
      apply elem_kv in Hin. apply list_elem_of_fmap. by exists (k, v').
    + rewrite lookup_delete_ne by done. rewrite (rep_searcher _ _ R).
      setoid_rewrite <- (Permutation_middle c1 c2). setoid_rewrite elem_of_cons.
      split; intros [v' Hin]; exists v'; [|tauto]. destruct Hin as [[= -> -> ->]|]; done.
Qed.

Lemma rep_get st cs key :
  rep st cs ->
  exists st' cs', get st key = Some ((Lru.get key cs.*2).1, st') /\ rep st' cs' /\ cs'.*2 = (Lru.get key cs.*2).2.
Proof.
  intros R. unfold get, Lru.get. destruct (searcher_ st !! key) as [p|] eqn:E.
  - destruct (searcher_split _ _ _ _ R E) as (c1 & v & c2 & -> & _ & -> & ->).
    destruct (touch_ok _ _ _ _ _ _ R) as (st' & -> & R'). simpl.
    destruct (rep_dll _ _ R') as [Hp _]. rewrite Hp. simpl.
    eexists _, _. split; [done|]. split; [done|]. csimpl. by rewrite fmap_app.
  - apply (searcher_None _ _ _ R) in E. rewrite (proj2 (Lru.lookup_None key cs.*2)) by done.
    by exists st, cs.
Qed.

Lemma rep_put st cs key value ln :
  rep st cs -> heap st !! ln = None ->
  exists st' cs', put st key value ln = Some st' /\ rep st' cs' /\ cs'.*2 = Lru.put key value cs.*2.
Proof.
  intros R Hfresh. unfold put, Lru.put. destruct (searcher_ st !! key) as [p|] eqn:E.
  - destruct (searcher_split _ _ _ _ R E) as (c1 & v & c2 & -> & Hp & _ & ->). rewrite Hp. simpl.
    pose proof (rep_ptrs _ _ R) as N. pose proof (rep_keys _ _ R) as Nk.
    destruct (touch_ok (mk_cache (<[p:=mk_node key value (last_ptr None c1) (hd_ptr c2 None)]> (heap st))
      (searcher_ st) (lru_front_ st) (lru_tail_ st)) c1 p key value c2) as (st' & Ht & R').
    2:{ exists st'. eexists. split; [done|]. split; [done|]. csimpl. by rewrite fmap_app. }
    rewrite !fmap_app in N. rewrite fmap_app, fmap_cons, fmap_app, fmap_cons in Nk.
    csimpl in N. simpl in Nk.
    split; cbn [heap searcher_ lru_front_ lru_tail_].
    + pose proof (rep_dll _ _ R) as D. rewrite dll_app in *. simpl in *. rewrite lookup_insert_eq.
      apply NoDup_app in N as (_ & N1 & N2). apply NoDup_cons in N2 as [N2 _].
      split; [|split; [done|]].
      * apply (dll_ext (heap st)); [|apply D]. intros q Hq. apply lookup_insert_ne.
        intros ->. apply (N1 _ Hq). set_solver.
      * apply (dll_ext (heap st)); [|apply D]. intros q Hq. apply lookup_insert_ne. set_solver.
    + rewrite (rep_front _ _ R). by rewrite !hd_ptr_app.
    + rewrite (rep_tail _ _ R). by rewrite !last_ptr_app, !last_ptr_cons.
    + rewrite !fmap_app. csimpl. done.
    + rewrite !fmap_app. csimpl. done.
    + rewrite dom_insert_L, (rep_dom _ _ R), !fmap_app. csimpl. set_solver.
    + intros k' p'. rewrite (rep_searcher _ _ R). setoid_rewrite elem_of_app. setoid_rewrite elem_of_cons.
      split; intros [v' Hin]; destruct Hin as [Hin|[[= -> -> ->]|Hin]]; eauto 6.
  - apply (searcher_None _ _ _ R) in E.
    destruct (push_ok _ _ _ _ value R Hfresh E) as (st' & -> & R').
    eexists _, _. split; [done|]. split; [done|]. csimpl. by rewrite Lru.remove_notin.
Qed.

Lemma rep_remove st cs key :
  rep st cs -> exists st' cs', remove st key = Some st' /\ rep st' cs' /\ cs'.*2 = Lru.remove key cs.*2.
Proof.
  intros R. unfold remove. destruct (searcher_ st !! key) as [p|] eqn:E.
  - destruct (searcher_split _ _ _ _ R E) as (c1 & v & c2 & -> & _ & _ & ->).
    destruct (remove_ok _ _ _ _ _ _ R) as (st' & -> & R').
    eexists _, _. split; [done|]. split; [done|]. by rewrite fmap_app.
  - apply (searcher_None _ _ _ R) in E. exists st, cs. by rewrite Lru.remove_notin.
Qed.

Lemma rep_count st cs : rep st cs -> lru_count st = zlen cs.
Proof.
  intros R. unfold lru_count, zlen. f_equal.
  assert (E : searcher_ st = list_to_map ((fun c : cell => (c.2.1, c.1)) <$> cs)).
  { assert (Nk : NoDup ((fun c : cell => (c.2.1, c.1)) <$> cs).*1).
    { rewrite <- list_fmap_compose. pose proof (rep_keys _ _ R) as N.
      rewrite <- list_fmap_compose in N. exact N. }
    apply map_eq. intros k. apply option_eq. intros p. rewrite (rep_searcher _ _ R).
    rewrite <- (elem_of_list_to_map _ _ _ Nk), list_elem_of_fmap. split.
    - intros [v Hv]. by exists (p, (k, v)).
    - intros ([p' [k' v]] & [= -> ->] & Hin). by exists v. }
  rewrite E, map_size_list_to_map, length_fmap; [done|].
  rewrite <- list_fmap_compose. pose proof (rep_keys _ _ R) as N.
  rewrite <- list_fmap_compose in N. exact N.
Qed.

(** ** Traversals *)

Lemma foreach_loop_ok {S} (func : S -> K -> V -> S * bool) h prev cs s fuel :
  dll h prev cs None -> (length cs <= fuel)%nat ->
  foreach_loop func next_ h (hd_ptr cs None) s fuel = Some (Lru.foreach func s cs.*2).
Proof.
  revert prev s fuel. induction cs as [|[p [k v]] cs IH]; intros prev s fuel Hd Hf; simpl in *.
  { by destruct fuel. }
  destruct fuel as [|fuel]; [lia|]. simpl. destruct Hd as [Hp Hd]. rewrite Hp. simpl.
  destruct (func s k v) as [s' ret]. destruct ret; [|done]. apply (IH (Some p)); [done|lia].
Qed.

Lemma foreach_reverse_loop_ok {S} (func : S -> K -> V -> S * bool) h cs next s fuel :
  dll h None cs next -> (length cs <= fuel)%nat ->
  foreach_loop func prev_ h (last_ptr None cs) s fuel = Some (Lru.foreach_reverse func s cs.*2).
Proof.
  revert next s fuel. induction cs as [|[p [k v]] cs IH] using rev_ind; intros next s fuel Hd Hf.
  { by destruct fuel. }
  rewrite length_app in Hf. simpl in Hf. destruct fuel as [|fuel]; [lia|].
  rewrite dll_app in Hd. simpl in Hd. destruct Hd as (Hd & Hp & _).
  rewrite last_ptr_app. cbn [last_ptr last foreach_loop]. rewrite Hp. simpl.
  unfold Lru.foreach_reverse. rewrite fmap_app, reverse_app. csimpl. simpl.
  destruct (func s k v) as [s' ret]. destruct ret; [|done]. apply (IH (Some p)); [done|lia].
Qed.

Lemma rep_heap_size st cs : rep st cs -> size (heap st) = length cs.
Proof.
  intros R. rewrite <- size_dom, (rep_dom _ _ R), size_list_to_set by apply R. by rewrite length_fmap.
Qed.

(** C23: The pointer structure refines the list: from a cache that represents
    [l], [get], [put] and [remove] run without a dangling access, return what
    the list operations return and leave a cache that represents their
    result, and [count] is the number of entries. *)
Theorem lru_cache_refines st (l : list (K * V)) key value ln :
  represents st l -> heap st !! ln = None ->
  (exists st', get st key = Some ((Lru.get key l).1, st') /\ represents st' (Lru.get key l).2) /\
  (exists st', put st key value ln = Some st' /\ represents st' (Lru.put key value l)) /\
  (exists st', remove st key = Some st' /\ represents st' (Lru.remove key l)) /\
  lru_count st = zlen l.
Proof.
  intros (cs & R & <-) Hfresh. unfold represents. split; [|split; [|split]].
  - destruct (rep_get st cs key R) as (st' & cs' & ? & ? & ?). eauto.
  - destruct (rep_put st cs key value ln R Hfresh) as (st' & cs' & ? & ? & ?). eauto.
  - destruct (rep_remove st cs key R) as (st' & cs' & ? & ? & ?). eauto.
  - rewrite (rep_count _ _ R). unfold zlen. by rewrite length_fmap.
Qed.

(** C24: The traversals terminate within as many steps as there are nodes and
    visit the entries from the most to the least recently used one,
    [foreach_reverse] the other way round, until the callback stops them. *)
Theorem lru_foreach_order {S} (func : S -> K -> V -> S * bool) st (l : list (K * V)) s :
  represents st l ->
  foreach func st s = Some (Lru.foreach func s l) /\
  foreach_reverse func st s = Some (Lru.foreach_reverse func s l).
Proof.
  intros (cs & R & <-). unfold foreach, foreach_reverse. rewrite (rep_front _ _ R), (rep_tail _ _ R).
  pose proof (rep_heap_size _ _ R). pose proof (rep_dll _ _ R). split.
  - eapply foreach_loop_ok; [done|lia].
  - eapply foreach_reverse_loop_ok; [done|lia].
Qed.
End lru_cache.
Arguments ListNode : clear implicits.
Arguments LruCache K V {_ _}.
End Impl.

(** A cache of three entries, built with the operations. *)
Definition sample_cache : option (Impl.LruCache Z Z) :=
  st ← Impl.put Impl.empty_cache 1 10 1%positive;
  st ← Impl.put st 2 20 2%positive;
  Impl.put st 3 30 3%positive.

Lemma sample_cache_ok :
  exists st, sample_cache = Some st /\ Impl.represents st [(3, 30); (2, 20); (1, 10)] /\
    Impl.heap st !! 4%positive = None.
Proof.
  destruct (Impl.rep_put Impl.empty_cache [] 1 10 1%positive Impl.rep_empty eq_refl) as (s1 & c1 & E1 & R1 & H1).
  injection E1 as <-.
  destruct (Impl.rep_put _ _ 2 20 2%positive R1 eq_refl) as (s2 & c2 & E2 & R2 & H2).
  injection E2 as <-.
  destruct (Impl.rep_put _ _ 3 30 3%positive R2 eq_refl) as (s3 & c3 & E3 & R3 & H3).
  injection E3 as <-. eexists. split; [reflexivity|]. split; [|reflexivity].
  exists c3. split; [done|]. by rewrite H3, H2, H1.
Qed.

Lemma lru_cache_refines_witness :
  exists st, sample_cache = Some st /\
    exists st', Impl.get st 1 = Some (Some 10, st') /\ Impl.represents st' [(1, 10); (3, 30); (2, 20)].
Proof.
  destruct sample_cache_ok as (st & E & R & F). exists st. split; [exact E|].
  exact (proj1 (Impl.lru_cache_refines st _ 1 0 4%positive R F)).
Defined.

Lemma lru_foreach_order_witness :
  exists st, sample_cache = Some st /\
    Impl.foreach_reverse (fun acc k _ => (acc ++ [k], true)) st [] = Some [1; 2; 3].
Proof.
  destruct sample_cache_ok as (st & E & R & F). exists st. split; [exact E|].
  exact (proj2 (Impl.lru_foreach_order (fun acc k _ => (acc ++ [k], true)) st _ [] R)).
Defined.
