(* ===== verification/MemPool.v ===== *)
(** * The memory pool (deps/common/mm/mem_pool.h, class [MemPoolSimple])

    A pool hands out items of arrays it allocates in one piece.  Items are
    addresses; what [new T[n]] returns is an argument of the operations
    ([None] is a null pointer).  The life of a pool is a step relation, and the
    invariant of every reachable pool is that an item is free or in use, never
    both and never twice in the free list. *)

From S2P Require Import Prelude.
From stdpp Require Import base gmap list.
From Stdlib Require Import ZArith Lia.
#[local] Open Scope Z_scope.

Record MemPool : Type := mk_MemPool {
  pools : list Z;
  used : gset Z;
  frees : list Z;
  item_num_per_pool : Z;
  pool_size : Z;
  dynamic : bool }.

Definition DEFAULT_ITEM_NUM_PER_POOL : Z := 128.

Definition new_MemPool : MemPool := mk_MemPool [] ∅ [] 0 0 false.

(** [pool + 0, ..., pool + (n - 1)] *)
Definition items (pool n : Z) : list Z := (fun i => pool + i) <$> seqZ 0 n.

(** The result is the C return value, 0 or -1. *)
Definition extend (mp : MemPool) (new : option Z) : Z * MemPool :=
  if negb (dynamic mp) then (-1, mp)
  else match new with
       | None => (-1, mp)
       | Some pool =>
           (0, mk_MemPool (pools mp ++ [pool]) (used mp)
                 (frees mp ++ items pool (item_num_per_pool mp))
                 (item_num_per_pool mp) (to_int32 (pool_size mp + item_num_per_pool mp)) (dynamic mp))
       end.

Definition cleanup (mp : MemPool) : MemPool :=
  match pools mp with
  | [] => mp
  | _ => mk_MemPool [] ∅ [] (item_num_per_pool mp) 0 (dynamic mp)
  end.

(** The extension loop of [init]; [news] is what the allocations return. *)
Fixpoint extend_loop (mp : MemPool) (news : list (option Z)) : Z * MemPool :=
  match news with
  | [] => (0, mp)
  | new :: news =>
      let (ret, mp) := extend mp new in
      if ret <? 0 then (-1, cleanup mp) else extend_loop mp news
  end.

Definition init (mp : MemPool) (dyn : bool) (pool_num item_num : Z) (news : Z -> option Z) : Z * MemPool :=
  match pools mp with
  | _ :: _ => (0, mp)
  | [] =>
      if (pool_num <=? 0) || (item_num <=? 0) then (-1, mp)
      else
        let mp := mk_MemPool (pools mp) (used mp) (frees mp) item_num (pool_size mp) true in
        let (ret, mp) := extend_loop mp (news <$> seqZ 0 pool_num) in
        if ret <? 0 then (-1, mp)
        else (0, mk_MemPool (pools mp) (used mp) (frees mp) (item_num_per_pool mp) (pool_size mp) dyn)
  end.

(** Taking the first free item. *)
Definition take_front (mp : MemPool) : option Z * MemPool :=
  match frees mp with
  | [] => (None, mp)
  | buffer :: frees =>
      (Some buffer, mk_MemPool (pools mp) ({[ buffer ]} ∪ used mp) frees (item_num_per_pool mp)
                      (pool_size mp) (dynamic mp))
  end.

Definition alloc (mp : MemPool) (new : option Z) : option Z * MemPool :=
  match frees mp with
  | [] =>
      if negb (dynamic mp) then (None, mp)
      else let (ret, mp) := extend mp new in
           if ret <? 0 then (None, mp) else take_front mp
  | _ => take_front mp
  end.

Definition free (mp : MemPool) (buf : Z) : MemPool :=
  if decide (buf ∈ used mp) then
    mk_MemPool (pools mp) (used mp ∖ {[ buf ]}) (frees mp ++ [buf]) (item_num_per_pool mp)
      (pool_size mp) (dynamic mp)
  else mp.

(** ** The states of a pool *)

(** The array [pool] of [n] items overlaps none of the pool's arrays. *)
Definition fresh_array (mp : MemPool) (pool n : Z) : Prop :=
  forall x, x ∈ items pool n -> (x ∉ used mp) /\ (x ∉ frees mp).

Inductive step : MemPool -> MemPool -> Prop :=
| step_init mp dyn pool_num item_num news :
    (forall i pool, news i = Some pool -> fresh_array mp pool item_num /\
       forall j pool', j <> i -> news j = Some pool' ->
         forall x, x ∈ items pool item_num -> x ∉ items pool' item_num) ->
    step mp (init mp dyn pool_num item_num news).2
| step_extend mp pool : fresh_array mp pool (item_num_per_pool mp) -> step mp (extend mp (Some pool)).2
| step_extend_fails mp : step mp (extend mp None).2
| step_alloc mp new :
    (forall pool, new = Some pool -> fresh_array mp pool (item_num_per_pool mp)) ->
    step mp (alloc mp new).2
| step_free mp buf : step mp (free mp buf)
| step_cleanup mp : step mp (cleanup mp).

Inductive reachable : MemPool -> Prop :=
| reachable_new : reachable new_MemPool
| reachable_step mp mp' : reachable mp -> step mp mp' -> reachable mp'.

Record wf (mp : MemPool) : Prop := {
  wf_nodup : NoDup (frees mp);
  wf_disj : forall x, x ∈ frees mp -> x ∉ used mp }.

Lemma items_NoDup pool n : NoDup (items pool n).
Proof. unfold items. apply NoDup_fmap_2; [intros x y; lia|]. apply NoDup_seqZ. Qed.

Lemma elem_of_items pool n x : x ∈ items pool n <-> pool <= x < pool + n.
Proof.
  unfold items. rewrite list_elem_of_fmap. setoid_rewrite elem_of_seqZ.
  split; [intros (i & -> & ?); lia|]. intros. exists (x - pool). lia.
Qed.

Lemma extend_wf mp new :
  wf mp -> (forall pool, new = Some pool -> fresh_array mp pool (item_num_per_pool mp)) ->
  wf (extend mp new).2.
Proof.
  intros [Hn Hd] Hf. unfold extend. destruct (dynamic mp); simpl; [|done].
  destruct new as [pool|]; [|done]. specialize (Hf pool eq_refl). split; simpl.
  - apply NoDup_app. split; [done|]. split; [|apply items_NoDup]. intros x Hx Hi. by apply (Hf x Hi).
  - intros x [Hx|Hx]%elem_of_app; [by apply Hd|by apply Hf].
Qed.

Lemma take_front_wf mp : wf mp -> wf (take_front mp).2.
Proof.
  intros [Hn Hd]. unfold take_front. destruct (frees mp) as [|b l] eqn:E; simpl; [by split; rewrite ?E|].
  apply NoDup_cons in Hn as [Hb Hl]. split; simpl; [done|]. set_solver.
Qed.

Lemma cleanup_wf mp : wf mp -> wf (cleanup mp).
Proof. intros Hwf. unfold cleanup. destruct (pools mp); [done|]. split; simpl; [constructor|set_solver]. Qed.

Lemma alloc_wf mp new :
  wf mp -> (forall pool, new = Some pool -> fresh_array mp pool (item_num_per_pool mp)) -> wf (alloc mp new).2.
Proof.
  intros Hwf Hf. unfold alloc. destruct (frees mp) eqn:E; [|by apply take_front_wf].
  destruct (dynamic mp) eqn:Ed; simpl; [|done].
  pose proof (extend_wf mp new Hwf Hf) as He. destruct (extend mp new) as [ret mp']. simpl in *.
  destruct (ret <? 0); simpl; [done|]. by apply take_front_wf.
Qed.

Lemma free_wf mp buf : wf mp -> wf (free mp buf).
Proof.
  intros [Hn Hd]. unfold free. case_decide as Hu; [|by split]. split; simpl.
  - apply NoDup_app. split; [done|]. split; [|apply NoDup_singleton].
    intros x Hx Hb. apply list_elem_of_singleton in Hb as ->. by apply (Hd buf).
  - intros x [Hx|Hx]%elem_of_app; [pose proof (Hd x Hx); set_solver|].
    apply list_elem_of_singleton in Hx as ->. set_solver.
Qed.

(** The arrays still to come in the loop are disjoint from what the pool has
    and from each other. *)
Fixpoint fresh_arrays (mp : MemPool) (news : list (option Z)) : Prop :=
  match news with
  | [] => True
  | new :: news =>
      (forall pool, new = Some pool -> fresh_array mp pool (item_num_per_pool mp)) /\
      (forall pool pool', new = Some pool -> Some pool' ∈ news ->
         forall x, x ∈ items pool (item_num_per_pool mp) -> x ∉ items pool' (item_num_per_pool mp)) /\
      fresh_arrays mp news
  end.

Lemma fresh_arrays_extend mp pool news :
  fresh_arrays mp news ->
  (forall pool', Some pool' ∈ news -> forall x, x ∈ items pool (item_num_per_pool mp) ->
     x ∉ items pool' (item_num_per_pool mp)) ->
  fresh_arrays (extend mp (Some pool)).2 news.
Proof.
  intros H Hp. unfold extend. destruct (dynamic mp); [|done]. simpl.
  induction news as [|new news IH]; [done|]. destruct H as (H1 & H2 & H3). simpl. repeat split.
  - intros; apply (H1 _ H); done.
  - intros Hin. apply elem_of_app in Hin as [Hin|Hin]; [by apply (H1 _ H x)|].
    apply (Hp pool0 ltac:(subst; set_solver) x Hin). done.
  - intros p q Hq Hn. by apply H2.
  - apply IH; [done|]. intros. apply Hp; [set_solver|done].
Qed.

Lemma extend_loop_wf mp news : wf mp -> fresh_arrays mp news -> wf (extend_loop mp news).2.
Proof.
  revert mp. induction news as [|new news IH]; intros mp Hwf Hf; simpl; [done|].
  destruct Hf as (H1 & H2 & H3). pose proof (extend_wf mp new Hwf H1) as He.
  destruct new as [pool|].
  - pose proof (fresh_arrays_extend mp pool news H3 (fun p' => H2 pool p' eq_refl)) as Hf'.
    destruct (extend mp (Some pool)) as [ret mp']. simpl in *.
    destruct (ret <? 0); simpl; [by apply cleanup_wf|auto].
  - unfold extend in *. destruct (dynamic mp); simpl; by apply cleanup_wf.
Qed.

Lemma init_wf mp dyn pool_num item_num news :
  wf mp ->
  (forall i pool, news i = Some pool -> fresh_array mp pool item_num /\
     forall j pool', j <> i -> news j = Some pool' ->
       forall x, x ∈ items pool item_num -> x ∉ items pool' item_num) ->
  wf (init mp dyn pool_num item_num news).2.
Proof.
  intros Hwf Hnews. unfold init. destruct (pools mp) eqn:Ep; [|done].
  destruct ((pool_num <=? 0) || (item_num <=? 0)); [done|].
  match goal with |- context [extend_loop ?m ?l] =>
    assert (Hloop : wf (extend_loop m l).2); [|destruct (extend_loop m l) as [ret mp']] end.
  - apply extend_loop_wf; [by destruct Hwf; split|].
    generalize (NoDup_seqZ 0 pool_num). generalize (seqZ 0 pool_num). intros ids.
    induction ids as [|i ids IH]; intros Hn; [exact I|].
    apply NoDup_cons in Hn as [Hi Hn]. simpl. split; [|split; [|by apply IH]].
    + intros pool Hp. by apply (Hnews i).
    + intros pool pool' Hp Hin. apply list_elem_of_fmap in Hin as (j & Hj & Hin).
      apply (proj2 (Hnews i pool Hp) j pool'); [|done]. intros ->. done.
  - simpl in *. destruct (ret <? 0); simpl; [done|]. by destruct Hloop; split.
Qed.

(** C20: In every state a pool can reach, the free list has no duplicates and no
    free item is in use, as long as the arrays [new] returns do not overlap
    live ones. *)
Theorem mem_pool_invariant mp : reachable mp -> wf mp.
Proof.
  induction 1 as [|mp mp' _ IH Hs]; [split; [constructor|set_solver]|].
  destruct Hs; [by apply init_wf|apply extend_wf|apply extend_wf|by apply alloc_wf|by apply free_wf|by apply cleanup_wf];
    try done. by intros ? [= <-].
Qed.

(** What [alloc] hands out was not in use and is in use now; without
    [dynamic] it comes from the free list. *)
Lemma alloc_spec mp new b mp' :
  wf mp -> dynamic mp = false -> alloc mp new = (Some b, mp') ->
  b ∈ frees mp /\ (b ∉ used mp) /\ used mp' = {[ b ]} ∪ used mp /\ dynamic mp' = false /\ wf mp'.
Proof.
  intros Hwf Hdyn Ha.
  assert (Hwf' : wf mp').
  { change mp' with (Some b, mp').2. rewrite <- Ha. clear Ha b mp'.
    unfold alloc. destruct (frees mp) eqn:E; rewrite ?Hdyn; [done|by apply take_front_wf]. }
  unfold alloc, take_front in Ha. destruct (frees mp) as [|x l] eqn:E; [by rewrite Hdyn in Ha|].
  simplify_eq. destruct Hwf as [_ Hd]. rewrite E in Hd. simpl.
  split; [set_solver|]. split; [apply Hd; set_solver|]. done.
Qed.

Lemma alloc_None mp new mp' : dynamic mp = false -> alloc mp new = (None, mp') -> frees mp = [] /\ mp' = mp.
Proof.
  unfold alloc, take_front. destruct (frees mp) eqn:E; [|done]. intros ->. simpl. by intros [= <-].
Qed.

Lemma free_spec mp b :
  wf mp -> b ∈ used mp ->
  used (free mp b) = used mp ∖ {[ b ]} /\ frees (free mp b) = frees mp ++ [b] /\
  dynamic (free mp b) = dynamic mp /\ wf (free mp b).
Proof.
  intros Hwf Hb. split; [|split; [|split; [|by apply free_wf]]]; unfold free; by rewrite decide_True by done.
Qed.

(** A pool of one array of two items. *)
Definition one_array (i : Z) : option Z := if i =? 0 then Some 100 else None.
Definition pool_of_2 : MemPool := (init new_MemPool false 1 2 one_array).2.

Lemma mem_pool_invariant_witness : wf (free (alloc pool_of_2 None).2 100).
Proof.
  apply mem_pool_invariant. eapply reachable_step; [|apply step_free].
  eapply reachable_step; [|apply step_alloc; done].
  apply (reachable_step new_MemPool); [constructor|]. apply step_init.
  unfold one_array. intros i pool Hi. split; [intros x Hx; split; simpl; set_solver|].
  intros j pool' Hne Hj. destruct (Z.eqb_spec i 0), (Z.eqb_spec j 0); congruence.
Defined.
