(* ===== verification/BufferPool.v ===== *)
(** * The buffer pool (storage/default/disk_buffer_pool.h, disk_buffer_pool.cpp)

    One [BufferPoolManager] owns the frames and the open paged files.  The
    state holds all of it: the frame table of [BPFrameManager] (an LRU cache
    used through its specification [Lru], and a memory pool of frames), the
    frames, the [DiskBufferPool] objects by address, the two directories of
    the manager, and the files of the operating system.

    Frames and pool objects are referred to by address, as in the code, so the
    header page that [file_header_] points into is the page of the header
    frame.  A call to the operating system takes its success from the list
    [faults] ([false] is a failure; when the list is used up calls succeed).
    Files are sequences of pages, since all input and output is in pages. *)

From S2P Require Import Prelude.
From S2P Require Import Bytes.
From S2P Require Import Bitmap.
From S2P Require Import Monad.
From S2P Require Import LruCache.
From S2P Require Import MemPool.
From stdpp Require Import base gmap list strings.
From Stdlib Require Import ZArith Lia.
#[local] Open Scope Z_scope.

Definition BP_PAGE_SIZE : Z := 16384.
Definition BP_PAGE_DATA_SIZE : Z := BP_PAGE_SIZE - 4.
Definition MAX_PAGE_NUM : Z := (BP_PAGE_DATA_SIZE - 4 - 4) * 8.
Definition BP_HEADER_PAGE : PageNum := 0.
Definition MEM_POOL_ITEM_NUM : Z := 128.

(** ** Data *)

Record Page : Type := mk_Page { page_no : PageNum; data : list Z }.

Definition zero_page : Page := mk_Page 0 (replicate (Z.to_nat BP_PAGE_DATA_SIZE) 0).

Record Frame : Type := mk_Frame {
  dirty_ : bool;
  pin_count_ : Z;
  acc_time_ : Z;
  file_desc_ : Z;
  page_ : Page }.

(** A frame as constructed; its page is not initialised. *)
Definition new_Frame : Frame := mk_Frame false 0 0 (-1) zero_page.

Definition set_dirty (b : bool) (f : Frame) : Frame :=
  mk_Frame b (pin_count_ f) (acc_time_ f) (file_desc_ f) (page_ f).
Definition set_pin (n : Z) (f : Frame) : Frame :=
  mk_Frame (dirty_ f) (to_uint32 n) (acc_time_ f) (file_desc_ f) (page_ f).
Definition set_page (p : Page) (f : Frame) : Frame :=
  mk_Frame (dirty_ f) (pin_count_ f) (acc_time_ f) (file_desc_ f) p.
Definition set_acc_time (t : Z) (f : Frame) : Frame :=
  mk_Frame (dirty_ f) (pin_count_ f) t (file_desc_ f) (page_ f).
Definition set_data (d : list Z) (f : Frame) : Frame := set_page (mk_Page (page_no (page_ f)) d) f.
Definition mark_dirty : Frame -> Frame := set_dirty true.
Definition can_purge (f : Frame) : bool := pin_count_ f <=? 0.

Abbreviation BPFrameId := (Z * PageNum)%type.

(** A [DiskBufferPool]; [hdr_frame_] and [file_header_] are frame addresses. *)
Record DBP : Type := mk_DBP {
  file_name_ : string;
  file_desc : Z;
  hdr_frame_ : option Z;
  file_header_ : option Z;
  disposed_pages : gset PageNum }.

Record BP : Type := mk_BP {
  frames_ : list (BPFrameId * Z);
  allocator_ : MemPool;
  frame_store : gmap Z Frame;
  dbps : gmap Z DBP;
  buffer_pools_ : gmap string Z;
  fd_buffer_pools_ : gmap Z Z;
  files : gmap string (list Page);
  fds : gmap Z string;
  clock : Z;
  faults : list bool }.

Definition set_frames x s := mk_BP x (allocator_ s) (frame_store s) (dbps s) (buffer_pools_ s) (fd_buffer_pools_ s) (files s) (fds s) (clock s) (faults s).
Definition set_allocator x s := mk_BP (frames_ s) x (frame_store s) (dbps s) (buffer_pools_ s) (fd_buffer_pools_ s) (files s) (fds s) (clock s) (faults s).
Definition set_frame_store x s := mk_BP (frames_ s) (allocator_ s) x (dbps s) (buffer_pools_ s) (fd_buffer_pools_ s) (files s) (fds s) (clock s) (faults s).
Definition set_dbps x s := mk_BP (frames_ s) (allocator_ s) (frame_store s) x (buffer_pools_ s) (fd_buffer_pools_ s) (files s) (fds s) (clock s) (faults s).
Definition set_buffer_pools x s := mk_BP (frames_ s) (allocator_ s) (frame_store s) (dbps s) x (fd_buffer_pools_ s) (files s) (fds s) (clock s) (faults s).
Definition set_fd_buffer_pools x s := mk_BP (frames_ s) (allocator_ s) (frame_store s) (dbps s) (buffer_pools_ s) x (files s) (fds s) (clock s) (faults s).
Definition set_files x s := mk_BP (frames_ s) (allocator_ s) (frame_store s) (dbps s) (buffer_pools_ s) (fd_buffer_pools_ s) x (fds s) (clock s) (faults s).
Definition set_fds x s := mk_BP (frames_ s) (allocator_ s) (frame_store s) (dbps s) (buffer_pools_ s) (fd_buffer_pools_ s) (files s) x (clock s) (faults s).
Definition set_clock x s := mk_BP (frames_ s) (allocator_ s) (frame_store s) (dbps s) (buffer_pools_ s) (fd_buffer_pools_ s) (files s) (fds s) x (faults s).
Definition set_faults x s := mk_BP (frames_ s) (allocator_ s) (frame_store s) (dbps s) (buffer_pools_ s) (fd_buffer_pools_ s) (files s) (fds s) (clock s) x.

(** The frame at an address: the arrays of the memory pool live as long as the
    manager, so every address that was handed out stays valid. *)
Definition frame_at (s : BP) (a : Z) : Frame := default new_Frame (frame_store s !! a).
Definition upd_frame (a : Z) (f : Frame -> Frame) : M BP unit :=
  modify (fun s => set_frame_store (<[a := f (frame_at s a)]> (frame_store s)) s).

(** A pool object; [Stuck] when it has been deleted. *)
Definition get_dbp (this : Z) : M BP DBP := fun s => of_option (dbps s !! this) s.
Definition put_dbp (this : Z) (p : DBP) : M BP unit := modify (fun s => set_dbps (<[this := p]> (dbps s)) s).

(** [current_time()]: a monotonic clock. *)
Definition current_time : M BP Z := fun s => Ret (clock s) (set_clock (clock s + 1) s).

(** ** The operating system *)

Definition io_ok : M BP bool := fun s =>
  match faults s with [] => Ret true s | b :: l => Ret b (set_faults l s) end.

(** The content of a file after writing page [i]; a gap reads as zeros. *)
Definition write_page (l : list Page) (i : Z) (p : Page) : list Page :=
  if i <? zlen l then <[Z.to_nat i := p]> l
  else l ++ replicate (Z.to_nat i - length l) zero_page ++ [p].

(** [lseek(fd, offset, SEEK_SET)] *)
Definition lseek (fd offset : Z) : M BP Z := fun s =>
  Ret (if decide (is_Some (fds s !! fd)) then if offset <? 0 then -1 else offset else -1) s.

(** [writen(fd, &page, sizeof(Page))] behind an [lseek] to page [i]: 0, or an error. *)
Definition writen (fd i : Z) (p : Page) : M BP Z := fun s =>
  match fds s !! fd with
  | None => Ret 9 s
  | Some name =>
      if i <? 0 then Stuck
      else (ok ← io_ok;
            if ok : bool then
              modify (fun s => set_files (<[name := write_page (default [] (files s !! name)) i p]> (files s)) s);;
              mret 0
            else mret 5) s
  end.

(** [readn(fd, &page, sizeof(Page))]: nothing at the end of the file. *)
Definition readn (fd i : Z) : M BP (option Page) := fun s =>
  match fds s !! fd with
  | None => Ret None s
  | Some name =>
      (ok ← io_ok;
       mret (if ok : bool then zget (default [] (files s !! name)) i else None)) s
  end.

(** ** BPFrameManager *)

Module BPFrameManager.

Definition init (pool_num : Z) (news : Z -> option Z) : M BP unit := fun s =>
  let (ret, mp) := MemPool.init (allocator_ s) false pool_num DEFAULT_ITEM_NUM_PER_POOL news in
  if ret =? 0 then Ret tt (set_allocator mp s) else Err GENERIC_ERROR (set_allocator mp s).

Definition cleanup : M BP unit := fun s =>
  if 0 <? zlen (frames_ s) then Err GENERIC_ERROR s else Ret tt (set_frames [] s).

Definition begin_purge : M BP (option Z) :=
  gets (fun s =>
    Lru.foreach_reverse (fun found (_ : BPFrameId) frame =>
      if can_purge (frame_at s frame) then (Some frame, false) else (found, true)) None (frames_ s)).

Definition get (fd : Z) (page_num : PageNum) : M BP (option Z) := fun s =>
  let (frame, l) := Lru.get (fd, page_num) (frames_ s) in Ret frame (set_frames l s).

Definition alloc (fd : Z) (page_num : PageNum) : M BP (option Z) := fun s =>
  let (found, l) := Lru.get (fd, page_num) (frames_ s) in
  let s := set_frames l s in
  match found with
  | Some _ => Ret None s
  | None =>
      let (frame, mp) := MemPool.alloc (allocator_ s) None in
      let s := set_allocator mp s in
      match frame with
      | Some frame => Ret (Some frame) (set_frames (Lru.put (fd, page_num) frame (frames_ s)) s)
      | None => Ret None s
      end
  end.

Definition free (fd : Z) (page_num : PageNum) (frame : Z) : M BP unit := fun s =>
  let (frame_source, l) := Lru.get (fd, page_num) (frames_ s) in
  let s := set_frames l s in
  if decide (frame_source = Some frame) then
    Ret tt (set_allocator (MemPool.free (allocator_ s) frame)
              (set_frames (Lru.remove (fd, page_num) (frames_ s)) s))
  else Err GENERIC_ERROR s.

Definition find_list (fd : Z) : M BP (list Z) :=
  gets (fun s =>
    Lru.foreach (fun l (id : BPFrameId) frame =>
      (if fd =? id.1 then l ++ [frame] else l, true)) [] (frames_ s)).

End BPFrameManager.

(** ** DiskBufferPool *)

Module DiskBufferPool.
Section pool.
(** The address of the pool object. *)
Context (this : Z).

(** The header: the block [file_header_] points to, and stores into it. *)
Definition header : M BP (list Z) :=
  p ← get_dbp this; a ← of_option (file_header_ p); gets (fun s => data (page_ (frame_at s a))).
Definition put_header (d : list Z) : M BP unit :=
  p ← get_dbp this; a ← of_option (file_header_ p); upd_frame a (set_data d).
Definition page_count : M BP Z := d ← header; of_option (get_i32 d 0).
Definition allocated_pages : M BP Z := d ← header; of_option (get_i32 d 4).
Definition set_page_count (n : Z) : M BP unit := d ← header; d ← of_option (put_i32 d 0 n); put_header d.
Definition set_allocated_pages (n : Z) : M BP unit := d ← header; d ← of_option (put_i32 d 4 n); put_header d.
Definition get_page_bit (i : Z) : M BP bool := d ← header; of_option (get_bit (drop 8 d) i).
Definition set_page_bit (i : Z) : M BP unit :=
  d ← header; b ← of_option (set_bit (drop 8 d) i); put_header (take 8 d ++ b).
Definition clear_page_bit (i : Z) : M BP unit :=
  d ← header; b ← of_option (clear_bit (drop 8 d) i); put_header (take 8 d ++ b).
(** [hdr_frame_->f] *)
Definition upd_hdr_frame (f : Frame -> Frame) : M BP unit :=
  p ← get_dbp this; a ← of_option (hdr_frame_ p); upd_frame a f.

Definition flush_page (frame : Z) : M BP unit :=
  p ← get_dbp this;
  f ← gets (fun s => frame_at s frame);
  let offset := page_no (page_ f) * BP_PAGE_SIZE in
  r ← lseek (file_desc p) offset;
  if r =? offset - 1 then throw IOERR_SEEK
  else
    r ← writen (file_desc p) (page_no (page_ f)) (page_ f);
    if negb (r =? 0) then throw IOERR_WRITE
    else upd_frame frame (set_dirty false).

Definition load_page (page_num : PageNum) (frame : Z) : M BP unit :=
  p ← get_dbp this;
  let offset := page_num * BP_PAGE_SIZE in
  r ← lseek (file_desc p) offset;
  if r =? -1 then throw IOERR_SEEK
  else
    r ← readn (file_desc p) page_num;
    match r with
    | None => (* the log line reads the header *) _ ← allocated_pages; throw IOERR_READ
    | Some pg => upd_frame frame (set_page pg)
    end.

Definition purge_frame (page_num : PageNum) (buf : Z) : M BP unit :=
  p ← get_dbp this;
  f ← gets (fun s => frame_at s buf);
  if 0 <? pin_count_ f then throw LOCKED_UNLOCK
  else
    (if dirty_ f then flush_page buf else mret tt);;
    _ ← rc_of (BPFrameManager.free (file_desc p) page_num buf);
    mret tt.

Definition purge_page (page_num : PageNum) : M BP unit :=
  p ← get_dbp this;
  used_frame ← BPFrameManager.get (file_desc p) page_num;
  match used_frame with
  | Some used_frame => purge_frame page_num used_frame
  | None => mret tt
  end.

Fixpoint purge_list (fd : Z) (used : list Z) : M BP unit :=
  match used with
  | [] => mret tt
  | frame :: used =>
      f ← gets (fun s => frame_at s frame);
      if 0 <? pin_count_ f then purge_list fd used
      else
        (if dirty_ f then flush_page frame else mret tt);;
        _ ← rc_of (BPFrameManager.free fd (page_no (page_ f)) frame);
        purge_list fd used
  end.

Definition purge_all_pages : M BP unit :=
  p ← get_dbp this; used ← BPFrameManager.find_list (file_desc p); purge_list (file_desc p) used.

(** Only logs. *)
Definition check_all_pages_unpinned : M BP unit :=
  p ← get_dbp this; _ ← BPFrameManager.find_list (file_desc p); mret tt.

Fixpoint flush_list (used : list Z) : M BP unit :=
  match used with [] => mret tt | frame :: used => flush_page frame;; flush_list used end.

Definition flush_all_pages : M BP unit :=
  p ← get_dbp this; used ← BPFrameManager.find_list (file_desc p); flush_list used.

Definition dispose_page (page_num : PageNum) : M BP unit :=
  catch (purge_page page_num)
    (fun rc => p ← get_dbp this;
               put_dbp this (mk_DBP (file_name_ p) (file_desc p) (hdr_frame_ p) (file_header_ p)
                               ({[ page_num ]} ∪ disposed_pages p));;
               throw rc);;
  upd_hdr_frame (set_dirty true);;
  n ← allocated_pages; set_allocated_pages (n - 1);;
  clear_page_bit page_num.

Definition unpin_page (frame : Z) : M BP unit :=
  f ← gets (fun s => frame_at s frame);
  check (1 <=? pin_count_ f);;
  upd_frame frame (set_pin (pin_count_ f - 1));;
  if pin_count_ f - 1 =? 0 then
    p ← get_dbp this;
    let page_num := page_no (page_ f) in
    if decide (page_num ∈ disposed_pages p) then
      _ ← rc_of (dispose_page page_num);
      p ← get_dbp this;
      put_dbp this (mk_DBP (file_name_ p) (file_desc p) (hdr_frame_ p) (file_header_ p)
                      (disposed_pages p ∖ {[ page_num ]}))
    else mret tt
  else mret tt.

Definition recover_page (page_num : PageNum) : M BP unit :=
  b ← get_page_bit page_num;
  if negb b then
    set_page_bit page_num;;
    n ← allocated_pages; set_allocated_pages (n + 1);;
    n ← page_count; set_page_count (n + 1);;
    upd_hdr_frame mark_dirty
  else mret tt.

Definition check_page_num (page_num : PageNum) : M BP unit :=
  n ← page_count;
  if page_num >=? n then throw BUFFERPOOL_INVALID_PAGE_NUM
  else b ← get_page_bit page_num; if negb b then throw BUFFERPOOL_INVALID_PAGE_NUM else mret tt.

Definition get_page_count : M BP Z := allocated_pages.

End pool.

(** [BufferPoolManager::flush_page]: through the pool registered for the
    descriptor of the frame. *)
Definition manager_flush_page (frame : Z) : M BP unit := fun s =>
  match fd_buffer_pools_ s !! file_desc_ (frame_at s frame) with
  | None => Err INTERNAL s
  | Some bp => flush_page bp frame s
  end.

(** The [while (true)] loop; every turn that does not return evicts a frame,
    so one turn more than there are frames is enough. *)
Fixpoint allocate_frame_loop (fd : Z) (page_num : PageNum) (fuel : nat) : M BP Z :=
  match fuel with
  | O => fun _ => Stuck
  | S fuel =>
      frame ← BPFrameManager.alloc fd page_num;
      match frame with
      | Some frame => mret frame
      | None =>
          frame ← BPFrameManager.begin_purge;
          match frame with
          | None => throw NOMEM
          | Some frame =>
              f ← gets (fun s => frame_at s frame);
              (if dirty_ f then manager_flush_page frame else mret tt);;
              f ← gets (fun s => frame_at s frame);
              _ ← rc_of (BPFrameManager.free (file_desc_ f) (page_no (page_ f)) frame);
              allocate_frame_loop fd page_num fuel
          end
      end
  end.

Section pool.
Context (this : Z).

Definition allocate_frame (page_num : PageNum) : M BP Z :=
  p ← get_dbp this;
  n ← gets (fun s => length (frames_ s));
  allocate_frame_loop (file_desc p) page_num (S n).

(** The four assignments that prepare a frame. *)
Definition init_frame (frame fd : Z) : M BP unit :=
  t ← current_time;
  upd_frame frame (fun f => mk_Frame false 1 t fd (page_ f)).

Definition get_this_page (page_num : PageNum) : M BP Z :=
  p ← get_dbp this;
  used_match_frame ← BPFrameManager.get (file_desc p) page_num;
  match used_match_frame with
  | Some frame =>
      t ← current_time;
      upd_frame frame (fun f => set_acc_time t (set_pin (pin_count_ f + 1) f));;
      mret frame
  | None =>
      frame ← allocate_frame page_num;
      init_frame frame (file_desc p);;
      catch (load_page this page_num frame)
        (fun rc => upd_frame frame (set_pin 0);;
                   _ ← rc_of (purge_frame this page_num frame);
                   throw rc);;
      mret frame
  end.

(** The search for a clear bit of the page bitmap among pages [i, ..., i + n - 1]. *)
Fixpoint find_free_page (bitmap : list Z) (i : Z) (n : nat) : option (option Z) :=
  match n with
  | O => Some None
  | S n =>
      b ← get_bit bitmap i;
      if negb b then Some (Some i) else find_free_page bitmap (i + 1) n
  end.

Definition allocate_page : M BP Z :=
  allocated ← allocated_pages this;
  count ← page_count this;
  d ← header this;
  free ← (if allocated <? count then of_option (find_free_page (drop 8 d) 0 (Z.to_nat count))
          else mret None);
  match free with
  | Some i =>
      set_allocated_pages this (allocated + 1);;
      set_page_bit this i;;
      upd_hdr_frame this mark_dirty;;
      get_this_page i
  | None =>
      if count >=? MAX_PAGE_NUM then throw BUFFERPOOL_NOBUF
      else
        let page_num := count in
        frame ← allocate_frame page_num;
        n ← allocated_pages this; set_allocated_pages this (n + 1);;
        n ← page_count this; set_page_count this (n + 1);;
        set_page_bit this page_num;;
        upd_hdr_frame this mark_dirty;;
        p ← get_dbp this;
        init_frame frame (file_desc p);;
        n ← page_count this;
        upd_frame frame (set_page (mk_Page (n - 1) (data zero_page)));;
        _ ← rc_of (flush_page this frame);
        mret frame
  end.

(** Closing the descriptor again when [open_file] fails. *)
Definition open_fails {A} (fd : Z) (rc : RC) : M BP A :=
  modify (fun s => set_fds (delete fd (fds s)) s);;
  p ← get_dbp this;
  put_dbp this (mk_DBP (file_name_ p) (-1) (hdr_frame_ p) (file_header_ p) (disposed_pages p));;
  throw rc.

(** [fd] is what [open] returns. *)
Definition open_file (name : string) (fd : Z) : M BP unit :=
  ex ← gets (fun s => files s !! name);
  ok ← io_ok;
  match ex, ok with
  | Some _, true =>
      modify (fun s => set_fds (<[fd := name]> (fds s)) s);;
      p ← get_dbp this;
      put_dbp this (mk_DBP name fd (hdr_frame_ p) (file_header_ p) (disposed_pages p));;
      frame ← catch (allocate_frame BP_HEADER_PAGE) (open_fails fd);
      p ← get_dbp this;
      put_dbp this (mk_DBP (file_name_ p) (file_desc p) (Some frame) (file_header_ p) (disposed_pages p));;
      init_frame frame fd;;
      catch (load_page this BP_HEADER_PAGE frame)
        (fun rc => upd_frame frame (set_pin 0);;
                   _ ← rc_of (purge_frame this BP_HEADER_PAGE frame);
                   open_fails fd rc);;
      p ← get_dbp this;
      put_dbp this (mk_DBP (file_name_ p) (file_desc p) (hdr_frame_ p) (Some frame) (disposed_pages p))
  | _, _ => throw IOERR_ACCESS
  end.

Fixpoint free_list (fd : Z) (used : list Z) : M BP unit :=
  match used with
  | [] => mret tt
  | frame :: used =>
      f ← gets (fun s => frame_at s frame);
      _ ← rc_of (BPFrameManager.free fd (page_no (page_ f)) frame);
      free_list fd used
  end.

(** [close_file] up to the call of the manager; the result says whether that
    call is made. *)
Definition close_file_body : M BP bool :=
  p ← get_dbp this;
  if file_desc p <? 0 then mret false
  else
    upd_hdr_frame this (fun f => set_pin (pin_count_ f - 1) f);;
    used ← BPFrameManager.find_list (file_desc p);
    free_list (file_desc p) used;;
    put_dbp this (mk_DBP (file_name_ p) (file_desc p) (hdr_frame_ p) (file_header_ p) ∅);;
    ok ← io_ok;
    if negb ok then throw IOERR_CLOSE
    else
      modify (fun s => set_fds (delete (file_desc p) (fds s)) s);;
      put_dbp this (mk_DBP (file_name_ p) (-1) (hdr_frame_ p) (file_header_ p) ∅);;
      mret true.
End pool.
End DiskBufferPool.

(** ** BufferPoolManager *)

(** [DiskBufferPool::close_file] and [BufferPoolManager::close_file] call each
    other, the latter through the destructor of the pool.  The depth is at most
    three: the second visit to either finds the file closed. *)
Fixpoint close_rec (fuel : nat) (target : Z + string) : M BP unit :=
  match fuel with
  | O => fun _ => Stuck
  | S fuel =>
      match target with
      | inl this =>
          again ← DiskBufferPool.close_file_body this;
          if again : bool then
            p ← get_dbp this;
            _ ← rc_of (close_rec fuel (inr (file_name_ p)));
            mret tt
          else mret tt
      | inr name =>
          bp ← gets (fun s => buffer_pools_ s !! name);
          match bp with
          | None => throw INTERNAL
          | Some bp =>
              p ← get_dbp bp;
              modify (fun s => set_fd_buffer_pools (delete (file_desc p) (fd_buffer_pools_ s)) s);;
              modify (fun s => set_buffer_pools (delete name (buffer_pools_ s)) s);;
              (* delete bp: the destructor, then the memory *)
              _ ← rc_of (close_rec fuel (inl bp));
              modify (fun s => set_dbps (delete bp (dbps s)) s)
          end
      end
  end.

Definition close_fuel : nat := 4.
Definition DiskBufferPool_close_file (this : Z) : M BP unit := close_rec close_fuel (inl this).

Module BufferPoolManager.

Definition new_BufferPoolManager (fs : gmap string (list Page)) (news : Z -> option Z) : option BP :=
  final (BPFrameManager.init MEM_POOL_ITEM_NUM news
           (mk_BP [] new_MemPool ∅ ∅ ∅ ∅ fs ∅ 0 [])).

(** The header page of a new file: one page, which is allocated. *)
Definition new_header_page : Page :=
  let d := data zero_page in
  mk_Page 0 (default d (d ← put_i32 d 4 1; d ← put_i32 d 0 1; b ← set_bit (drop 8 d) 0; Some (take 8 d ++ b))).

Definition create_file (name : string) : M BP unit :=
  ex ← gets (fun s => files s !! name);
  ok ← io_ok;
  match ex, ok with
  | None, true =>
      modify (fun s => set_files (<[name := []]> (files s)) s);;
      ok ← io_ok;
      if negb ok then throw IOERR_ACCESS
      else
        ok ← io_ok;
        if negb ok then throw IOERR_SEEK
        else
          ok ← io_ok;
          if negb ok then throw IOERR_WRITE
          else modify (fun s => set_files (<[name := [new_header_page]]> (files s)) s)
  | _, _ => throw SCHEMA_DB_EXIST
  end.

(** [bp] is the address of the new pool object, [fd] what [open] returns. *)
Definition open_file (name : string) (bp fd : Z) : M BP Z :=
  ex ← gets (fun s => buffer_pools_ s !! name);
  match ex with
  | Some _ => throw BUFFERPOOL_OPEN
  | None =>
      put_dbp bp (mk_DBP "" (-1) None None ∅);;
      catch (DiskBufferPool.open_file bp name fd)
        (fun rc => _ ← rc_of (DiskBufferPool_close_file bp);
                   modify (fun s => set_dbps (delete bp (dbps s)) s);;
                   throw rc);;
      modify (fun s => set_buffer_pools (<[name := bp]> (buffer_pools_ s)) s);;
      p ← get_dbp bp;
      (* insert keeps an entry that is already there *)
      modify (fun s => match fd_buffer_pools_ s !! file_desc p with
                       | Some _ => s
                       | None => set_fd_buffer_pools (<[file_desc p := bp]> (fd_buffer_pools_ s)) s
                       end);;
      mret bp
  end.

Definition close_file (name : string) : M BP unit := close_rec close_fuel (inr name).

Definition flush_page : Z -> M BP unit := DiskBufferPool.manager_flush_page.

End BufferPoolManager.

(** ** BufferPoolIterator *)

Module BufferPoolIterator.

(** The iterator keeps a [Bitmap] on the header, with the page count at [init]. *)
Record t : Type := mk { bitmap_size : Z; current_page_num_ : PageNum }.

Definition init (this : Z) (start_page : PageNum) : M BP t :=
  n ← DiskBufferPool.page_count this;
  mret (mk n (if start_page <=? 0 then 0 else start_page)).

Definition has_next (this : Z) (it : t) : M BP bool :=
  d ← DiskBufferPool.header this;
  r ← of_option (next_setted_bit (drop 8 d) (bitmap_size it) (current_page_num_ it + 1));
  mret (negb (r =? -1)).

Definition next (this : Z) (it : t) : M BP (PageNum * t) :=
  d ← DiskBufferPool.header this;
  next_page ← of_option (next_setted_bit (drop 8 d) (bitmap_size it) (current_page_num_ it + 1));
  mret (next_page, if negb (next_page =? -1) then mk (bitmap_size it) next_page else it).

Definition reset (it : t) : t := mk (bitmap_size it) 0.

End BufferPoolIterator.
