(* ===== verification/BufferPoolSpec.v ===== *)
(** * Correctness of the buffer pool

    The pool is transparent: what a client sees of a page does not depend on
    which pages are cached, and loading, evicting and flushing pages changes
    nothing of it.  [content s (fd, p)] is the page as a client sees it: the
    cached copy if there is one, the page of the file otherwise. *)

From S2P Require Import Prelude.
From S2P Require Import Bytes.
From S2P Require Import Bitmap.
From S2P Require Import Monad.
From S2P Require Import LruCache.
From S2P Require Import MemPool.
From S2P Require Import BufferPool.
From stdpp Require Import base gmap list strings.
From Stdlib Require Import ZArith Lia.
#[local] Open Scope Z_scope.

(** ** More about the frame table *)

Section lru_facts.
Context {K V : Type} `{EqDecision K}.
Implicit Types (l : list (K * V)).

Lemma lookup_get k k' l : Lru.lookup k' (Lru.get k l).2 = Lru.lookup k' l.
Proof.
  unfold Lru.get. destruct (Lru.lookup k l) as [v|] eqn:E; simpl; [|done].
  case_decide; [by subst|]. by apply Lru.lookup_remove_ne.
Qed.

Lemma remove_length k v l :
  NoDup l.*1 -> Lru.lookup k l = Some v -> S (length (Lru.remove k l)) = length l.
Proof.
  intros Hn Hl. apply Lru.lookup_Some_elem in Hl. apply list_elem_of_split in Hl as (l1 & l2 & ->).
  rewrite fmap_app in Hn. csimpl in Hn. apply NoDup_app in Hn as (_ & H1 & H2).
  apply NoDup_cons in H2 as [H2 _].
  rewrite Lru.remove_middle, !length_app; [simpl; lia| |done]. intros Hin. apply (H1 k Hin). set_solver.
Qed.

Lemma get_NoDup k l : NoDup l.*1 -> NoDup (Lru.get k l).2.*1.
Proof.
  intros Hn. unfold Lru.get. destruct (Lru.lookup k l); simpl; [|done].
  by apply (Lru.put_NoDup k v).
Qed.

Lemma get_length k l : NoDup l.*1 -> length (Lru.get k l).2 = length l.
Proof.
  intros Hn. unfold Lru.get. destruct (Lru.lookup k l) eqn:E; simpl; [|done]. by eapply remove_length.
Qed.

Lemma lookup_put k v k' l : Lru.lookup k' (Lru.put k v l) = if decide (k = k') then Some v else Lru.lookup k' l.
Proof. unfold Lru.put. simpl. case_decide; [done|]. apply Lru.lookup_remove_ne. congruence. Qed.

Lemma lookup_remove_eq k k' l : Lru.lookup k' (Lru.remove k l) = if decide (k = k') then None else Lru.lookup k' l.
Proof. case_decide; [subst; apply Lru.lookup_remove|]. apply Lru.lookup_remove_ne. congruence. Qed.

(** A search that stops at the first hit. *)
Lemma foreach_find (test : V -> bool) l :
  Lru.foreach (fun found (_ : K) v => if test v then (Some v, false) else (found, true)) None l =
  snd <$> (List.find (fun kv => test kv.2) l).
Proof. induction l as [|[k v] l IH]; simpl; [done|]. destruct (test v); simpl; [done|apply IH]. Qed.

Lemma foreach_collect (test : K -> bool) acc l :
  Lru.foreach (fun acc k v => (if test k then acc ++ [v] else acc, true)) acc l =
  acc ++ (filter (fun kv => test kv.1 = true) l).*2.
Proof.
  revert acc. induction l as [|[k v] l IH]; intros acc; simpl; [by rewrite app_nil_r|].
  rewrite IH, filter_cons. simpl. destruct (test k).
  - rewrite decide_True by done. csimpl. by rewrite <- app_assoc.
  - by rewrite decide_False.
Qed.
End lru_facts.

(** ** What a client sees *)

Abbreviation key := (Z * Z)%type.

(** The frame that caches a page. *)
Definition fr (s : BP) (k : key) : option Z := Lru.lookup k (frames_ s).

(** The page in the file. *)
Definition disk (s : BP) (k : key) : option Page :=
  name ← fds s !! k.1; l ← files s !! name; zget l k.2.

Definition content (s : BP) (k : key) : option Page :=
  match fr s k with Some a => Some (page_ (frame_at s a)) | None => disk s k end.

(** ** The invariant *)

Record base (s : BP) : Prop := {
  base_wf : MemPool.wf (allocator_ s);
  base_static : dynamic (allocator_ s) = false;
  base_keys : NoDup (frames_ s).*1;
  base_inj : forall k k' a, fr s k = Some a -> fr s k' = Some a -> k = k';
  base_used : forall a, a ∈ used (allocator_ s) <-> exists k, fr s k = Some a;
  base_reg : forall k a, fr s k = Some a -> exists bp p,
    fd_buffer_pools_ s !! k.1 = Some bp /\ dbps s !! bp = Some p /\ file_desc p = k.1;
  base_fds : forall fd fd' name, fds s !! fd = Some name -> fds s !! fd' = Some name -> fd = fd';
  base_disk : forall k pg, disk s k = Some pg -> page_no pg = k.2 }.

(** A frame holds the page its entry says, the page exists in the file, and a
    clean frame agrees with the file. *)
Record entry_ok (s : BP) (k : key) (a : Z) : Prop := {
  entry_fd : file_desc_ (frame_at s a) = k.1;
  entry_page : page_no (page_ (frame_at s a)) = k.2;
  entry_disk : is_Some (disk s k);
  entry_clean : dirty_ (frame_at s a) = false -> disk s k = Some (page_ (frame_at s a)) }.

Definition inv (s : BP) : Prop := base s /\ forall k a, fr s k = Some a -> entry_ok s k a.

(** From [s] to [s'] pages were at most evicted: the pool objects and open
    files are the same, pinned pages stay where they are, no frame changes but
    for its dirty mark, and clients see the same pages. *)
Record evicts (s s' : BP) : Prop := {
  ev_dbps : dbps s' = dbps s;
  ev_reg : fd_buffer_pools_ s' = fd_buffer_pools_ s;
  ev_names : buffer_pools_ s' = buffer_pools_ s;
  ev_fds : fds s' = fds s;
  ev_faults : faults s = [] -> faults s' = [];
  ev_sub : forall k a, fr s' k = Some a -> fr s k = Some a;
  ev_pinned : forall k a, fr s k = Some a -> 0 < pin_count_ (frame_at s a) -> fr s' k = Some a;
  ev_page : forall a, page_ (frame_at s' a) = page_ (frame_at s a);
  ev_pin : forall a, pin_count_ (frame_at s' a) = pin_count_ (frame_at s a);
  ev_content : forall k, content s' k = content s k }.

Lemma evicts_refl s : evicts s s.
Proof. split; auto. Qed.

Lemma evicts_trans s1 s2 s3 : evicts s1 s2 -> evicts s2 s3 -> evicts s1 s3.
Proof.
  intros [] []. split; try congruence; eauto.
  - intros k a Hk Hp. apply ev_pinned1; [by apply ev_pinned0|]. congruence.
Qed.

(** Reordering the frame table changes nothing. *)
Section reorder.
Context (s : BP) (l : list (BPFrameId * Z)).
Context (Hl : forall k, Lru.lookup k l = fr s k) (Hn : NoDup l.*1).

Lemma reorder_content k : content (set_frames l s) k = content s k.
Proof. unfold content, fr. simpl. by rewrite Hl. Qed.

Lemma reorder_evicts : evicts s (set_frames l s).
Proof.
  split; try done; unfold fr; simpl; intros; try (rewrite Hl in *; done). by rewrite reorder_content.
Qed.

Lemma reorder_base : base s -> base (set_frames l s).
Proof.
  intros []. split; simpl; auto; unfold fr; simpl; try (intros *; rewrite ?Hl; eauto).
  setoid_rewrite Hl. done.
Qed.

Lemma reorder_entry k a : entry_ok s k a -> entry_ok (set_frames l s) k a.
Proof. intros []. by split. Qed.

Lemma reorder_inv : inv s -> inv (set_frames l s).
Proof.
  intros [Hb He]. split; [by apply reorder_base|]. intros k a. unfold fr. simpl. rewrite Hl.
  intros H. by apply reorder_entry, He.
Qed.
End reorder.

Lemma get_reorders k s : NoDup (frames_ s).*1 ->
  (forall k', Lru.lookup k' (Lru.get k (frames_ s)).2 = fr s k') /\ NoDup (Lru.get k (frames_ s)).2.*1.
Proof. intros Hn. split; [intros; apply lookup_get|by apply get_NoDup]. Qed.

Lemma upd_frame_eq s a f : frame_at (set_frame_store (<[a := f]> (frame_store s)) s) a = f.
Proof. unfold frame_at. simpl. by rewrite lookup_insert_eq. Qed.

Lemma upd_frame_ne s a b f : a <> b -> frame_at (set_frame_store (<[a := f]> (frame_store s)) s) b = frame_at s b.
Proof. intros. unfold frame_at. simpl. by rewrite lookup_insert_ne. Qed.

(** ** Flushing *)

Lemma write_page_lookup l i p j :
  0 <= i < zlen l -> zget (write_page l i p) j = if decide (j = i) then Some p else zget l j.
Proof.
  intros Hi. unfold write_page. rewrite (proj2 (Z.ltb_lt _ _)) by lia.
  pose proof (zset_Some l i p Hi) as E. case_decide; [subst; by eapply zget_zset_eq|].
  eapply zget_zset_ne; eauto.
Qed.

(** What a flush of a cached page leaves: the frame clean, the page in the file. *)
Definition flushed (s s' : BP) (k : key) (a : Z) : Prop :=
  frames_ s' = frames_ s /\ allocator_ s' = allocator_ s /\
  dirty_ (frame_at s' a) = false /\ disk s' k = Some (page_ (frame_at s a)) /\
  (forall k', k' <> k -> disk s' k' = disk s k') /\
  (forall b, b <> a -> frame_at s' b = frame_at s b) /\
  frame_at s' a = set_dirty false (frame_at s a) /\
  dbps s' = dbps s /\ fd_buffer_pools_ s' = fd_buffer_pools_ s /\ buffer_pools_ s' = buffer_pools_ s /\ fds s' = fds s /\
  faults s' = tl (faults s).

Lemma flush_page_run s k a bp p :
  inv s -> fr s k = Some a -> dbps s !! bp = Some p -> file_desc p = k.1 ->
  (exists s', DiskBufferPool.flush_page bp a s = Ret tt s' /\ flushed s s' k a) \/
  (exists l, faults s = false :: l /\ DiskBufferPool.flush_page bp a s = Err IOERR_WRITE (set_faults l s)).
Proof.
  intros [Hb He] Hfr Hbp Hfd. pose proof (He _ _ Hfr) as [E1 E2 E3 E4].
  destruct E3 as [pg Hpg]. unfold disk in Hpg.
  destruct (fds s !! k.1) as [name|] eqn:Efd; [|done]. simpl in Hpg.
  destruct (files s !! name) as [l|] eqn:El; [|done]. simpl in Hpg.
  pose proof (zget_Some_bound _ _ _ Hpg) as Hbound.
  assert (Hoff : (k.2 * BP_PAGE_SIZE <? 0) = false) by (apply Z.ltb_ge; unfold BP_PAGE_SIZE; lia).
  unfold DiskBufferPool.flush_page, get_dbp, lseek, writen, io_ok. mrun.
  rewrite Hbp. mrun. rewrite Hfd, E2, Efd. rewrite decide_True by eauto.
  rewrite Hoff. rewrite (proj2 (Z.eqb_neq _ _)) by lia.
  assert (Hgo : forall s0 fl, s0 = set_faults fl s ->
    fl = tl (faults s) -> exists s', upd_frame a (set_dirty false)
        (set_files (<[name := write_page (default [] (files s0 !! name)) k.2 (page_ (frame_at s a))]> (files s0)) s0)
      = Ret tt s' /\ flushed s s' k a).
  { intros s0 fl -> Hfl.
    set (s1 := set_files (<[name:=write_page l k.2 (page_ (frame_at s a))]> (files s)) (set_faults fl s)).
    assert (Hf1 : forall b, frame_at s1 b = frame_at s b) by done.
    exists (set_frame_store (<[a := set_dirty false (frame_at s1 a)]> (frame_store s1)) s1).
    split.
    { change (files (set_faults fl s)) with (files s). rewrite El. done. }
    unfold flushed. split; [done|]. split; [done|]. rewrite upd_frame_eq. split; [done|].
    split; [|split; [|split; [|done]]].
    - unfold disk. cbn. rewrite Efd. cbn. rewrite lookup_insert_eq. cbn.
      rewrite write_page_lookup by done. by rewrite decide_True.
    - intros [fd' p'] Hne. unfold disk. cbn. destruct (fds s !! fd') as [name'|] eqn:E'; [|done]. cbn.
      destruct (decide (name' = name)) as [->|Hn].
      + rewrite lookup_insert_eq, El. cbn. rewrite write_page_lookup by done.
        rewrite decide_False; [done|]. intros ->. apply Hne.
        rewrite (base_fds _ Hb _ _ _ E' Efd). by destruct k.
      + by rewrite lookup_insert_ne by done.
    - intros b Hne. rewrite upd_frame_ne by done. done. }
  rewrite Efd, (proj2 (Z.ltb_ge k.2 0)) by lia.
  destruct (faults s) as [|[] fl] eqn:Ef; mrun; cbn -[set_files set_faults upd_frame].
  - left. destruct (Hgo s []) as (s' & H1 & H2); [destruct s; cbn in *; by subst|done|]. by exists s'.
  - left. destruct (Hgo _ fl eq_refl) as (s' & H1 & H2); [done|]. by exists s'.
  - right. eauto.
Qed.

Lemma flushed_inv s s' k a : inv s -> fr s k = Some a -> flushed s s' k a -> inv s' /\ evicts s s'.
Proof.
  intros [Hb He] Hfr (F1 & F2 & F3 & F4 & F5 & F6 & F7 & F8 & F9 & F10 & F11 & F12).
  pose proof (He _ _ Hfr) as [E1 E2 E3 E4].
  assert (Hfr' : forall k', fr s' k' = fr s k') by (intros; unfold fr; by rewrite F1).
  assert (Hpage : forall b, page_ (frame_at s' b) = page_ (frame_at s b)).
  { intros b. destruct (decide (b = a)) as [->|]; [by rewrite F7|by rewrite F6]. }
  split; [split|split]; try done.
  - destruct Hb. split; rewrite ?F1, ?F2, ?F8, ?F9, ?F11; auto; try (intros *; rewrite ?Hfr'; eauto).
    + by setoid_rewrite Hfr'.
    + intros Hd. destruct (decide (k0 = k)) as [->|]; [rewrite F4 in Hd; congruence|].
      rewrite F5 in Hd by done. eauto.
  - intros k' a' Hk'. rewrite Hfr' in Hk'. destruct (He _ _ Hk') as [G1 G2 G3 G4].
    destruct (decide (k' = k)) as [->|Hne].
    + assert (a' = a) as -> by congruence. split; rewrite ?F7, ?F4; simpl; eauto.
    + assert (a' <> a) by (intros ->; apply Hne; by eapply base_inj).
      split; rewrite ?F5, ?F6 by done; auto.
  - intros Ef. by rewrite F12, Ef.
  - intros k' a' Hk. by rewrite Hfr' in Hk.
  - intros k' a' Hk Hp. by rewrite Hfr'.
  - intros b. destruct (decide (b = a)) as [->|]; [by rewrite F7|by rewrite F6].
  - intros k'. unfold content. rewrite Hfr'. destruct (fr s k') as [a'|] eqn:E; [by rewrite Hpage|].
    apply F5. congruence.
Qed.

Lemma faults_inv s b l : faults s = b :: l -> inv s -> inv (set_faults l s) /\ evicts s (set_faults l s).
Proof.
  intros Ef [[] He]. split; [split|]; [by split| |split; try done; congruence].
  intros k a Hk. destruct (He k a Hk). by split.
Qed.

(** ** Freeing a frame *)

Definition freed (s : BP) (k : key) (a : Z) : BP :=
  set_allocator (MemPool.free (allocator_ s) a) (set_frames (Lru.remove k (Lru.get k (frames_ s)).2) s).

Lemma free_run s k a : fr s k = Some a -> BPFrameManager.free k.1 k.2 a s = Ret tt (freed s k a).
Proof.
  intros Hfr. unfold BPFrameManager.free, freed. destruct k as [fd p]. simpl in *. unfold fr in Hfr.
  unfold Lru.get. rewrite Hfr. by rewrite decide_True.
Qed.

Lemma freed_fr s k a k' : fr (freed s k a) k' = if decide (k = k') then None else fr s k'.
Proof. unfold fr, freed. simpl. rewrite lookup_remove_eq. case_decide; [done|]. by rewrite lookup_get. Qed.

Lemma freed_length s k a :
  base s -> fr s k = Some a -> S (length (frames_ (freed s k a))) = length (frames_ s).
Proof.
  intros Hb Hfr. unfold freed. simpl. pose proof (base_keys _ Hb).
  erewrite remove_length; [by apply get_length|by apply get_NoDup|]. rewrite lookup_get. exact Hfr.
Qed.

Lemma freed_base s k a : base s -> fr s k = Some a -> base (freed s k a).
Proof.
  intros [] Hfr.
  assert (Hu : a ∈ used (allocator_ s)) by (apply base_used0; eauto).
  destruct (MemPool.free_spec _ _ base_wf0 Hu) as (Hused & _ & Hdyn & Hwf).
  split.
  - exact Hwf.
  - unfold freed. simpl. by rewrite Hdyn.
  - unfold freed. simpl. by apply Lru.remove_NoDup, get_NoDup.
  - intros k1 k2 b. rewrite !freed_fr. repeat case_decide; try done. eauto.
  - intros b. change (allocator_ (freed s k a)) with (MemPool.free (allocator_ s) a). rewrite Hused.
    rewrite elem_of_difference, elem_of_singleton, base_used0. split.
    + intros [[k' Hk'] Hne]. exists k'. rewrite freed_fr, decide_False; [done|]. intros ->. congruence.
    + intros [k' Hk']. rewrite freed_fr in Hk'. case_decide as Hne; [done|]. split; [eauto|].
      intros ->. apply Hne. by eapply base_inj0.
  - intros k' b. rewrite freed_fr. case_decide; [done|]. apply base_reg0.
  - exact base_fds0.
  - exact base_disk0.
Qed.

(** Freeing a clean, unpinned frame. *)
Lemma freed_inv s k a :
  inv s -> fr s k = Some a -> dirty_ (frame_at s a) = false -> pin_count_ (frame_at s a) <= 0 ->
  inv (freed s k a) /\ evicts s (freed s k a).
Proof.
  intros [Hb He] Hfr Hc Hp. split; [split|split]; try done.
  - by apply freed_base.
  - intros k' b Hk'. rewrite freed_fr in Hk'. case_decide; [done|]. destruct (He _ _ Hk'). by split.
  - intros k' b. rewrite freed_fr. by case_decide.
  - intros k' b Hk' Hpos. rewrite freed_fr. case_decide; [|done]. subst k'.
    assert (b = a) as -> by congruence. lia.
  - intros k'. unfold content. rewrite freed_fr. case_decide; [|done]. subst k'. rewrite Hfr.
    change (disk (freed s k a) k) with (disk s k). by apply (entry_clean _ _ _ (He _ _ Hfr)).
Qed.

(** ** The eviction loop *)

Lemma find_spec {A} (f : A -> bool) (l : list A) :
  match List.find f l with
  | Some x => x ∈ l /\ f x = true
  | None => forall x, x ∈ l -> f x = false
  end.
Proof.
  destruct (List.find f l) as [x|] eqn:E.
  - apply find_some in E as [Hin Hf]. split; [by apply list_elem_of_In|done].
  - intros x Hx. eapply find_none; [done|]. by apply list_elem_of_In.
Qed.

Lemma begin_purge_run s :
  NoDup (frames_ s).*1 ->
  exists r, BPFrameManager.begin_purge s = Ret r s /\
    match r with
    | Some a => exists k, fr s k = Some a /\ pin_count_ (frame_at s a) <= 0
    | None => forall k a, fr s k = Some a -> 0 < pin_count_ (frame_at s a)
    end.
Proof.
  intros Hn. unfold BPFrameManager.begin_purge, gets. eexists. split; [reflexivity|].
  unfold Lru.foreach_reverse. rewrite foreach_find.
  pose proof (find_spec (fun kv : key * Z => can_purge (frame_at s kv.2)) (reverse (frames_ s))) as Hf.
  destruct (List.find _ _) as [[k a]|]; simpl.
  - destruct Hf as [Hin Hc]. exists k. split.
    + rewrite elem_of_reverse in Hin. by apply Lru.lookup_elem.
    + unfold can_purge in Hc. simpl in Hc. by apply Z.leb_le.
  - intros k a Hk. apply Lru.lookup_Some_elem in Hk.
    specialize (Hf (k, a)). rewrite elem_of_reverse in Hf. specialize (Hf Hk). unfold can_purge in Hf.
    simpl in Hf. by apply Z.leb_gt.
Qed.

(** A frame entered under a key. *)
Definition entered (s : BP) (k : key) (a : Z) (mp : MemPool) : BP :=
  set_frames ((k, a) :: frames_ s) (set_allocator mp s).

Lemma alloc_new_run s fd p a mp :
  fr s (fd, p) = None -> MemPool.alloc (allocator_ s) None = (Some a, mp) ->
  BPFrameManager.alloc fd p s = Ret (Some a) (entered s (fd, p) a mp).
Proof.
  intros Hk Ha. unfold BPFrameManager.alloc. unfold fr in Hk. unfold Lru.get. rewrite Hk.
  assert (Es : set_frames (frames_ s) s = s) by by destruct s. rewrite Es, Ha. unfold entered, Lru.put.
  rewrite Lru.remove_notin; [done|]. by apply Lru.lookup_None.
Qed.

Lemma alloc_run s fd p :
  base s -> fr s (fd, p) = None ->
  (exists s' a mp, BPFrameManager.alloc fd p s = Ret (Some a) s' /\ s' = entered s (fd, p) a mp /\
     MemPool.alloc (allocator_ s) None = (Some a, mp)) \/
  BPFrameManager.alloc fd p s = Ret None s.
Proof.
  intros Hb Hk. destruct (MemPool.alloc (allocator_ s) None) as [[a|] mp] eqn:Ea.
  - left. exists (entered s (fd, p) a mp), a, mp. by rewrite (alloc_new_run _ _ _ _ _ Hk Ea).
  - right. unfold BPFrameManager.alloc. unfold fr in Hk. unfold Lru.get. rewrite Hk.
    assert (Es : set_frames (frames_ s) s = s) by by destruct s. rewrite Es, Ea.
    apply MemPool.alloc_None in Ea as [_ ->]; [|apply Hb]. by destruct s.
Qed.

(** One turn that evicts: the frame is flushed if it is dirty, then freed. *)
Lemma evict_run s a k :
  inv s -> fr s k = Some a -> pin_count_ (frame_at s a) <= 0 ->
  let turn := (if dirty_ (frame_at s a) then DiskBufferPool.manager_flush_page a else mret tt) in
  (exists s1, turn s = Ret tt s1 /\ inv s1 /\ evicts s s1 /\ frames_ s1 = frames_ s /\
     dirty_ (frame_at s1 a) = false /\ file_desc_ (frame_at s1 a) = k.1 /\
     page_no (page_ (frame_at s1 a)) = k.2) \/
  (exists s1, turn s = Err IOERR_WRITE s1 /\ inv s1 /\ evicts s s1 /\ faults s <> []).
Proof.
  intros Hi Hfr Hp. destruct (proj2 Hi _ _ Hfr) as [E1 E2 _ _]. destruct (dirty_ (frame_at s a)) eqn:Ed.
  - destruct (base_reg _ (proj1 Hi) _ _ Hfr) as (bp & p & R1 & R2 & R3).
    unfold DiskBufferPool.manager_flush_page. rewrite E1, R1.
    destruct (flush_page_run s k a bp p Hi Hfr R2 R3) as [(s1 & -> & F)|(l & Ef & ->)].
    + left. exists s1. destruct (flushed_inv _ _ _ _ Hi Hfr F) as [I V].
      destruct F as (F1 & F2 & F3 & F4 & F5 & F6 & F7 & _). do 4 (split; [done|]). by rewrite F7.
    + right. exists (set_faults l s). destruct (faults_inv s _ l Ef Hi). rewrite Ef. auto.
  - left. exists s. pose proof (evicts_refl s). done.
Qed.

Lemma allocate_frame_loop_run fd p fuel s :
  inv s -> fr s (fd, p) = None -> (length (frames_ s) < fuel)%nat ->
  match DiskBufferPool.allocate_frame_loop fd p fuel s with
  | Ret a s' => exists s1 mp, s' = entered s1 (fd, p) a mp /\ inv s1 /\ evicts s s1 /\
      MemPool.alloc (allocator_ s1) None = (Some a, mp)
  | Err rc s' => inv s' /\ evicts s s' /\
      (rc = IOERR_WRITE /\ faults s <> [] \/ rc = NOMEM /\ forall k a, fr s' k = Some a -> 0 < pin_count_ (frame_at s' a))
  | Stuck => False
  end.
Proof.
  revert s. induction fuel as [|fuel IH]; intros s Hi Hk Hlen; [lia|]. simpl.
  destruct (alloc_run s fd p (proj1 Hi) Hk) as [(s' & a & mp & E & Es & Ea)|E].
  { rewrite (bind_Ret _ _ _ _ _ E). exists s, mp. auto using evicts_refl. }
  rewrite (bind_Ret _ _ _ _ _ E). clear E.
  destruct (begin_purge_run s (base_keys _ (proj1 Hi))) as (r & E & Hr). rewrite (bind_Ret _ _ _ _ _ E). clear E.
  destruct r as [a|]; [|split; [done|]; split; [apply evicts_refl|auto]].
  destruct Hr as (k & Hfr & Hp).
  rewrite (bind_Ret (gets _) _ s (frame_at s a) s eq_refl).
  destruct (evict_run s a k Hi Hfr Hp) as [(s1 & E & I1 & V1 & L1 & D1 & F1 & P1)|(s1 & E & I1 & V1 & Ef)].
  2:{ rewrite (bind_Err _ _ _ _ _ E). auto. }
  rewrite (bind_Ret _ _ _ _ _ E), (bind_Ret (gets _) _ s1 (frame_at s1 a) s1 eq_refl). clear E.
  assert (Hfr1 : fr s1 k = Some a) by (unfold fr; by rewrite L1).
  pose proof (free_run s1 k a Hfr1) as E. rewrite F1, P1.
  rewrite (bind_Ret (rc_of _) _ s1 SUCCESS (freed s1 k a)) by (unfold rc_of; by rewrite E).
  destruct (freed_inv s1 k a I1 Hfr1 D1) as [I2 V2]; [by rewrite (ev_pin _ _ V1)|].
  assert (Hk2 : fr (freed s1 k a) (fd, p) = None).
  { rewrite freed_fr. case_decide; [done|]. unfold fr. rewrite L1. exact Hk. }
  pose proof (freed_length s1 k a (proj1 I1) Hfr1) as Hl. rewrite L1 in Hl.
  specialize (IH (freed s1 k a) I2 Hk2 ltac:(lia)).
  pose proof (evicts_trans _ _ _ V1 V2) as V.
  destruct (DiskBufferPool.allocate_frame_loop fd p fuel (freed s1 k a)) as [a' s'|rc s'|]; [| |done].
  - destruct IH as (s2 & mp & ? & ? & ? & ?). exists s2, mp. split; [done|]. split; [done|]. split; [|done].
    by eapply evicts_trans.
  - destruct IH as (? & ? & Hrc). split; [done|]. split; [by eapply evicts_trans|].
    destruct Hrc as [[? Hf]|]; [left|by right]. split; [done|]. intros E0. by apply Hf, (ev_faults _ _ V).
Qed.

(** ** Loading a page *)

(** An open pool: registered under its descriptor, its header page pinned. *)
Record pool_ok (s : BP) (this : Z) (p : DBP) : Prop := {
  pool_obj : dbps s !! this = Some p;
  pool_reg : fd_buffer_pools_ s !! file_desc p = Some this;
  pool_open : is_Some (fds s !! file_desc p);
  pool_hdr : exists h, file_header_ p = Some h /\ hdr_frame_ p = Some h /\
    fr s (file_desc p, BP_HEADER_PAGE) = Some h /\ 0 < pin_count_ (frame_at s h) /\
    zlen (data (page_ (frame_at s h))) = BP_PAGE_DATA_SIZE }.

(** A change of one frame. *)
Definition with_frame (a : Z) (f : Frame) (s : BP) : BP := set_frame_store (<[a := f]> (frame_store s)) s.

Lemma upd_frame_run a f s : upd_frame a f s = Ret tt (with_frame a (f (frame_at s a)) s).
Proof. done. Qed.

Lemma base_ext s s' :
  allocator_ s' = allocator_ s -> frames_ s' = frames_ s -> dbps s' = dbps s ->
  fd_buffer_pools_ s' = fd_buffer_pools_ s -> fds s' = fds s -> files s' = files s -> base s -> base s'.
Proof.
  intros E1 E2 E3 E4 E5 E6 []. split; unfold fr, disk in *; rewrite ?E1, ?E2, ?E3, ?E4, ?E5, ?E6; auto.
Qed.

Lemma entered_fr s k a mp k' : fr (entered s k a mp) k' = if decide (k = k') then Some a else fr s k'.
Proof. unfold fr, entered. destruct k. simpl. done. Qed.

Lemma entered_base s k a mp bp p :
  base s -> fr s k = None -> MemPool.alloc (allocator_ s) None = (Some a, mp) ->
  fd_buffer_pools_ s !! k.1 = Some bp -> dbps s !! bp = Some p -> file_desc p = k.1 ->
  base (entered s k a mp).
Proof.
  intros [] Hk Ha R1 R2 R3.
  destruct (MemPool.alloc_spec _ _ _ _ base_wf0 base_static0 Ha) as (_ & Hnew & Hused & Hdyn & Hwf).
  assert (Hnot : forall k', fr s k' <> Some a) by (intros k' H; apply Hnew, base_used0; eauto).
  split.
  - exact Hwf.
  - exact Hdyn.
  - unfold entered. simpl. apply NoDup_cons. split; [by apply Lru.lookup_None|done].
  - intros k1 k2 b. rewrite !entered_fr. repeat case_decide; intros; simplify_eq; try done; [| |eauto].
    + by edestruct Hnot.
    + by edestruct Hnot.
  - intros b. change (allocator_ (entered s k a mp)) with mp. rewrite Hused.
    rewrite elem_of_union, elem_of_singleton, base_used0. split.
    + intros [->|[k' Hk']]; [exists k; by rewrite entered_fr, decide_True|].
      exists k'. rewrite entered_fr, decide_False; [done|]. intros ->. congruence.
    + intros [k' Hk']. rewrite entered_fr in Hk'. case_decide; [left; congruence|eauto].
  - intros k' b. rewrite entered_fr. case_decide; [intros; subst; eauto|apply base_reg0].
  - exact base_fds0.
  - exact base_disk0.
Qed.

Lemma get_dbp_run s this p : dbps s !! this = Some p -> get_dbp this s = Ret p s.
Proof. intros E. unfold get_dbp, of_option. by rewrite E. Qed.

Lemma header_run s this p h :
  dbps s !! this = Some p -> file_header_ p = Some h ->
  DiskBufferPool.header this s = Ret (data (page_ (frame_at s h))) s.
Proof.
  intros Hp Hh. unfold DiskBufferPool.header. rewrite (bind_Ret _ _ _ _ _ (get_dbp_run _ _ _ Hp)).
  unfold of_option. by rewrite Hh.
Qed.

Lemma header_i32_run s this p h off :
  dbps s !! this = Some p -> file_header_ p = Some h ->
  zlen (data (page_ (frame_at s h))) = BP_PAGE_DATA_SIZE -> 0 <= off -> off + 4 <= BP_PAGE_DATA_SIZE ->
  exists n, (d ← DiskBufferPool.header this; of_option (get_i32 d off)) s = Ret n s /\
    get_i32 (data (page_ (frame_at s h))) off = Some n.
Proof.
  intros Hp Hh Hlen H1 H2. destruct (get_i32_is_Some (data (page_ (frame_at s h))) off) as [n Hn]; [lia|lia|].
  exists n. split; [|done]. rewrite (bind_Ret _ _ _ _ _ (header_run _ _ _ _ Hp Hh)). unfold of_option. by rewrite Hn.
Qed.

(** Reading a page of an open file. *)
Lemma readn_run s fd name i :
  fds s !! fd = Some name ->
  readn fd i s = Ret (if hd true (faults s) then disk s (fd, i) else None) (set_faults (tl (faults s)) s).
Proof.
  intros Hn. unfold readn. rewrite Hn. unfold io_ok, disk. mrun. cbn [fst snd]. rewrite Hn.
  assert (E : forall fl, set_faults fl s = set_faults fl s) by done.
  assert (Hz : zget (default [] (files s !! name)) i = option_bind (list Page) Page (fun l => zget l i) (files s !! name)).
  { destruct (files s !! name); [done|]. simpl. unfold zget. by case_decide. }
  destruct (faults s) as [|[] l] eqn:Ef; cbn -[zget].
  - rewrite Hz. f_equal. destruct s; cbn in *; by subst.
  - by rewrite Hz.
  - done.
Qed.

(** The outcome of [load_page], when the descriptor is open. *)
Lemma load_page_run s this p page_num a :
  dbps s !! this = Some p -> is_Some (fds s !! file_desc p) -> 0 <= page_num ->
  (exists h, file_header_ p = Some h /\ zlen (data (page_ (frame_at s h))) = BP_PAGE_DATA_SIZE) ->
  DiskBufferPool.load_page this page_num a s =
    let s' := set_faults (tl (faults s)) s in
    match (if hd true (faults s) then disk s (file_desc p, page_num) else None) with
    | Some pg => Ret tt (with_frame a (set_page pg (frame_at s a)) s')
    | None => Err IOERR_READ s'
    end.
Proof.
  intros Hp [name Hopen] Hnum (h & Hh & Hlen).
  assert (Hoff : (page_num * BP_PAGE_SIZE <? 0) = false) by (apply Z.ltb_ge; unfold BP_PAGE_SIZE; lia).
  unfold DiskBufferPool.load_page. rewrite (bind_Ret _ _ _ _ _ (get_dbp_run _ _ _ Hp)).
  rewrite (bind_Ret (lseek _ _) _ s (page_num * BP_PAGE_SIZE) s).
  2:{ unfold lseek. by rewrite Hopen, decide_True, Hoff by eauto. }
  rewrite (proj2 (Z.eqb_neq _ _)) by (apply Z.ltb_ge in Hoff; lia).
  rewrite (bind_Ret _ _ _ _ _ (readn_run _ _ _ page_num Hopen)).
  destruct (if hd true (faults s) then _ else None) as [pg|]; [done|].
  destruct (header_i32_run (set_faults (tl (faults s)) s) this p h 4 Hp Hh Hlen) as (n & E & _); [done|done|].
  unfold DiskBufferPool.allocated_pages. by rewrite (bind_Ret _ _ _ _ _ E).
Qed.

(** What other pages and their clients notice of a call: nothing.  [k] is the
    page the call is about. *)
Record preserves (k : key) (s s' : BP) : Prop := {
  pr_dbps : dbps s' = dbps s;
  pr_reg : fd_buffer_pools_ s' = fd_buffer_pools_ s;
  pr_names : buffer_pools_ s' = buffer_pools_ s;
  pr_fds : fds s' = fds s;
  pr_pinned : forall k' a, fr s k' = Some a -> 0 < pin_count_ (frame_at s a) ->
    fr s' k' = Some a /\ page_ (frame_at s' a) = page_ (frame_at s a) /\
    (k' <> k -> pin_count_ (frame_at s' a) = pin_count_ (frame_at s a));
  pr_content : forall k', content s' k' = content s k' }.

Lemma evicts_preserves k s s' : evicts s s' -> preserves k s s'.
Proof. intros []. split; auto. Qed.

Lemma preserves_evicts k s1 s2 s3 : evicts s1 s2 -> preserves k s2 s3 -> preserves k s1 s3.
Proof.
  intros [] []. split; try congruence.
  intros k' a Hk Hp. rewrite <- ev_page0, <- ev_pin0. apply pr_pinned0; [by apply ev_pinned0|]. by rewrite ev_pin0.
Qed.

Lemma fr_ne_new s a b mp (k' : key) :
  base s -> MemPool.alloc (allocator_ s) None = (Some a, mp) -> fr s k' = Some b -> b <> a.
Proof.
  intros Hb Ha Hk ->. destruct (MemPool.alloc_spec _ _ _ _ (base_wf _ Hb) (base_static _ Hb) Ha) as (_ & Hn & _).
  apply Hn, (base_used _ Hb). eauto.
Qed.

Lemma base_fr_ne s (k : key) a (k' : key) b : base s -> fr s k = Some a -> fr s k' = Some b -> k' <> k -> b <> a.
Proof. intros Hb Hk Hk' Hne ->. apply Hne. by eapply base_inj. Qed.

(** Changes to frames other than the cached ones, or to one cached page that
    the file still has, are not seen. *)
Lemma frames_changed s s' (k : key) :
  inv s -> base s' -> (forall k', k' <> k -> fr s' k' = fr s k') ->
  dbps s' = dbps s -> fd_buffer_pools_ s' = fd_buffer_pools_ s -> buffer_pools_ s' = buffer_pools_ s ->
  fds s' = fds s -> files s' = files s ->
  (forall k' b, k' <> k -> fr s k' = Some b -> frame_at s' b = frame_at s b) ->
  (forall a, fr s' k = Some a -> entry_ok s' k a) ->
  (forall a, fr s k = Some a -> 0 < pin_count_ (frame_at s a) ->
     fr s' k = Some a /\ page_ (frame_at s' a) = page_ (frame_at s a)) ->
  content s' k = content s k ->
  inv s' /\ preserves k s s'.
Proof.
  intros [Hb He] Hb' Hfr H1 H2 H3 H4 H5 Hframe Hk Hpk Hc.
  assert (Hdisk : forall k', disk s' k' = disk s k') by (intros; unfold disk; by rewrite H4, H5).
  split; [split; [done|]|split; try done].
  - intros k' a Hk'. destruct (decide (k' = k)) as [->|Hne]; [by apply Hk|].
    rewrite Hfr in Hk' by done. destruct (He _ _ Hk') as [G1 G2 G3 G4].
    split; rewrite ?Hdisk, ?(Hframe k') by done; done.
  - intros k' a Hk' Hp. destruct (decide (k' = k)) as [->|Hne].
    + destruct (Hpk a Hk' Hp). done.
    + rewrite Hfr, (Hframe k') by done. done.
  - intros k'. destruct (decide (k' = k)) as [->|Hne]; [done|]. unfold content. rewrite Hfr by done.
    destruct (fr s k') as [a|] eqn:E; [by rewrite (Hframe k')|apply Hdisk].
Qed.

Lemma purge_clean_run s this p page_num a :
  dbps s !! this = Some p -> fr s (file_desc p, page_num) = Some a ->
  pin_count_ (frame_at s a) = 0 -> dirty_ (frame_at s a) = false ->
  DiskBufferPool.purge_frame this page_num a s = Ret tt (freed s (file_desc p, page_num) a).
Proof.
  intros Hp Hfr H0 Hd. unfold DiskBufferPool.purge_frame.
  rewrite (bind_Ret _ _ _ _ _ (get_dbp_run _ _ _ Hp)).
  rewrite (bind_Ret (gets _) _ s (frame_at s a) s eq_refl), H0, Hd. change (0 <? 0) with false. cbv iota.
  rewrite (bind_Ret (mret tt) _ s tt s eq_refl).
  pose proof (free_run s _ a Hfr) as E. simpl in E. unfold rc_of. mrun. by rewrite E.
Qed.

(** The hit: the frame is pinned once more. *)
Lemma hit_ok s fd page_num a t :
  inv s -> fr s (fd, page_num) = Some a ->
  let s0 := set_clock t (set_frames (Lru.get (fd, page_num) (frames_ s)).2 s) in
  let s' := with_frame a (set_acc_time (t - 1) (set_pin (pin_count_ (frame_at s a) + 1) (frame_at s a))) s0 in
  inv s' /\ preserves (fd, page_num) s s' /\ fr s' (fd, page_num) = Some a.
Proof.
  intros Hi Hfr s0 s'. pose proof (proj2 Hi _ _ Hfr) as [G1 G2 G3 G4].
  destruct (get_reorders (fd, page_num) s (base_keys _ (proj1 Hi))) as [R1 R2].
  assert (Hfr' : forall k', fr s' k' = fr s k') by (intros k'; apply R1).
  assert (Ha : frame_at s' a = set_acc_time (t - 1) (set_pin (pin_count_ (frame_at s a) + 1) (frame_at s a)))
    by apply upd_frame_eq.
  assert (H : inv s' /\ preserves (fd, page_num) s s'); [|by destruct H; rewrite Hfr'].
  apply frames_changed; auto.
  - apply (base_ext (set_frames (Lru.get (fd, page_num) (frames_ s)).2 s)); try done.
    apply reorder_base; [done..|apply Hi].
  - intros k' b Hne Hb. unfold s', with_frame. rewrite upd_frame_ne; [done|].
    intros ->. apply Hne. by eapply (base_inj _ (proj1 Hi)).
  - intros b Hb. rewrite Hfr' in Hb. assert (b = a) as -> by congruence.
    split; rewrite ?Ha; done.
  - intros b Hb Hp. rewrite Hfr'. split; [done|]. assert (b = a) as -> by congruence. by rewrite Ha.
  - unfold content. rewrite Hfr', Hfr. by rewrite Ha.
Qed.

Lemma get_miss_run s fd p : fr s (fd, p) = None -> BPFrameManager.get fd p s = Ret None s.
Proof.
  intros Hk. unfold BPFrameManager.get, Lru.get. unfold fr in Hk. rewrite Hk. by destruct s.
Qed.

Lemma get_hit_run s fd p a :
  fr s (fd, p) = Some a ->
  BPFrameManager.get fd p s = Ret (Some a) (set_frames (Lru.get (fd, p) (frames_ s)).2 s).
Proof. intros Hk. unfold BPFrameManager.get, Lru.get. unfold fr in Hk. by rewrite Hk. Qed.

(** A frame that was just entered, and prepared. *)
Definition prepared (s : BP) (k : key) (a : Z) (mp : MemPool) : BP :=
  let s2 := entered s k a mp in
  with_frame a (mk_Frame false 1 (clock s2) k.1 (page_ (frame_at s2 a))) (set_clock (clock s2 + 1) s2).

Lemma prepared_ne s k a mp b : b <> a -> frame_at (prepared s k a mp) b = frame_at s b.
Proof. intros Hne. unfold prepared, with_frame. rewrite upd_frame_ne by done. done. Qed.

Lemma init_frame_run s k a mp :
  DiskBufferPool.init_frame a k.1 (entered s k a mp) = Ret tt (prepared s k a mp).
Proof. done. Qed.

(** The miss, when the page can be loaded. *)
Lemma loaded_ok s k a mp bp p pg l :
  inv s -> fr s k = None -> MemPool.alloc (allocator_ s) None = (Some a, mp) ->
  fd_buffer_pools_ s !! k.1 = Some bp -> dbps s !! bp = Some p -> file_desc p = k.1 ->
  disk s k = Some pg ->
  let s3 := prepared s k a mp in
  let s' := with_frame a (set_page pg (frame_at s3 a)) (set_faults l s3) in
  inv s' /\ preserves k s s' /\ fr s' k = Some a /\ pin_count_ (frame_at s' a) = 1 /\
  page_ (frame_at s' a) = pg.
Proof.
  intros Hi Hk Ha R1 R2 R3 Hd s3 s'.
  assert (Ef : frame_at s' a = set_page pg (frame_at s3 a)) by apply upd_frame_eq.
  assert (Ef3 : frame_at s3 a = mk_Frame false 1 (clock s) k.1 (page_ (frame_at s a))) by apply upd_frame_eq.
  rewrite Ef3 in Ef. cbn in Ef.
  assert (Hfr' : forall k', fr s' k' = if decide (k = k') then Some a else fr s k') by apply (entered_fr s k a mp).
  assert (H : inv s' /\ preserves k s s').
  { apply frames_changed; auto.
    - apply (base_ext (entered s k a mp)); try done. by apply (entered_base s k a mp bp p (proj1 Hi)).
    - intros k' Hne. by rewrite Hfr', decide_False.
    - intros k' b Hne Hb. pose proof (fr_ne_new s a b mp k' (proj1 Hi) Ha Hb).
      unfold s', with_frame. rewrite upd_frame_ne by done. by apply (prepared_ne s k a mp).
    - intros b Hb. rewrite Hfr', decide_True in Hb by done. injection Hb as <-.
      change (disk s' k) with (disk s k).
      split; rewrite ?Ef; cbn; auto; change (disk s' k) with (disk s k); eauto.
      apply (base_disk _ (proj1 Hi) _ _ Hd).
    - congruence.
    - unfold content. rewrite Hfr', decide_True, Hk by done. by rewrite Ef, Hd. }
  split; [apply H|]. split; [apply H|]. rewrite Hfr', decide_True by done. by rewrite Ef.
Qed.

(** The miss, when the page cannot be loaded: the frame is given back. *)
Lemma not_loaded_ok s k a mp bp p l :
  inv s -> fr s k = None -> MemPool.alloc (allocator_ s) None = (Some a, mp) ->
  fd_buffer_pools_ s !! k.1 = Some bp -> dbps s !! bp = Some p -> file_desc p = k.1 ->
  let s4 := set_faults l (prepared s k a mp) in
  let s5 := with_frame a (set_pin 0 (frame_at s4 a)) s4 in
  let s' := freed s5 k a in
  inv s' /\ preserves k s s' /\ fr s' k = None /\
  fr s5 k = Some a /\ pin_count_ (frame_at s5 a) = 0 /\ dirty_ (frame_at s5 a) = false.
Proof.
  intros Hi Hk Ha R1 R2 R3 s4 s5 s'.
  assert (Ef : frame_at s5 a = set_pin 0 (mk_Frame false 1 (clock s) k.1 (page_ (frame_at s a)))).
  { unfold s5, with_frame. rewrite upd_frame_eq. f_equal. apply upd_frame_eq. }
  assert (Hfr5 : forall k', fr s5 k' = if decide (k = k') then Some a else fr s k') by apply (entered_fr s k a mp).
  assert (Hb5 : base s5).
  { apply (base_ext (entered s k a mp)); try done. by apply (entered_base s k a mp bp p (proj1 Hi)). }
  assert (Hk5 : fr s5 k = Some a) by (by rewrite Hfr5, decide_True).
  assert (Hfr' : forall k', fr s' k' = fr s k').
  { intros k'. unfold s'. rewrite freed_fr, Hfr5. case_decide; [by subst|done]. }
  assert (H : inv s' /\ preserves k s s').
  { apply frames_changed; auto.
    - by apply freed_base.
    - intros k' b Hne Hb. pose proof (fr_ne_new s a b mp k' (proj1 Hi) Ha Hb).
      change (frame_at s' b) with (frame_at s5 b).
      unfold s5, with_frame. rewrite upd_frame_ne by done. by apply (prepared_ne s k a mp).
    - intros b Hb. rewrite Hfr' in Hb. congruence.
    - congruence.
    - unfold content. by rewrite Hfr', Hk. }
  split; [apply H|]. split; [apply H|]. rewrite Hfr'. split; [done|]. split; [done|]. by rewrite Ef.
Qed.

(** Filling a frame that was just entered. *)
Definition fill_frame (this : Z) (page_num : PageNum) (frame fd : Z) : M BP Z :=
  DiskBufferPool.init_frame frame fd;;
  catch (DiskBufferPool.load_page this page_num frame)
    (fun rc => upd_frame frame (set_pin 0);;
               _ ← rc_of (DiskBufferPool.purge_frame this page_num frame);
               throw rc);;
  mret frame.

Lemma fill_frame_run s this p page_num a mp :
  inv s -> pool_ok s this p -> 0 <= page_num -> let k := (file_desc p, page_num) in
  fr s k = None -> MemPool.alloc (allocator_ s) None = (Some a, mp) ->
  match fill_frame this page_num a (file_desc p) (entered s k a mp) with
  | Ret a' s' => a' = a /\ inv s' /\ preserves k s s' /\ fr s' k = Some a /\
      content s k = Some (page_ (frame_at s' a)) /\ pin_count_ (frame_at s' a) = 1
  | Err rc s' => inv s' /\ preserves k s s' /\ fr s' k = None /\ (faults s = [] -> disk s k = None)
  | Stuck => False
  end.
Proof.
  intros I0 [P1 P2 P3 (h & P4 & P5 & P6 & P7 & P8)] Hnum k Hk Ha. unfold fill_frame.
  change (file_desc p) with k.1. rewrite (bind_Ret _ _ _ _ _ (init_frame_run s k a mp)).
  set (s3 := prepared s k a mp).
  assert (Hh : frame_at s3 h = frame_at s h).
  { apply prepared_ne. exact (fr_ne_new s a h mp _ (proj1 I0) Ha P6). }
  pose proof (load_page_run s3 this p page_num a P1 P3 Hnum) as Hload. cbv zeta in Hload.
  specialize (Hload ltac:(exists h; by rewrite Hh)).
  change (disk s3 (file_desc p, page_num)) with (disk s k) in Hload.
  set (l := tl (faults s3)) in *.
  destruct (if hd true (faults s3) then disk s k else None) as [pg|] eqn:Ed.
  - assert (Hd : disk s k = Some pg) by (by destruct (hd true (faults s3))).
    destruct (loaded_ok s k a mp this p pg l I0 Hk Ha P2 P1 eq_refl Hd) as (J1 & J2 & J3 & J4 & J5).
    rewrite (bind_Ret (catch _ _) _ s3 _ _ ltac:(unfold catch; rewrite Hload; reflexivity)).
    cbv beta. split; [done|]. split; [exact J1|]. split; [exact J2|]. split; [exact J3|].
    split; [|exact J4]. unfold content. rewrite Hk, Hd. f_equal. symmetry. exact J5.
  - destruct (not_loaded_ok s k a mp this p l I0 Hk Ha P2 P1 eq_refl) as (J1 & J2 & J3 & J4 & J5 & J6).
    set (s5 := with_frame _ _ _) in *.
    assert (E5 : upd_frame a (set_pin 0) (set_faults l s3) = Ret tt s5) by done.
    pose proof (purge_clean_run s5 this p page_num a P1 J4 J5 J6) as E6.
    rewrite (bind_Err (catch _ _) _ s3 IOERR_READ (freed s5 k a)).
    2:{ unfold catch. rewrite Hload. rewrite (bind_Ret _ _ _ _ _ E5).
        unfold rc_of. mrun. by rewrite E6. }
    split; [exact J1|]. split; [exact J2|]. split; [exact J3|].
    intros Hf. change (faults s3) with (faults s) in Ed. by rewrite Hf in Ed.
Qed.

Lemma evicts_pool_ok s s' this p : evicts s s' -> pool_ok s this p -> pool_ok s' this p.
Proof.
  intros [] [P1 P2 P3 (h & P4 & P5 & P6 & P7 & P8)]. split; try congruence.
  exists h. rewrite ev_page0, ev_pin0. auto 10.
Qed.

Lemma evicts_miss s s' k : evicts s s' -> fr s k = None -> fr s' k = None.
Proof. intros V Hk. destruct (fr s' k) eqn:E; [|done]. apply (ev_sub _ _ V) in E. congruence. Qed.

(** C18: [get_this_page] is transparent.  Unless it fails, it delivers a pinned
    frame that caches the requested page and holds exactly the page a client
    saw before.  Whether it fails or not, it evicts no pinned frame, changes
    no page a client sees, and keeps the invariant; without input/output
    errors it fails only if the page is not in the file or every frame is
    pinned.  It never runs into undefined behaviour. *)
Theorem get_this_page_transparent s this p page_num :
  inv s -> pool_ok s this p -> 0 <= page_num ->
  let k := (file_desc p, page_num) in
  match DiskBufferPool.get_this_page this page_num s with
  | Ret a s' =>
      inv s' /\ preserves k s s' /\ fr s' k = Some a /\ content s k = Some (page_ (frame_at s' a)) /\
      pin_count_ (frame_at s' a) =
        match fr s k with Some b => to_uint32 (pin_count_ (frame_at s b) + 1) | None => 1 end
  | Err rc s' =>
      inv s' /\ preserves k s s' /\ fr s k = None /\ fr s' k = None /\
      (faults s = [] -> disk s k = None \/
         rc = NOMEM /\ forall k' b, fr s' k' = Some b -> 0 < pin_count_ (frame_at s' b))
  | Stuck => False
  end.
Proof.
  intros Hi Hpool Hnum k. pose proof (pool_obj _ _ _ Hpool) as P1.
  unfold DiskBufferPool.get_this_page. rewrite (bind_Ret _ _ _ _ _ (get_dbp_run _ _ _ P1)).
  destruct (fr s k) as [a|] eqn:Hk.
  - rewrite (bind_Ret _ _ _ _ _ (get_hit_run _ _ _ _ Hk)).
    destruct (hit_ok s (file_desc p) page_num a (clock s + 1) Hi Hk) as (H1 & H2 & H3).
    replace (clock s + 1 - 1) with (clock s) in * by lia.
    set (s' := with_frame _ _ _) in *.
    match goal with |- context [match ?x with _ => _ end] => change x with (Ret a s' : outcome BP Z) end.
    assert (E : frame_at s' a = set_acc_time (clock s) (set_pin (pin_count_ (frame_at s a) + 1) (frame_at s a)))
      by apply upd_frame_eq.
    split; [done|]. split; [done|]. split; [done|]. unfold content. rewrite Hk, E. done.
  - rewrite (bind_Ret _ _ _ _ _ (get_miss_run _ _ _ Hk)).
    pose proof (allocate_frame_loop_run (file_desc p) page_num (S (length (frames_ s))) s Hi Hk ltac:(lia)) as Hloop.
    assert (Ha : forall o, DiskBufferPool.allocate_frame_loop (file_desc p) page_num (S (length (frames_ s))) s = o ->
      DiskBufferPool.allocate_frame this page_num s = o).
    { intros o <-. unfold DiskBufferPool.allocate_frame. by rewrite (bind_Ret _ _ _ _ _ (get_dbp_run _ _ _ P1)). }
    destruct (DiskBufferPool.allocate_frame_loop _ _ _ s) as [a s1|rc s1|] eqn:El; [| |done].
    2:{ rewrite (bind_Err _ _ _ _ _ (Ha _ eq_refl)). destruct Hloop as (I1 & V1 & Hrc).
        split; [done|]. split; [by apply evicts_preserves|]. split; [done|].
        split; [by eapply evicts_miss|]. intros Hf. destruct Hrc as [[_ Hf']|Hrc]; [done|auto]. }
    rewrite (bind_Ret _ _ _ _ _ (Ha _ eq_refl)). clear Ha El.
    destruct Hloop as (s0 & mp & -> & I0 & V0 & Halloc).
    pose proof (evicts_miss _ _ _ V0 Hk) as Hk0.
    pose proof (fill_frame_run s0 this p page_num a mp I0 (evicts_pool_ok _ _ _ _ V0 Hpool) Hnum Hk0 Halloc) as Hfill.
    unfold fill_frame in Hfill.
    match type of Hfill with match ?x with _ => _ end => revert Hfill; destruct x as [a' s'|rc s'|] end; [| |done].
    + intros (-> & ? & ? & ? & Hc & ?). split; [done|]. split; [by eapply preserves_evicts|].
      split; [done|]. by rewrite <- (ev_content _ _ V0).
    + intros (? & ? & ? & Hd). split; [done|]. split; [by eapply preserves_evicts|].
      split; [done|]. split; [done|]. intros Hf. left. specialize (Hd (ev_faults _ _ V0 Hf)).
      pose proof (ev_content _ _ V0 k) as Hc. unfold content in Hc. rewrite Hk0, Hk in Hc. rewrite <- Hc. exact Hd.
Qed.

(** An open file of two pages, of which the header is cached, and one free frame. *)
Definition sample_dbp : DBP := mk_DBP "a" 5 (Some 100) (Some 100) ∅.
Definition sample (hp pg : Page) : BP :=
  mk_BP [((5, 0), 100)] (MemPool.alloc pool_of_2 None).2 {[ 100 := mk_Frame false 1 0 5 hp ]}
    {[ 1000 := sample_dbp ]} {[ "a"%string := 1000 ]} {[ 5 := 1000 ]}
    {[ "a"%string := [hp; pg] ]} {[ 5 := "a"%string ]} 0 [].

Section sample.
Context (hp pg : Page) (Hhp : page_no hp = 0) (Hpg : page_no pg = 1).

Lemma sample_fr k a : fr (sample hp pg) k = Some a -> k = (5, 0) /\ a = 100.
Proof. unfold fr. simpl. case_decide; [|done]. intros [= <-]. auto. Qed.

Lemma sample_disk k : disk (sample hp pg) k =
  if decide (k = (5, 0)) then Some hp else if decide (k = (5, 1)) then Some pg else None.
Proof.
  destruct k as [fd p]. unfold disk, sample. simpl. destruct (decide (fd = 5)) as [->|Hne].
  - rewrite lookup_singleton_eq. simpl. unfold zget. destruct (decide (p = 0)) as [->|H0]; [done|].
    rewrite (decide_False (P := (5, p) = (5, 0))) by congruence.
    destruct (decide (p = 1)) as [->|H1]; [done|].
    rewrite (decide_False (P := (5, p) = (5, 1))) by congruence.
    case_decide; [|done]. destruct (Z.to_nat p) as [|[|n]] eqn:E; [lia..|done].
  - rewrite lookup_singleton_ne by done. by rewrite !decide_False by congruence.
Qed.

Lemma sample_inv : inv (sample hp pg).
Proof.
  split; [split|].
  - simpl. split; simpl; [repeat constructor; set_solver|set_solver].
  - done.
  - simpl. repeat constructor. set_solver.
  - intros k k' a H1 H2. apply sample_fr in H1, H2. destruct H1, H2. congruence.
  - intros a. simpl. split.
    + intros Ha. assert (a = 100) as -> by set_solver. by exists (5, 0).
    + intros [k [_ ->]%sample_fr]. set_solver.
  - intros k a [-> ->]%sample_fr. by exists 1000, sample_dbp.
  - intros fd fd' name H1 H2. simpl in *. apply lookup_singleton_Some in H1, H2. destruct H1, H2. congruence.
  - intros k q. rewrite sample_disk. repeat case_decide; intros; simplify_eq; done.
  - intros k a [-> ->]%sample_fr. split; [done|exact Hhp|rewrite sample_disk; by eexists|intros _; by rewrite sample_disk].
Qed.

Lemma sample_pool_ok : zlen (data hp) = BP_PAGE_DATA_SIZE -> pool_ok (sample hp pg) 1000 sample_dbp.
Proof. intros. split; try done. by exists 100. Qed.
End sample.

Definition sample_page : Page := mk_Page 1 (data zero_page).
Definition sample_state : BP := sample BufferPoolManager.new_header_page sample_page.

Lemma get_this_page_transparent_witness :
  exists a s', DiskBufferPool.get_this_page 1000 1 sample_state = Ret a s' /\
    fr s' (5, 1) = Some a /\ content sample_state (5, 1) = Some (page_ (frame_at s' a)).
Proof.
  pose proof (get_this_page_transparent sample_state 1000 sample_dbp 1
    (sample_inv BufferPoolManager.new_header_page sample_page eq_refl eq_refl) (sample_pool_ok BufferPoolManager.new_header_page sample_page ltac:(vm_compute; reflexivity)) ltac:(lia)) as H.
  assert (R : match DiskBufferPool.get_this_page 1000 1 sample_state with Ret _ _ => true | _ => false end = true)
    by (vm_compute; reflexivity).
  destruct (DiskBufferPool.get_this_page 1000 1 sample_state) as [a s'|rc s'|]; [|discriminate R..].
  exists a, s'. split; [reflexivity|]. split; apply H.
Defined.

(** ** Flushing everything *)

Lemma flush_list_run this p used s :
  inv s -> pool_ok s this p -> faults s = [] ->
  (forall a, a ∈ used -> exists n, fr s (file_desc p, n) = Some a) ->
  exists s', DiskBufferPool.flush_list this used s = Ret tt s' /\ inv s' /\ evicts s s' /\
    (forall k, fr s' k = fr s k) /\
    (forall k a, fr s k = Some a -> disk s k = Some (page_ (frame_at s a)) -> disk s' k = Some (page_ (frame_at s a))) /\
    (forall k a, fr s k = Some a -> a ∈ used -> disk s' k = Some (page_ (frame_at s a))).
Proof.
  revert s. induction used as [|a used IH]; intros s Hi Hp Hf Hu.
  { exists s. split; [done|]. split; [done|]. split; [apply evicts_refl|]. split; [done|]. split; [done|set_solver]. }
  destruct (Hu a) as [n Hn]; [set_solver|]. simpl.
  destruct (flush_page_run s _ a this p Hi Hn (pool_obj _ _ _ Hp) eq_refl) as [(s1 & E & F)|(l & Ef & _)];
    [|congruence].
  rewrite (bind_Ret _ _ _ _ _ E). destruct (flushed_inv _ _ _ _ Hi Hn F) as [I1 V1].
  destruct F as (F1 & _ & _ & F4 & F5 & _).
  assert (Hfr : forall k, fr s1 k = fr s k) by (intros; unfold fr; by rewrite F1).
  destruct (IH s1 I1 (evicts_pool_ok _ _ _ _ V1 Hp) (ev_faults _ _ V1 Hf)) as (s' & -> & I2 & V2 & H1 & H2 & H3).
  { intros b Hb. destruct (Hu b) as [m Hm]; [set_solver|]. exists m. by rewrite Hfr. }
  exists s'. split; [done|]. split; [done|]. split; [by eapply evicts_trans|].
  split; [intros; by rewrite H1|].
  assert (Hsame : forall k b, fr s k = Some b -> disk s k = Some (page_ (frame_at s b)) ->
    disk s1 k = Some (page_ (frame_at s1 b))).
  { intros k b Hk Hd. rewrite (ev_page _ _ V1). destruct (decide (k = (file_desc p, n))) as [->|].
    - assert (b = a) as -> by congruence. exact F4.
    - by rewrite F5. }
  split; intros k b Hk Hd; rewrite <- (ev_page _ _ V1).
  - apply H2; [by rewrite Hfr|by apply Hsame].
  - apply elem_of_cons in Hd as [->|Hd].
    + assert (k = (file_desc p, n)) as -> by (eapply (base_inj _ (proj1 Hi)); eauto).
      apply H2; [by rewrite Hfr|]. by rewrite (ev_page _ _ V1).
    + apply H3; [by rewrite Hfr|done].
Qed.

(** C19: After [flush_all_pages] without write errors, the file holds every page
    of it exactly as clients see it; nothing a client sees changes and no page
    leaves the cache. *)
Theorem flush_all_pages_persists s this p :
  inv s -> pool_ok s this p -> faults s = [] ->
  exists s', DiskBufferPool.flush_all_pages this s = Ret tt s' /\ inv s' /\
    (forall k, content s' k = content s k) /\ (forall k, fr s' k = fr s k) /\
    forall n, disk s' (file_desc p, n) = content s (file_desc p, n).
Proof.
  intros Hi Hp Hf. pose proof (base_keys _ (proj1 Hi)) as Hn.
  unfold DiskBufferPool.flush_all_pages. rewrite (bind_Ret _ _ _ _ _ (get_dbp_run _ _ _ (pool_obj _ _ _ Hp))).
  set (used := (filter (fun kv : key * Z => (file_desc p =? kv.1.1) = true) (frames_ s)).*2).
  assert (Hused : forall n a, fr s (file_desc p, n) = Some a -> a ∈ used).
  { intros n a Ha. apply Lru.lookup_Some_elem in Ha. apply list_elem_of_fmap. exists ((file_desc p, n), a).
    split; [done|]. apply list_elem_of_filter. split; [by apply Z.eqb_eq|done]. }
  destruct (flush_list_run this p used s Hi Hp Hf) as (s' & E & I & V & H1 & H2 & H3).
  { intros a Ha. apply list_elem_of_fmap in Ha as ([[fd n] b] & -> & Hb).
    apply list_elem_of_filter in Hb as [Hfd Hb]. apply Z.eqb_eq in Hfd. simpl in *. subst fd.
    exists n. by apply Lru.lookup_elem. }
  rewrite (bind_Ret (BPFrameManager.find_list _) _ s used s).
  2:{ unfold BPFrameManager.find_list, gets. f_equal. unfold used.
      exact (foreach_collect (fun k : key => file_desc p =? k.1) [] (frames_ s)). }
  exists s'. split; [done|]. split; [done|]. split; [apply V|]. split; [done|].
  intros n. rewrite <- (ev_content _ _ V). unfold content. rewrite H1.
  destruct (fr s (file_desc p, n)) as [a|] eqn:E1; [|done]. rewrite (ev_page _ _ V).
  apply H3; [done|]. by eapply Hused.
Qed.

Lemma flush_all_pages_persists_witness :
  exists s', DiskBufferPool.flush_all_pages 1000 sample_state = Ret tt s' /\
    disk s' (5, 0) = content sample_state (5, 0).
Proof.
  destruct (flush_all_pages_persists sample_state 1000 sample_dbp
    (sample_inv BufferPoolManager.new_header_page sample_page eq_refl eq_refl)
    (sample_pool_ok BufferPoolManager.new_header_page sample_page ltac:(vm_compute; reflexivity)) eq_refl)
    as (s' & E & _ & _ & _ & H). exists s'. split; [exact E|apply (H 0)].
Defined.

(** ** Two defects *)

(** Opening a file whose first page cannot be read, such as the empty file
    that a failed [create_file] leaves behind, is undefined behaviour: the log
    line of [load_page] reads the header through [file_header_], which is still
    null. *)
Theorem open_empty_file_stuck s name bp fd a mp :
  files s !! name = Some [] -> buffer_pools_ s !! name = None -> faults s = [] ->
  fr s (fd, BP_HEADER_PAGE) = None -> MemPool.alloc (allocator_ s) None = (Some a, mp) ->
  BufferPoolManager.open_file name bp fd s = Stuck.
Proof.
  intros Hfile Hbp Hf Hk Ha. unfold BufferPoolManager.open_file.
  rewrite (bind_Ret (gets _) _ s None s) by (unfold gets; by rewrite Hbp).
  set (p0 := mk_DBP "" (-1) None None ∅). set (s1 := set_dbps (<[bp := p0]> (dbps s)) s).
  rewrite (bind_Ret (put_dbp bp p0) _ s tt s1 eq_refl).
  assert (Hs : DiskBufferPool.open_file bp name fd s1 = Stuck).
  2:{ unfold catch, mbind, M_bind. by rewrite Hs. }
  unfold DiskBufferPool.open_file.
  rewrite (bind_Ret (gets _) _ s1 (Some []) s1) by (unfold gets; simpl; by rewrite Hfile).
  rewrite (bind_Ret io_ok _ s1 true s1) by (unfold io_ok; simpl; by rewrite Hf).
  set (s2 := set_fds (<[fd := name]> (fds s1)) s1).
  rewrite bind_modify. cbv beta. fold s2.
  rewrite (bind_Ret _ _ s2 p0 s2) by (apply get_dbp_run; apply lookup_insert_eq).
  set (p1 := mk_DBP name fd None None ∅). set (s3 := set_dbps (<[bp := p1]> (dbps s2)) s2).
  rewrite (bind_Ret (put_dbp bp _) _ s2 tt s3 eq_refl).
  assert (Hp1 : dbps s3 !! bp = Some p1) by apply lookup_insert_eq.
  assert (Hal : DiskBufferPool.allocate_frame bp BP_HEADER_PAGE s3 = Ret a (entered s3 (fd, BP_HEADER_PAGE) a mp)).
  { unfold DiskBufferPool.allocate_frame. rewrite (bind_Ret _ _ _ _ _ (get_dbp_run _ _ _ Hp1)).
    change (file_desc p1) with fd. rewrite (bind_Ret (gets _) _ s3 _ s3 eq_refl). simpl.
    by rewrite (bind_Ret _ _ _ _ _ (alloc_new_run s3 fd BP_HEADER_PAGE a mp Hk Ha)). }
  set (s4 := entered s3 (fd, BP_HEADER_PAGE) a mp) in *.
  rewrite (bind_Ret (catch _ _) _ s3 a s4) by (unfold catch; by rewrite Hal).
  rewrite (bind_Ret _ _ _ _ _ (get_dbp_run s4 bp p1 Hp1)).
  set (p2 := mk_DBP name fd (Some a) None ∅). set (s5 := set_dbps (<[bp := p2]> (dbps s4)) s4).
  rewrite (bind_Ret (put_dbp bp _) _ s4 tt s5 eq_refl).
  set (s6 := with_frame a (mk_Frame false 1 (clock s5) fd (page_ (frame_at s5 a))) (set_clock (clock s5 + 1) s5)).
  rewrite (bind_Ret (DiskBufferPool.init_frame a fd) _ s5 tt s6 eq_refl).
  assert (Hp2 : dbps s6 !! bp = Some p2) by apply lookup_insert_eq.
  assert (Hfd : fds s6 !! fd = Some name) by apply lookup_insert_eq.
  assert (Hl : DiskBufferPool.load_page bp BP_HEADER_PAGE a s6 = Stuck).
  2:{ unfold catch, mbind, M_bind. by rewrite Hl. }
  unfold DiskBufferPool.load_page. rewrite (bind_Ret _ _ _ _ _ (get_dbp_run _ _ _ Hp2)).
  rewrite (bind_Ret (lseek _ _) _ s6 0 s6) by (unfold lseek; simpl file_desc; rewrite Hfd; by rewrite decide_True by eauto).
  change (0 =? -1) with false. cbv iota. rewrite (bind_Ret _ _ _ _ _ (readn_run s6 fd name _ Hfd)).
  assert (Hd : disk s6 (fd, BP_HEADER_PAGE) = None).
  { unfold disk. cbn [fst snd]. rewrite Hfd. simpl. by rewrite Hfile. }
  rewrite Hd. destruct (hd true (faults s6)).
  all: unfold DiskBufferPool.allocated_pages, DiskBufferPool.header, mbind, M_bind.
  all: rewrite (get_dbp_run _ bp p2) by done; done.
Qed.

Lemma open_empty_file_stuck_witness :
  BufferPoolManager.open_file "e" 2000 6 (set_files (<["e"%string := []]> (files sample_state)) sample_state) = Stuck.
Proof.
  apply (open_empty_file_stuck _ "e" 2000 6 101 (MemPool.alloc (allocator_ sample_state) None).2);
    vm_compute; reflexivity.
Defined.

(** [free_list] touches the frame table and the allocator only. *)
Definition same_env (s s' : BP) : Prop :=
  dbps s' = dbps s /\ fd_buffer_pools_ s' = fd_buffer_pools_ s /\ buffer_pools_ s' = buffer_pools_ s /\
  faults s' = faults s.

Lemma free_list_run fd used s :
  exists s', DiskBufferPool.free_list fd used s = Ret tt s' /\ same_env s s'.
Proof.
  revert s. induction used as [|a used IH]; intros s; [by exists s|]. simpl. rewrite bind_gets.
  assert (H : exists rc s1, rc_of (BPFrameManager.free fd (page_no (page_ (frame_at s a))) a) s = Ret rc s1 /\ same_env s s1).
  { unfold rc_of, BPFrameManager.free. destruct (Lru.get _ _) as [src l]. case_decide.
    - eexists _, _. split; [reflexivity|done].
    - eexists _, _. split; [reflexivity|done]. }
  destruct H as (rc & s1 & E & H). rewrite (bind_Ret _ _ _ _ _ E).
  destruct (IH s1) as (s' & -> & H'). exists s'. split; [done|]. unfold same_env in *. intuition congruence.
Qed.

Lemma close_file_body_run s this p h :
  dbps s !! this = Some p -> 0 <= file_desc p -> hdr_frame_ p = Some h -> faults s = [] ->
  exists s' hf fh, DiskBufferPool.close_file_body this s = Ret true s' /\
    dbps s' !! this = Some (mk_DBP (file_name_ p) (-1) hf fh ∅) /\
    fd_buffer_pools_ s' = fd_buffer_pools_ s /\ buffer_pools_ s' = buffer_pools_ s.
Proof.
  intros Hp Hfd Hh Hf. unfold DiskBufferPool.close_file_body.
  rewrite (bind_Ret _ _ _ _ _ (get_dbp_run _ _ _ Hp)), (proj2 (Z.ltb_ge _ _)) by done.
  set (s1 := with_frame h (set_pin (pin_count_ (frame_at s h) - 1) (frame_at s h)) s).
  rewrite (bind_Ret (DiskBufferPool.upd_hdr_frame _ _) _ s tt s1).
  2:{ unfold DiskBufferPool.upd_hdr_frame. rewrite (bind_Ret _ _ _ _ _ (get_dbp_run _ _ _ Hp)).
      unfold of_option. by rewrite Hh. }
  rewrite (bind_Ret (BPFrameManager.find_list _) _ s1 _ s1 eq_refl).
  destruct (free_list_run (file_desc p)
    (Lru.foreach (fun l (id : BPFrameId) frame => (if file_desc p =? id.1 then l ++ [frame] else l, true)) [] (frames_ s1)) s1)
    as (s2 & E & H1 & H2 & H3 & H4).
  rewrite (bind_Ret _ _ _ _ _ E). unfold put_dbp. rewrite bind_modify. cbv beta.
  rewrite (bind_Ret io_ok _ _ true (set_dbps (<[this := mk_DBP (file_name_ p) (file_desc p) (hdr_frame_ p) (file_header_ p) ∅]> (dbps s2)) s2)).
  2:{ unfold io_ok. simpl. rewrite H4. change (faults s1) with (faults s). by rewrite Hf. }
  cbn [negb]. rewrite !bind_modify. eexists _, _, _. split; [reflexivity|].
  cbn. split; [apply lookup_insert_eq|]. by rewrite H2, H3.
Qed.

(** Closing a file through its pool, [DiskBufferPool::close_file], leaves a
    dangling entry: the pool object is deleted, but the manager looks up its
    descriptor after it was reset, so the old descriptor still maps to the
    deleted object.  From then on, evicting a dirty page of any file that is
    opened under the same descriptor is a use after free. *)
Theorem close_file_dangles s this p h :
  dbps s !! this = Some p -> 0 <= file_desc p -> hdr_frame_ p = Some h -> faults s = [] ->
  buffer_pools_ s !! file_name_ p = Some this -> fd_buffer_pools_ s !! file_desc p = Some this ->
  exists s', DiskBufferPool_close_file this s = Ret tt s' /\
    dbps s' !! this = None /\ fd_buffer_pools_ s' !! file_desc p = Some this /\
    forall s'' a, dbps s'' = dbps s' -> fd_buffer_pools_ s'' = fd_buffer_pools_ s' ->
      file_desc_ (frame_at s'' a) = file_desc p -> BufferPoolManager.flush_page a s'' = Stuck.
Proof.
  intros Hp Hfd Hh Hf Hname Hreg.
  destruct (close_file_body_run s this p h Hp Hfd Hh Hf) as (s1 & hf & fh & E & H1 & H2 & H3).
  set (p1 := mk_DBP (file_name_ p) (-1) hf fh ∅) in *.
  set (s2 := set_buffer_pools (delete (file_name_ p) (buffer_pools_ s1))
               (set_fd_buffer_pools (delete (-1) (fd_buffer_pools_ s1)) s1)).
  set (s3 := set_dbps (delete this (dbps s2)) s2).
  assert (Hbody : DiskBufferPool.close_file_body this s2 = Ret false s2).
  { unfold DiskBufferPool.close_file_body. by rewrite (bind_Ret _ _ _ _ _ (get_dbp_run s2 _ p1 H1)). }
  assert (Hclose : forall n, close_rec (S (S n)) (inr (file_name_ p)) s1 = Ret tt s3).
  { intros n. cbn [close_rec]. rewrite bind_gets, H3, Hname.
    rewrite (bind_Ret _ _ _ _ _ (get_dbp_run s1 _ p1 H1)). rewrite !bind_modify. cbv beta.
    change (file_desc p1) with (-1).
    rewrite (bind_Ret (rc_of _) _ _ SUCCESS s2); [done|]. fold s2. unfold rc_of.
    by rewrite (bind_Ret _ _ _ _ _ Hbody). }
  exists s3. assert (Hd : dbps s3 !! this = None) by apply lookup_delete_eq.
  assert (Hr : fd_buffer_pools_ s3 !! file_desc p = Some this).
  { change (fd_buffer_pools_ s3) with (delete (-1) (fd_buffer_pools_ s1)).
    rewrite lookup_delete_ne by lia. by rewrite H2. }
  split; [|split; [done|split; [done|]]].
  - change (DiskBufferPool_close_file this s) with
      ((again ← DiskBufferPool.close_file_body this;
        if again : bool then
          p ← get_dbp this; _ ← rc_of (close_rec (S (S 1)) (inr (file_name_ p))); mret tt
        else mret tt) s).
    rewrite (bind_Ret _ _ _ _ _ E). cbv iota. rewrite (bind_Ret _ _ _ _ _ (get_dbp_run s1 _ p1 H1)).
    change (file_name_ p1) with (file_name_ p).
    rewrite (bind_Ret (rc_of _) _ s1 SUCCESS s3); [done|]. unfold rc_of.
    by rewrite (Hclose 1%nat).
  - intros s'' a E1 E2 Ef. unfold BufferPoolManager.flush_page, DiskBufferPool.manager_flush_page.
    rewrite Ef, E2, Hr. unfold DiskBufferPool.flush_page, mbind, M_bind, get_dbp. by rewrite E1, Hd.
Qed.

Lemma close_file_dangles_witness :
  exists s', DiskBufferPool_close_file 1000 sample_state = Ret tt s' /\
    dbps s' !! 1000 = None /\ fd_buffer_pools_ s' !! 5 = Some 1000.
Proof.
  destruct (close_file_dangles sample_state 1000 sample_dbp 100) as (s' & E & H1 & H2 & _);
    [reflexivity|vm_compute; congruence|reflexivity..|]. eauto.
Defined.
