(* ===== verification/RecordPage.v ===== *)
(** * Record pages (storage/record/record_manager.h, record_manager.cpp)

    A record page is the data block of a frame: a [PageHeader] of five
    integers, the bitmap of the occupied slots, and the slots.  The methods of
    [RecordPageHandler] that work on one page are computations on its frame;
    the handler's pointers into the page are offsets here.

    The specification is a finite map from slots to record contents: [slots]
    reads it off the block, and every operation is proved to act on the map and
    to keep [page_ok], the invariant of a page. *)

From S2P Require Import Prelude.
From S2P Require Import Bytes.
From S2P Require Import Bitmap.
From S2P Require Import Monad.
From S2P Require Import Comparator.
From S2P Require Import BufferPool.
From stdpp Require Import base sets list.
From Stdlib Require Import ZArith Lia.
#[local] Open Scope Z_scope.

(** ** The layout of a page *)

Definition align8 (size : Z) : Z := cdiv size 8 * 8 + (if cmod size 8 =? 0 then 0 else 8).

(** [sizeof(PageHeader)] *)
Definition page_fix_size : Z := 20.

(** The division in [double] of the code is exact enough for the truncation:
    (page_size - 21) / (record_size + 0.125), both scaled by 8. *)
Definition page_record_capacity (page_size record_size : Z) : Z :=
  cdiv (8 * (page_size - page_fix_size - 1)) (8 * record_size + 1).

Definition page_bitmap_size (record_capacity : Z) : Z :=
  cdiv record_capacity 8 + (if cmod record_capacity 8 =? 0 then 0 else 1).

Definition page_header_size (record_capacity : Z) : Z :=
  align8 (page_fix_size + page_bitmap_size record_capacity).

(** ** RecordPageHandler on the frame of its page *)

Definition frame_data : M Frame (list Z) := gets (fun f => data (page_ f)).
Definition put_data (d : list Z) : M Frame unit := modify (set_data d).

(** The fields of the [PageHeader]. *)
Definition header_field (off : Z) : M Frame Z := d ← frame_data; of_option (get_i32 d off).
Definition set_header_field (off v : Z) : M Frame unit := d ← frame_data; d ← of_option (put_i32 d off v); put_data d.
Definition record_num : M Frame Z := header_field 0.
Definition record_capacity : M Frame Z := header_field 4.
Definition record_real_size : M Frame Z := header_field 8.
Definition record_size : M Frame Z := header_field 12.
Definition first_record_offset : M Frame Z := header_field 16.

(** The block that starts at [bitmap_]. *)
Definition bitmap_of (d : list Z) : list Z := drop (Z.to_nat page_fix_size) d.
Definition put_bitmap (d b : list Z) : list Z := take (Z.to_nat page_fix_size) d ++ b.

Definition bitmap_get (index : Z) : M Frame bool := d ← frame_data; of_option (get_bit (bitmap_of d) index).
Definition bitmap_set (index : Z) : M Frame unit :=
  d ← frame_data; b ← of_option (set_bit (bitmap_of d) index); put_data (put_bitmap d b).
Definition bitmap_clear (index : Z) : M Frame unit :=
  d ← frame_data; b ← of_option (clear_bit (bitmap_of d) index); put_data (put_bitmap d b).

(** [get_record_data]: an offset into the block. *)
Definition get_record_data (slot_num : SlotNum) : M Frame Z :=
  first ← first_record_offset; size ← record_size; mret (first + size * slot_num).

(** [memcpy(record_data, data, page_header_->record_real_size)] *)
Definition copy_record (record_data : Z) (rec : list Z) : M Frame unit :=
  n ← record_real_size;
  bytes ← of_option (load rec 0 n);
  d ← frame_data; d ← of_option (store d record_data bytes); put_data d.

(** The part of [init_empty_page] before the flush. *)
Definition format_page (real_size : Z) : M Frame unit :=
  let record_phy_size := align8 real_size in
  set_header_field 0 0;;
  set_header_field 4 (page_record_capacity BP_PAGE_DATA_SIZE record_phy_size);;
  set_header_field 8 real_size;;
  set_header_field 12 record_phy_size;;
  cap ← record_capacity; set_header_field 16 (page_header_size cap);;
  d ← frame_data; d ← of_option (zero_fill d page_fix_size (page_bitmap_size cap)); put_data d.

Definition insert_record (rec : list Z) : M Frame RID :=
  num ← record_num; cap ← record_capacity;
  if num =? cap then throw RECORD_NOMEM
  else
    d ← frame_data;
    index ← of_option (next_unsetted_bit (bitmap_of d) cap 0);
    bitmap_set index;;
    num ← record_num; set_header_field 0 (num + 1);;
    record_data ← get_record_data index;
    copy_record record_data rec;;
    modify mark_dirty;;
    page_num ← gets (fun f => page_no (page_ f));
    mret (mk_RID page_num index).

Definition recover_insert_record (rec : list Z) (rid : RID) : M Frame unit :=
  num ← record_num; cap ← record_capacity;
  if num =? cap then throw RECORD_NOMEM
  else if slot_num rid >=? cap then throw RECORD_NOMEM
  else
    bitmap_set (slot_num rid);;
    num ← record_num; set_header_field 0 (num + 1);;
    record_data ← get_record_data (slot_num rid);
    copy_record record_data rec;;
    modify mark_dirty.

(** [rid] and [rec] are the parts of the [Record]. *)
Definition update_record (rid : RID) (rec : list Z) : M Frame unit :=
  cap ← record_capacity;
  if slot_num rid >=? cap then throw INVALID_ARGUMENT
  else
    b ← bitmap_get (slot_num rid);
    if negb b then throw RECORD_RECORD_NOT_EXIST
    else
      record_data ← get_record_data (slot_num rid);
      copy_record record_data rec;;
      bitmap_set (slot_num rid);;
      modify mark_dirty.

Definition recover_update_record : RID -> list Z -> M Frame unit := update_record.

(** The result says whether the page became empty, in which case the handler
    gives it back. *)
Definition delete_record (rid : RID) : M Frame bool :=
  cap ← record_capacity;
  if slot_num rid >=? cap then throw INVALID_ARGUMENT
  else
    b ← bitmap_get (slot_num rid);
    if b : bool then
      bitmap_clear (slot_num rid);;
      num ← record_num; set_header_field 0 (num - 1);;
      modify mark_dirty;;
      num ← record_num; mret (num =? 0)
    else throw RECORD_RECORD_NOT_EXIST.

(** The result is the offset the record's data pointer is set to. *)
Definition get_record (rid : RID) : M Frame Z :=
  cap ← record_capacity;
  if slot_num rid >=? cap then throw RECORD_INVALIDRID
  else
    b ← bitmap_get (slot_num rid);
    if negb b then throw RECORD_RECORD_NOT_EXIST
    else get_record_data (slot_num rid).

Definition is_full : M Frame bool := num ← record_num; cap ← record_capacity; mret (num >=? cap).

(** ** RecordPageIterator *)

(** The size its [Bitmap] was given, and [next_slot_num_]. *)
Record RecordPageIterator : Type := mk_page_iter { iter_size : Z; next_slot_num_ : SlotNum }.

Definition iter_init : M Frame RecordPageIterator :=
  cap ← record_capacity; d ← frame_data;
  next ← of_option (next_setted_bit (bitmap_of d) cap 0);
  mret (mk_page_iter cap next).

Definition iter_has_next (it : RecordPageIterator) : bool := negb (-1 =? next_slot_num_ it).

(** The slot and the data offset of the record, and the advanced iterator; the
    record of slot -1 comes with [RECORD_EOF]. *)
Definition iter_next (it : RecordPageIterator) : M Frame (SlotNum * Z * RecordPageIterator) :=
  record_data ← get_record_data (next_slot_num_ it);
  d ← frame_data;
  next ← (if 0 <=? next_slot_num_ it
          then of_option (next_setted_bit (bitmap_of d) (iter_size it) (next_slot_num_ it + 1))
          else mret (next_slot_num_ it));
  if next_slot_num_ it =? -1 then throw RECORD_EOF
  else mret (next_slot_num_ it, record_data, mk_page_iter (iter_size it) next).

(** A whole iteration: [while (has_next()) next()], with the slots it delivers. *)
Fixpoint iter_all (it : RecordPageIterator) (fuel : nat) : M Frame (list SlotNum) :=
  if iter_has_next it then
    match fuel with
    | O => fun _ => Stuck
    | S fuel =>
        '(slot, _, it) ← iter_next it;
        l ← iter_all it fuel; mret (slot :: l)
    end
  else mret [].

(** ** The invariant of a page and the map it holds *)

(** The layout for records of [real] bytes. *)
Definition slot_size (real : Z) : Z := align8 real.
Definition slot_count (real : Z) : Z := page_record_capacity BP_PAGE_DATA_SIZE (slot_size real).
Definition slots_start (real : Z) : Z := page_header_size (slot_count real).
Definition slot_offset (real i : Z) : Z := slots_start real + slot_size real * i.

(** The slots lie inside the block. *)
Definition fits (real : Z) : Prop :=
  0 < real /\ slots_start real + slot_size real * slot_count real <= BP_PAGE_DATA_SIZE.

(** The fields that never change, and the invariant: [record_num] counts the
    occupied slots. *)
Record page_shape (real : Z) (d : list Z) : Prop := {
  ok_len : zlen d = BP_PAGE_DATA_SIZE;
  ok_char : Forall is_char d;
  ok_cap : get_i32 d 4 = Some (slot_count real);
  ok_real : get_i32 d 8 = Some real;
  ok_size : get_i32 d 12 = Some (slot_size real);
  ok_first : get_i32 d 16 = Some (slots_start real) }.

Record page_ok (real : Z) (d : list Z) : Prop := {
  ok_shape : page_shape real d;
  ok_num : get_i32 d 0 = Some (count_set (bitmap_of d) (slot_count real)) }.

(** The record in slot [i], if the slot is occupied. *)
Definition slots (real : Z) (d : list Z) (i : Z) : option (list Z) :=
  if bool_decide (0 <= i < slot_count real) && bit (bitmap_of d) i then load d (slot_offset real i) real
  else None.

(** ** Arithmetic of the layout *)

Lemma align8_spec n : 0 <= n -> n <= align8 n < n + 8 /\ align8 n mod 8 = 0.
Proof.
  intros Hn. unfold align8. rewrite cdiv_nonneg, cmod_nonneg by lia.
  pose proof (Z.div_mod n 8 ltac:(lia)). pose proof (Z.mod_pos_bound n 8 ltac:(lia)).
  destruct (Z.eqb_spec (n mod 8) 0).
  - split; [lia|]. rewrite Z.add_0_r. apply Z.mod_mul. lia.
  - split; [lia|]. replace (n / 8 * 8 + 8) with ((n / 8 + 1) * 8) by lia. apply Z.mod_mul. lia.
Qed.

Lemma page_bitmap_size_spec cap : 0 <= cap -> cap <= 8 * page_bitmap_size cap < cap + 8.
Proof.
  intros Hc. unfold page_bitmap_size. rewrite cdiv_nonneg, cmod_nonneg by lia.
  pose proof (Z.div_mod cap 8 ltac:(lia)). pose proof (Z.mod_pos_bound cap 8 ltac:(lia)).
  destruct (Z.eqb_spec (cap mod 8) 0); lia.
Qed.

Lemma page_bitmap_size_end cap : bitmap_end cap = page_bitmap_size cap.
Proof. unfold bitmap_end, page_bitmap_size. destruct (_ =? 0); lia. Qed.

(** The sizes of slots, in units of 8 bytes, for which a page overflows. *)
Definition overflows (n : Z) : bool :=
  let cap := page_record_capacity BP_PAGE_DATA_SIZE (8 * n) in
  BP_PAGE_DATA_SIZE <? page_header_size cap + 8 * n * cap.

Lemma overflows_small : forallb (fun n => eqb (overflows n) (n =? 3)) (seqZ 1 2050) = true.
Proof. vm_compute. reflexivity. Qed.

Lemma overflows_spec n : 0 < n -> overflows n = (n =? 3).
Proof.
  intros Hn. destruct (decide (n < 2051)).
  - apply eqb_prop. pose proof overflows_small as H. rewrite forallb_forall in H.
    apply (H n). apply list_elem_of_In, elem_of_seqZ. lia.
  - rewrite (proj2 (Z.eqb_neq _ _)) by lia.
    assert (E : page_record_capacity BP_PAGE_DATA_SIZE (8 * n) = 0).
    { unfold page_record_capacity, BP_PAGE_DATA_SIZE, BP_PAGE_SIZE, page_fix_size. apply Z.quot_small. lia. }
    unfold overflows. rewrite E, Z.mul_0_r, Z.add_0_r. reflexivity.
Qed.

(** C26: The computed layout fits into the page except when the aligned record
    size is 24: then the page is given 678 slots behind a header of 112 bytes,
    and the last slot ends 4 bytes behind the page. *)
Theorem page_layout_fits real :
  0 < real -> slots_start real + slot_size real * slot_count real <= BP_PAGE_DATA_SIZE <-> slot_size real <> 24.
Proof.
  intros Hr. unfold slots_start, slot_count, slot_size.
  destruct (align8_spec real ltac:(lia)) as [H1 H2]. set (size := align8 real) in *.
  assert (Hn : exists n, size = 8 * n) by (exists (size / 8); apply Z.div_exact; lia).
  destruct Hn as [n Hn]. rewrite Hn. pose proof (overflows_spec n ltac:(lia)) as Ho.
  unfold overflows in Ho. destruct (Z.eqb_spec n 3) as [->|]; [apply Z.ltb_lt in Ho|apply Z.ltb_ge in Ho]; lia.
Qed.

Lemma page_layout_fits_witness :
  (slots_start 22 + slot_size 22 * slot_count 22 <= BP_PAGE_DATA_SIZE <-> slot_size 22 <> 24).
Proof. apply (page_layout_fits 22). lia. Defined.

Lemma fits_intro real : 0 < real -> slot_size real <> 24 -> fits real.
Proof. intros H1 H2. split; [done|]. by apply page_layout_fits. Qed.

Section layout.
Context (real : Z) (Hfits : fits real).

Lemma slot_count_nonneg : 0 <= slot_count real.
Proof.
  destruct Hfits as [Hr _]. unfold slot_count, page_record_capacity, slot_size.
  destruct (align8_spec real ltac:(lia)). unfold BP_PAGE_DATA_SIZE, BP_PAGE_SIZE, page_fix_size.
  apply Z.quot_pos; lia.
Qed.

Lemma real_le_size : 0 < real <= slot_size real.
Proof. destruct Hfits as [Hr _]. destruct (align8_spec real ltac:(lia)). unfold slot_size. lia. Qed.

(** The bitmap ends before the slots start. *)
Lemma slots_start_bound : 20 <= slots_start real /\ 20 + page_bitmap_size (slot_count real) <= slots_start real.
Proof.
  pose proof (page_bitmap_size_spec _ slot_count_nonneg). unfold slots_start, page_header_size, page_fix_size.
  pose proof slot_count_nonneg.
  destruct (align8_spec (20 + page_bitmap_size (slot_count real)) ltac:(lia)). lia.
Qed.

Lemma bitmap_byte_bound i : 0 <= i < slot_count real -> 20 <= 20 + i / 8 < slots_start real.
Proof.
  intros Hi. pose proof slots_start_bound. pose proof (page_bitmap_size_spec _ slot_count_nonneg).
  pose proof (Z.div_pos i 8 ltac:(lia) ltac:(lia)).
  assert (i / 8 < page_bitmap_size (slot_count real)) by (apply Z.div_lt_upper_bound; lia). lia.
Qed.

Lemma slot_bound i : 0 <= i < slot_count real ->
  slots_start real <= slot_offset real i /\ slot_offset real i + slot_size real <= BP_PAGE_DATA_SIZE.
Proof.
  intros Hi. pose proof real_le_size. destruct Hfits as [_ Hf]. unfold slot_offset. nia.
Qed.

Lemma slots_disjoint i j : 0 <= i -> 0 <= j -> i <> j ->
  slot_offset real i + real <= slot_offset real j \/ slot_offset real j + real <= slot_offset real i.
Proof. intros. pose proof real_le_size. unfold slot_offset. nia. Qed.
End layout.

(** ** Changes of the block *)

Lemma zget_bitmap d k : 0 <= k -> zget (bitmap_of d) k = zget d (20 + k).
Proof.
  intros Hk. unfold zget, bitmap_of, page_fix_size. rewrite !decide_True by lia.
  rewrite lookup_drop. f_equal. lia.
Qed.

Lemma bitmap_len d : 20 <= zlen d -> zlen (bitmap_of d) = zlen d - 20.
Proof. unfold bitmap_of, page_fix_size, zlen. rewrite length_drop. lia. Qed.

Lemma get_i32_ext d d' o : (forall n, load d' o n = load d o n) -> get_i32 d' o = get_i32 d o.
Proof. intros H. unfold get_i32. by rewrite H. Qed.

Lemma bit_ext mem mem' j : zget mem' (j / 8) = zget mem (j / 8) -> bit mem' j = bit mem j.
Proof. unfold bit. by intros ->. Qed.

Section changes.
Context (real : Z) (Hfits : fits real) (d : list Z) (Hd : page_shape real d).

Lemma block_len : zlen (bitmap_of d) = BP_PAGE_DATA_SIZE - 20.
Proof. rewrite bitmap_len; rewrite (ok_len _ _ Hd); [done|]. unfold BP_PAGE_DATA_SIZE, BP_PAGE_SIZE. lia. Qed.

Lemma slot_bit_bound i : 0 <= i < slot_count real -> 0 <= i < 8 * zlen (bitmap_of d).
Proof.
  intros Hi. rewrite block_len. pose proof (bitmap_byte_bound real Hfits i Hi).
  pose proof (slot_bound real Hfits i Hi). pose proof (real_le_size real Hfits).
  pose proof (Z.div_mod i 8 ltac:(lia)). pose proof (Z.mod_pos_bound i 8 ltac:(lia)). lia.
Qed.

(** A new bitmap that differs in the byte of bit [i] only. *)
Lemma put_bitmap_shape b i :
  0 <= i < slot_count real -> zlen b = zlen (bitmap_of d) -> Forall is_char b ->
  (forall j, j <> i / 8 -> zget b j = zget (bitmap_of d) j) ->
  let d' := put_bitmap d b in
  page_shape real d' /\ get_i32 d' 0 = get_i32 d 0 /\ bitmap_of d' = b /\
  forall o n, slots_start real <= o -> load d' o n = load d o n.
Proof.
  intros Hi Hl Hc Hb d'. rewrite bitmap_len in Hl by (rewrite (ok_len _ _ Hd); done).
  assert (H20 : 0 <= page_fix_size <= zlen d) by (rewrite (ok_len _ _ Hd); done).
  assert (Hlow : forall o, o + 4 <= 20 -> get_i32 d' o = get_i32 d o).
  { intros o Ho. unfold get_i32, d', put_bitmap. rewrite load_splice; [done..|by left]. }
  split; [|split; [by apply Hlow|split]].
  - destruct Hd. split.
    + unfold d', put_bitmap. rewrite splice_length; done.
    + unfold d', put_bitmap. apply Forall_app. split; [by apply Forall_take|done].
    + by rewrite Hlow.
    + by rewrite Hlow.
    + by rewrite Hlow.
    + by rewrite Hlow.
  - by apply drop_splice.
  - intros o n Ho. unfold d', put_bitmap. apply load_splice; [done..|]. right. intros k Hk.
    pose proof (bitmap_byte_bound real Hfits i Hi). unfold page_fix_size. split; [lia|].
    rewrite Hb by lia. rewrite zget_bitmap by lia. f_equal. lia.
Qed.

Lemma bitmap_set_shape i :
  0 <= i < slot_count real ->
  exists b, set_bit (bitmap_of d) i = Some b /\ page_shape real (put_bitmap d b) /\
    get_i32 (put_bitmap d b) 0 = get_i32 d 0 /\ bitmap_of (put_bitmap d b) = b /\
    (forall j, 0 <= j -> bit b j = (j =? i) || bit (bitmap_of d) j) /\
    forall o n, slots_start real <= o -> load (put_bitmap d b) o n = load d o n.
Proof.
  intros Hi. destruct (set_bit_spec _ _ (slot_bit_bound i Hi)) as (b & E & L & B). exists b. split; [done|].
  destruct (put_bitmap_shape b i Hi L) as (S1 & S2 & S3 & S4); [| |done].
  - eapply set_bit_is_char; [|done]. apply Forall_drop, Hd.
  - intros j Hj. eapply set_bit_bytes; [|done..]. lia.
Qed.

Lemma bitmap_clear_shape i :
  0 <= i < slot_count real ->
  exists b, clear_bit (bitmap_of d) i = Some b /\ page_shape real (put_bitmap d b) /\
    get_i32 (put_bitmap d b) 0 = get_i32 d 0 /\ bitmap_of (put_bitmap d b) = b /\
    (forall j, 0 <= j -> bit b j = negb (j =? i) && bit (bitmap_of d) j) /\
    forall o n, slots_start real <= o -> load (put_bitmap d b) o n = load d o n.
Proof.
  intros Hi. destruct (clear_bit_spec _ _ (slot_bit_bound i Hi)) as (b & E & L & B). exists b. split; [done|].
  destruct (put_bitmap_shape b i Hi L) as (S1 & S2 & S3 & S4); [| |done].
  - eapply clear_bit_is_char; [|done]. apply Forall_drop, Hd.
  - intros j Hj. eapply clear_bit_bytes; [|done..]. lia.
Qed.

Lemma record_num_shape v :
  is_int32 v ->
  exists d', put_i32 d 0 v = Some d' /\ page_shape real d' /\ get_i32 d' 0 = Some v /\
    bitmap_of d' = bitmap_of d /\ forall o n, slots_start real <= o -> load d' o n = load d o n.
Proof.
  intros Hv. destruct (put_i32_is_Some d 0 v) as [d' E]; [lia|rewrite (ok_len _ _ Hd); done|].
  exists d'. split; [done|].
  assert (Hne : forall o, 4 <= o -> get_i32 d' o = get_i32 d o).
  { intros o Ho. eapply get_put_i32_ne; [done|]. lia. }
  split; [|split; [|split]].
  - destruct Hd. split; rewrite ?Hne by lia; auto.
    + by rewrite (put_i32_length _ _ _ _ E).
    + eapply store_is_char; [done|apply le_encode_is_char|exact E].
  - rewrite (get_put_i32_eq _ _ _ _ E). by rewrite to_int32_small.
  - apply list_eq. intros k. unfold bitmap_of. rewrite !lookup_drop, (store_lookup _ _ _ _ _ E).
    rewrite decide_False; [done|]. rewrite le_encode_length. unfold page_fix_size. lia.
  - intros o n Ho. eapply load_store_disjoint; [exact E|]. rewrite le_encode_length.
    pose proof (slots_start_bound real Hfits). lia.
Qed.

Lemma record_shape i bs :
  0 <= i < slot_count real -> zlen bs = real -> Forall is_char bs ->
  exists d', store d (slot_offset real i) bs = Some d' /\ page_shape real d' /\
    get_i32 d' 0 = get_i32 d 0 /\
    (forall j, 0 <= j < slot_count real -> bit (bitmap_of d') j = bit (bitmap_of d) j) /\
    forall j, 0 <= j < slot_count real ->
      load d' (slot_offset real j) real = if j =? i then Some bs else load d (slot_offset real j) real.
Proof.
  intros Hi Hl Hc. pose proof (slot_bound real Hfits i Hi) as [B1 B2].
  pose proof (real_le_size real Hfits). pose proof (slots_start_bound real Hfits) as [B3 B4].
  destruct (store_is_Some d (slot_offset real i) bs) as [d' E]; [lia|rewrite (ok_len _ _ Hd); lia|].
  exists d'. split; [done|].
  assert (Hlow : forall o, o + 4 <= 20 -> get_i32 d' o = get_i32 d o).
  { intros o Ho. unfold get_i32. erewrite load_store_disjoint; [done|exact E|]. lia. }
  split; [|split; [by apply Hlow|split]].
  - destruct Hd. split; rewrite ?Hlow by lia; auto.
    + by rewrite (store_length _ _ _ _ E).
    + by apply (store_is_char d (slot_offset real i) bs).
  - intros j Hj. apply bit_ext. pose proof (bitmap_byte_bound real Hfits j Hj).
    rewrite !zget_bitmap by lia. unfold zget. rewrite !decide_True by lia.
    rewrite (store_lookup _ _ _ _ _ E). rewrite decide_False; [done|]. lia.
  - intros j Hj. destruct (Z.eqb_spec j i) as [->|Hne].
    + pose proof (load_store_eq _ _ _ _ E) as L. by rewrite Hl in L.
    + eapply load_store_disjoint; [exact E|]. rewrite Hl.
      destruct (slots_disjoint real Hfits j i); lia.
Qed.
End changes.

(** ** Running the operations *)

Lemma field_run off v f : get_i32 (data (page_ f)) off = Some v -> header_field off f = Ret v f.
Proof. intros E. unfold header_field, frame_data. rewrite bind_gets. unfold of_option. by rewrite E. Qed.

Lemma set_field_run off v f d :
  put_i32 (data (page_ f)) off v = Some d -> set_header_field off v f = Ret tt (set_data d f).
Proof.
  intros E. unfold set_header_field, frame_data. rewrite bind_gets. unfold of_option, mbind, M_bind. by rewrite E.
Qed.

Lemma bitmap_set_run i f b :
  set_bit (bitmap_of (data (page_ f))) i = Some b ->
  bitmap_set i f = Ret tt (set_data (put_bitmap (data (page_ f)) b) f).
Proof.
  intros E. unfold bitmap_set, frame_data. rewrite bind_gets. unfold of_option, mbind, M_bind. by rewrite E.
Qed.

Lemma bitmap_clear_run i f b :
  clear_bit (bitmap_of (data (page_ f))) i = Some b ->
  bitmap_clear i f = Ret tt (set_data (put_bitmap (data (page_ f)) b) f).
Proof.
  intros E. unfold bitmap_clear, frame_data. rewrite bind_gets. unfold of_option, mbind, M_bind. by rewrite E.
Qed.

Section operations.
Context (real : Z) (Hfits : fits real).
Abbreviation cap := (slot_count real).
Implicit Types (f : Frame) (d : list Z).

Lemma record_data_run f i :
  page_shape real (data (page_ f)) -> get_record_data i f = Ret (slot_offset real i) f.
Proof.
  intros []. unfold get_record_data. rewrite (bind_Ret _ _ _ _ _ (field_run 16 _ _ ok_first0)).
  by rewrite (bind_Ret _ _ _ _ _ (field_run 12 _ _ ok_size0)).
Qed.

Lemma bitmap_get_run f i :
  page_shape real (data (page_ f)) -> 0 <= i < cap -> bitmap_get i f = Ret (bit (bitmap_of (data (page_ f))) i) f.
Proof.
  intros Hd Hi. unfold bitmap_get, frame_data. rewrite bind_gets. unfold of_option.
  by rewrite get_bit_spec by by apply (slot_bit_bound real Hfits).
Qed.

Lemma take_record rec :
  real <= zlen rec -> load rec 0 real = Some (take (Z.to_nat real) rec) /\ zlen (take (Z.to_nat real) rec) = real.
Proof.
  intros Hl. pose proof (real_le_size real Hfits). unfold load. rewrite decide_True by lia. split; [done|].
  unfold zlen in *. rewrite length_take. lia.
Qed.

Lemma copy_record_run f i rec :
  page_shape real (data (page_ f)) -> 0 <= i < cap -> real <= zlen rec -> Forall is_char rec ->
  exists d', copy_record (slot_offset real i) rec f = Ret tt (set_data d' f) /\ page_shape real d' /\
    get_i32 d' 0 = get_i32 (data (page_ f)) 0 /\
    (forall j, 0 <= j < cap -> bit (bitmap_of d') j = bit (bitmap_of (data (page_ f))) j) /\
    forall j, 0 <= j < cap -> load d' (slot_offset real j) real =
      if j =? i then Some (take (Z.to_nat real) rec) else load (data (page_ f)) (slot_offset real j) real.
Proof.
  intros Hd Hi Hl Hc. destruct (take_record rec Hl) as [T1 T2].
  destruct (record_shape real Hfits _ Hd i (take (Z.to_nat real) rec) Hi T2) as (d' & E & H); [by apply Forall_take|].
  exists d'. split; [|done]. unfold copy_record. rewrite (bind_Ret _ _ _ _ _ (field_run 8 _ _ (ok_real _ _ Hd))).
  unfold of_option, mbind, M_bind, frame_data, gets. rewrite T1. by rewrite E.
Qed.

Lemma count_int32 mem : is_int32 (count_set mem cap + 1) /\ is_int32 (count_set mem cap - 1).
Proof.
  pose proof (slot_count_nonneg real Hfits). pose proof (count_set_bounds mem cap ltac:(done)).
  destruct Hfits as [H1 H2]. pose proof (slots_start_bound real Hfits). pose proof (real_le_size real Hfits).
  unfold is_int32, INT_MIN, INT_MAX, BP_PAGE_DATA_SIZE, BP_PAGE_SIZE in *. nia.
Qed.

(** The count behind a header field that was written back. *)
Lemma renumbered d v : page_shape real d -> is_int32 v -> v = count_set (bitmap_of d) cap ->
  exists d', put_i32 d 0 v = Some d' /\ page_ok real d' /\ bitmap_of d' = bitmap_of d /\
    forall j, 0 <= j < cap -> load d' (slot_offset real j) real = load d (slot_offset real j) real.
Proof.
  intros Hd Hv ->. destruct (record_num_shape real Hfits d Hd _ Hv) as (d' & E & S & N & B & L).
  exists d'. split; [done|]. split; [split; [done|by rewrite B]|]. split; [done|]. intros j Hj. apply L.
  apply (slot_bound real Hfits j Hj).
Qed.

Lemma slots_eq d i : slots real d i = if decide (0 <= i < cap) then
  if bit (bitmap_of d) i then load d (slot_offset real i) real else None else None.
Proof.
  unfold slots. case_decide; [rewrite bool_decide_true by done|rewrite bool_decide_false by done]; done.
Qed.

Lemma slots_occupied d i :
  page_shape real d -> 0 <= i < cap -> bit (bitmap_of d) i = true -> is_Some (slots real d i).
Proof.
  intros Hd Hi Hb. rewrite slots_eq, decide_True, Hb by done. pose proof (slot_bound real Hfits i Hi).
  pose proof (real_le_size real Hfits). pose proof (slots_start_bound real Hfits).
  apply load_is_Some; [lia..|]. rewrite (ok_len _ _ Hd). lia.
Qed.

(** The searches stay inside the page, also with the byte they read too much. *)
Lemma bitmap_end_bound d : page_shape real d -> bitmap_end cap < zlen (bitmap_of d).
Proof.
  intros Hd. rewrite page_bitmap_size_end, (block_len real d Hd).
  pose proof (slot_count_nonneg real Hfits). pose proof (page_bitmap_size_spec cap ltac:(done)).
  pose proof (slots_start_bound real Hfits) as [_ Hb]. destruct Hfits as [_ Hf].
  pose proof (real_le_size real Hfits). unfold BP_PAGE_DATA_SIZE, BP_PAGE_SIZE in *.
  destruct (decide (cap = 0)); [lia|nia].
Qed.

(** A free slot exists on a page that is not full. *)
Lemma free_slot d :
  page_ok real d -> count_set (bitmap_of d) cap <> cap ->
  exists i, next_unsetted_bit (bitmap_of d) cap 0 = Some i /\ 0 <= i < cap /\ bit (bitmap_of d) i = false.
Proof.
  intros [Hd _] Hc. pose proof (slot_count_nonneg real Hfits).
  pose proof (count_set_bounds (bitmap_of d) cap ltac:(done)).
  apply next_unsetted_bit_free; [done|by apply bitmap_end_bound|lia].
Qed.

(** [insert_record] on a page fails with [RECORD_NOMEM] exactly when every
    slot is occupied; otherwise it puts the record into a slot that was free,
    leaves every other slot alone, marks the page dirty and keeps the
    invariant, including the record count. *)
Theorem insert_record_spec f rec :
  page_ok real (data (page_ f)) -> real <= zlen rec -> Forall is_char rec ->
  let d := data (page_ f) in
  if count_set (bitmap_of d) cap =? cap then insert_record rec f = Err RECORD_NOMEM f
  else exists i d',
    insert_record rec f = Ret (mk_RID (page_no (page_ f)) i) (mark_dirty (set_data d' f)) /\
    0 <= i < cap /\ slots real d i = None /\ page_ok real d' /\
    forall j, slots real d' j = if j =? i then Some (take (Z.to_nat real) rec) else slots real d j.
Proof.
  intros [Hd Hn] Hl Hc d. unfold insert_record.
  rewrite (bind_Ret record_num _ _ _ _ (field_run 0 _ _ Hn)).
  rewrite (bind_Ret record_capacity _ _ _ _ (field_run 4 _ _ (ok_cap _ _ Hd))).
  fold d in Hd, Hn |- *. destruct (Z.eqb_spec (count_set (bitmap_of d) cap) cap) as [E|Hne]; [done|].
  unfold frame_data at 1. rewrite bind_gets.
  destruct (free_slot d (Build_page_ok _ _ Hd Hn) Hne) as (i & Ei & Hi & Hb). fold d. rewrite Ei.
  rewrite (bind_Ret (of_option (Some i)) _ f i f eq_refl).
  destruct (bitmap_set_shape real Hfits d Hd i Hi) as (b & E1 & S1 & N1 & B1 & Hbits & L1).
  rewrite (bind_Ret _ _ _ _ _ (bitmap_set_run i f b E1)).
  set (d1 := put_bitmap d b) in *. fold d d1. rewrite Hn in N1.
  rewrite (bind_Ret record_num _ _ _ _ (field_run 0 _ (set_data d1 f) N1)).
  destruct (renumbered d1 (count_set (bitmap_of d) cap + 1) S1 (proj1 (count_int32 _))) as (d2 & E2 & [S2 N2] & B2 & L2).
  { symmetry. rewrite B1. apply count_set_flip with i; [done|done| |].
    - rewrite Hbits by lia. by rewrite Z.eqb_refl.
    - intros j Hj Hji. rewrite Hbits by lia. by rewrite (proj2 (Z.eqb_neq j i)). }
  rewrite (bind_Ret _ _ _ _ _ (set_field_run 0 _ (set_data d1 f) d2 E2)).
  change (set_data d2 (set_data d1 f)) with (set_data d2 f).
  rewrite (bind_Ret _ _ _ _ _ (record_data_run (set_data d2 f) i S2)).
  destruct (copy_record_run (set_data d2 f) i rec S2 Hi Hl Hc) as (d3 & E3 & S3 & N3 & Hbits3 & L3).
  rewrite (bind_Ret _ _ _ _ _ E3). simpl in N3, Hbits3, L3.
  exists i, d3. split; [done|]. split; [done|].
  split; [rewrite slots_eq, decide_True, Hb; done|].
  assert (Hcount : count_set (bitmap_of d3) cap = count_set (bitmap_of d2) cap).
  { apply count_ext. intros j Hj%elem_of_slots. by apply Hbits3. }
  split; [split; [done|by rewrite N3, Hcount]|].
  intros j. rewrite !slots_eq. case_decide as Hj; [|by rewrite (proj2 (Z.eqb_neq j i)) by (intros ->; done)].
  rewrite Hbits3, B2, B1, Hbits, L3 by lia.
  destruct (Z.eqb_spec j i) as [->|Hji]; [done|]. cbn [orb].
  rewrite L2, L1 by (done || apply (slot_bound real Hfits j Hj)). done.
Qed.

Lemma bit_slots d i :
  page_shape real d -> 0 <= i < cap -> bit (bitmap_of d) i = bool_decide (is_Some (slots real d i)).
Proof.
  intros Hd Hi. destruct (bit (bitmap_of d) i) eqn:E; symmetry.
  - apply bool_decide_true. by apply slots_occupied.
  - apply bool_decide_false. rewrite slots_eq, decide_True, E by done. by intros [? ?].
Qed.

(** [delete_record] on a page rejects slots behind the capacity and empty
    slots without any change; an occupied slot becomes empty, all others keep
    their records, the record count stays exact, and the result says whether
    the page is empty now. *)
Theorem delete_record_spec f rid :
  page_ok real (data (page_ f)) -> 0 <= slot_num rid ->
  let d := data (page_ f) in
  let i := slot_num rid in
  if cap <=? i then delete_record rid f = Err INVALID_ARGUMENT f
  else match slots real d i with
       | None => delete_record rid f = Err RECORD_RECORD_NOT_EXIST f
       | Some _ => exists d',
           delete_record rid f = Ret (count_set (bitmap_of d') cap =? 0) (mark_dirty (set_data d' f)) /\
           page_ok real d' /\ forall j, slots real d' j = if j =? i then None else slots real d j
       end.
Proof.
  intros [Hd Hn] Hi0 d i. unfold delete_record.
  rewrite (bind_Ret record_capacity _ _ _ _ (field_run 4 _ _ (ok_cap _ _ Hd))). fold i. rewrite Z.geb_leb.
  destruct (Z.leb_spec cap i); [done|]. assert (Hi : 0 <= i < cap) by lia.
  rewrite (bind_Ret _ _ _ _ _ (bitmap_get_run f i Hd Hi)). fold d in Hd, Hn |- *.
  rewrite (bit_slots d i Hd Hi). destruct (slots real d i) as [r|] eqn:Es;
    [rewrite bool_decide_true by eauto|rewrite bool_decide_false by (by intros [? ?]); done].
  assert (Hb : bit (bitmap_of d) i = true) by (rewrite (bit_slots d i Hd Hi), Es; by apply bool_decide_true).
  destruct (bitmap_clear_shape real Hfits d Hd i Hi) as (b & E1 & S1 & N1 & B1 & Hbits & L1).
  rewrite (bind_Ret _ _ _ _ _ (bitmap_clear_run i f b E1)).
  set (d1 := put_bitmap d b) in *. fold d d1. rewrite Hn in N1.
  rewrite (bind_Ret record_num _ _ _ _ (field_run 0 _ (set_data d1 f) N1)).
  destruct (renumbered d1 (count_set (bitmap_of d) cap - 1) S1 (proj2 (count_int32 _))) as (d2 & E2 & [S2 N2] & B2 & L2).
  { rewrite B1. rewrite (count_set_flip b (bitmap_of d) cap i); [lia|done| |done|].
    - rewrite Hbits by lia. by rewrite Z.eqb_refl.
    - intros j Hj Hji. rewrite Hbits by lia. by rewrite (proj2 (Z.eqb_neq j i)). }
  rewrite (bind_Ret _ _ _ _ _ (set_field_run 0 _ (set_data d1 f) d2 E2)).
  change (set_data d2 (set_data d1 f)) with (set_data d2 f). rewrite bind_modify.
  rewrite (bind_Ret record_num _ _ _ _ (field_run 0 _ (mark_dirty (set_data d2 f)) N2)).
  exists d2. split; [done|]. split; [by split|].
  intros j. rewrite !slots_eq. case_decide as Hj; [|by rewrite (proj2 (Z.eqb_neq j i)) by (intros ->; done)].
  rewrite B2, B1, Hbits by lia. destruct (Z.eqb_spec j i) as [->|Hji]; [done|]. cbn [negb andb].
  rewrite L2, L1 by (done || apply (slot_bound real Hfits j Hj)). done.
Qed.

(** [update_record] on a page replaces the record of an occupied slot and
    nothing else; slots behind the capacity and empty slots are rejected
    without any change. *)
Theorem update_record_spec f rid rec :
  page_ok real (data (page_ f)) -> 0 <= slot_num rid -> real <= zlen rec -> Forall is_char rec ->
  let d := data (page_ f) in
  let i := slot_num rid in
  if cap <=? i then update_record rid rec f = Err INVALID_ARGUMENT f
  else match slots real d i with
       | None => update_record rid rec f = Err RECORD_RECORD_NOT_EXIST f
       | Some _ => exists d',
           update_record rid rec f = Ret tt (mark_dirty (set_data d' f)) /\
           page_ok real d' /\
           forall j, slots real d' j = if j =? i then Some (take (Z.to_nat real) rec) else slots real d j
       end.
Proof.
  intros [Hd Hn] Hi0 Hl Hc d i. unfold update_record.
  rewrite (bind_Ret record_capacity _ _ _ _ (field_run 4 _ _ (ok_cap _ _ Hd))). fold i. rewrite Z.geb_leb.
  destruct (Z.leb_spec cap i); [done|]. assert (Hi : 0 <= i < cap) by lia.
  rewrite (bind_Ret _ _ _ _ _ (bitmap_get_run f i Hd Hi)). fold d in Hd, Hn |- *.
  rewrite (bit_slots d i Hd Hi). destruct (slots real d i) as [r|] eqn:Es;
    [rewrite bool_decide_true by eauto|rewrite bool_decide_false by (by intros [? ?]); done].
  assert (Hb : bit (bitmap_of d) i = true) by (rewrite (bit_slots d i Hd Hi), Es; by apply bool_decide_true).
  cbn [negb]. rewrite (bind_Ret _ _ _ _ _ (record_data_run f i Hd)).
  destruct (copy_record_run f i rec Hd Hi Hl Hc) as (d1 & E1 & S1 & N1 & Hbits1 & L1). fold d in N1, Hbits1, L1.
  rewrite (bind_Ret _ _ _ _ _ E1).
  destruct (bitmap_set_shape real Hfits d1 S1 i Hi) as (b & E2 & S2 & N2 & B2 & Hbits2 & L2).
  rewrite (bind_Ret _ _ _ _ _ (bitmap_set_run i (set_data d1 f) b E2)).
  exists (put_bitmap d1 b). split; [done|].
  assert (Hbits : forall j, 0 <= j < cap -> bit b j = bit (bitmap_of d) j).
  { intros j Hj. rewrite Hbits2, Hbits1 by lia. destruct (Z.eqb_spec j i) as [->|]; [by rewrite Hb|done]. }
  split.
  - split; [done|]. rewrite N2, N1, B2, Hn. f_equal. symmetry. apply count_ext.
    intros j Hj%elem_of_slots. by apply Hbits.
  - intros j. rewrite !slots_eq. case_decide as Hj; [|by rewrite (proj2 (Z.eqb_neq j i)) by (intros ->; done)].
    rewrite B2, Hbits, L2, L1 by (done || apply (slot_bound real Hfits j Hj)).
    destruct (Z.eqb_spec j i) as [->|Hji]; [by rewrite Hb|done].
Qed.

(** [get_record] on a page points the record at the content of its slot,
    and rejects slots behind the capacity and empty slots. *)
Theorem get_record_spec f rid :
  page_ok real (data (page_ f)) -> 0 <= slot_num rid ->
  let d := data (page_ f) in
  let i := slot_num rid in
  if cap <=? i then get_record rid f = Err RECORD_INVALIDRID f
  else match slots real d i with
       | None => get_record rid f = Err RECORD_RECORD_NOT_EXIST f
       | Some r => exists off, get_record rid f = Ret off f /\ load d off real = Some r
       end.
Proof.
  intros [Hd Hn] Hi0 d i. unfold get_record.
  rewrite (bind_Ret record_capacity _ _ _ _ (field_run 4 _ _ (ok_cap _ _ Hd))). fold i. rewrite Z.geb_leb.
  destruct (Z.leb_spec cap i); [done|]. assert (Hi : 0 <= i < cap) by lia.
  rewrite (bind_Ret _ _ _ _ _ (bitmap_get_run f i Hd Hi)). fold d in Hd |- *.
  rewrite (bit_slots d i Hd Hi). destruct (slots real d i) as [r|] eqn:Es;
    [rewrite bool_decide_true by eauto|rewrite bool_decide_false by (by intros [? ?]); done].
  cbn [negb]. exists (slot_offset real i). split; [by apply record_data_run|].
  rewrite slots_eq, decide_True in Es by done. by destruct (bit (bitmap_of d) i).
Qed.

(** ** Iterating over a page *)

(** The occupied slots from [start] on. *)
Definition occupied d (start : Z) : list Z := filter (fun i => bit (bitmap_of d) i = true) (seqZ start (cap - start)).

Lemma filter_bits_none d start n :
  (forall i, start <= i < start + n -> bit (bitmap_of d) i = false) ->
  filter (fun i => bit (bitmap_of d) i = true) (seqZ start n) = [].
Proof.
  intros H. assert (Hall : forall i, i ∈ seqZ start n -> bit (bitmap_of d) i = false).
  { intros i Hi%elem_of_seqZ. by apply H. }
  induction (seqZ start n) as [|x l IH]; [done|]. rewrite filter_cons_False.
  - apply IH. intros i Hi. apply Hall. set_solver.
  - rewrite Hall by set_solver. done.
Qed.

Lemma occupied_next d start r :
  0 <= start -> is_next true (bitmap_of d) cap start r ->
  occupied d start = if r =? -1 then [] else r :: occupied d (r + 1).
Proof.
  intros Hs [[-> Hn]|(Hr & Hb & Hn)].
  - simpl. apply filter_bits_none. intros i Hi. apply Hn. lia.
  - rewrite (proj2 (Z.eqb_neq _ _)) by lia. unfold occupied.
    replace (cap - start) with ((r - start) + (1 + (cap - (r + 1)))) by lia.
    rewrite seqZ_app, filter_app by lia. rewrite filter_bits_none.
    2:{ intros i Hi. apply Hn. lia. }
    rewrite seqZ_app by lia. replace (start + (r - start)) with r by lia.
    replace (seqZ r 1) with [r] by (unfold seqZ; simpl; f_equal; lia). simpl.
    by rewrite filter_cons_True.
Qed.

Lemma next_slot d start :
  page_shape real d -> 0 <= start -> start mod 8 = 0 \/ bit (bitmap_of d) (start - 1) = true ->
  exists r, next_setted_bit (bitmap_of d) cap start = Some r /\ is_next true (bitmap_of d) cap start r.
Proof.
  intros Hd Hs Hok. apply (next_bit_spec true 0 find_first_setted); [apply skips_zero|apply find_first_setted_finds| |done| |done].
  - by apply slot_count_nonneg.
  - by apply bitmap_end_bound.
Qed.

Lemma iter_all_run f start r fuel :
  page_shape real (data (page_ f)) -> 0 <= start -> is_next true (bitmap_of (data (page_ f))) cap start r ->
  (Z.to_nat (cap - start) < fuel)%nat ->
  iter_all (mk_page_iter cap r) fuel f = Ret (occupied (data (page_ f)) start) f.
Proof.
  revert start r. induction fuel as [|fuel IH]; intros start r Hd Hs Hr Hf; [lia|].
  rewrite (occupied_next _ start r Hs Hr). cbn [iter_all]. unfold iter_has_next. cbn [next_slot_num_].
  rewrite (Z.eqb_sym (-1) r). destruct (Z.eqb_spec r (-1)) as [->|Hne]; [done|]. cbn [negb].
  destruct Hr as [[-> _]|(Hr & Hb & _)]; [done|].
  destruct (next_slot _ (r + 1) Hd ltac:(lia)) as (r' & E & Hr'); [right; by replace (r + 1 - 1) with r by lia|].
  rewrite (bind_Ret (iter_next _) _ f (r, slot_offset real r, mk_page_iter cap r') f).
  2:{ unfold iter_next. cbn [next_slot_num_ iter_size]. rewrite (bind_Ret _ _ _ _ _ (record_data_run f r Hd)).
      unfold frame_data. rewrite bind_gets, (proj2 (Z.leb_le 0 r)) by lia. unfold of_option, mbind, M_bind. rewrite E.
      by rewrite (proj2 (Z.eqb_neq r (-1))). }
  rewrite (bind_Ret _ _ f _ f (IH (r + 1) r' Hd ltac:(lia) Hr' ltac:(lia))). done.
Qed.

(** C27: Iterating over a page visits exactly the occupied slots, in ascending
    order, and terminates: the defect of [next_setted_bit] does not show,
    because every search starts at slot 0 or behind an occupied slot. *)
Theorem page_iteration_complete f :
  page_ok real (data (page_ f)) ->
  exists it, iter_init f = Ret it f /\
    forall fuel, (Z.to_nat cap < fuel)%nat ->
      iter_all it fuel f = Ret (filter (fun i => is_Some (slots real (data (page_ f)) i)) (seqZ 0 cap)) f.
Proof.
  intros [Hd Hn]. destruct (next_slot _ 0 Hd ltac:(lia) ltac:(by left)) as (r & E & Hr).
  exists (mk_page_iter cap r). split.
  { unfold iter_init. rewrite (bind_Ret record_capacity _ _ _ _ (field_run 4 _ _ (ok_cap _ _ Hd))).
    unfold frame_data. rewrite bind_gets. unfold of_option, mbind, M_bind. by rewrite E. }
  intros fuel Hf. rewrite (iter_all_run f 0 r fuel Hd ltac:(lia) Hr) by by rewrite Z.sub_0_r.
  f_equal. unfold occupied. rewrite Z.sub_0_r. apply filter_ext_elem.
  intros i Hi%elem_of_slots. rewrite (bit_slots _ i Hd Hi). by rewrite bool_decide_eq_true.
Qed.

(** ** Recovery *)

Lemma recover_insert_run f rec rid :
  page_shape real (data (page_ f)) -> real <= zlen rec -> Forall is_char rec -> 0 <= slot_num rid < cap ->
  forall n, get_i32 (data (page_ f)) 0 = Some n -> n <> cap -> is_int32 (n + 1) ->
  exists d', recover_insert_record rec rid f = Ret tt (mark_dirty (set_data d' f)) /\ page_shape real d' /\
    get_i32 d' 0 = Some (n + 1) /\
    (forall j, 0 <= j < cap -> bit (bitmap_of d') j = (j =? slot_num rid) || bit (bitmap_of (data (page_ f))) j) /\
    (forall j, 0 <= j < cap -> load d' (slot_offset real j) real =
       if j =? slot_num rid then Some (take (Z.to_nat real) rec) else load (data (page_ f)) (slot_offset real j) real).
Proof.
  intros Hd Hl Hc Hi n Hn Hne Hint. unfold recover_insert_record. set (i := slot_num rid) in *.
  rewrite (bind_Ret record_num _ _ _ _ (field_run 0 _ _ Hn)).
  rewrite (bind_Ret record_capacity _ _ _ _ (field_run 4 _ _ (ok_cap _ _ Hd))).
  rewrite (proj2 (Z.eqb_neq _ _)) by done. rewrite Z.geb_leb, (proj2 (Z.leb_gt _ _)) by lia.
  set (d := data (page_ f)) in *.
  destruct (bitmap_set_shape real Hfits d Hd i Hi) as (b & E1 & S1 & N1 & B1 & Hbits & L1).
  rewrite (bind_Ret _ _ _ _ _ (bitmap_set_run i f b E1)). fold d.
  set (d1 := put_bitmap d b) in *. rewrite Hn in N1.
  rewrite (bind_Ret record_num _ _ _ _ (field_run 0 _ (set_data d1 f) N1)).
  destruct (record_num_shape real Hfits d1 S1 _ Hint) as (d2 & E2 & S2 & N2 & B2 & L2).
  rewrite (bind_Ret _ _ _ _ _ (set_field_run 0 _ (set_data d1 f) d2 E2)).
  change (set_data d2 (set_data d1 f)) with (set_data d2 f).
  rewrite (bind_Ret _ _ _ _ _ (record_data_run (set_data d2 f) i S2)).
  destruct (copy_record_run (set_data d2 f) i rec S2 Hi Hl Hc) as (d3 & E3 & S3 & N3 & Hbits3 & L3).
  rewrite (bind_Ret _ _ _ _ _ E3). simpl in N3, Hbits3, L3.
  exists d3. split; [done|]. split; [done|]. split; [by rewrite N3|]. split; intros j Hj.
  - rewrite Hbits3, B2, B1, Hbits by lia. done.
  - rewrite L3 by done. destruct (Z.eqb_spec j i); [done|]. rewrite L2 by apply (slot_bound real Hfits j Hj).
    apply L1. apply (slot_bound real Hfits j Hj).
Qed.

(** Replaying an insertion into a slot whose bit is already set, as when the
    page was flushed before the crash, counts the record a second time: from
    then on [record_num] is one more than the number of records of the page. *)
Theorem recover_insert_miscounts f rec rid :
  page_ok real (data (page_ f)) -> real <= zlen rec -> Forall is_char rec -> 0 <= slot_num rid < cap ->
  is_Some (slots real (data (page_ f)) (slot_num rid)) -> count_set (bitmap_of (data (page_ f))) cap <> cap ->
  exists d', recover_insert_record rec rid f = Ret tt (mark_dirty (set_data d' f)) /\
    get_i32 d' 0 = Some (count_set (bitmap_of d') cap + 1).
Proof.
  intros [Hd Hn] Hl Hc Hi Hs Hne.
  destruct (recover_insert_run f rec rid Hd Hl Hc Hi _ Hn Hne (proj1 (count_int32 _))) as (d' & E & S & N & B & _).
  exists d'. split; [done|]. rewrite N. f_equal. f_equal. apply count_ext.
  intros j Hj%elem_of_slots. rewrite B by done. destruct (Z.eqb_spec j (slot_num rid)) as [->|]; [|done].
  rewrite (bit_slots _ _ Hd Hi). simpl. by apply bool_decide_true.
Qed.

(** ** A new page *)

Lemma put_fields d (vs : list (Z * Z)) :
  20 <= zlen d -> Forall is_char d -> NoDup vs.*1 ->
  Forall (fun ov => 0 <= ov.1 /\ ov.1 + 4 <= 20 /\ ov.1 mod 4 = 0 /\ is_int32 ov.2) vs ->
  exists d', foldl (fun o ov => d ← o; put_i32 d ov.1 ov.2) (Some d) vs = Some d' /\
    zlen d' = zlen d /\ Forall is_char d' /\
    (forall o v, (o, v) ∈ vs -> get_i32 d' o = Some v) /\
    (forall o, 0 <= o -> o mod 4 = 0 -> o ∉ vs.*1 -> get_i32 d' o = get_i32 d o).
Proof.
  revert d. induction vs as [|[o v] vs IH] using rev_ind; intros d Hl Hc Hn Hf.
  { exists d. split; [done|]. split; [done|]. split; [done|]. split; [set_solver|done]. }
  rewrite fmap_app in Hn. apply NoDup_app in Hn as (Hn & Hdisj & _).
  apply Forall_app in Hf as [Hf1 Hf2]. apply Forall_cons in Hf2 as [(B1 & B2 & B3 & B4) _]. simpl in *.
  destruct (IH d Hl Hc Hn Hf1) as (d' & E & L & C & G & K). rewrite foldl_app, E. simpl.
  destruct (put_i32_is_Some d' o v) as [d2 E2]; [lia|lia|]. exists d2. split; [done|].
  assert (Hother : forall o', 0 <= o' -> o' mod 4 = 0 -> o' <> o -> get_i32 d2 o' = get_i32 d' o').
  { intros o' H1 H2 H3. eapply get_put_i32_ne; [done|].
    pose proof (Z.div_mod o 4 ltac:(lia)). pose proof (Z.div_mod o' 4 ltac:(lia)). lia. }
  split; [by rewrite (put_i32_length _ _ _ _ E2)|].
  split; [by apply (store_is_char d' o (le_encode 4 v)); [|apply le_encode_is_char|]|]. split.
  - intros o' v' [Hin|[= -> ->]%list_elem_of_singleton]%elem_of_app.
    + pose proof (proj1 (Forall_forall _ _) Hf1 _ Hin) as (C1 & C2 & C3 & C4). simpl in *.
      rewrite Hother; [by apply G|done|done|]. intros ->. apply (Hdisj o); [|by left].
      apply list_elem_of_fmap. by exists (o, v').
    + rewrite (get_put_i32_eq _ _ _ _ E2). by rewrite to_int32_small.
  - intros o' H1 H2 H3. rewrite fmap_app in H3. rewrite Hother; [apply K; [done|done|set_solver]|done|done|].
    set_solver.
Qed.

Lemma zero_bits d n d' :
  zero_fill d page_fix_size n = Some d' -> forall j, 0 <= j < 8 * n -> bit (bitmap_of d') j = false.
Proof.
  intros E j Hj. unfold bit. pose proof (Z.div_pos j 8 ltac:(lia) ltac:(lia)).
  assert (j / 8 < n) by (apply Z.div_lt_upper_bound; lia).
  rewrite zget_bitmap by done. unfold zget. rewrite decide_True by lia. rewrite (store_lookup _ _ _ _ _ E).
  unfold zlen. rewrite length_replicate. unfold page_fix_size. rewrite decide_True by lia.
  rewrite lookup_replicate_2 by lia. apply Z.testbit_0_l.
Qed.

(** Formatting a page gives an empty page that satisfies the invariant. *)
Theorem format_page_spec f :
  zlen (data (page_ f)) = BP_PAGE_DATA_SIZE -> Forall is_char (data (page_ f)) -> real <= BP_PAGE_DATA_SIZE ->
  exists d', format_page real f = Ret tt (set_data d' f) /\ page_ok real d' /\ forall i, slots real d' i = None.
Proof.
  intros Hl Hc Hr. pose proof (slot_count_nonneg real Hfits). pose proof (real_le_size real Hfits).
  pose proof (slots_start_bound real Hfits). pose proof Hfits as [_ Hf]. pose proof (proj1 (align8_spec real ltac:(lia))).
  pose proof (page_bitmap_size_spec cap ltac:(done)).
  assert (Hlay : forall x, 0 <= x <= 20000 -> is_int32 x) by (unfold is_int32, INT_MIN, INT_MAX; lia).
  unfold BP_PAGE_DATA_SIZE, BP_PAGE_SIZE, slot_size in *. assert (0 <= align8 real * cap) by nia.
  destruct (put_fields (data (page_ f))
    [(0, 0); (4, cap); (8, real); (12, align8 real); (16, slots_start real)]) as (d5 & E & L & C & G & _);
    [lia|done|repeat constructor; set_solver|repeat constructor; simpl; try lia; apply Hlay; nia|].
  set (d := data (page_ f)) in *. cbn [foldl fst snd mbind option_bind] in E.
  destruct (put_i32 d 0 0) as [d1|] eqn:E1; [|discriminate E]. cbn [mbind option_bind] in E.
  destruct (put_i32 d1 4 cap) as [d2|] eqn:E2; [|discriminate E]. cbn [mbind option_bind] in E.
  destruct (put_i32 d2 8 real) as [d3|] eqn:E3; [|discriminate E]. cbn [mbind option_bind] in E.
  destruct (put_i32 d3 12 (align8 real)) as [d4|] eqn:E4; [|discriminate E]. cbn [mbind option_bind] in E.
  unfold format_page. cbv zeta. rewrite (bind_Ret _ _ _ _ _ (set_field_run 0 0 f d1 E1)).
  rewrite (bind_Ret _ _ _ _ _ (set_field_run 4 _ (set_data d1 f) d2 E2)).
  rewrite (bind_Ret _ _ _ _ _ (set_field_run 8 _ (set_data d2 (set_data d1 f)) d3 E3)).
  rewrite (bind_Ret _ _ _ _ _ (set_field_run 12 _ (set_data d3 f) d4 E4)).
  assert (Hcap4 : get_i32 d4 4 = Some cap).
  { rewrite <- (G 4 cap) by set_solver. symmetry. eapply get_put_i32_ne; [exact E|lia]. }
  rewrite (bind_Ret record_capacity _ _ _ _ (field_run 4 _ (set_data d4 f) Hcap4)).
  rewrite (bind_Ret _ _ _ _ _ (set_field_run 16 (page_header_size cap) (set_data d4 f) d5 E)).
  destruct (store_is_Some d5 page_fix_size (replicate (Z.to_nat (page_bitmap_size cap)) 0)) as [d6 E6];
    [done|unfold zlen, page_fix_size in *; rewrite length_replicate; lia|].
  unfold frame_data. rewrite bind_gets. unfold of_option, mbind, M_bind, zero_fill.
  change (data (page_ (set_data d5 (set_data d4 f)))) with d5. rewrite E6.
  exists d6. split; [done|].
  assert (Hbits : forall j, 0 <= j < cap -> bit (bitmap_of d6) j = false) by (intros; apply (zero_bits _ _ _ E6); lia).
  assert (Hfield : forall o v, (o, v) ∈ [(0, 0); (4, cap); (8, real); (12, align8 real); (16, slots_start real)] ->
    get_i32 d6 o = Some v).
  { intros o v Hin. rewrite <- (G o v Hin). unfold get_i32. erewrite load_store_disjoint; [done|exact E6|].
    left. unfold page_fix_size. set_unfold in Hin. destruct Hin as [[= -> ->]|[[= -> ->]|[[= -> ->]|[[= -> ->]|[[= -> ->]|[]]]]]]; lia. }
  split.
  - split; [split|].
    + rewrite (store_length _ _ _ _ E6). by rewrite L.
    + apply (store_is_char d5 page_fix_size (replicate (Z.to_nat (page_bitmap_size cap)) 0)); [done| |done].
      apply Forall_replicate. unfold is_char. lia.
    + apply Hfield. set_solver.
    + apply Hfield. set_solver.
    + apply Hfield. set_solver.
    + apply Hfield. set_solver.
    + rewrite (proj2 (count_set_zero _ _)) by done. apply Hfield. set_solver.
  - intros i. rewrite slots_eq. case_decide; [|done]. by rewrite Hbits.
Qed.
End operations.

(** ** A concrete page: records of 16 bytes, one record inserted *)

Lemma fits_16 : fits 16.
Proof. apply fits_intro; [lia|vm_compute; congruence]. Qed.

Definition final_or {A} (o : outcome Frame A) : Frame := default new_Frame (final o).
Definition sample_rec : list Z := [1; 2; 3; 4; 5; 6; 7; 8; 9; 10; 11; 12; 13; 14; 15; 16].
Definition empty_page : Frame := final_or (format_page 16 new_Frame).
Definition one_record : Frame := final_or (insert_record sample_rec empty_page).

Lemma check_page_ok real d :
  zlen d = BP_PAGE_DATA_SIZE -> forallb (fun c => (-128 <=? c) && (c <=? 127)) d = true ->
  get_i32 d 4 = Some (slot_count real) -> get_i32 d 8 = Some real -> get_i32 d 12 = Some (slot_size real) ->
  get_i32 d 16 = Some (slots_start real) -> get_i32 d 0 = Some (count_set (bitmap_of d) (slot_count real)) ->
  page_ok real d.
Proof.
  intros H1 H2 H3 H4 H5 H6 H7. split; [split|]; try done.
  apply Forall_forall. intros c Hc. rewrite forallb_forall in H2. apply list_elem_of_In in Hc.
  specialize (H2 c Hc). zbool. unfold is_char. lia.
Qed.

Lemma zero_page_len : zlen (data (page_ new_Frame)) = BP_PAGE_DATA_SIZE.
Proof. vm_compute. reflexivity. Qed.

Lemma zero_page_char : Forall is_char (data (page_ new_Frame)).
Proof. apply Forall_replicate. unfold is_char. lia. Qed.

Lemma empty_page_ok : page_ok 16 (data (page_ empty_page)).
Proof. apply check_page_ok; vm_compute; reflexivity. Qed.

Lemma one_record_ok : page_ok 16 (data (page_ one_record)).
Proof. apply check_page_ok; vm_compute; reflexivity. Qed.

Lemma sample_rec_char : Forall is_char sample_rec.
Proof. unfold sample_rec, is_char. repeat constructor; lia. Qed.

Lemma format_page_spec_witness :
  exists d', format_page 16 new_Frame = Ret tt (set_data d' new_Frame) /\ page_ok 16 d' /\ slots 16 d' 5 = None.
Proof.
  destruct (format_page_spec 16 fits_16 new_Frame zero_page_len zero_page_char) as (d & E & H1 & H2);
    [vm_compute; congruence|]. eauto.
Defined.

Lemma insert_record_spec_witness :
  exists i d', insert_record sample_rec empty_page = Ret (mk_RID 0 i) (mark_dirty (set_data d' empty_page)) /\
    slots 16 d' i = Some sample_rec.
Proof.
  pose proof (insert_record_spec 16 fits_16 empty_page sample_rec empty_page_ok ltac:(done) sample_rec_char) as H.
  cbv zeta in H.
  assert (E : (count_set (bitmap_of (data (page_ empty_page))) (slot_count 16) =? slot_count 16) = false)
    by (vm_compute; reflexivity).
  rewrite E in H. destruct H as (i & d & H1 & _ & _ & _ & H2). exists i, d. split; [exact H1|].
  rewrite H2, Z.eqb_refl. reflexivity.
Defined.

Lemma one_record_exists :
  exists f, page_ok 16 (data (page_ f)) /\ slots 16 (data (page_ f)) 0 = Some sample_rec /\
    count_set (bitmap_of (data (page_ f))) (slot_count 16) = 1.
Proof. exists one_record. split; [exact one_record_ok|]. vm_compute. auto. Qed.

Lemma slot_count_16 : slot_count 16 = 1014.
Proof. vm_compute. reflexivity. Qed.

Lemma slot_count_16_pos : (slot_count 16 <=? 0) = false.
Proof. by rewrite slot_count_16. Qed.

Lemma delete_record_spec_witness :
  exists f d', delete_record (mk_RID 0 0) f =
      Ret (count_set (bitmap_of d') (slot_count 16) =? 0) (mark_dirty (set_data d' f)) /\
    slots 16 (data (page_ f)) 0 = Some sample_rec /\ slots 16 d' 0 = None.
Proof.
  destruct one_record_exists as (f & Hok & Hs & _). exists f.
  pose proof (delete_record_spec 16 fits_16 f (mk_RID 0 0) Hok ltac:(done)) as H.
  cbn [slot_num] in H. cbv zeta in H. rewrite Hs in H. rewrite slot_count_16_pos in H.
  destruct H as (d & H1 & _ & H2). exists d. split; [exact H1|]. split; [exact Hs|]. by rewrite H2.
Defined.

Lemma update_record_spec_witness :
  exists f d', update_record (mk_RID 0 0) (reverse sample_rec) f = Ret tt (mark_dirty (set_data d' f)) /\
    slots 16 (data (page_ f)) 0 = Some sample_rec /\ slots 16 d' 0 = Some (reverse sample_rec).
Proof.
  destruct one_record_exists as (f & Hok & Hs & _). exists f.
  pose proof (update_record_spec 16 fits_16 f (mk_RID 0 0) (reverse sample_rec) Hok
    ltac:(done) ltac:(done) ltac:(apply Forall_reverse, sample_rec_char)) as H.
  cbn [slot_num] in H. cbv zeta in H. rewrite Hs in H. rewrite slot_count_16_pos in H.
  destruct H as (d & H1 & _ & H2). exists d. split; [exact H1|]. split; [exact Hs|]. by rewrite H2.
Defined.

Lemma get_record_spec_witness :
  exists f off, get_record (mk_RID 0 0) f = Ret off f /\ load (data (page_ f)) off 16 = Some sample_rec.
Proof.
  destruct one_record_exists as (f & Hok & Hs & _). exists f.
  pose proof (get_record_spec 16 fits_16 f (mk_RID 0 0) Hok ltac:(done)) as H.
  cbn [slot_num] in H. cbv zeta in H. rewrite Hs in H. rewrite slot_count_16_pos in H. exact H.
Defined.

Lemma page_iteration_complete_witness :
  exists f it, iter_init f = Ret it f /\
    iter_all it 2000 f = Ret (filter (fun i => is_Some (slots 16 (data (page_ f)) i)) (seqZ 0 (slot_count 16))) f.
Proof.
  destruct one_record_exists as (f & Hok & _). exists f.
  destruct (page_iteration_complete 16 fits_16 f Hok) as (it & H1 & H2).
  exists it. split; [exact H1|]. apply H2. rewrite slot_count_16. lia.
Defined.

Lemma recover_insert_miscounts_witness :
  exists f d', recover_insert_record sample_rec (mk_RID 0 0) f = Ret tt (mark_dirty (set_data d' f)) /\
    get_i32 d' 0 = Some (count_set (bitmap_of d') (slot_count 16) + 1).
Proof.
  destruct one_record_exists as (f & Hok & Hs & Hc). exists f.
  apply (recover_insert_miscounts 16 fits_16 f sample_rec (mk_RID 0 0) Hok).
  - done.
  - exact sample_rec_char.
  - rewrite slot_count_16. simpl. lia.
  - simpl slot_num. rewrite Hs. eauto.
  - rewrite Hc, slot_count_16. lia.
Defined.
