(* ===== verification/RecordFile.v ===== *)
(** * Record files and their scans (storage/record/record_manager.cpp)

    [RecordFileHandler] keeps the set of pages with free slots and finds the
    page of a record; [RecordFileScanner] walks over all records of a file.
    Both work through a [RecordPageHandler], an object that pins one page
    between [init] and [cleanup]; its destructor, which calls [cleanup], is the
    [finally] of the functions that own one. *)

From S2P Require Import Prelude.
From S2P Require Import Bytes.
From S2P Require Import Bitmap.
From S2P Require Import Monad.
From S2P Require Import Comparator.
From S2P Require Import MemPool.
From S2P Require Import BufferPool.
From S2P Require Import RecordPage.
From stdpp Require Import base gmap sets list strings.
From Stdlib Require Import ZArith Lia.
#[local] Open Scope Z_scope.

(** Runs the clean-up when the scope is left, on either way. *)
Definition finally {S A} (m : M S A) (c : M S unit) : M S A := fun s =>
  match m s with
  | Ret a s => match c s with Ret _ s | Err _ s => Ret a s | Stuck => Stuck end
  | Err rc s => match c s with Ret _ s | Err _ s => Err rc s | Stuck => Stuck end
  | Stuck => Stuck
  end.

(** ** RecordPageHandler *)

Definition on_frame {A} (a : Z) (m : M Frame A) : M BP A :=
  zoom (fun s => frame_at s a) (fun f s => set_frame_store (<[a := f]> (frame_store s)) s) m.

(** The pool it has pinned a page of, and the frame. *)
Record PageHandler : Type := mk_handler { ph_pool : option Z; ph_frame : option Z }.
Definition closed : PageHandler := mk_handler None None.

Definition handler_init (h : PageHandler) (bp : Z) (page_num : PageNum) : M BP PageHandler :=
  match ph_pool h with
  | Some _ => throw RECORD_OPENNED
  | None => frame ← DiskBufferPool.get_this_page bp page_num; mret (mk_handler (Some bp) (Some frame))
  end.

Definition handler_recover_init (h : PageHandler) (bp : Z) (page_num : PageNum) : M BP PageHandler :=
  match ph_pool h with
  | Some _ => throw RECORD_OPENNED
  | None =>
      frame ← DiskBufferPool.get_this_page bp page_num;
      _ ← rc_of (DiskBufferPool.recover_page bp page_num);
      mret (mk_handler (Some bp) (Some frame))
  end.

Definition handler_cleanup (h : PageHandler) : M BP PageHandler :=
  match ph_pool h with
  | Some bp =>
      frame ← of_option (ph_frame h);
      _ ← rc_of (DiskBufferPool.unpin_page bp frame);
      mret (mk_handler None (ph_frame h))
  | None => mret h
  end.

(** The destructor. *)
Definition handler_destroy (h : PageHandler) : M BP unit := handler_cleanup h;; mret tt.

(** On a failure of the flush the handler is open all the same. *)
Definition init_empty_page (h : PageHandler) (bp : Z) (page_num : PageNum) (size : Z) : M BP (RC * PageHandler) :=
  r ← attempt (handler_init h bp page_num);
  match r with
  | inl rc => mret (rc, h)
  | inr h =>
      frame ← of_option (ph_frame h);
      on_frame frame (format_page size);;
      rc ← rc_of (DiskBufferPool.flush_page bp frame);
      mret (rc, h)
  end.

(** [delete_record] on the page, which gives an empty page back: the handler is
    closed then. *)
Definition handler_delete_record (h : PageHandler) (rid : RID) : M BP PageHandler :=
  frame ← of_option (ph_frame h);
  empty ← on_frame frame (delete_record rid);
  if empty : bool then
    bp ← of_option (ph_pool h);
    page_num ← gets (fun s => page_no (page_ (frame_at s frame)));
    h ← handler_cleanup h;
    _ ← rc_of (DiskBufferPool.dispose_page bp page_num);
    mret h
  else mret h.

(** ** RecordFileHandler *)

Record RF : Type := mk_RF { rf_bp : BP; rf_pool : option Z; free_pages_ : gset PageNum }.

Definition on_bp {A} (m : M BP A) : M RF A :=
  zoom rf_bp (fun b s => mk_RF b (rf_pool s) (free_pages_ s)) m.
Definition rf_get_pool : M RF Z := fun s => of_option (rf_pool s) s.
Definition set_free_pages (f : gset PageNum -> gset PageNum) : M RF unit :=
  modify (fun s => mk_RF (rf_bp s) (rf_pool s) (f (free_pages_ s))).

(** The loop of [init_free_pages] over the pages of the file. *)
Fixpoint init_free_pages_loop (bp : Z) (it : BufferPoolIterator.t) (fuel : nat) : M RF unit :=
  match fuel with
  | O => fun _ => Stuck
  | S fuel =>
      more ← on_bp (BufferPoolIterator.has_next bp it);
      if more : bool then
        '(page_num, it) ← on_bp (BufferPoolIterator.next bp it);
        h ← on_bp (handler_init closed bp page_num);
        frame ← of_option (ph_frame h);
        full ← on_bp (on_frame frame is_full);
        (if negb full then set_free_pages (union {[ page_num ]}) else mret tt);;
        on_bp (handler_cleanup h);;
        init_free_pages_loop bp it fuel
      else mret tt
  end.

Definition init_free_pages : M RF unit :=
  bp ← rf_get_pool;
  it ← on_bp (BufferPoolIterator.init bp 0);
  init_free_pages_loop bp it (Z.to_nat (BufferPoolIterator.bitmap_size it) + 1).

(** The code of [init_free_pages] is dropped. *)
Definition file_init (buffer_pool : Z) : M RF unit := fun s =>
  match rf_pool s with
  | Some _ => Err RECORD_OPENNED s
  | None => (_ ← rc_of init_free_pages; mret tt) (mk_RF (rf_bp s) (Some buffer_pool) (free_pages_ s))
  end.

Definition file_close : M RF unit := modify (fun s => mk_RF (rf_bp s) None (free_pages_ s)).

Section file.
(** [*free_pages_.begin()]: the order of an unordered set is not specified. *)
Context (begin : gset PageNum -> option PageNum).

Fixpoint insert_loop (bp : Z) (fuel : nat) : M RF (option PageHandler) :=
  match fuel with
  | O => fun _ => Stuck
  | S fuel =>
      pages ← gets free_pages_;
      match begin pages with
      | None => mret None
      | Some page_num =>
          h ← on_bp (handler_init closed bp page_num);
          frame ← of_option (ph_frame h);
          full ← on_bp (on_frame frame is_full);
          if negb full then mret (Some h)
          else
            on_bp (handler_cleanup h);;
            set_free_pages (fun X => X ∖ {[ page_num ]});;
            insert_loop bp fuel
      end
  end.

Definition file_insert_record (rec : list Z) (size : Z) : M RF RID :=
  bp ← rf_get_pool;
  n ← gets (fun s => base.size (free_pages_ s));
  found ← insert_loop bp (n + 1);
  h ← match found with
      | Some h => mret h
      | None =>
          frame ← on_bp (DiskBufferPool.allocate_page bp);
          page_num ← on_bp (gets (fun s => page_no (page_ (frame_at s frame))));
          '(rc, h) ← on_bp (init_empty_page closed bp page_num size);
          if decide (rc = SUCCESS) then
            _ ← on_bp (rc_of (DiskBufferPool.unpin_page bp frame));
            set_free_pages (union {[ page_num ]});;
            mret h
          else
            _ ← on_bp (rc_of (DiskBufferPool.unpin_page bp frame));
            on_bp (handler_destroy h);;
            throw rc
      end;
  frame ← of_option (ph_frame h);
  finally (on_bp (on_frame frame (insert_record rec))) (on_bp (handler_destroy h)).
End file.

Definition file_recover_insert_record (rec : list Z) (rid : RID) : M RF unit :=
  bp ← rf_get_pool;
  h ← on_bp (handler_recover_init closed bp (page_num rid));
  frame ← of_option (ph_frame h);
  finally (on_bp (on_frame frame (recover_insert_record rec rid))) (on_bp (handler_destroy h)).

Definition file_update_record (rid : RID) (rec : list Z) : M RF unit :=
  bp ← rf_get_pool;
  h ← on_bp (handler_init closed bp (page_num rid));
  frame ← of_option (ph_frame h);
  finally (on_bp (on_frame frame (update_record rid rec))) (on_bp (handler_destroy h)).

Definition file_recover_update_record (rid : RID) (rec : list Z) : M RF unit :=
  bp ← rf_get_pool;
  h ← on_bp (handler_recover_init closed bp (page_num rid));
  frame ← of_option (ph_frame h);
  finally (on_bp (on_frame frame (recover_update_record rid rec))) (on_bp (handler_destroy h)).

(** [(rc != page_handler.init(...)) != SUCCESS] is true when [init] fails, and
    then [rc], still [SUCCESS], is returned. *)
Definition file_delete_record (rid : RID) : M RF unit :=
  bp ← rf_get_pool;
  r ← on_bp (attempt (handler_init closed bp (page_num rid)));
  match r with
  | inl _ => mret tt
  | inr h =>
      r ← on_bp (attempt (handler_delete_record h rid));
      match r with
      | inl rc => on_bp (handler_destroy h);; throw rc
      | inr h => set_free_pages (union {[ page_num rid ]});; on_bp (handler_destroy h)
      end
  end.

(** The frame and offset the record is set to; [None] when it is not set. *)
Definition file_get_record (rid : RID) : M RF (option (Z * Z)) :=
  bp ← rf_get_pool;
  r ← on_bp (attempt (handler_init closed bp (page_num rid)));
  match r with
  | inl _ => mret None
  | inr h =>
      frame ← of_option (ph_frame h);
      off ← finally (on_bp (on_frame frame (get_record rid))) (on_bp (handler_destroy h));
      mret (Some (frame, off))
  end.

(** ** RecordFileScanner *)

(** A record: its identifier, and the frame and offset of its data. *)
Record ScanRecord : Type := mk_scan_record { sr_rid : RID; sr_frame : Z; sr_off : Z }.

Record Scanner : Type := mk_Scanner {
  sc_bp : BP;
  sc_pool : option Z;
  bp_iterator_ : option BufferPoolIterator.t;
  (* the filter sees the record's data *)
  condition_filter_ : option (list Z -> bool);
  record_page_handler_ : PageHandler;
  (* the page iterator with its page number *)
  record_page_iterator_ : option (RecordPageIterator * PageNum);
  (* [None] for slot number -1 *)
  next_record_ : option ScanRecord }.

Definition sc_set_bp b s := mk_Scanner b (sc_pool s) (bp_iterator_ s) (condition_filter_ s) (record_page_handler_ s) (record_page_iterator_ s) (next_record_ s).
Definition sc_set_source p f s := mk_Scanner (sc_bp s) p (bp_iterator_ s) f (record_page_handler_ s) (record_page_iterator_ s) (next_record_ s).
Definition sc_set_iterator it s := mk_Scanner (sc_bp s) (sc_pool s) it (condition_filter_ s) (record_page_handler_ s) (record_page_iterator_ s) (next_record_ s).
Definition sc_set_handler h s := mk_Scanner (sc_bp s) (sc_pool s) (bp_iterator_ s) (condition_filter_ s) h (record_page_iterator_ s) (next_record_ s).
Definition sc_set_page_iterator it s := mk_Scanner (sc_bp s) (sc_pool s) (bp_iterator_ s) (condition_filter_ s) (record_page_handler_ s) it (next_record_ s).
Definition sc_set_next r s := mk_Scanner (sc_bp s) (sc_pool s) (bp_iterator_ s) (condition_filter_ s) (record_page_handler_ s) (record_page_iterator_ s) r.

Definition sc_on_bp {A} (m : M BP A) : M Scanner A := zoom sc_bp sc_set_bp m.

(** One turn of the loop per record; a page has at most [iter_size] of them. *)
Fixpoint fetch_in_page_loop (fuel : nat) : M Scanner unit :=
  match fuel with
  | O => fun _ => Stuck
  | S fuel =>
      pit ← (fun s => of_option (record_page_iterator_ s) s);
      let '(it, page_num) := pit in
      if iter_has_next it then
        h ← gets record_page_handler_;
        frame ← of_option (ph_frame h);
        '(slot, off, it) ← sc_on_bp (on_frame frame (iter_next it));
        modify (sc_set_page_iterator (Some (it, page_num)));;
        modify (sc_set_next (Some (mk_scan_record (mk_RID page_num slot) frame off)));;
        filter ← gets condition_filter_;
        d ← sc_on_bp (gets (fun s => data (page_ (frame_at s frame))));
        if match filter with None => true | Some f => f (drop (Z.to_nat off) d) end then mret tt
        else fetch_in_page_loop fuel
      else modify (sc_set_next None);; throw RECORD_EOF
  end.

Definition fetch_next_record_in_page : M Scanner unit :=
  pit ← gets record_page_iterator_;
  fetch_in_page_loop (match pit with Some (it, _) => Z.to_nat (iter_size it) + 1 | None => 1 end).

(** The loop over the pages. *)
Fixpoint fetch_pages_loop (bp : Z) (fuel : nat) : M Scanner unit :=
  match fuel with
  | O => fun _ => Stuck
  | S fuel =>
      it ← (fun s => of_option (bp_iterator_ s) s);
      more ← sc_on_bp (BufferPoolIterator.has_next bp it);
      if more : bool then
        '(page_num, it) ← sc_on_bp (BufferPoolIterator.next bp it);
        modify (sc_set_iterator (Some it));;
        h ← gets record_page_handler_;
        h ← sc_on_bp (handler_cleanup h);
        modify (sc_set_handler h);;
        h ← sc_on_bp (handler_init h bp page_num);
        modify (sc_set_handler h);;
        frame ← of_option (ph_frame h);
        pit ← sc_on_bp (on_frame frame iter_init);
        num ← sc_on_bp (gets (fun s => page_no (page_ (frame_at s frame))));
        modify (sc_set_page_iterator (Some (pit, num)));;
        rc ← rc_of fetch_next_record_in_page;
        if decide (rc = RECORD_EOF) then fetch_pages_loop bp fuel else return_rc rc
      else modify (sc_set_next None);; throw RECORD_EOF
  end.

Definition fetch_next_record : M Scanner unit :=
  pit ← gets record_page_iterator_;
  rc ← match pit with Some _ => rc_of fetch_next_record_in_page | None => mret RECORD_EOF end;
  if decide (rc = RECORD_EOF) then
    bp ← (fun s => of_option (sc_pool s) s);
    it ← (fun s => of_option (bp_iterator_ s) s);
    fetch_pages_loop bp (Z.to_nat (BufferPoolIterator.bitmap_size it) + 1)
  else return_rc rc.

Definition close_scan : M Scanner unit := modify (sc_set_source None None).

Definition open_scan (bp : Z) (filter : option (list Z -> bool)) : M Scanner unit :=
  close_scan;;
  modify (fun s => sc_set_source (Some bp) (condition_filter_ s) s);;
  it ← sc_on_bp (BufferPoolIterator.init bp 0);
  modify (sc_set_iterator (Some it));;
  modify (fun s => sc_set_source (sc_pool s) filter s);;
  rc ← rc_of fetch_next_record;
  if decide (rc = RECORD_EOF) then mret tt else return_rc rc.

Definition scan_has_next : M Scanner bool := gets (fun s => match next_record_ s with Some _ => true | None => false end).

Definition scan_next : M Scanner (option ScanRecord) :=
  r ← gets next_record_;
  rc ← rc_of fetch_next_record;
  if decide (rc = RECORD_EOF) then mret r else (return_rc rc;; mret r).

(** ** Properties *)

Lemma zoom_Err {S T A} (get : S -> T) (put : T -> S -> S) (m : M T A) s rc t :
  m (get s) = Err rc t -> zoom get put m s = Err rc (put t s).
Proof. intros E. unfold zoom. by rewrite E. Qed.

(** When the page of a record cannot be loaded, [get_record] and
    [delete_record] of the file handler report success: the code tests the
    comparison of two codes instead of the code.  The record of [get_record] is
    then not set, and [delete_record] deletes nothing. *)
Theorem page_errors_swallowed st bp rid rc b :
  rf_pool st = Some bp -> DiskBufferPool.get_this_page bp (page_num rid) (rf_bp st) = Err rc b ->
  let st' := mk_RF b (rf_pool st) (free_pages_ st) in
  file_get_record rid st = Ret None st' /\ file_delete_record rid st = Ret tt st'.
Proof.
  intros Hp E st'.
  assert (Hi : on_bp (attempt (handler_init closed bp (page_num rid))) st = Ret (inl rc) st').
  { unfold on_bp, zoom, attempt, handler_init. simpl. by rewrite (bind_Err _ _ _ _ _ E). }
  split.
  - unfold file_get_record. rewrite (bind_Ret rf_get_pool _ _ bp st) by (unfold rf_get_pool, of_option; by rewrite Hp).
    by rewrite (bind_Ret _ _ _ _ _ Hi).
  - unfold file_delete_record. rewrite (bind_Ret rf_get_pool _ _ bp st) by (unfold rf_get_pool, of_option; by rewrite Hp).
    by rewrite (bind_Ret _ _ _ _ _ Hi).
Qed.

(** An empty pool of four frames, and a file with one page of records. *)
Definition pool_of_4 : MemPool := (MemPool.init new_MemPool false 1 4 one_array).2.
Definition no_files : BP := mk_BP [] pool_of_4 ∅ ∅ ∅ ∅ ∅ ∅ 0 [].
Definition first_page (X : gset PageNum) : option PageNum := head (elements X).

Definition open_records : M RF unit :=
  on_bp (BufferPoolManager.create_file "t");;
  on_bp (BufferPoolManager.open_file "t" 1000 5);;
  file_init 1000.


Definition new_scanner (b : BP) : Scanner := mk_Scanner b None None None closed None None.
Definition scan_finds_something : M Scanner bool := open_scan 1000 None;; scan_has_next.


(** Without the deletion the record is found. *)
Example scan_after_insert :
  match (open_records;; file_insert_record first_page sample_rec 16) (mk_RF no_files None ∅) with
  | Ret rid st =>
      rid = mk_RID 1 0 /\
      match scan_finds_something (new_scanner (rf_bp st)) with Ret b _ => b = true | _ => False end
  | _ => False
  end.
Proof. vm_compute. auto. Qed.

(** The second page of the file cannot be read. *)
Definition failing_state : RF :=
  match open_records (mk_RF no_files None ∅) with
  | Ret _ st => mk_RF (set_faults [false] (rf_bp st)) (rf_pool st) (free_pages_ st)
  | _ => mk_RF no_files None ∅
  end.

Lemma is_Err {S A} (o : outcome S A) : match o with Err _ _ => true | _ => false end = true -> exists rc s, o = Err rc s.
Proof. destruct o; [done| |done]. eauto. Qed.

Lemma failing_state_exists : exists st rc b,
  rf_pool st = Some 1000 /\ DiskBufferPool.get_this_page 1000 1 (rf_bp st) = Err rc b.
Proof.
  exists failing_state.
  destruct (is_Err (DiskBufferPool.get_this_page 1000 1 (rf_bp failing_state))) as (rc & b & E);
    [vm_compute; reflexivity|].
  exists rc, b. split; [vm_compute; reflexivity|exact E].
Qed.

Lemma page_errors_swallowed_witness :
  exists st b, file_get_record (mk_RID 1 0) st = Ret None (mk_RF b (rf_pool st) (free_pages_ st)).
Proof.
  destruct failing_state_exists as (st & rc & b & Hp & E). exists st, b.
  exact (proj1 (page_errors_swallowed st 1000 (mk_RID 1 0) rc b Hp E)).
Defined.
