(* ===== verification/NodePool.v ===== *)
(** * The pages of a B+ tree index (storage/index/bplus_tree.h)

    The header page and the node pages of an index file, and what the tree code
    relies on of its [DiskBufferPool]: the pages with their current content, the
    content the file has, which pages are dirty, pinned and allocated.  This is
    the view of the buffer pool that BufferPoolSpec establishes: the content of a
    page does not depend on which frame holds it or whether any does.  A clean
    page that nobody has pinned may be evicted at any time ([evict]), which
    makes its content that of the file.

    The node arrays are lists of exactly [key_num] items; reading an item
    behind them is stuck. *)

From stdpp Require Import base gmap sets list tactics.
From Stdlib Require Import ZArith Lia.
From S2P Require Import Prelude.
From S2P Require Import Monad.
From S2P Require Import Comparator.
#[local] Open Scope Z_scope.

Definition FIRST_INDEX_PAGE : PageNum := 1.

Record IndexFileHeader : Type := mk_header {
  root_page : PageNum;
  internal_max_size : Z;
  leaf_max_size : Z;
  attr_length : Z;
  key_length : Z;
  attr_type : AttrType
}.

(** A frame is named by the page it holds. *)
Abbreviation Frame := PageNum (only parsing).

(** Undefined behaviour. *)
Definition stuck {S A} : M S A := fun _ => Stuck.

Section pages.
Context {K : Type}.

(** The common header ([is_leaf] is the constructor of [IndexNode],
    [key_num] the length of the array) and the array of items. *)
Record LeafIndexNode : Type := mk_leaf {
  l_parent : PageNum;
  prev_brother : PageNum;
  next_brother : PageNum;
  l_array : list (K * RID)
}.
Record InternalIndexNode : Type := mk_internal {
  i_parent : PageNum;
  i_array : list (K * PageNum)
}.
Inductive IndexNode : Type := LeafNode (n : LeafIndexNode) | InternalNode (n : InternalIndexNode).

(** What a page of the file holds. *)
Inductive PageData : Type := RawPage | HeaderPage (h : IndexFileHeader) | NodePage (n : IndexNode).

(** An open index: [BplusTreeHandler] with its buffer pool.  [fails] lists what
    befalls the next calls that may fail (a full buffer pool, an I/O error, no
    memory): [Some rc] makes the call fail; when the list is used up the calls
    succeed.  [keys_in_use] counts the keys taken from [mem_pool_item_];
    [file_allocated] is the bitmap in the header page of the file. *)
Record Index : Type := mk_Index {
  file_header_ : IndexFileHeader;
  data : gmap PageNum PageData;
  file : gmap PageNum PageData;
  dirty : gset PageNum;
  pins : gmap PageNum Z;
  allocated : gset PageNum;
  disposed_pages : gset PageNum;
  keys_in_use : Z;
  fails : list (option RC);
  file_allocated : gset PageNum
}.

Definition set_header h s := mk_Index h (data s) (file s) (dirty s) (pins s) (allocated s) (disposed_pages s) (keys_in_use s) (fails s) (file_allocated s).
Definition set_data d s := mk_Index (file_header_ s) d (file s) (dirty s) (pins s) (allocated s) (disposed_pages s) (keys_in_use s) (fails s) (file_allocated s).
Definition set_file f s := mk_Index (file_header_ s) (data s) f (dirty s) (pins s) (allocated s) (disposed_pages s) (keys_in_use s) (fails s) (file_allocated s).
Definition set_dirty d s := mk_Index (file_header_ s) (data s) (file s) d (pins s) (allocated s) (disposed_pages s) (keys_in_use s) (fails s) (file_allocated s).
Definition set_pins p s := mk_Index (file_header_ s) (data s) (file s) (dirty s) p (allocated s) (disposed_pages s) (keys_in_use s) (fails s) (file_allocated s).
Definition set_allocated a s := mk_Index (file_header_ s) (data s) (file s) (dirty s) (pins s) a (disposed_pages s) (keys_in_use s) (fails s) (file_allocated s).
Definition set_disposed d s := mk_Index (file_header_ s) (data s) (file s) (dirty s) (pins s) (allocated s) d (keys_in_use s) (fails s) (file_allocated s).
Definition set_keys k s := mk_Index (file_header_ s) (data s) (file s) (dirty s) (pins s) (allocated s) (disposed_pages s) k (fails s) (file_allocated s).
Definition set_fails l s := mk_Index (file_header_ s) (data s) (file s) (dirty s) (pins s) (allocated s) (disposed_pages s) (keys_in_use s) l (file_allocated s).

Definition set_file_allocated a s := mk_Index (file_header_ s) (data s) (file s) (dirty s) (pins s) (allocated s) (disposed_pages s) (keys_in_use s) (fails s) a.

(** ** The buffer pool *)

Definition pin_count (s : Index) (p : PageNum) : Z := default 0 (pins s !! p).
Definition set_pin (p : PageNum) (n : Z) (s : Index) : Index :=
  set_pins (if n =? 0 then delete p (pins s) else <[p := n]> (pins s)) s.

(** What happens to a call that may fail. *)
Definition next_fail : M Index (option RC) := fun s =>
  match fails s with
  | [] => Ret None s
  | f :: l => Ret f (set_fails l s)
  end.
Definition may_fail : M Index unit :=
  f ← next_fail; match f with Some rc => throw rc | None => mret tt end.

Definition get_this_page (p : PageNum) : M Index Frame :=
  may_fail;;
  d ← gets data;
  match d !! p with
  | None => throw IOERR_READ
  | Some _ => modify (fun s => set_pin p (pin_count s p + 1) s);; mret p
  end.

(** The smallest page number that is free. *)
Definition first_free (a : gset PageNum) : PageNum :=
  default 0 (head (filter (fun i => i ∉ a) (seqZ 0 (Z.of_nat (size a) + 1)))).

Definition allocate_page : M Index Frame :=
  may_fail;;
  a ← gets allocated;
  let p := first_free a in
  modify (set_allocated ({[ p ]} ∪ a));;
  modify (fun s => set_file (match file s !! p with None => <[p := RawPage]> (file s) | Some _ => file s end) s);;
  modify (fun s => set_data (match data s !! p with None => <[p := RawPage]> (data s) | Some _ => data s end) s);;
  modify (fun s => set_pin p (pin_count s p + 1) s);;
  mret p.

Definition mark_dirty (p : Frame) : M Index unit := modify (fun s => set_dirty ({[ p ]} ∪ dirty s) s).

(** Writing a dirty page back. *)
Definition write_back (p : PageNum) (s : Index) : Index :=
  if decide (p ∈ dirty s) then
    set_dirty (dirty s ∖ {[ p ]})
      (set_file (match data s !! p with Some d => <[p := d]> (file s) | None => file s end) s)
  else set_data (match file s !! p with Some d => <[p := d]> (data s) | None => delete p (data s) end) s.

Definition dispose_page (p : PageNum) : M Index unit :=
  s ← get_state;
  if 0 <? pin_count s p then
    modify (set_disposed ({[ p ]} ∪ disposed_pages s));; throw LOCKED_UNLOCK
  else
    modify (write_back p);;
    modify (fun s => set_allocated (allocated s ∖ {[ p ]}) s).

Definition unpin_page (p : Frame) : M Index unit :=
  n ← gets (fun s => pin_count s p);
  check (1 <=? n);;
  modify (set_pin p (n - 1));;
  d ← gets disposed_pages;
  if (n - 1 =? 0) && bool_decide (p ∈ d) then
    _ ← rc_of (dispose_page p);
    modify (fun s => set_disposed (disposed_pages s ∖ {[ p ]}) s)
  else mret tt.

(** [flush_page] of a frame; page 0, which always has a frame, holds the bitmap
    of the allocated pages. *)
Definition flush_page (p : PageNum) (s : Index) : Index :=
  let s := set_dirty (dirty s ∖ {[ p ]}) (set_file (match data s !! p with Some d => <[p := d]> (file s) | None => file s end) s) in
  if p =? 0 then set_file_allocated (allocated s) s else s.

Fixpoint flush_pages (ps : list PageNum) : M Index unit :=
  match ps with
  | [] => mret tt
  | p :: ps => may_fail;; modify (flush_page p);; flush_pages ps
  end.

Definition flush_all_pages : M Index unit :=
  d ← gets data; flush_pages (elements ({[ 0 ]} ∪ dom d)).

(** [close_file]: all frames are freed, without writing them; [open_file] on what
    the file has. *)
Definition drop_frames (s : Index) : Index :=
  mk_Index (file_header_ s) (file s) (file s) ∅ ∅ (file_allocated s) ∅ 0 (fails s) (file_allocated s).

(** The buffer pool may give the frame of an unpinned page to another page. *)
Definition evict (p : PageNum) (s : Index) : Index :=
  if 0 <? pin_count s p then s else write_back p s.

(** ** Pages as nodes: through a frame, which must be pinned *)

Definition frame_data (p : Frame) : M Index PageData :=
  s ← get_state;
  check (0 <? pin_count s p);;
  of_option (data s !! p).

Definition put_page (p : Frame) (d : PageData) : M Index unit :=
  s ← get_state;
  check (0 <? pin_count s p);;
  modify (set_data (<[p := d]> (data s))).

Definition node (p : Frame) : M Index IndexNode :=
  d ← frame_data p; match d with NodePage n => mret n | _ => of_option None end.
Definition leaf (p : Frame) : M Index LeafIndexNode :=
  n ← node p; match n with LeafNode n => mret n | _ => of_option None end.
Definition internal (p : Frame) : M Index InternalIndexNode :=
  n ← node p; match n with InternalNode n => mret n | _ => of_option None end.
Definition put_leaf (p : Frame) (n : LeafIndexNode) : M Index unit := put_page p (NodePage (LeafNode n)).
Definition put_internal (p : Frame) (n : InternalIndexNode) : M Index unit := put_page p (NodePage (InternalNode n)).
End pages.

Arguments LeafIndexNode : clear implicits.
Arguments InternalIndexNode : clear implicits.
Arguments IndexNode : clear implicits.
Arguments PageData : clear implicits.
Arguments Index : clear implicits.
