(* ===== verification/BplusNode.v ===== *)
(** * The nodes of the B+ tree (storage/index/bplus_tree.cpp)

    [IndexNodeHandler], [LeafIndexNodeHandler] and [InternalIndexNodeHandler]:
    the operations on the item array of one page, and the theorems that make
    them correct: the binary search finds the right position, insertion and
    removal keep the array sorted, and moving items between siblings keeps
    their sequence. *)

From Stdlib Require Import ZArith Lia Sorted.
From stdpp Require Import base gmap sets list tactics.
From S2P Require Import Prelude.
From S2P Require Import Monad.
From S2P Require Import LowerBound.
From S2P Require Import Comparator.
From S2P Require Import NodePool.
#[local] Open Scope Z_scope.

(** The sizes of the structures of the page. *)
Definition BP_PAGE_DATA_SIZE : Z := 4092.
Definition sizeof_RID : Z := 8.
Definition sizeof_PageNum : Z := 4.
Definition INTERNAL_HEADER_SIZE : Z := 12.
Definition LEAF_HEADER_SIZE : Z := 20.

Definition calc_internal_page_capacity (attr_length : Z) : Z :=
  let item_size := attr_length + sizeof_RID + sizeof_PageNum in
  cdiv (BP_PAGE_DATA_SIZE - INTERNAL_HEADER_SIZE) item_size.

Definition calc_leaf_page_capacity (attr_length : Z) : Z :=
  let item_size := attr_length + sizeof_RID + sizeof_RID in
  cdiv (BP_PAGE_DATA_SIZE - LEAF_HEADER_SIZE) item_size.

(** ** The item array *)

Section array.
Context {A : Type}.
Implicit Types (l : list A) (i : Z).

(** [memmove] of the items from [i] on by one place, then [memcpy] of the item. *)
Definition arr_insert l i (x : A) : option (list A) :=
  if decide (0 <= i <= zlen l) then Some (take (Z.to_nat i) l ++ x :: drop (Z.to_nat i) l) else None.

(** [assert(index >= 0 && index < size())], [memmove], one item less. *)
Definition arr_remove l i : option (list A) :=
  if decide (0 <= i < zlen l) then Some (take (Z.to_nat i) l ++ drop (S (Z.to_nat i)) l) else None.

(** The items [i, ..., i + n - 1], when they all exist. *)
Definition arr_slice l i n : option (list A) :=
  if decide (0 <= i /\ 0 <= n /\ i + n <= zlen l) then Some (take (Z.to_nat n) (drop (Z.to_nat i) l)) else None.

(** [increase_size(-n)] *)
Definition arr_shrink l n : option (list A) :=
  if decide (0 <= n <= zlen l) then Some (take (length l - Z.to_nat n) l) else None.
End array.

(** The result of the comparison of the key of item [i] with [key]. *)
Definition key_cmp {K V} (comparator : K -> K -> Z) (key : K) (items : list (K * V)) (i : Z) : Z :=
  match zget items i with Some (k, _) => comparator k key | None => 0 end.

(** The keys are in strictly ascending order: the loops of [validate]. *)
Fixpoint keys_ascend {K V} (comparator : K -> K -> Z) (items : list (K * V)) : bool :=
  match items with
  | (k1, _) :: ((k2, _) :: _) as rest => negb (0 <=? comparator k1 k2) && keys_ascend comparator rest
  | _ => true
  end.

Section nodes.
Context {K : Type}.
Implicit Types (frame other : Frame) (key : K).

Definition set_l_array (a : list (K * RID)) (n : LeafIndexNode K) : LeafIndexNode K :=
  mk_leaf (l_parent n) (prev_brother n) (next_brother n) a.
Definition set_i_array (a : list (K * PageNum)) (n : InternalIndexNode K) : InternalIndexNode K :=
  mk_internal (i_parent n) a.

(** ** [IndexNodeHandler] *)

Definition is_leaf frame : M (Index K) bool :=
  n ← node frame; mret (match n with LeafNode _ => true | InternalNode _ => false end).

Definition size frame : M (Index K) Z :=
  n ← node frame; mret (match n with LeafNode n => zlen (l_array n) | InternalNode n => zlen (i_array n) end).

Definition node_parent (n : IndexNode K) : PageNum :=
  match n with LeafNode n => l_parent n | InternalNode n => i_parent n end.

Definition parent_page_num frame : M (Index K) PageNum := n ← node frame; mret (node_parent n).

Definition node_set_parent (page_num : PageNum) (n : IndexNode K) : IndexNode K :=
  match n with
  | LeafNode n => LeafNode (mk_leaf page_num (prev_brother n) (next_brother n) (l_array n))
  | InternalNode n => InternalNode (mk_internal page_num (i_array n))
  end.

Definition set_parent_page_num frame (page_num : PageNum) : M (Index K) unit :=
  n ← node frame; put_page frame (NodePage (node_set_parent page_num n)).

(** The common part of [validate]: the sizes of a root. *)
Definition validate_root frame : M (Index K) bool :=
  parent ← parent_page_num frame;
  n ← size frame;
  is_l ← is_leaf frame;
  mret (negb ((parent =? BP_INVALID_PAGE_NUM) &&
              ((n <? 1) || (negb is_l && (n <? 2))))).
End nodes.

(** ** [LeafIndexNodeHandler] *)

Module Leaf.
Section leaf.
Context {K : Type}.
Implicit Types (frame other : Frame) (key : K) (item : K * RID).

(** [init_empty] writes every field of the header, whatever the page holds. *)
Definition init_empty frame : M (Index K) unit :=
  _ ← frame_data frame;
  put_leaf frame (mk_leaf BP_INVALID_PAGE_NUM BP_INVALID_PAGE_NUM BP_INVALID_PAGE_NUM []).

Definition set_next_page frame (page_num : PageNum) : M (Index K) unit :=
  n ← leaf frame; put_leaf frame (mk_leaf (l_parent n) (prev_brother n) page_num (l_array n)).
Definition set_prev_page frame (page_num : PageNum) : M (Index K) unit :=
  n ← leaf frame; put_leaf frame (mk_leaf (l_parent n) page_num (next_brother n) (l_array n)).
Definition next_page frame : M (Index K) PageNum := n ← leaf frame; mret (next_brother n).
Definition prev_page frame : M (Index K) PageNum := n ← leaf frame; mret (prev_brother n).

Definition item_at frame (index : Z) : M (Index K) (K * RID) :=
  n ← leaf frame; of_option (zget (l_array n) index).
Definition key_at frame (index : Z) : M (Index K) K := it ← item_at frame index; mret it.1.
Definition value_at frame (index : Z) : M (Index K) RID := it ← item_at frame index; mret it.2.

Definition max_size : M (Index K) Z := gets (fun s => leaf_max_size (file_header_ s)).
Definition min_size : M (Index K) Z :=
  gets (fun s => let m := leaf_max_size (file_header_ s) in m - cdiv m 2).

(** The insertion position, and whether the key is there. *)
Definition lookup_items (comparator : K -> K -> Z) (items : list (K * RID)) key : option (Z * bool) :=
  lower_bound (key_cmp comparator key items) (zlen items).

Definition lookup (comparator : K -> K -> Z) frame key : M (Index K) (Z * bool) :=
  n ← leaf frame; of_option (lookup_items comparator (l_array n) key).

Definition insert frame (index : Z) key (value : RID) : M (Index K) unit :=
  n ← leaf frame;
  a ← of_option (arr_insert (l_array n) index (key, value));
  put_leaf frame (set_l_array a n).

Definition remove frame (index : Z) : M (Index K) unit :=
  n ← leaf frame;
  a ← of_option (arr_remove (l_array n) index);
  put_leaf frame (set_l_array a n).

(** [remove(key, comparator)]: the number of items removed. *)
Definition remove_key (comparator : K -> K -> Z) frame key : M (Index K) Z :=
  r ← lookup comparator frame key;
  if (r.2 : bool) then remove frame r.1;; mret 1 else mret 0.

(** The copy goes to the start of [other], which is counted as if it were
    empty: with items there the count would take in uncopied bytes. *)
Definition move_half_to frame other : M (Index K) unit :=
  n ← leaf frame;
  o ← leaf other;
  check (zlen (l_array o) =? 0);;
  let size := zlen (l_array n) in
  let move_index := cdiv size 2 in
  items ← of_option (arr_slice (l_array n) move_index (size - move_index));
  rest ← of_option (arr_shrink (l_array n) (size - move_index));
  put_leaf other (set_l_array items o);;
  put_leaf frame (set_l_array rest n).

Definition append frame item : M (Index K) unit :=
  n ← leaf frame; put_leaf frame (set_l_array (l_array n ++ [item]) n).

Definition preappend frame item : M (Index K) unit :=
  n ← leaf frame; put_leaf frame (set_l_array (item :: l_array n) n).

Definition move_first_to_end frame other : M (Index K) unit :=
  item ← item_at frame 0;
  append other item;;
  n ← leaf frame;
  put_leaf frame (set_l_array (drop 1 (l_array n)) n).

Definition move_last_to_front frame other : M (Index K) unit :=
  n ← leaf frame;
  item ← item_at frame (zlen (l_array n) - 1);
  preappend other item;;
  n ← leaf frame;
  rest ← of_option (arr_shrink (l_array n) 1);
  put_leaf frame (set_l_array rest n).

(** All items to the end of the left sibling, which also takes over the link to
    the next leaf. *)
Definition move_to frame other : M (Index K) unit :=
  n ← leaf frame;
  o ← leaf other;
  put_leaf other (set_l_array (l_array o ++ l_array n) o);;
  put_leaf frame (set_l_array [] n);;
  next ← next_page frame;
  set_next_page other next;;
  next_right_page_num ← next_page frame;
  if negb (next_right_page_num =? BP_INVALID_PAGE_NUM) then
    next_right_frame ← get_this_page next_right_page_num;
    set_prev_page next_right_frame other;;
    mark_dirty next_right_frame;;
    unpin_page next_right_frame
  else mret tt.
End leaf.
End Leaf.

(** ** [InternalIndexNodeHandler] *)

Module Internal.
Section internal.
Context {K : Type} (zero_key : K) (* [key_size()] zero bytes *).
Implicit Types (frame other : Frame) (key : K) (item : K * PageNum).

(** [init_empty] leaves the parent invalid and no items. *)
Definition init_empty frame : M (Index K) unit :=
  _ ← frame_data frame; put_internal frame (mk_internal BP_INVALID_PAGE_NUM []).

Definition create_new_root frame (first_page_num : PageNum) key (page_num : PageNum) : M (Index K) unit :=
  n ← internal frame;
  check (zlen (i_array n) =? 0);;
  put_internal frame (set_i_array [(zero_key, first_page_num); (key, page_num)] n).

Definition item_at frame (index : Z) : M (Index K) (K * PageNum) :=
  n ← internal frame; of_option (zget (i_array n) index).
Definition key_at frame (index : Z) : M (Index K) K := it ← item_at frame index; mret it.1.
Definition value_at frame (index : Z) : M (Index K) PageNum := it ← item_at frame index; mret it.2.

Definition set_key_at frame (index : Z) key : M (Index K) unit :=
  n ← internal frame;
  it ← of_option (zget (i_array n) index);
  a ← of_option (zset (i_array n) index (key, it.2));
  put_internal frame (set_i_array a n).

Definition max_size : M (Index K) Z := gets (fun s => internal_max_size (file_header_ s)).
Definition min_size : M (Index K) Z :=
  gets (fun s => let m := internal_max_size (file_header_ s) in m - cdiv m 2).

(** The index of the child to descend to and the position to insert at; the key
    of the first item is ignored. *)
Definition lookup_items (comparator : K -> K -> Z) (items : list (K * PageNum)) key : option (Z * Z) :=
  let size := zlen items in
  if size =? 0 then Some (0, 1)
  else
    match lower_bound (fun i => key_cmp comparator key items (i + 1)) (size - 1) with
    | None => None
    | Some (i, _) =>
        let ret := i + 1 in
        let insert_position := ret in
        match zget items ret with
        | Some (k, _) => Some (if comparator key k <? 0 then ret - 1 else ret, insert_position)
        | None => Some (ret - 1, insert_position)
        end
    end.

Definition lookup (comparator : K -> K -> Z) frame key : M (Index K) (Z * Z) :=
  n ← internal frame; of_option (lookup_items comparator (i_array n) key).

Definition insert (comparator : K -> K -> Z) frame key (page_num : PageNum) : M (Index K) unit :=
  r ← lookup comparator frame key;
  let insert_position := r.2 in
  n ← internal frame;
  a ← of_option (arr_insert (i_array n) insert_position (key, page_num));
  put_internal frame (set_i_array a n).

Fixpoint value_index_loop (items : list (K * PageNum)) (page_num : PageNum) (i : Z) : Z :=
  match items with
  | [] => -1
  | (_, p) :: items => if page_num =? p then i else value_index_loop items page_num (i + 1)
  end.
Definition value_index frame (page_num : PageNum) : M (Index K) Z :=
  n ← internal frame; mret (value_index_loop (i_array n) page_num 0).

Definition remove frame (index : Z) : M (Index K) unit :=
  n ← internal frame;
  a ← of_option (arr_remove (i_array n) index);
  put_internal frame (set_i_array a n).

(** The children of the items get [this] as their parent. *)
Fixpoint adopt (this : Frame) (items : list (K * PageNum)) : M (Index K) unit :=
  match items with
  | [] => mret tt
  | (_, page_num) :: items =>
      frame ← get_this_page page_num;
      set_parent_page_num frame this;;
      mark_dirty frame;;
      unpin_page frame;;
      adopt this items
  end.

(** [copy_from] counts the copied items only when every child has been adopted. *)
Definition copy_from frame (items : list (K * PageNum)) : M (Index K) unit :=
  adopt frame items;;
  n ← internal frame;
  put_internal frame (set_i_array (i_array n ++ items) n).

Definition append frame item : M (Index K) unit := copy_from frame [item].

Definition preappend frame item : M (Index K) unit :=
  adopt frame [item];;
  n ← internal frame;
  put_internal frame (set_i_array (item :: i_array n) n).

Definition move_half_to frame other : M (Index K) unit :=
  n ← internal frame;
  let size := zlen (i_array n) in
  let move_index := cdiv size 2 in
  items ← of_option (arr_slice (i_array n) move_index (size - move_index));
  copy_from other items;;
  n ← internal frame;
  rest ← of_option (arr_shrink (i_array n) (size - move_index));
  put_internal frame (set_i_array rest n).

Definition move_to frame other : M (Index K) unit :=
  n ← internal frame;
  copy_from other (i_array n);;
  n ← internal frame;
  put_internal frame (set_i_array [] n).

Definition move_first_to_end frame other : M (Index K) unit :=
  item ← item_at frame 0;
  append other item;;
  n ← internal frame;
  put_internal frame (set_i_array (drop 1 (i_array n)) n).

Definition move_last_to_front frame other : M (Index K) unit :=
  n ← internal frame;
  item ← item_at frame (zlen (i_array n) - 1);
  preappend other item;;
  n ← internal frame;
  rest ← of_option (arr_shrink (i_array n) 1);
  put_internal frame (set_i_array rest n).

(** [(false == result)] ends the loop; a child that cannot be fetched is only logged. *)
Fixpoint validate_children frame (items : list (K * PageNum)) : M (Index K) bool :=
  match items with
  | [] => mret true
  | (_, page_num) :: items =>
      if page_num <? 0 then validate_children frame items
      else
        r ← attempt (get_this_page page_num);
        match r with
        | inl _ => validate_children frame items
        | inr child_frame =>
            parent ← parent_page_num child_frame;
            unpin_page child_frame;;
            if parent =? frame then validate_children frame items else mret false
        end
  end.

(** The end of both [validate] methods: where the node stands in its parent;
    [first] is the index of the first key of the node that counts. *)
Definition validate_in_parent {V} (comparator : K -> K -> Z) frame (items : list (K * V)) (first : Z)
  (parent_page_num : PageNum) : M (Index K) bool :=
  r ← attempt (get_this_page parent_page_num);
  match r with
  | inl _ => mret false
  | inr parent_frame =>
      index_in_parent ← value_index parent_frame frame;
      parent_size ← size parent_frame;
      if index_in_parent <? 0 then unpin_page parent_frame;; mret false
      else
        low ← (if negb (index_in_parent =? 0) then
                 it ← of_option (zget items first);
                 k ← key_at parent_frame index_in_parent;
                 mret (comparator it.1 k <? 0)
               else mret false);
        if (low : bool) then unpin_page parent_frame;; mret false
        else
          high ← (if index_in_parent <? parent_size - 1 then
                    it ← of_option (zget items (zlen items - 1));
                    k ← key_at parent_frame (index_in_parent + 1);
                    mret (0 <=? comparator it.1 k)
                  else mret false);
          unpin_page parent_frame;;
          mret (negb high)
  end.

Definition validate (comparator : K -> K -> Z) frame : M (Index K) bool :=
  root_ok ← validate_root frame;
  n ← internal frame;
  if negb root_ok then mret false
  else if negb (keys_ascend comparator (drop 1 (i_array n))) then mret false
  else
    result ← validate_children frame (i_array n);
    if negb result then mret false
    else if i_parent n =? BP_INVALID_PAGE_NUM then mret true
    else validate_in_parent comparator frame (i_array n) 1 (i_parent n).
End internal.
End Internal.

Definition leaf_validate {K} (comparator : K -> K -> Z) (frame : Frame) : M (Index K) bool :=
  root_ok ← validate_root frame;
  n ← leaf frame;
  if negb root_ok then mret false
  else if negb (keys_ascend comparator (l_array n)) then mret false
  else if l_parent n =? BP_INVALID_PAGE_NUM then mret true
  else Internal.validate_in_parent comparator frame (l_array n) 0 (l_parent n).

(** ** Sorted arrays *)

Section sorted.
Context {K : Type} (comparator : K -> K -> Z).

Definition key_lt (k1 k2 : K) : Prop := comparator k1 k2 < 0.
Definition key_le (k1 k2 : K) : Prop := comparator k1 k2 <= 0.
Definition sorted (ks : list K) : Prop := StronglySorted key_lt ks.

Lemma sorted_app ks1 ks2 :
  sorted (ks1 ++ ks2) <-> sorted ks1 /\ sorted ks2 /\ (forall k1 k2, k1 ∈ ks1 -> k2 ∈ ks2 -> key_lt k1 k2).
Proof.
  unfold sorted. induction ks1 as [|k ks1 IH]; simpl.
  - split; [|tauto]. intros H. split; [constructor|]. split; [done|]. set_solver.
  - split.
    + intros [Hs Hf]%StronglySorted_inv. apply IH in Hs as (H1 & H2 & H3).
      apply Forall_app in Hf as [Hf1 Hf2]. rewrite list.Forall_forall in Hf2. split; [by constructor|]. split; [done|].
      intros k1 k2 [->|Hk1]%elem_of_cons Hk2; auto.
    + intros ([H1 Hf]%StronglySorted_inv & H2 & H3). constructor; [apply IH; set_solver|].
      apply Forall_app. split; [done|]. apply list.Forall_forall. set_solver.
Qed.

Lemma sorted_cons k ks : sorted (k :: ks) <-> sorted ks /\ (forall k', k' ∈ ks -> key_lt k k').
Proof.
  unfold sorted. split.
  - intros [H1 H2]%StronglySorted_inv. by rewrite list.Forall_forall in H2.
  - intros [H1 H2]. constructor; [done|]. by apply list.Forall_forall.
Qed.

Lemma sorted_insert ks1 k ks2 :
  sorted (ks1 ++ ks2) -> (forall a, a ∈ ks1 -> key_lt a k) -> (forall a, a ∈ ks2 -> key_lt k a) ->
  sorted (ks1 ++ k :: ks2).
Proof.
  intros Hs H1 H2. apply sorted_app in Hs as (Hs1 & Hs2 & Hs12). apply sorted_app.
  split; [done|]. split; [by apply sorted_cons|]. set_solver.
Qed.

Lemma sorted_delete ks1 k ks2 : sorted (ks1 ++ k :: ks2) -> sorted (ks1 ++ ks2).
Proof. rewrite !sorted_app, sorted_cons. set_solver. Qed.

Lemma key_cmp_lookup {V} key (items : list (K * V)) i k v :
  items !! i = Some (k, v) -> key_cmp comparator key items (Z.of_nat i) = comparator k key.
Proof. intros H. unfold key_cmp, zget. rewrite decide_True by lia. by rewrite Nat2Z.id, H. Qed.

Lemma sorted_lookup (ks : list K) i j k1 k2 :
  sorted ks -> (i < j)%nat -> ks !! i = Some k1 -> ks !! j = Some k2 -> key_lt k1 k2.
Proof.
  revert i j. induction ks as [|k ks IH]; intros i j Hs Hij Hi Hj; [done|].
  apply sorted_cons in Hs as [Hs Hk]. destruct j as [|j]; [lia|]. simpl in Hj. destruct i as [|i]; simpl in Hi.
  - simplify_eq. apply Hk. by eapply list_elem_of_lookup_2.
  - apply (IH i j); [done|lia|done|done].
Qed.

End sorted.

Section order.
Context {K : Type} (dom : K -> Prop) (comparator : K -> K -> Z) `{!CmpOrder dom comparator}.
Abbreviation key_lt := (key_lt comparator).
Abbreviation key_le := (key_le comparator).
Abbreviation sorted := (sorted comparator).

Lemma ascending_sorted {V} key (items : list (K * V)) :
  dom key -> (forall k, k ∈ items.*1 -> dom k) -> sorted items.*1 ->
  ascending (key_cmp comparator key items) (zlen items).
Proof.
  intros Hk Hd Hs i j Hi Hij Hj. unfold zlen in Hj.
  destruct (lookup_lt_is_Some_2 items (Z.to_nat i) ltac:(lia)) as [[k1 v1] E1].
  destruct (lookup_lt_is_Some_2 items (Z.to_nat j) ltac:(lia)) as [[k2 v2] E2].
  assert (F1 : items.*1 !! Z.to_nat i = Some k1) by (rewrite list_lookup_fmap, E1; done).
  assert (F2 : items.*1 !! Z.to_nat j = Some k2) by (rewrite list_lookup_fmap, E2; done).
  pose proof (sorted_lookup _ _ (Z.to_nat i) (Z.to_nat j) _ _ Hs ltac:(lia) F1 F2) as Hlt.
  apply list_elem_of_lookup_2 in F1, F2. apply Hd in F1, F2.
  rewrite <- (Z2Nat.id i), <- (Z2Nat.id j) by lia.
  rewrite (key_cmp_lookup _ _ _ _ _ _ E1), (key_cmp_lookup _ _ _ _ _ _ E2). unfold BplusNode.key_lt in Hlt. split.
  - intros. apply (cmp_lt_le_trans dom comparator k1 k2 key); auto.
  - intros. destruct (decide (comparator k2 key <= 0)); [|lia].
    assert (comparator k1 key < 0) by (apply (cmp_lt_le_trans dom comparator k1 k2 key); auto). lia.
Qed.

(** The search in a sorted array that the key splits into [xs] and [ys]. *)
Lemma leaf_lookup_at key xs ys :
  dom key -> (forall k, k ∈ (xs ++ ys).*1 -> dom k) -> sorted (xs ++ ys).*1 ->
  (forall k, k ∈ xs.*1 -> key_lt k key) -> (forall k, k ∈ ys.*1 -> key_le key k) ->
  exists found, Leaf.lookup_items comparator (xs ++ ys) key = Some (zlen xs, found) /\
    (found = true <-> key ∈ ys.*1).
Proof.
  intros Hk Hd Hs Hx Hy. unfold Leaf.lookup_items.
  assert (Hlo : forall i, 0 <= i < zlen xs -> key_cmp comparator key (xs ++ ys) i < 0).
  { intros i Hi. unfold zlen in Hi. destruct (lookup_lt_is_Some_2 xs (Z.to_nat i) ltac:(lia)) as [[k v] E].
    rewrite <- (Z2Nat.id i) by lia. rewrite (key_cmp_lookup _ _ _ _ k v) by (by apply lookup_app_l_Some).
    apply Hx. apply list_elem_of_fmap. exists (k, v). split; [done|]. by eapply list_elem_of_lookup_2. }
  assert (Hhi : forall i, zlen xs <= i < zlen (xs ++ ys) -> 0 <= key_cmp comparator key (xs ++ ys) i).
  { intros i Hi. unfold zlen in Hi. rewrite length_app in Hi.
    destruct (lookup_lt_is_Some_2 ys (Z.to_nat i - length xs) ltac:(lia)) as [[k v] E].
    rewrite <- (Z2Nat.id i) by lia.
    rewrite (key_cmp_lookup _ _ _ _ k v) by (rewrite lookup_app_r by lia; done).
    assert (k ∈ ys.*1) by (apply list_elem_of_fmap; exists (k, v); split; [done|by eapply list_elem_of_lookup_2]).
    apply (cmp_le_opp dom comparator); [done| |by apply Hy]. apply Hd. rewrite fmap_app. set_solver. }
  destruct (lower_bound_at _ _ (zlen xs) (ascending_sorted key _ Hk Hd Hs)) as (found & E & Hf).
  - unfold zlen. rewrite length_app. lia.
  - done.
  - done.
  - exists found. split; [done|]. rewrite Hf. unfold zlen. rewrite length_app. destruct ys as [|[k v] ys].
    + simpl. split; [lia|set_solver].
    + rewrite (key_cmp_lookup _ _ _ _ k v) by (by apply list_lookup_middle). csimpl.
      assert (Hdk : dom k) by (apply Hd; rewrite fmap_app; set_solver). split.
      * intros [_ E0]. apply (cmp_eq k key) in E0; auto. subst. set_solver.
      * intros [->|Hin]%elem_of_cons; [split; [lia|by apply cmp_refl]|]. exfalso.
        rewrite fmap_app in Hs. apply sorted_app in Hs as (_ & Hs & _). csimpl in Hs.
        apply sorted_cons in Hs as [_ Hs]. specialize (Hs key Hin). unfold BplusNode.key_lt in Hs.
        specialize (Hy k ltac:(set_solver)). unfold BplusNode.key_le in Hy.
        pose proof (cmp_le_opp dom comparator key k Hk Hdk). lia.
Qed.

(** Every key splits a sorted array. *)
Lemma sorted_split {V} key (items : list (K * V)) :
  dom key -> (forall k, k ∈ items.*1 -> dom k) -> sorted items.*1 ->
  exists xs ys, items = xs ++ ys /\ (forall k, k ∈ xs.*1 -> key_lt k key) /\ (forall k, k ∈ ys.*1 -> key_le key k).
Proof.
  intros Hk. induction items as [|[k v] items IH]; intros Hd Hs; csimpl in *.
  - exists [], []. set_solver.
  - apply sorted_cons in Hs as [Hs Hlt]. destruct (decide (comparator k key < 0)) as [Hc|Hc].
    + destruct (IH ltac:(set_solver) Hs) as (xs & ys & -> & Hx & Hy).
      exists ((k, v) :: xs), ys. csimpl. split; [done|]. split; [|done]. set_solver.
    + exists [], ((k, v) :: items). csimpl. split; [done|]. split; [set_solver|].
      assert (Hkk : key_le key k) by (apply (cmp_le_opp dom comparator); set_solver by lia).
      intros k' [->|Hin]%elem_of_cons; [done|]. unfold BplusNode.key_le, BplusNode.key_lt in *.
      pose proof (cmp_le_lt_trans dom comparator key k k'). specialize (Hlt k' Hin). set_solver by lia.
Qed.

Lemma key_elem_dec key (ks : list K) :
  dom key -> (forall k, k ∈ ks -> dom k) -> key ∈ ks \/ (key ∉ ks).
Proof.
  intros Hk. induction ks as [|k ks IH]; intros Hd; [right; set_solver|].
  destruct (IH ltac:(set_solver)) as [|Hn]; [left; set_solver|].
  destruct (decide (comparator key k = 0)) as [E|E].
  - left. rewrite (cmp_eq key k); set_solver.
  - right. intros [->|]%elem_of_cons; [|done]. by rewrite cmp_refl in E.
Qed.

(** The child whose key range holds the key: [(k, p)] is the last item, the
    first one apart, with a key not greater than [key]. *)
Lemma internal_lookup_at key xs k (p : PageNum) ys :
  dom key -> (forall k', k' ∈ (drop 1 (xs ++ (k, p) :: ys)).*1 -> dom k') ->
  sorted (drop 1 (xs ++ (k, p) :: ys)).*1 ->
  (forall k', k' ∈ (drop 1 (xs ++ [(k, p)])).*1 -> key_le k' key) ->
  (forall k', k' ∈ ys.*1 -> key_lt key k') ->
  exists pos, Internal.lookup_items comparator (xs ++ (k, p) :: ys) key = Some (zlen xs, pos) /\
    (~ (key ∈ (drop 1 (xs ++ [(k, p)])).*1) -> pos = zlen xs + 1).
Proof.
  intros Hk Hd Hs Hlo Hhi. unfold Internal.lookup_items.
  assert (Hlen : zlen (xs ++ (k, p) :: ys) = zlen xs + 1 + zlen ys)
    by (unfold zlen; rewrite length_app; simpl; lia).
  rewrite (proj2 (Z.eqb_neq _ _)) by (rewrite Hlen; unfold zlen; lia).
  set (items := xs ++ (k, p) :: ys) in *.
  set (tl := drop 1 items) in *.
  assert (Htl : forall i, 0 <= i -> key_cmp comparator key items (i + 1) = key_cmp comparator key tl i).
  { intros i Hi. unfold key_cmp, zget. rewrite !decide_True by lia. unfold tl. rewrite lookup_drop.
    by replace (Z.to_nat (i + 1)) with (1 + Z.to_nat i)%nat by lia. }
  assert (Htlen : zlen tl = zlen items - 1).
  { unfold tl, zlen. rewrite length_drop. unfold items. rewrite length_app. simpl. lia. }
  assert (Hasc : ascending (fun i => key_cmp comparator key items (i + 1)) (zlen items - 1)).
  { rewrite <- Htlen. intros i j Hi Hij Hj. rewrite !Htl by lia.
    by apply (ascending_sorted key tl Hk Hd Hs). }
  set (pre := drop 1 (xs ++ [(k, p)])) in *.
  assert (Etl : tl = pre ++ ys).
  { unfold tl, pre, items. destruct xs as [|x xs]; simpl; rewrite ?drop_0; [done|].
    by rewrite <- app_assoc. }
  assert (Hpre : zlen pre = zlen xs)
    by (unfold pre, zlen; rewrite length_drop, length_app; simpl; lia).
  assert (Hys : forall k', k' ∈ ys.*1 -> dom k').
  { intros k' H. apply Hd. rewrite Etl, fmap_app. set_solver. }
  assert (Hpred : forall k', k' ∈ pre.*1 -> dom k').
  { intros k' H. apply Hd. rewrite Etl, fmap_app. set_solver. }
  destruct (key_elem_dec key pre.*1 Hk Hpred) as [Hin|Hin].
  - (* the key is that of [(k, p)] *)
    destruct (list_elem_of_fmap_1 _ _ _ Hin) as ([k1 v1] & E1 & Hin1). simpl in E1. subst k1.
    destruct xs as [|x xs]; [by apply elem_of_nil in Hin1|].
    assert (Epre : pre = xs ++ [(k, p)]) by done.
    rewrite Etl, Epre in Hs, Hd. rewrite !fmap_app in Hs, Hd. csimpl in Hs. csimpl in Hd.
    apply sorted_app in Hs as (Hs & _ & _). apply sorted_app in Hs as (Hs1 & _ & Hs2).
    assert (Hdk : dom k) by (apply Hd; set_solver).
    assert (k = key) as ->.
    { rewrite Epre, fmap_app in Hin. apply elem_of_app in Hin as [Hin|Hin]; [|set_solver].
      specialize (Hs2 key k Hin ltac:(set_solver)). specialize (Hlo k ltac:(rewrite Epre, fmap_app; set_solver)).
      unfold BplusNode.key_lt, BplusNode.key_le in *. pose proof (cmp_opp key k Hk Hdk). lia. }
    destruct (lower_bound_at _ _ (zlen xs) Hasc) as (found & E & _).
    + rewrite Hlen. unfold zlen. simpl. lia.
    + intros i Hi. rewrite Htl by lia. rewrite Etl, Epre. unfold zlen in Hi.
      destruct (lookup_lt_is_Some_2 xs (Z.to_nat i) ltac:(lia)) as [[k2 v2] E2].
      rewrite <- (Z2Nat.id i) by lia.
      rewrite (key_cmp_lookup _ _ _ _ k2 v2) by (by rewrite <- app_assoc; apply lookup_app_l_Some).
      apply Hs2; [|set_solver]. apply list_elem_of_fmap. exists (k2, v2). split; [done|].
      by eapply list_elem_of_lookup_2.
    + intros i Hi.
      assert (E0 : key_cmp comparator key items (zlen xs + 1) = 0).
      { replace (zlen xs + 1) with (Z.of_nat (length (x :: xs))) by (unfold zlen; simpl; lia).
        rewrite (key_cmp_lookup _ _ _ _ key p) by (by apply list_lookup_middle). by apply cmp_refl. }
      destruct (decide (i = zlen xs)) as [->|]; [lia|].
      destruct (Hasc (zlen xs) i) as [_ Ha]; [unfold zlen; lia|lia|lia|]. cbv beta in Ha. lia.
    + rewrite E. exists (zlen xs + 1). split; [|by intros Hn; destruct Hn].
      replace (zget items (zlen xs + 1)) with (Some (key, p)).
      2: { unfold zget. rewrite decide_True by (unfold zlen; lia). symmetry. apply list_lookup_middle.
           unfold zlen. simpl. lia. }
      rewrite cmp_refl by done. simpl. f_equal. f_equal. unfold zlen. simpl. lia.
  - destruct (lower_bound_at _ _ (zlen xs) Hasc) as (found & E & _).
    + rewrite Hlen. unfold zlen. lia.
    + intros i Hi. rewrite Htl by lia. rewrite Etl. unfold zlen in *.
      destruct (lookup_lt_is_Some_2 pre (Z.to_nat i) ltac:(lia)) as [[k2 v2] E2].
      rewrite <- (Z2Nat.id i) by lia.
      rewrite (key_cmp_lookup _ _ _ _ k2 v2) by (by apply lookup_app_l_Some).
      assert (Hk2 : k2 ∈ pre.*1).
      { apply list_elem_of_fmap. exists (k2, v2). split; [done|]. by eapply list_elem_of_lookup_2. }
      specialize (Hlo k2 Hk2). unfold BplusNode.key_le in Hlo.
      destruct (decide (comparator k2 key = 0)) as [E0|]; [|lia].
      apply (cmp_eq k2 key) in E0; [by subst|apply Hd; rewrite Etl, fmap_app; set_solver|done].
    + intros i Hi. rewrite Htl by (unfold zlen in *; lia). rewrite Etl. rewrite Hlen in Hi. unfold zlen in *.
      destruct (lookup_lt_is_Some_2 ys (Z.to_nat i - length pre) ltac:(lia)) as [[k2 v2] E2].
      rewrite <- (Z2Nat.id i) by lia.
      rewrite (key_cmp_lookup _ _ _ _ k2 v2) by (rewrite lookup_app_r by lia; done).
      assert (Hk2 : k2 ∈ ys.*1).
      { apply list_elem_of_fmap. exists (k2, v2). split; [done|]. by eapply list_elem_of_lookup_2. }
      specialize (Hhi k2 Hk2). unfold BplusNode.key_lt in Hhi. apply (cmp_opp key k2) in Hhi; auto. lia.
    + rewrite E. exists (zlen xs + 1). split; [|done].
      destruct (zget items (zlen xs + 1)) as [[k2 v2]|] eqn:G; [|do 2 f_equal; lia].
      assert (Hk2 : k2 ∈ ys.*1).
      { unfold zget in G. rewrite decide_True in G by (unfold zlen; lia). unfold items in G.
        rewrite lookup_app_r in G by (unfold zlen; lia).
        replace (Z.to_nat (zlen xs + 1) - length xs)%nat with 1%nat in G by (unfold zlen; lia).
        simpl in G. apply list_elem_of_fmap. exists (k2, v2). split; [done|]. by eapply list_elem_of_lookup_2. }
      specialize (Hhi k2 Hk2). unfold BplusNode.key_lt in Hhi. rewrite (proj2 (Z.ltb_lt _ _)) by done.
      do 2 f_equal. lia.
Qed.
End order.
