(* ===== verification/NodeLogic.v ===== *)
(** * A program logic for the B+ tree code

    [wp m s Q E]: run from [s], [m] does not get stuck, returns in [Q] or fails
    in [E].  [st h d P al ku s] fixes what the functional behaviour of the tree
    depends on: the header [h], the content [d] of the pages, the multiset [P]
    of the pinned frames, the allocated pages [al] and the number [ku] of keys in
    use, with no pending disposal and no failure to come.  The rules say what
    each operation of the buffer pool and of a node does to it. *)

From Stdlib Require Import ZArith Lia.
From stdpp Require Import base gmap gmultiset sets tactics.
From stdpp Require Import list.
From S2P Require Import Prelude.
From S2P Require Import Monad.
From S2P Require Import Comparator.
From S2P Require Import NodePool.
From S2P Require Import BplusNode.
#[local] Open Scope Z_scope.

Definition wp {S A} (m : M S A) (s : S) (Q : A -> S -> Prop) (E : RC -> S -> Prop) : Prop :=
  match m s with Ret a s' => Q a s' | Err rc s' => E rc s' | Stuck => False end.

Section wp.
Context {S A B : Type}.
Implicit Types (E : RC -> S -> Prop).

Lemma wp_bind (m : M S A) (f : A -> M S B) s Q E :
  wp m s (fun a s' => wp (f a) s' Q E) E -> wp (m ≫= f) s Q E.
Proof. unfold wp, mbind, M_bind. by destruct (m s). Qed.
Lemma wp_ret (a : A) s (Q : A -> S -> Prop) E : Q a s -> wp (mret a) s Q E.
Proof. done. Qed.
Lemma wp_throw rc s (Q : A -> S -> Prop) E : E rc s -> wp (throw rc) s Q E.
Proof. done. Qed.
Lemma wp_gets (f : S -> A) s (Q : A -> S -> Prop) E : Q (f s) s -> wp (gets f) s Q E.
Proof. done. Qed.
Lemma wp_get_state s (Q : S -> S -> Prop) E : Q s s -> wp get_state s Q E.
Proof. done. Qed.
Lemma wp_modify (f : S -> S) s (Q : unit -> S -> Prop) E : Q tt (f s) -> wp (modify f) s Q E.
Proof. done. Qed.
Lemma wp_of_option (o : option A) a s (Q : A -> S -> Prop) E : o = Some a -> Q a s -> wp (of_option o) s Q E.
Proof. by intros ->. Qed.
Lemma wp_check b s (Q : unit -> S -> Prop) E : b = true -> Q tt s -> wp (check b) s Q E.
Proof. by intros ->. Qed.
Lemma wp_catch (m : M S A) h s Q E :
  wp m s Q (fun rc s' => wp (h rc) s' Q E) -> wp (catch m h) s Q E.
Proof. unfold wp, catch. by destruct (m s). Qed.
Lemma wp_rc_of (m : M S A) s (Q : RC -> S -> Prop) E :
  wp m s (fun _ s' => Q SUCCESS s') Q -> wp (rc_of m) s Q E.
Proof. unfold wp, rc_of. by destruct (m s). Qed.
Lemma wp_attempt (m : M S A) s (Q : RC + A -> S -> Prop) E :
  wp m s (fun a s' => Q (inr a) s') (fun rc s' => Q (inl rc) s') -> wp (attempt m) s Q E.
Proof. unfold wp, attempt. by destruct (m s). Qed.
Lemma wp_mono (m : M S A) s (Q Q' : A -> S -> Prop) E E' :
  wp m s Q E -> (forall a s', Q a s' -> Q' a s') -> (forall rc s', E rc s' -> E' rc s') -> wp m s Q' E'.
Proof. unfold wp. destruct (m s); auto. Qed.
Lemma wp_Ret (m : M S A) s a s' Q E : m s = Ret a s' -> Q a s' -> wp m s Q E.
Proof. unfold wp. by intros ->. Qed.
End wp.

(** ** The state *)

Section st.
Context {K : Type}.
Implicit Types (s : Index K) (d : gmap PageNum (PageData K)) (P : gmultiset PageNum) (al : gset PageNum).

Record st (h : IndexFileHeader) d P al (ku : Z) s : Prop := mk_st {
  st_header : file_header_ s = h;
  st_data : data s = d;
  st_pins p : pins s !! p = if decide (p ∈ P) then Some (Z.of_nat (multiplicity p P)) else None;
  st_allocated : allocated s = al;
  st_keys : keys_in_use s = ku;
  st_disposed : disposed_pages s = ∅;
  st_fails : fails s = []
}.

Context (h : IndexFileHeader) (d : gmap PageNum (PageData K)) (P : gmultiset PageNum)
  (al : gset PageNum) (ku : Z) (s : Index K).

Lemma st_pin_count p : st h d P al ku s -> pin_count s p = Z.of_nat (multiplicity p P).
Proof.
  intros H. unfold pin_count. rewrite (st_pins _ _ _ _ _ _ H). case_decide as Hp; [done|].
  apply not_elem_of_multiplicity in Hp. rewrite Hp. done.
Qed.

Lemma st_set_pin p n P' :
  st h d P al ku s -> n = Z.of_nat (multiplicity p P') ->
  (forall q, q <> p -> multiplicity q P' = multiplicity q P) -> st h d P' al ku (set_pin p n s).
Proof.
  intros H -> Hq. destruct H as [H1 H2 H3 H4 H5 H6 H7]. split; try done. intros q. unfold set_pin. simpl.
  destruct (decide (q = p)) as [->|Hne].
  - destruct (Z.eqb_spec (Z.of_nat (multiplicity p P')) 0) as [E|E].
    + rewrite lookup_delete_eq, decide_False; [done|]. apply not_elem_of_multiplicity. lia.
    + rewrite lookup_insert_eq, decide_True; [done|]. apply elem_of_multiplicity. lia.
  - specialize (Hq q Hne). specialize (H3 q).
    transitivity (pins s !! q).
    + destruct (_ =? 0); [by rewrite lookup_delete_ne|by rewrite lookup_insert_ne].
    + rewrite H3. pose proof (elem_of_multiplicity q P). pose proof (elem_of_multiplicity q P').
      rewrite Hq in *. destruct (decide (q ∈ P)), (decide (q ∈ P')); try done; tauto.
Qed.
End st.

Lemma st_pins_eq {K} h (d : gmap PageNum (PageData K)) P P' al ku s :
  st h d P al ku s -> P = P' -> st h d P' al ku s.
Proof. by intros H <-. Qed.

Lemma wp_next_fail {K} (s : Index K) (Q : option RC -> Index K -> Prop) E :
  fails s = [] -> Q None s -> wp next_fail s Q E.
Proof. intros Hf HQ. unfold wp, next_fail. by rewrite Hf. Qed.
Lemma wp_may_fail {K} (s : Index K) (Q : unit -> Index K -> Prop) E :
  fails s = [] -> Q tt s -> wp may_fail s Q E.
Proof. intros Hf HQ. unfold may_fail. apply wp_bind. by apply wp_next_fail. Qed.

Section rules.
Context {K : Type} {h : IndexFileHeader} {d : gmap PageNum (PageData K)} {P : gmultiset PageNum}
  {al : gset PageNum} {ku : Z} {s : Index K} {E : RC -> Index K -> Prop}.
Hypothesis Hst : st h d P al ku s.

Lemma wp_get_this_page p dd (Q : Frame -> Index K -> Prop) :
  d !! p = Some dd ->
  (forall s', st h d (P ⊎ {[+ p +]}) al ku s' -> Q p s') -> wp (get_this_page p) s Q E.
Proof.
  intros Hp HQ. unfold wp, get_this_page, may_fail, next_fail. mrun.
  rewrite (st_fails _ _ _ _ _ _ Hst), (st_data _ _ _ _ _ _ Hst), Hp. apply HQ.
  eapply st_set_pin; [done|..].
  - rewrite (st_pin_count _ _ _ _ _ _ _ Hst), multiplicity_disj_union, multiplicity_singleton_eq. lia.
  - intros q Hq. rewrite multiplicity_disj_union, multiplicity_singleton_ne by done. lia.
Qed.

Lemma wp_unpin_page p (Q : unit -> Index K -> Prop) :
  p ∈ P -> (forall s', st h d (P ∖ {[+ p +]}) al ku s' -> Q tt s') -> wp (unpin_page p) s Q E.
Proof.
  intros Hp HQ. pose proof (proj1 (elem_of_multiplicity p P) Hp) as Hm.
  unfold wp, unpin_page. mrun. rewrite (st_pin_count _ _ _ _ _ _ p Hst).
  rewrite (proj2 (Z.leb_le _ _)) by lia.
  change (disposed_pages (set_pin _ _ s)) with (disposed_pages s).
  rewrite (st_disposed _ _ _ _ _ _ Hst). rewrite bool_decide_eq_false_2 by set_solver.
  rewrite andb_false_r. apply HQ.
  eapply st_set_pin; [done|..].
  - rewrite multiplicity_difference, multiplicity_singleton_eq. lia.
  - intros q Hq. rewrite multiplicity_difference, multiplicity_singleton_ne by done. lia.
Qed.

Lemma wp_mark_dirty p (Q : unit -> Index K -> Prop) :
  (forall s', st h d P al ku s' -> Q tt s') -> wp (mark_dirty p) s Q E.
Proof. intros HQ. apply HQ. by destruct Hst. Qed.

Lemma wp_frame_data p dd (Q : PageData K -> Index K -> Prop) :
  p ∈ P -> d !! p = Some dd -> Q dd s -> wp (frame_data p) s Q E.
Proof.
  intros Hp Hd HQ. pose proof (proj1 (elem_of_multiplicity p P) Hp). unfold wp, frame_data. mrun.
  rewrite (st_pin_count _ _ _ _ _ _ p Hst), (proj2 (Z.ltb_lt _ _)) by lia.
  by rewrite (st_data _ _ _ _ _ _ Hst), Hd.
Qed.

Lemma wp_put_page p dd (Q : unit -> Index K -> Prop) :
  p ∈ P -> (forall s', st h (<[p := dd]> d) P al ku s' -> Q tt s') -> wp (put_page p dd) s Q E.
Proof.
  intros Hp HQ. pose proof (proj1 (elem_of_multiplicity p P) Hp). unfold wp, put_page. mrun.
  rewrite (st_pin_count _ _ _ _ _ _ p Hst), (proj2 (Z.ltb_lt _ _)) by lia.
  apply HQ. destruct Hst; split; try done. simpl. by f_equal.
Qed.

Lemma wp_node p n (Q : IndexNode K -> Index K -> Prop) :
  p ∈ P -> d !! p = Some (NodePage n) -> Q n s -> wp (node p) s Q E.
Proof. intros. unfold node. apply wp_bind. by eapply wp_frame_data. Qed.
Lemma wp_leaf p n (Q : LeafIndexNode K -> Index K -> Prop) :
  p ∈ P -> d !! p = Some (NodePage (LeafNode n)) -> Q n s -> wp (leaf p) s Q E.
Proof. intros. unfold leaf. apply wp_bind. by eapply wp_node. Qed.
Lemma wp_internal p n (Q : InternalIndexNode K -> Index K -> Prop) :
  p ∈ P -> d !! p = Some (NodePage (InternalNode n)) -> Q n s -> wp (internal p) s Q E.
Proof. intros. unfold internal. apply wp_bind. by eapply wp_node. Qed.

Lemma first_free_spec (a : gset PageNum) : (first_free a ∉ a) /\ 0 <= first_free a.
Proof.
  unfold first_free.
  destruct (filter (fun i => i ∉ a) (seqZ 0 (Z.of_nat (base.size a) + 1))) as [|x l] eqn:F; simpl.
  - exfalso. assert (Hsub : list_to_set (C := gset Z) (seqZ 0 (Z.of_nat (base.size a) + 1)) ⊆ a).
    { intros i Hi%elem_of_list_to_set. destruct (decide (i ∈ a)) as [|Hn]; [done|].
      assert (Hin : i ∈ filter (fun i => i ∉ a) (seqZ 0 (Z.of_nat (base.size a) + 1)))
        by (by apply list_elem_of_filter).
      rewrite F in Hin. set_solver. }
    apply subseteq_size in Hsub. rewrite size_list_to_set in Hsub by apply NoDup_seqZ.
    rewrite length_seqZ in Hsub. lia.
  - assert (Hin : x ∈ filter (fun i => i ∉ a) (seqZ 0 (Z.of_nat (base.size a) + 1))) by (rewrite F; set_solver).
    apply list_elem_of_filter in Hin as [Hin Hx]. apply elem_of_seqZ in Hx. split; [done|lia].
Qed.

(** A new page: its old content does not matter. *)
Lemma wp_allocate_page (Q : Frame -> Index K -> Prop) :
  (forall p d' s', p ∉ al -> 0 <= p -> is_Some (d' !! p) -> (forall q, q <> p -> d' !! q = d !! q) ->
     st h d' (P ⊎ {[+ p +]}) ({[ p ]} ∪ al) ku s' -> Q p s') ->
  wp allocate_page s Q E.
Proof.
  intros HQ. unfold wp, allocate_page, may_fail, next_fail. mrun.
  rewrite (st_fails _ _ _ _ _ _ Hst). simpl. rewrite (st_allocated _ _ _ _ _ _ Hst).
  set (p := first_free al). destruct (first_free_spec al) as [Hp Hp0]. fold p in Hp, Hp0.
  set (d' := match d !! p with Some _ => d | None => <[p := RawPage]> d end).
  apply (HQ p d'); [done|done|..].
  - unfold d'. destruct (d !! p) eqn:E'; [by rewrite E'|by rewrite lookup_insert_eq].
  - intros q Hq. unfold d'. destruct (d !! p); [done|by rewrite lookup_insert_ne].
  - apply (st_set_pin h d' P ({[p]} ∪ al)).
    + destruct Hst as [H1 H2 H3 H4 H5 H6 H7]. split; try done.
      * simpl. rewrite H2. unfold d'. by destruct (d !! p).
    + erewrite (st_pin_count h d' P ({[p]} ∪ al)) with (ku := ku).
      * rewrite multiplicity_disj_union, multiplicity_singleton_eq. lia.
      * destruct Hst as [H1 H2 H3 H4 H5 H6 H7]. split; try done.
        simpl. rewrite H2. unfold d'. by destruct (d !! p).
    + intros q Hq. rewrite multiplicity_disj_union, multiplicity_singleton_ne by done. lia.
Qed.

Lemma wp_set_header h' (Q : unit -> Index K -> Prop) :
  (forall s', st h' d P al ku s' -> Q tt s') -> wp (modify (fun s => set_header h' s)) s Q E.
Proof. intros HQ. apply HQ. by destruct Hst; split. Qed.
Lemma wp_set_keys k (Q : unit -> Index K -> Prop) :
  (forall s', st h d P al k s' -> Q tt s') -> wp (modify (fun s => set_keys k s)) s Q E.
Proof. intros HQ. apply HQ. by destruct Hst; split. Qed.
End rules.

(** One step of a run: the rule for the operation at the head, with the state
    predicate of the current state. *)
Ltac wp_b := cbv beta; repeat lazymatch goal with |- wp (_ ≫= _) _ _ _ => apply wp_bind end.
Ltac wp_step :=
  wp_b;
  lazymatch goal with
  | |- wp (mret _) _ _ _ => apply wp_ret
  | |- wp (rc_of _) _ _ _ => apply wp_rc_of
  | |- wp (attempt _) _ _ _ => apply wp_attempt
  | |- wp (catch _ _) _ _ _ => apply wp_catch
  | |- wp get_state _ _ _ => apply wp_get_state
  | |- wp (gets _) _ _ _ => apply wp_gets
  | |- wp (of_option (Some _)) _ _ _ => eapply wp_of_option; [reflexivity|]
  | H : st _ _ _ _ _ ?s |- wp (mark_dirty _) ?s _ _ =>
      apply (wp_mark_dirty H); clear H; intros ? H
  | H : st _ _ _ _ _ ?s |- wp (unpin_page _) ?s _ _ =>
      apply (wp_unpin_page H); [try multiset_solver|clear H; intros ? H]
  | H : st _ _ _ _ _ ?s |- wp (get_this_page _) ?s _ _ =>
      eapply (wp_get_this_page H); [try done|clear H; intros ? H]
  | H : st _ _ _ _ _ ?s |- wp (frame_data _) ?s _ _ =>
      eapply (wp_frame_data H); [try multiset_solver|try done|]
  | H : st _ _ _ _ _ ?s |- wp (put_page _ _) ?s _ _ =>
      apply (wp_put_page H); [try multiset_solver|clear H; intros ? H]
  | H : st _ _ _ _ _ ?s |- wp (put_leaf _ _) ?s _ _ =>
      apply (wp_put_page H); [try multiset_solver|clear H; intros ? H]
  | H : st _ _ _ _ _ ?s |- wp (put_internal _ _) ?s _ _ =>
      apply (wp_put_page H); [try multiset_solver|clear H; intros ? H]
  | H : st _ _ _ _ _ ?s |- wp (node _) ?s _ _ =>
      eapply (wp_node H); [try multiset_solver|try done|]
  | H : st _ _ _ _ _ ?s |- wp (leaf _) ?s _ _ =>
      eapply (wp_leaf H); [try multiset_solver|try done|]
  | H : st _ _ _ _ _ ?s |- wp (internal _) ?s _ _ =>
      eapply (wp_internal H); [try multiset_solver|try done|]
  end.

(** [set_solver] from the named hypotheses only. *)
Tactic Notation "set_from" hyp_list(Hs) := clear -Hs; set_solver.

(** Membership in a list that shows the element. *)
Ltac in_list := rewrite ?fmap_app; csimpl; rewrite ?elem_of_app, ?elem_of_cons; tauto.

(** Looking up a page in a chain of updates. *)
Ltac page_ne := first [done | unfold FIRST_INDEX_PAGE in *; lia | congruence].
Ltac page_at := repeat (rewrite lookup_insert_eq || (rewrite lookup_insert_ne by page_ne)); try done.

(** ** Rules for the node operations *)

Section node_rules.
Context {K : Type} {h : IndexFileHeader} {d : gmap PageNum (PageData K)} {P : gmultiset PageNum}
  {al : gset PageNum} {ku : Z} {s : Index K} {E : RC -> Index K -> Prop}.
Hypothesis Hst : st h d P al ku s.

Lemma wp_is_leaf p n (Q : bool -> Index K -> Prop) :
  p ∈ P -> d !! p = Some (NodePage n) -> Q (match n with LeafNode _ => true | InternalNode _ => false end) s ->
  wp (is_leaf p) s Q E.
Proof. intros. unfold is_leaf. wp_b. eapply (wp_node Hst); done. Qed.

Lemma wp_parent_page_num p n (Q : PageNum -> Index K -> Prop) :
  p ∈ P -> d !! p = Some (NodePage n) -> Q (node_parent n) s -> wp (parent_page_num p) s Q E.
Proof. intros. unfold parent_page_num. wp_b. eapply (wp_node Hst); done. Qed.

Lemma wp_set_parent p n q (Q : unit -> Index K -> Prop) :
  p ∈ P -> d !! p = Some (NodePage n) ->
  (forall s', st h (<[p := NodePage (node_set_parent q n)]> d) P al ku s' -> Q tt s') ->
  wp (set_parent_page_num p q) s Q E.
Proof. intros. unfold set_parent_page_num. wp_b. eapply (wp_node Hst); [done|done|]. by apply (wp_put_page Hst). Qed.

Lemma wp_size_leaf p n (Q : Z -> Index K -> Prop) :
  p ∈ P -> d !! p = Some (NodePage (LeafNode n)) -> Q (zlen (l_array n)) s -> wp (size p) s Q E.
Proof. intros. unfold size. wp_b. eapply (wp_node Hst); done. Qed.

Lemma wp_size_internal p n (Q : Z -> Index K -> Prop) :
  p ∈ P -> d !! p = Some (NodePage (InternalNode n)) -> Q (zlen (i_array n)) s -> wp (size p) s Q E.
Proof. intros. unfold size. wp_b. eapply (wp_node Hst); done. Qed.
End node_rules.

(** The pages after their nodes have been given the parent [this]. *)
Fixpoint adopted {K} (this : PageNum) (ps : list PageNum) (d : gmap PageNum (PageData K)) : gmap PageNum (PageData K) :=
  match ps with
  | [] => d
  | p :: ps =>
      adopted this ps
        (match d !! p with Some (NodePage n) => <[p := NodePage (node_set_parent this n)]> d | _ => d end)
  end.

Lemma adopted_ne {K} this ps (d : gmap PageNum (PageData K)) q : q ∉ ps -> adopted this ps d !! q = d !! q.
Proof.
  revert d. induction ps as [|p ps IH]; intros d Hq; [done|]. simpl. rewrite IH by set_solver.
  destruct (d !! p) as [[| |n]|]; try done. by rewrite lookup_insert_ne by set_solver.
Qed.

Lemma adopted_eq {K} this ps (d : gmap PageNum (PageData K)) q n :
  NoDup ps -> q ∈ ps -> d !! q = Some (NodePage n) ->
  adopted this ps d !! q = Some (NodePage (node_set_parent this n)).
Proof.
  revert d. induction ps as [|p ps IH]; intros d Hnd Hq E; [set_solver|]. apply NoDup_cons in Hnd as [Hp Hn]. simpl.
  apply elem_of_cons in Hq as [->|Hq].
  - rewrite adopted_ne, E by done. by rewrite lookup_insert_eq.
  - apply IH; [done|done|]. destruct (d !! p) as [[| |n']|]; try done.
    rewrite lookup_insert_ne by set_solver. done.
Qed.

Lemma wp_adopt {K} h (d : gmap PageNum (PageData K)) P al ku s this items (Q : unit -> Index K -> Prop) E :
  st h d P al ku s -> NoDup items.*2 ->
  (forall p, p ∈ items.*2 -> exists n, d !! p = Some (NodePage n)) ->
  (forall s', st h (adopted this items.*2 d) P al ku s' -> Q tt s') ->
  wp (Internal.adopt this items) s Q E.
Proof.
  revert d s. induction items as [|[k p] items IH]; intros d s Hst Hn Hd HQ.
  - by apply HQ.
  - csimpl in Hn. apply NoDup_cons in Hn as [Hp Hn]. destruct (Hd p) as [n En]; [csimpl; set_solver|].
    simpl. wp_step. wp_b. eapply (wp_set_parent Hst); [multiset_solver|done|]. clear Hst. intros s1 Hst.
    do 2 wp_step.
    eapply st_pins_eq with (P' := P) in Hst; [|multiset_solver]. eapply IH; [done|..].
    + done.
    + intros q Hq. rewrite lookup_insert_ne by set_solver. apply Hd. csimpl. set_solver.
    + csimpl in HQ. rewrite En in HQ. done.
Qed.
