(* ===== verification/BplusTree.v ===== *)
(** * [BplusTreeHandler] (storage/index/bplus_tree.cpp)

    Insertion, deletion and the search for a leaf over the pages of an index.
    The recursion towards the root ([insert_entry_into_parent],
    [coalesce_or_redistribute]) and the descent to a leaf follow page numbers;
    their fuel is one more than the number of pages of the file, which is enough
    on every tree: each step goes to a page of another level. *)

From stdpp Require Import base gmap sets list tactics.
From Stdlib Require Import ZArith Lia.
From S2P Require Import Prelude.
From S2P Require Import Monad.
From S2P Require Import LowerBound.
From S2P Require Import Comparator.
From S2P Require Import NodePool.
From S2P Require Import BplusNode.
#[local] Open Scope Z_scope.

(** What the template parameter [IndexNodeHandlerType] of [split],
    [coalesce_or_redistribute], [coalesce] and [redistribute] has to offer. *)
Class NodeHandler (K : Type) : Type := {
  h_init_empty : Frame -> M (Index K) unit;
  h_key_at : Frame -> Z -> M (Index K) K;
  h_max_size : M (Index K) Z;
  h_min_size : M (Index K) Z;
  h_move_half_to : Frame -> Frame -> M (Index K) unit;
  h_move_first_to_end : Frame -> Frame -> M (Index K) unit;
  h_move_last_to_front : Frame -> Frame -> M (Index K) unit;
  h_move_to : Frame -> Frame -> M (Index K) unit
}.

Definition LeafHandler (K : Type) : NodeHandler K := {|
  h_init_empty := Leaf.init_empty;
  h_key_at := Leaf.key_at;
  h_max_size := Leaf.max_size;
  h_min_size := Leaf.min_size;
  h_move_half_to := Leaf.move_half_to;
  h_move_first_to_end := Leaf.move_first_to_end;
  h_move_last_to_front := Leaf.move_last_to_front;
  h_move_to := Leaf.move_to
|}.

Definition InternalHandler (K : Type) : NodeHandler K := {|
  h_init_empty := Internal.init_empty;
  h_key_at := Internal.key_at;
  h_max_size := Internal.max_size;
  h_min_size := Internal.min_size;
  h_move_half_to := Internal.move_half_to;
  h_move_first_to_end := Internal.move_first_to_end;
  h_move_last_to_front := Internal.move_last_to_front;
  h_move_to := Internal.move_to
|}.

Definition with_root (p : PageNum) (h : IndexFileHeader) : IndexFileHeader :=
  mk_header p (internal_max_size h) (leaf_max_size h) (attr_length h) (key_length h) (attr_type h).

Section tree.
Context {A : Type} (attr_comparator_ : A -> A -> Z) (zero_attr : A).

Abbreviation K := (A * RID)%type.
Abbreviation MB := (M (Index K)).

Definition key_comparator_ : K -> K -> Z := KeyComparator attr_comparator_.
(** [memset(key, 0, key_size())] *)
Definition zero_key : K := (zero_attr, mk_RID 0 0).

(** Recursion and loops follow pages: one more turn than there are pages. *)
Definition pages_fuel (s : Index K) : nat := S (base.size (data s)).

(** ** Create *)

(** A file that [BufferPoolManager] has just created: its header page. *)
Definition new_file (s : Index K) : Index K :=
  mk_Index (file_header_ s) {[ 0 := RawPage ]} {[ 0 := RawPage ]} ∅ ∅ {[ 0 ]} ∅ (keys_in_use s) (fails s) {[ 0 ]}.

Definition create (type : AttrType) (length internal_max leaf_max : Z) : MB unit :=
  may_fail (* bpm.create_file *);;
  may_fail (* bpm.open_file *);;
  modify new_file;;
  header_frame ← allocate_page;
  if negb (header_frame =? FIRST_INDEX_PAGE) then throw INTERNAL
  else
    let internal_max := if internal_max <? 0 then calc_internal_page_capacity length else internal_max in
    let leaf_max := if leaf_max <? 0 then calc_leaf_page_capacity length else leaf_max in
    let file_header := mk_header BP_INVALID_PAGE_NUM internal_max leaf_max length (length + sizeof_RID) type in
    put_page header_frame (HeaderPage file_header);;
    mark_dirty header_frame;;
    modify (set_header file_header);;
    unpin_page header_frame;;
    f ← next_fail (* mem_pool_item_->init *);
    match f with Some _ => throw NOMEM | None => mret tt end.

(** ** Sync, close and open *)

Definition sync : MB unit := flush_all_pages.

(** The result of [close_file] is ignored. *)
Definition close : MB unit := modify drop_frames.

(** [opened]: [disk_buffer_pool_] is set already. *)
Definition open (opened : bool) : MB unit :=
  if opened then throw RECORD_OPENNED
  else
    may_fail (* bpm.open_file *);;
    modify drop_frames;;
    frame ← catch (get_this_page FIRST_INDEX_PAGE) (fun rc => close;; throw rc);
    d ← frame_data frame;
    match d with HeaderPage h => modify (set_header h) | _ => stuck end;;
    f ← next_fail (* mem_pool_item_->init *);
    match f with
    | Some _ => close;; throw NOMEM
    | None => unpin_page frame
    end.

(** ** Searching *)

Definition is_empty : MB bool := gets (fun s => root_page (file_header_ s) =? BP_INVALID_PAGE_NUM).

Fixpoint find_leaf_loop (child_page_getter : Frame -> MB PageNum) (frame : Frame) (fuel : nat) : MB Frame :=
  l ← is_leaf frame;
  if (l : bool) then mret frame
  else
    match fuel with
    | O => stuck
    | S fuel =>
        page_num ← child_page_getter frame;
        unpin_page frame;;
        frame ← get_this_page page_num;
        find_leaf_loop child_page_getter frame fuel
    end.

Definition find_leaf_internal (child_page_getter : Frame -> MB PageNum) : MB Frame :=
  e ← is_empty;
  if (e : bool) then throw EMPTY
  else
    root ← gets (fun s => root_page (file_header_ s));
    frame ← get_this_page root;
    fuel ← gets pages_fuel;
    find_leaf_loop child_page_getter frame fuel.

Definition find_leaf (key : K) : MB Frame :=
  find_leaf_internal (fun internal_node =>
    r ← Internal.lookup key_comparator_ internal_node key; Internal.value_at internal_node r.1).
Definition left_most_page : MB Frame :=
  find_leaf_internal (fun internal_node => Internal.value_at internal_node 0).
Definition right_most_page : MB Frame :=
  find_leaf_internal (fun internal_node => n ← size internal_node; Internal.value_at internal_node (n - 1)).

(** ** Insertion *)

(** The result is the new frame. *)
Definition split (handler : NodeHandler K) (frame : Frame) : MB Frame :=
  new_frame ← allocate_page;
  h_init_empty new_frame;;
  parent ← parent_page_num frame;
  set_parent_page_num new_frame parent;;
  _ ← rc_of (h_move_half_to frame new_frame);
  mark_dirty frame;;
  mark_dirty new_frame;;
  mret new_frame.

Definition update_root_page_num : MB unit :=
  header_frame ← get_this_page FIRST_INDEX_PAGE;
  d ← frame_data header_frame;
  root ← gets (fun s => root_page (file_header_ s));
  match d with
  | HeaderPage h => put_page header_frame (HeaderPage (with_root root h))
  | _ => stuck
  end;;
  mark_dirty header_frame;;
  unpin_page header_frame.

Definition set_root_page (p : PageNum) : MB unit :=
  modify (fun s => set_header (with_root p (file_header_ s)) s).

(** The block [create new root page] of [insert_entry_into_parent]. *)
Definition create_root_above (frame new_frame : Frame) (key : K) : MB unit :=
  root_frame ← allocate_page;
  Internal.init_empty root_frame;;
  Internal.create_new_root zero_key root_frame frame key new_frame;;
  set_parent_page_num frame root_frame;;
  set_parent_page_num new_frame root_frame;;
  mark_dirty frame;;
  mark_dirty new_frame;;
  unpin_page frame;;
  unpin_page new_frame;;
  set_root_page root_frame;;
  _ ← rc_of update_root_page_num;
  mark_dirty root_frame;;
  unpin_page root_frame.

(** The block for a parent that is not full. *)
Definition insert_child (frame new_frame parent_frame : Frame) (key : K) : MB unit :=
  Internal.insert key_comparator_ parent_frame key new_frame;;
  set_parent_page_num new_frame parent_frame;;
  mark_dirty frame;;
  mark_dirty new_frame;;
  mark_dirty parent_frame;;
  unpin_page frame;;
  unpin_page new_frame;;
  unpin_page parent_frame.

(** The block after the split of a full parent, up to the recursive call:
    [key] goes into the half it belongs to. *)
Definition insert_into_half (frame new_frame parent_frame new_parent_frame : Frame) (key : K) : MB unit :=
  k0 ← Internal.key_at new_parent_frame 0;
  (if 0 <? key_comparator_ key k0 then
     Internal.insert key_comparator_ new_parent_frame key new_frame;;
     set_parent_page_num new_frame new_parent_frame
   else
     Internal.insert key_comparator_ parent_frame key new_frame;;
     set_parent_page_num new_frame parent_frame);;
  unpin_page frame;;
  unpin_page new_frame.

Fixpoint insert_entry_into_parent (frame new_frame : Frame) (key : K) (fuel : nat) : MB unit :=
  parent ← parent_page_num frame;
  if parent =? BP_INVALID_PAGE_NUM then create_root_above frame new_frame key
  else
    parent_frame ← get_this_page parent;
    n ← size parent_frame;
    max ← Internal.max_size;
    if n <? max then
      insert_child frame new_frame parent_frame key
    else
      r ← attempt (split (InternalHandler K) parent_frame);
      match r with
      | inl rc =>
          unpin_page frame;;
          unpin_page new_frame;;
          unpin_page parent_frame;;
          throw rc
      | inr new_parent_frame =>
          insert_into_half frame new_frame parent_frame new_parent_frame key;;
          k0 ← Internal.key_at new_parent_frame 0;
          match fuel with
          | O => stuck
          | S fuel => insert_entry_into_parent parent_frame new_parent_frame k0 fuel
          end
      end.

(** After the split of a full leaf: the new leaf enters the list of leaves. *)
Definition link_new_leaf (frame new_frame : Frame) : MB unit :=
  Leaf.set_prev_page new_frame frame;;
  next ← Leaf.next_page frame;
  Leaf.set_next_page new_frame next;;
  parent ← parent_page_num frame;
  set_parent_page_num new_frame parent;;
  Leaf.set_next_page frame new_frame;;
  next_page_num ← Leaf.next_page new_frame;
  if negb (next_page_num =? BP_INVALID_PAGE_NUM) then
    next_frame ← get_this_page next_page_num;
    Leaf.set_prev_page next_frame new_frame;;
    unpin_page next_frame
  else mret tt.

Definition insert_entry_into_leaf_node (frame : Frame) (key : K) (rid : RID) : MB unit :=
  r ← Leaf.lookup key_comparator_ frame key;
  let insert_position := r.1 in
  if (r.2 : bool) then throw RECORD_DUPLICATE_KEY
  else
    n ← size frame;
    max ← Leaf.max_size;
    if n <? max then
      Leaf.insert frame insert_position key rid;;
      mark_dirty frame;;
      unpin_page frame
    else
      new_frame ← split (LeafHandler K) frame;
      link_new_leaf frame new_frame;;
      n ← size frame;
      (if insert_position <? n then Leaf.insert frame insert_position key rid
       else Leaf.insert new_frame (insert_position - n) key rid);;
      k0 ← Leaf.key_at new_frame 0;
      fuel ← gets pages_fuel;
      insert_entry_into_parent frame new_frame k0 fuel.

Definition create_new_tree (key : K) (rid : RID) : MB unit :=
  e ← is_empty;
  if negb e then throw INTERNAL
  else
    frame ← allocate_page;
    Leaf.init_empty frame;;
    Leaf.insert frame 0 key rid;;
    set_root_page frame;;
    mark_dirty frame;;
    unpin_page frame;;
    update_root_page_num.

(** [None] is the null pointer. *)
Definition make_key (user_key : A) (rid : RID) : MB (option K) :=
  f ← next_fail;
  match f with
  | Some _ => mret None
  | None => modify (fun s => set_keys (keys_in_use s + 1) s);; mret (Some (user_key, rid))
  end.
Definition free_key : MB unit := modify (fun s => set_keys (keys_in_use s - 1) s).

Definition insert_entry (user_key : option A) (rid : option RID) : MB unit :=
  match user_key, rid with
  | Some user_key, Some rid =>
      key ← make_key user_key rid;
      match key with
      | None => throw NOMEM
      | Some key =>
          e ← is_empty;
          if (e : bool) then
            rc ← rc_of (create_new_tree key rid);
            free_key;;
            return_rc rc
          else
            frame ← catch (find_leaf key) (fun rc => free_key;; throw rc);
            rc ← rc_of (insert_entry_into_leaf_node frame key rid);
            if negb (bool_decide (rc = SUCCESS)) then
              unpin_page frame;; free_key;; throw rc
            else free_key
      end
  | _, _ => throw INVALID_ARGUMENT
  end.

(** ** Deletion *)

Definition adjust_root (root_frame : Frame) : MB unit :=
  l ← is_leaf root_frame;
  n ← size root_frame;
  if (l : bool) && (0 <? n) then mark_dirty root_frame;; unpin_page root_frame
  else
    (if (l : bool) then set_root_page BP_INVALID_PAGE_NUM
     else
       child_page_num ← Internal.value_at root_frame 0;
       child_frame ← get_this_page child_page_num;
       set_parent_page_num child_frame BP_INVALID_PAGE_NUM;;
       unpin_page child_frame;;
       set_root_page child_page_num);;
    _ ← rc_of update_root_page_num;
    unpin_page root_frame;;
    _ ← rc_of (dispose_page root_frame);
    mret tt.

Definition redistribute (handler : NodeHandler K) (neighbor_frame frame parent_frame : Frame) (index : Z) : MB unit :=
  (if index =? 0 then
     _ ← rc_of (h_move_first_to_end neighbor_frame frame);
     k0 ← h_key_at neighbor_frame 0;
     Internal.set_key_at parent_frame (index + 1) k0
   else
     _ ← rc_of (h_move_last_to_front neighbor_frame frame);
     k0 ← h_key_at frame 0;
     Internal.set_key_at parent_frame index k0);;
  mark_dirty neighbor_frame;;
  mark_dirty frame;;
  mark_dirty parent_frame;;
  unpin_page parent_frame;;
  unpin_page neighbor_frame;;
  unpin_page frame.

(** The leaf part of [coalesce]: once more the links of the list of leaves. *)
Definition unlink_leaf (left_frame right_frame frame neighbor_frame parent_frame : Frame) : MB unit :=
  next ← Leaf.next_page right_frame;
  Leaf.set_next_page left_frame next;;
  next_right_page_num ← Leaf.next_page right_frame;
  if negb (next_right_page_num =? BP_INVALID_PAGE_NUM) then
    next_right_frame ← catch (get_this_page next_right_page_num)
      (fun rc => unpin_page frame;; unpin_page neighbor_frame;; unpin_page parent_frame;; throw rc);
    Leaf.set_prev_page next_right_frame left_frame;;
    unpin_page next_right_frame
  else mret tt.

(** [up] is [coalesce_or_redistribute<InternalIndexNodeHandler>]. *)
Definition coalesce (handler : NodeHandler K) (up : Frame -> MB unit)
  (neighbor_frame frame parent_frame : Frame) (index : Z) : MB unit :=
  let '(left_frame, right_frame, index) :=
    if index =? 0 then (frame, neighbor_frame, index + 1) else (neighbor_frame, frame, index) in
  Internal.remove parent_frame index;;
  h_move_to right_frame left_frame;;
  l ← is_leaf left_frame;
  (if (l : bool) then unlink_leaf left_frame right_frame frame neighbor_frame parent_frame else mret tt);;
  let right_page_num := right_frame in
  unpin_page left_frame;;
  unpin_page right_frame;;
  _ ← rc_of (dispose_page right_page_num);
  up parent_frame.

Definition coalesce_or_redistribute_body (handler : NodeHandler K) (up : Frame -> MB unit) (frame : Frame) : MB unit :=
  n ← size frame;
  min ← h_min_size;
  if min <=? n then unpin_page frame
  else
    parent ← parent_page_num frame;
    if BP_INVALID_PAGE_NUM =? parent then
      if 1 <? n then unpin_page frame
      else _ ← rc_of (adjust_root frame); mret tt
    else
      parent_frame ← catch (get_this_page parent) (fun rc => unpin_page frame;; throw rc);
      k ← h_key_at frame (n - 1);
      r ← Internal.lookup key_comparator_ parent_frame k;
      let index := r.1 in
      _ ← Internal.value_at parent_frame index (* compared with [frame] for a log line *);
      neighbor_page_num ← Internal.value_at parent_frame (if index =? 0 then 1 else index - 1);
      neighbor_frame ← catch (get_this_page neighbor_page_num)
        (fun rc => unpin_page frame;; unpin_page parent_frame;; throw rc);
      n' ← size neighbor_frame;
      max ← h_max_size;
      if max <? n + n' then redistribute handler neighbor_frame frame parent_frame index
      else coalesce handler up neighbor_frame frame parent_frame index.

Fixpoint coalesce_or_redistribute_internal (fuel : nat) (frame : Frame) : MB unit :=
  match fuel with
  | O => stuck
  | S fuel =>
      coalesce_or_redistribute_body (InternalHandler K) (coalesce_or_redistribute_internal fuel) frame
  end.

Definition coalesce_or_redistribute_leaf (frame : Frame) : MB unit :=
  fuel ← gets pages_fuel;
  coalesce_or_redistribute_body (LeafHandler K) (coalesce_or_redistribute_internal fuel) frame.

Definition delete_entry_internal (leaf_frame : Frame) (key : K) : MB unit :=
  remove_count ← Leaf.remove_key key_comparator_ leaf_frame key;
  if remove_count =? 0 then unpin_page leaf_frame;; throw RECORD_RECORD_NOT_EXIST
  else
    mark_dirty leaf_frame;;
    n ← size leaf_frame;
    min ← Leaf.min_size;
    if min <=? n then unpin_page leaf_frame
    else coalesce_or_redistribute_leaf leaf_frame.

Definition delete_entry (user_key : A) (rid : RID) : MB unit :=
  key ← make_key user_key rid;
  match key with
  | None => throw NOMEM
  | Some key =>
      leaf_frame ← catch (find_leaf key) (fun rc => free_key;; throw rc);
      rc ← rc_of (delete_entry_internal leaf_frame key);
      free_key;;
      return_rc rc
  end.

(** ** Validation *)

(** Every node of the subtree of [frame]; the frames are unpinned on the way back. *)
Fixpoint validate_node_recursive (fuel : nat) (frame : Frame) : MB bool :=
  match fuel with
  | O => stuck
  | S fuel =>
      l ← is_leaf frame;
      result ←
        (if (l : bool) then leaf_validate key_comparator_ frame
         else
           result ← Internal.validate key_comparator_ frame;
           n ← internal frame;
           (fix children (items : list (K * PageNum)) (result : bool) : MB bool :=
              match result, items with
              | true, (_, page_num) :: items =>
                  r ← attempt (get_this_page page_num);
                  match r with
                  | inl _ => mret false
                  | inr child_frame =>
                      result ← validate_node_recursive fuel child_frame;
                      children items result
                  end
              | _, _ => mret result
              end) (i_array n) result);
      unpin_page frame;;
      mret result
  end.

(** The walk along the leaves, from the one after [prev_page_num]. *)
Fixpoint validate_leaf_link_loop (prev_page_num next_page_num : PageNum) (prev_key : K) (fuel : nat) : MB bool :=
  if next_page_num =? BP_INVALID_PAGE_NUM then free_key;; mret true
  else
    match fuel with
    | O => stuck
    | S fuel =>
        r ← attempt (get_this_page next_page_num);
        match r with
        | inl _ => free_key;; mret false
        | inr frame =>
            prev ← Leaf.prev_page frame;
            first ← Leaf.key_at frame 0;
            let result := (prev =? prev_page_num) && negb (0 <=? key_comparator_ prev_key first) in
            next ← Leaf.next_page frame;
            n ← size frame;
            last ← Leaf.key_at frame (n - 1);
            unpin_page frame;;
            if result then validate_leaf_link_loop frame next last fuel
            else free_key;; mret false
        end
    end.

(** [mem_pool_item_->alloc()] is not checked before the copy. *)
Definition validate_leaf_link : MB bool :=
  e ← is_empty;
  if (e : bool) then mret true
  else
    r ← attempt left_most_page;
    match r with
    | inl _ => mret false
    | inr frame =>
        prev ← Leaf.prev_page frame;
        if negb (prev =? BP_INVALID_PAGE_NUM) then mret false
        else
          next ← Leaf.next_page frame;
          prev_key ← make_key zero_attr (mk_RID 0 0);
          match prev_key with
          | None => stuck
          | Some _ =>
              n ← size frame;
              prev_key ← Leaf.key_at frame (n - 1);
              unpin_page frame;;
              fuel ← gets pages_fuel;
              validate_leaf_link_loop frame next prev_key fuel
          end
    end.

(** [return rc] in a function that returns [bool]: any error code is [true]. *)
Definition validate_tree : MB bool :=
  e ← is_empty;
  if (e : bool) then mret true
  else
    root ← gets (fun s => root_page (file_header_ s));
    r ← attempt (get_this_page root);
    match r with
    | inl rc => mret (negb (rc_code rc =? 0))
    | inr frame =>
        fuel ← gets pages_fuel;
        nodes ← validate_node_recursive fuel frame;
        if negb nodes then mret false else validate_leaf_link
    end.

End tree.
