(* ===== verification/BplusScan.v ===== *)
(** * [BplusTreeScanner] and [get_entry] (storage/index/bplus_tree.cpp)

    A scan between two user keys: the first and the last entry are looked up
    with the smallest and the largest record identifier, and [next_entry] walks
    along the leaves from the one to the other. *)

From stdpp Require Import base gmap sets list tactics.
From Stdlib Require Import ZArith Lia.
From S2P Require Import Prelude.
From S2P Require Import Monad.
From S2P Require Import LowerBound.
From S2P Require Import Comparator.
From S2P Require Import NodePool.
From S2P Require Import BplusNode.
From S2P Require Import BplusTree.
#[local] Open Scope Z_scope.

(** ** Fixing a string key *)

(** [fix_user_key] on the bytes of the key: cut or padded to [attr_length]; the
    flag is [should_inclusive].  [None] when a byte behind the key is read. *)
Definition fix_user_key (attr_length : Z) (user_key : list Z) (key_len : Z) (want_greater : bool) : option (list Z * bool) :=
  if key_len <=? attr_length then
    if decide (0 <= key_len <= zlen user_key) then
      Some (take (Z.to_nat key_len) user_key ++ replicate (Z.to_nat (attr_length - key_len)) 0, false)
    else None
  else
    if decide (0 < attr_length <= zlen user_key) then
      let key_buf := take (Z.to_nat attr_length) user_key in
      let c := default 0 (zget user_key attr_length) (* the terminating zero *) in
      if c =? 0 then Some (key_buf, false)
      else if want_greater then
        last ← zget key_buf (attr_length - 1);
        key_buf ← zset key_buf (attr_length - 1) (to_char (last + 1));
        Some (key_buf, true)
      else Some (key_buf, true)
    else None.

Section scan.
Context {A : Type} (attr_comparator_ : A -> A -> Z) (zero_attr : A).
(** [fix_user_key] for the type of the attribute, [None] when it is not [CHARS]. *)
Context (fix_key : option (A -> Z -> bool -> option (A * bool))).

Abbreviation K := (A * RID)%type.

Record BplusTreeScanner : Type := mk_scanner {
  inited_ : bool;
  left_frame_ : option Frame;
  right_frame_ : option Frame;
  iter_index_ : Z;
  end_index_ : Z
}.

Definition new_scanner : BplusTreeScanner := mk_scanner false None None (-1) (-1).

(** The scanner with the index it reads. *)
Record Scan : Type := mk_Scan { index : Index K; scanner : BplusTreeScanner }.

Abbreviation MS := (M Scan).
Definition on_index {B} : M (Index K) B -> MS B := zoom index (fun i s => mk_Scan i (scanner s)).
Definition upd_scanner (f : BplusTreeScanner -> BplusTreeScanner) : MS unit :=
  modify (fun s => mk_Scan (index s) (f (scanner s))).

Definition set_inited b sc := mk_scanner b (left_frame_ sc) (right_frame_ sc) (iter_index_ sc) (end_index_ sc).
Definition set_left f sc := mk_scanner (inited_ sc) f (right_frame_ sc) (iter_index_ sc) (end_index_ sc).
Definition set_right f sc := mk_scanner (inited_ sc) (left_frame_ sc) f (iter_index_ sc) (end_index_ sc).
Definition set_iter i sc := mk_scanner (inited_ sc) (left_frame_ sc) (right_frame_ sc) i (end_index_ sc).
Definition set_end i sc := mk_scanner (inited_ sc) (left_frame_ sc) (right_frame_ sc) (iter_index_ sc) i.

(** A frame pointer that is read through. *)
Definition the_left : MS Frame := s ← get_state; of_option (left_frame_ (scanner s)).
Definition the_right : MS Frame := s ← get_state; of_option (right_frame_ (scanner s)).

(** The lookup key of a bound: the fixed attribute with the record identifier
    [incl] when the bound is inclusive, [excl] otherwise. *)
Definition bound_key (user_key : A) (len : Z) (inclusive want_greater : bool) (incl excl : RID) : MS K :=
  fixed ← match fix_key with
          | None => mret (user_key, false)
          | Some f =>
              on_index may_fail (* new (std::nothrow) *);;
              of_option (f user_key len want_greater)
          end;
  key ← on_index (make_key fixed.1 (if inclusive || fixed.2 then incl else excl));
  of_option key (* not checked before its use *).

(** [find_leaf] for a bound, then the position in the leaf. *)
Definition seek (key : K) : MS (Frame * Z) :=
  on_index (
    frame ← catch (find_leaf attr_comparator_ key) (fun rc => free_key;; throw rc);
    r ← Leaf.lookup (key_comparator_ attr_comparator_) frame key;
    free_key;;
    mret (frame, r.1)).

(** [true]: the left bound is behind the last entry, [open] returns there. *)
Definition open_left (left : option (A * Z)) (left_inclusive : bool) : MS bool :=
  match left with
  | None =>
      frame ← on_index left_most_page;
      upd_scanner (set_left (Some frame));;
      upd_scanner (set_iter 0);;
      mret false
  | Some (left_user_key, left_len) =>
      left_key ← bound_key left_user_key left_len left_inclusive true RID_min RID_max;
      r ← seek left_key;
      let '(frame, left_index) := r in
      upd_scanner (set_left (Some frame));;
      n ← on_index (size frame);
      if n <=? left_index then
        next_page_num ← on_index (Leaf.next_page frame);
        if next_page_num =? BP_INVALID_PAGE_NUM then mret true
        else
          on_index (unpin_page frame);;
          frame ← on_index (get_this_page next_page_num);
          upd_scanner (set_left (Some frame));;
          upd_scanner (set_iter 0);;
          mret false
      else upd_scanner (set_iter left_index);; mret false
  end.

(** [true]: the right bound is before the first entry, [open] returns there. *)
Definition open_right (right : option (A * Z)) (right_inclusive : bool) : MS bool :=
  match right with
  | None =>
      frame ← on_index right_most_page;
      upd_scanner (set_right (Some frame));;
      n ← on_index (size frame);
      upd_scanner (set_end (n - 1));;
      mret false
  | Some (right_user_key, right_len) =>
      right_key ← bound_key right_user_key right_len right_inclusive false RID_max RID_min;
      r ← seek right_key;
      let '(frame, right_index) := r in
      upd_scanner (set_right (Some frame));;
      if 0 <? right_index then upd_scanner (set_end (right_index - 1));; mret false
      else
        prev_page_num ← on_index (Leaf.prev_page frame);
        if prev_page_num =? BP_INVALID_PAGE_NUM then upd_scanner (set_end (-1));; mret true
        else
          on_index (unpin_page frame);;
          frame ← on_index (get_this_page prev_page_num);
          upd_scanner (set_right (Some frame));;
          n ← on_index (size frame);
          upd_scanner (set_end (n - 1));;
          mret false
  end.

(** The two bounds as pointers with lengths; null is [None]. *)
Definition open (left : option (A * Z)) (left_inclusive : bool) (right : option (A * Z)) (right_inclusive : bool) : MS unit :=
  s ← get_state;
  if inited_ (scanner s) then throw INTERNAL
  else
    upd_scanner (set_inited true);;
    let invalid :=
      match left, right with
      | Some (l, _), Some (r, _) =>
          let result := attr_comparator_ l r in
          (0 <? result) || ((result =? 0) && (negb left_inclusive || negb right_inclusive))
      | _, _ => false
      end in
    if invalid then throw INVALID_ARGUMENT
    else
      stop ← open_left left left_inclusive;
      if (stop : bool) then mret tt
      else
        stop ← open_right right right_inclusive;
        if (stop : bool) then mret tt
        else
          left_frame ← the_left;
          right_frame ← the_right;
          s ← get_state;
          if (left_frame =? right_frame) && (end_index_ (scanner s) <? iter_index_ (scanner s))
          then upd_scanner (set_end (-1))
          else
            prev ← on_index (Leaf.prev_page left_frame);
            if prev =? right_frame then upd_scanner (set_end (-1)) else mret tt.

Definition next_entry : MS RID :=
  s ← get_state;
  let sc := scanner s in
  if -1 =? end_index_ sc then throw RECORD_EOF
  else
    left_frame ← the_left;
    rid ← on_index (Leaf.value_at left_frame (iter_index_ sc));
    right_frame ← the_right;
    if (left_frame =? right_frame) && (iter_index_ sc =? end_index_ sc) then
      upd_scanner (set_end (-1));; mret rid
    else
      n ← on_index (size left_frame);
      if iter_index_ sc <? n - 1 then upd_scanner (set_iter (iter_index_ sc + 1));; mret rid
      else if negb (left_frame =? right_frame) then
        page_num ← on_index (Leaf.next_page left_frame);
        on_index (unpin_page left_frame);;
        if page_num =? BP_INVALID_PAGE_NUM then upd_scanner (set_left None);; throw INTERNAL
        else
          frame ← catch (on_index (get_this_page page_num)) (fun rc => upd_scanner (set_left None);; throw rc);
          upd_scanner (set_left (Some frame));;
          upd_scanner (set_iter 0);;
          mret rid
      else throw INTERNAL.

Definition close : MS unit :=
  s ← get_state;
  match left_frame_ (scanner s) with
  | Some frame => on_index (unpin_page frame);; upd_scanner (set_left None)
  | None => mret tt
  end;;
  s ← get_state;
  match right_frame_ (scanner s) with
  | Some frame => on_index (unpin_page frame);; upd_scanner (set_right None)
  | None => mret tt
  end;;
  upd_scanner (set_end (-1));;
  upd_scanner (set_inited false).

(** The [while] loop of [get_entry]; it ends with an error code. *)
Fixpoint collect (rids : list RID) (fuel : nat) : MS (list RID * RC) :=
  r ← attempt next_entry;
  match r with
  | inl rc => mret (rids, rc)
  | inr rid => match fuel with O => stuck | S fuel => collect (rids ++ [rid]) fuel end
  end.

(** Opens a scan, collects the identifiers and closes it; the destructor of the
    scanner closes it on the error path. *)
Definition scan (left : option (A * Z)) (left_inclusive : bool) (right : option (A * Z)) (right_inclusive : bool)
  (fuel : nat) : MS (list RID) :=
  catch (open left left_inclusive right right_inclusive) (fun rc => close;; throw rc);;
  r ← collect [] fuel;
  close;;
  if bool_decide (r.2 = RECORD_EOF) then mret r.1 else throw r.2.

Definition get_entry (user_key : A) (key_len : Z) (fuel : nat) (s : Index K) : outcome (Index K) (list RID) :=
  match scan (Some (user_key, key_len)) true (Some (user_key, key_len)) true fuel (mk_Scan s new_scanner) with
  | Ret rids s => Ret rids (index s)
  | Err rc s => Err rc (index s)
  | Stuck => Stuck
  end.
End scan.
