(* ===== verification/BplusSpec.v ===== *)
(** * The B+ tree as a sequence of entries

    A tree is described by its levels: the leaves from left to right, and above
    them the lists of internal nodes, the lowest level first.  [grouped] says
    that every level cuts the sequence of (first key, page) pairs of the level
    below into nodes, [chain] that the leaves are linked in order, [parents_ok]
    that every node knows the page above it, and [ranged] that the separator
    keys divide the entries.  [entries] is the abstract content of the index. *)

From Stdlib Require Import ZArith Lia Sorted.
From stdpp Require Import base gmap gmultiset sets tactics.
From stdpp Require Import list.
From S2P Require Import Prelude.
From S2P Require Import Monad.
From S2P Require Import LowerBound.
From S2P Require Import Comparator.
From S2P Require Import NodePool.
From S2P Require Import BplusNode.
From S2P Require Import NodeLogic.
From S2P Require Import BplusTree.
#[local] Open Scope Z_scope.

(** ** Cutting a concatenation at an element *)

Lemma concat_cut {B} (ls : list (list B)) F1 x F2 :
  concat ls = F1 ++ x :: F2 ->
  exists a X Y b, ls = a ++ (X ++ x :: Y) :: b /\ F1 = concat a ++ X /\ F2 = Y ++ concat b.
Proof.
  revert F1. induction ls as [|l ls IH]; intros F1 H; simpl in H; [by destruct F1|].
  apply app_eq_inv in H as [(k & -> & H)|(k & -> & H)].
  - destruct k as [|y k]; simpl in H.
    + destruct (IH [] (eq_sym H)) as (a & X & Y & b & -> & E & ->).
      exists ((F1 ++ []) :: a), X, Y, b. split; [done|]. split; [|done].
      simpl. by rewrite app_nil_r, <- app_assoc, <- E, app_nil_r.
    + injection H as -> ->. by exists [], F1, k, ls.
  - destruct (IH k H) as (a & X & Y & b & -> & -> & ->).
    exists (l :: a), X, Y, b. simpl. by rewrite app_assoc.
Qed.

Lemma Forall2_middle {B C} (R : B -> C -> Prop) l1 l2a y l2b :
  Forall2 R l1 (l2a ++ y :: l2b) <->
  exists l1a x l1b, l1 = l1a ++ x :: l1b /\ Forall2 R l1a l2a /\ R x y /\ Forall2 R l1b l2b.
Proof.
  split.
  - intros (l1a & l1b & H1 & H2 & ->)%Forall2_app_inv_r. inversion H2; subst. eauto 10.
  - intros (l1a & x & l1b & -> & H1 & H2 & H3). apply Forall2_app; [done|]. by constructor.
Qed.

Section spec.
Context {A : Type} (attr_comparator_ : A -> A -> Z) (zero_attr : A).
Abbreviation K := (A * RID)%type.
Abbreviation cmp := (key_comparator_ attr_comparator_).
Abbreviation zero_key := (zero_key zero_attr).
Context (dom : K -> Prop) `{!CmpOrder dom cmp}.

Implicit Types (d : gmap PageNum (PageData K)) (P : gmultiset PageNum) (al : gset PageNum) (p q : PageNum).

(** ** Levels *)

Record LeafNd : Type := mk_LeafNd { lsep : K; lpage : PageNum; litems : list (K * RID) }.
Abbreviation INode := (PageNum * list (K * PageNum))%type.
Implicit Types (ls : list LeafNd) (lvl : list INode) (ups : list (list INode)) (F : list (K * PageNum)).

Definition first_key (n : INode) : K := match n.2 with (k, _) :: _ => k | [] => zero_key end.
Definition firsts lvl : list (K * PageNum) := (fun n => (first_key n, n.1)) <$> lvl.
Definition seps ls : list (K * PageNum) := (fun l => (lsep l, lpage l)) <$> ls.
Definition items_of lvl : list (K * PageNum) := concat lvl.*2.

Fixpoint grouped (root : PageNum) F ups : Prop :=
  match ups with
  | [] => F = [(zero_key, root)]
  | lvl :: ups => F = items_of lvl /\ Forall (fun n : INode => n.2 <> []) lvl /\ grouped root (firsts lvl) ups
  end.

(** The parents of the nodes below the lowest of the levels. *)
Definition owners_of lvl : list PageNum := concat ((fun n : INode => replicate (length n.2) n.1) <$> lvl).
Definition owners ups : list PageNum :=
  match ups with [] => [BP_INVALID_PAGE_NUM] | lvl :: _ => owners_of lvl end.

Definition up_pages ups : list PageNum := concat ((fun lvl => lvl.*1) <$> ups).

(** ** What the pages hold *)

Definition has_leaf d p prev next items : Prop :=
  exists o, d !! p = Some (NodePage (LeafNode (mk_leaf o prev next items))).
Definition has_int d p items : Prop :=
  exists o, d !! p = Some (NodePage (InternalNode (mk_internal o items))).
Definition has_parent d p o : Prop := exists n, d !! p = Some (NodePage n) /\ node_parent n = o.
(** The same node up to its parent. *)
Definition same_body d d' p : Prop :=
  exists n o, d !! p = Some (NodePage n) /\ d' !! p = Some (NodePage (node_set_parent o n)).

Definition parents_ok d (ow ps : list PageNum) : Prop := Forall2 (fun o p => has_parent d p o) ow ps.

Fixpoint ups_ok d ups : Prop :=
  match ups with
  | [] => True
  | lvl :: ups => Forall (fun n => has_int d n.1 n.2) lvl /\ parents_ok d (owners ups) lvl.*1 /\ ups_ok d ups
  end.

Definition next_of ls (nxt : PageNum) : PageNum := match ls with [] => nxt | l :: _ => lpage l end.
(** The leaves are linked in both directions. *)
Fixpoint chain d (prev : PageNum) ls (nxt : PageNum) : Prop :=
  match ls with
  | [] => True
  | l :: ls => has_leaf d (lpage l) prev (next_of ls nxt) (litems l) /\ chain d (lpage l) ls nxt
  end.

(** ** The order of the keys *)

Definition leaf_range (first : bool) (l : LeafNd) (hi : option K) : Prop :=
  sorted cmp (litems l).*1 /\
  (forall k, k ∈ (litems l).*1 -> dom k) /\
  (first = false -> dom (lsep l) /\ forall k, k ∈ (litems l).*1 -> key_le cmp (lsep l) k) /\
  (forall b, hi = Some b -> dom b /\ (forall k, k ∈ (litems l).*1 -> key_lt cmp k b) /\
                            (first = false -> key_lt cmp (lsep l) b)).

Definition hi_of ls (hi : option K) : option K := match ls with [] => hi | l :: _ => Some (lsep l) end.
Fixpoint ranged (first : bool) ls (hi : option K) : Prop :=
  match ls with
  | [] => True
  | l :: ls => leaf_range first l (hi_of ls hi) /\ ranged false ls hi
  end.

Definition entries ls : list (K * RID) := concat (litems <$> ls).

Definition sizes_ok (h : IndexFileHeader) : Prop := 1 < internal_max_size h /\ 1 < leaf_max_size h.
(** The header page of the file. *)
Definition hdr_ok (h : IndexFileHeader) d (root : PageNum) : Prop :=
  d !! FIRST_INDEX_PAGE = Some (HeaderPage (with_root root h)).

(** How many items a node of [m] at most has at least, below the levels [ups]:
    [top] is for the root. *)
Definition least (top m : Z) ups : Z := match ups with [] => top | _ => cdiv m 2 end.
Definition level_sized (m : Z) lvl ups : Prop := Forall (fun n : INode => least 2 m ups <= zlen n.2 <= m) lvl.
Fixpoint ups_sized (m : Z) ups : Prop :=
  match ups with [] => True | lvl :: ups => level_sized m lvl ups /\ ups_sized m ups end.
Definition leaves_sized (m : Z) ls ups : Prop := Forall (fun l => least 1 m ups <= zlen (litems l) <= m) ls.

(** The pages of [d] hold the tree with root page [root]. *)
Record tree_ok (h : IndexFileHeader) (root : PageNum) ls ups d : Prop := mk_tree_ok {
  ok_grouped : grouped root (seps ls) ups;
  ok_chain : chain d BP_INVALID_PAGE_NUM ls BP_INVALID_PAGE_NUM;
  ok_parents : parents_ok d (owners ups) (lpage <$> ls);
  ok_ups : ups_ok d ups;
  ok_nodup : NoDup ((lpage <$> ls) ++ up_pages ups);
  ok_pages : Forall (fun p => 1 < p) ((lpage <$> ls) ++ up_pages ups);
  ok_ranged : ranged true ls None;
  ok_hdr : hdr_ok h d root;
  ok_nonempty : Forall (fun l => litems l <> []) ls;
  ok_leaves_sized : leaves_sized (leaf_max_size h) ls ups;
  ok_ups_sized : ups_sized (internal_max_size h) ups
}.

(** ** Structural lemmas *)

Lemma has_leaf_same d d' p prev next items :
  has_leaf d p prev next items -> same_body d d' p -> has_leaf d' p prev next items.
Proof.
  intros (o & E) (n & o' & E1 & E2). rewrite E in E1. injection E1 as <-. simpl in E2. by exists o'.
Qed.
Lemma has_int_same d d' p items : has_int d p items -> same_body d d' p -> has_int d' p items.
Proof.
  intros (o & E) (n & o' & E1 & E2). rewrite E in E1. injection E1 as <-. simpl in E2. by exists o'.
Qed.
Lemma same_body_refl d p n : d !! p = Some (NodePage n) -> same_body d d p.
Proof. intros E. exists n, (node_parent n). split; [done|]. rewrite E. by destruct n as [[]|[]]. Qed.
Lemma same_body_trans d1 d2 d3 p : same_body d1 d2 p -> same_body d2 d3 p -> same_body d1 d3 p.
Proof.
  intros (n & o & E1 & E2) (n' & o' & E3 & E4). rewrite E2 in E3. injection E3 as <-.
  exists n, o'. split; [done|]. rewrite E4. by destruct n as [[]|[]].
Qed.
Lemma same_body_eq d d1 d2 p : d2 !! p = d1 !! p -> same_body d d1 p -> same_body d d2 p.
Proof. intros E (n & o & E1 & E2). exists n, o. by rewrite E. Qed.

Lemma items_of_app l1 l2 : items_of (l1 ++ l2) = items_of l1 ++ items_of l2.
Proof. unfold items_of. by rewrite fmap_app, concat_app. Qed.
Lemma items_of_cons n l : items_of (n :: l) = n.2 ++ items_of l.
Proof. done. Qed.
Lemma owners_of_app l1 l2 : owners_of (l1 ++ l2) = owners_of l1 ++ owners_of l2.
Proof. unfold owners_of. by rewrite fmap_app, concat_app. Qed.
Lemma owners_of_cons n l : owners_of (n :: l) = replicate (length n.2) n.1 ++ owners_of l.
Proof. done. Qed.
Lemma owners_of_length l : length (owners_of l) = length (items_of l).
Proof.
  induction l as [|n l IH]; [done|]. rewrite owners_of_cons, items_of_cons, !length_app, length_replicate. lia.
Qed.
Lemma firsts_app l1 l2 : firsts (l1 ++ l2) = firsts l1 ++ firsts l2.
Proof. apply fmap_app. Qed.
Lemma firsts_pages l : (firsts l).*2 = l.*1.
Proof. unfold firsts. rewrite <- list_fmap_compose. by apply list_fmap_ext. Qed.
Lemma seps_pages ls : (seps ls).*2 = lpage <$> ls.
Proof. unfold seps. rewrite <- list_fmap_compose. by apply list_fmap_ext. Qed.
Lemma up_pages_cons lvl ups : up_pages (lvl :: ups) = lvl.*1 ++ up_pages ups.
Proof. done. Qed.

(** The node of a level that holds a given item. *)
Lemma level_cut lvl F1 x F2 :
  items_of lvl = F1 ++ x :: F2 ->
  exists a pp X Y b, lvl = a ++ (pp, X ++ x :: Y) :: b /\ F1 = items_of a ++ X /\ F2 = Y ++ items_of b.
Proof.
  unfold items_of. intros (a' & X & Y & b' & E & -> & ->)%concat_cut.
  apply fmap_app_inv in E as (a & l & -> & E & ->). destruct l as [|[pp its] b]; [done|].
  csimpl in E. simplify_eq E. intros. subst. exists a, pp, X, Y, b. done.
Qed.

Lemma chain_app d prev l1 x l2 nxt :
  chain d prev (l1 ++ x :: l2) nxt <->
  chain d prev l1 (lpage x) /\ chain d (default prev (lpage <$> last l1)) (x :: l2) nxt.
Proof.
  revert prev. induction l1 as [|l l1 IH]; intros prev; [simpl; tauto|].
  change ((l :: l1) ++ x :: l2) with (l :: (l1 ++ x :: l2)). simpl chain at 1. rewrite IH.
  assert (E1 : next_of (l1 ++ x :: l2) nxt = next_of l1 (lpage x)) by (by destruct l1).
  assert (E2 : default prev (lpage <$> last (l :: l1)) = default (lpage l) (lpage <$> last l1)).
  { destruct l1 as [|l' l1]; [done|]. change (last (l :: l' :: l1)) with (last (l' :: l1)).
    destruct (last (l' :: l1)) eqn:E; [done|]. by apply last_None in E. }
  rewrite E1, E2. simpl. tauto.
Qed.

Lemma chain_same d d' prev ls nxt :
  (forall l, l ∈ ls -> same_body d d' (lpage l)) -> chain d prev ls nxt -> chain d' prev ls nxt.
Proof.
  revert prev. induction ls as [|l ls IH]; intros prev Hs; [done|]. intros [H1 H2]. split.
  - eapply has_leaf_same; [done|]. apply Hs. by left.
  - apply IH; [|done]. intros l' Hl'. apply Hs. by right.
Qed.

Lemma chain_eq d d' prev ls nxt :
  (forall l, l ∈ ls -> d' !! lpage l = d !! lpage l) -> chain d prev ls nxt -> chain d' prev ls nxt.
Proof.
  revert prev. induction ls as [|l ls IH]; intros prev Hs; [done|]. intros [(o & E) H2]. split.
  - exists o. rewrite Hs by (by left). done.
  - apply IH; [|done]. intros l' Hl'. apply Hs. by right.
Qed.

Lemma ranged_app first l1 x l2 hi :
  ranged first (l1 ++ x :: l2) hi <->
  ranged first l1 (Some (lsep x)) /\ ranged (match l1 with [] => first | _ => false end) (x :: l2) hi.
Proof.
  revert first. induction l1 as [|l l1 IH]; intros first; [simpl; tauto|].
  change ((l :: l1) ++ x :: l2) with (l :: (l1 ++ x :: l2)). simpl ranged at 1. rewrite IH.
  assert (E1 : hi_of (l1 ++ x :: l2) hi = hi_of l1 (Some (lsep x))) by (by destruct l1).
  rewrite E1. destruct l1; simpl; tauto.
Qed.

(** ** Order of the separators *)

Definition tail_keys F : list K := drop 1 F.*1.

Lemma sorted_sublist (l1 l2 : list K) : sublist l1 l2 -> sorted cmp l2 -> sorted cmp l1.
Proof.
  induction 1 as [|x l1 l2 Hs IH|x l1 l2 Hs IH]; intros H; [constructor|..].
  - apply sorted_cons in H as [H1 H2]. apply sorted_cons. split; [auto|].
    intros k Hk. apply H2. by apply (sublist_subseteq _ _ Hs).
  - apply sorted_cons in H as [H1 _]. auto.
Qed.

Lemma firsts_sublist lvl : Forall (fun n : INode => n.2 <> []) lvl -> sublist (firsts lvl).*1 (items_of lvl).*1.
Proof.
  induction 1 as [|[pp its] lvl Hn _ IH]; [constructor|]. destruct its as [|[k p] its]; [done|].
  rewrite items_of_cons. csimpl. rewrite fmap_app. csimpl. constructor.
  by apply sublist_inserts_l.
Qed.

Lemma firsts_tail_sublist lvl :
  Forall (fun n : INode => n.2 <> []) lvl -> sublist (tail_keys (firsts lvl)) (tail_keys (items_of lvl)).
Proof.
  intros H. destruct H as [|[pp its] lvl Hn H]; [constructor|]. destruct its as [|[k p] its]; [done|].
  unfold tail_keys. rewrite items_of_cons. csimpl. rewrite !drop_0, fmap_app.
  by apply sublist_inserts_l, firsts_sublist.
Qed.

Lemma sorted_firsts lvl :
  Forall (fun n : INode => n.2 <> []) lvl ->
  sorted cmp (tail_keys (items_of lvl)) -> sorted cmp (tail_keys (firsts lvl)).
Proof. intros H. by apply sorted_sublist, firsts_tail_sublist. Qed.

Lemma dom_firsts lvl :
  Forall (fun n : INode => n.2 <> []) lvl ->
  (forall k, k ∈ tail_keys (items_of lvl) -> dom k) -> forall k, k ∈ tail_keys (firsts lvl) -> dom k.
Proof. intros H Hd k Hk. apply Hd. by apply (sublist_subseteq _ _ (firsts_tail_sublist _ H)). Qed.

Lemma grouped_nonempty root F ups : grouped root F ups -> F <> [].
Proof.
  revert F. induction ups as [|lvl ups IH]; intros F; simpl; [by intros ->|].
  intros (-> & Hn & H). apply IH in H. destruct Hn as [|[pp its] lvl Hn _]; [done|].
  rewrite items_of_cons. simpl in *. by destruct its.
Qed.

Lemma grouped_length root F ups : grouped root F ups -> (length ups <= length (up_pages ups))%nat.
Proof.
  revert F. induction ups as [|lvl ups IH]; intros F; simpl; [lia|].
  intros (_ & _ & H). pose proof (grouped_nonempty _ _ _ H). apply IH in H.
  rewrite up_pages_cons, length_app, length_fmap. destruct lvl; [done|]. simpl. lia.
Qed.

(** The separators after the first are in ascending order. *)
Lemma ranged_seps l ls hi :
  ranged false (l :: ls) hi -> sorted cmp (lsep <$> l :: ls) /\ (forall k, k ∈ (lsep <$> l :: ls) -> dom k) /\
    (forall b k, hi = Some b -> k ∈ (lsep <$> l :: ls) -> key_lt cmp k b).
Proof.
  revert l. induction ls as [|l' ls IH]; intros l [(H1 & H2 & H3 & H4) Hr].
  - destruct (H3 eq_refl) as [Hd _]. csimpl. split; [|split].
    + apply sorted_cons. split; [constructor|set_solver].
    + set_solver.
    + intros b k -> Hk. destruct (H4 b eq_refl) as (_ & _ & Hlt). assert (k = lsep l) as -> by set_solver. auto.
  - destruct (IH _ Hr) as (Hs & Hd' & Hb). destruct (H3 eq_refl) as [Hd _].
    destruct (H4 _ eq_refl) as (Hdl & _ & Hlt). specialize (Hlt eq_refl). rewrite fmap_cons. split; [|split].
    + apply sorted_cons. split; [done|]. intros k Hk. csimpl in Hk. apply elem_of_cons in Hk as [->|Hk]; [done|].
      csimpl in Hs. apply sorted_cons in Hs as [_ Hs]. unfold key_lt in *.
      apply (cmp_trans (dom := dom) (cmp := cmp) _ (lsep l')); [done|done| |done|by apply Hs].
      apply Hd'. csimpl. set_solver.
    + intros k [->|Hk]%elem_of_cons; auto.
    + intros b k -> [->|Hk]%elem_of_cons; [|by apply Hb].
      assert (Hl' : lsep l' ∈ (lsep <$> l' :: ls)) by (csimpl; set_solver).
      specialize (Hb b _ eq_refl Hl').
      unfold key_lt in *. apply (cmp_trans (dom := dom) (cmp := cmp) _ (lsep l')); [done|done| |done|done].
      clear -Hr. revert l' Hr. induction ls as [|l2 ls IH]; intros l' [(_ & _ & _ & H4) Hr].
      * by destruct (H4 b eq_refl).
      * by apply (IH l2).
Qed.

Lemma ranged_tail_sorted ls :
  ranged true ls None ->
  sorted cmp (tail_keys (seps ls)) /\ (forall k, k ∈ tail_keys (seps ls) -> dom k).
Proof.
  destruct ls as [|l ls]; intros H; [split; [constructor|set_solver]|]. destruct H as [_ H].
  assert (E : tail_keys (seps (l :: ls)) = lsep <$> ls).
  { unfold tail_keys, seps. csimpl. rewrite drop_0, <- list_fmap_compose. by apply list_fmap_ext. }
  rewrite E. destruct ls as [|l' ls]; [split; [constructor|set_solver]|].
  by apply ranged_seps in H as (H1 & H2 & _).
Qed.

(** The search in an internal node, for the keys after the first. *)
Lemma lookup_tail key X k p Y :
  dom key -> (forall k', k' ∈ tail_keys (X ++ (k, p) :: Y) -> dom k') ->
  sorted cmp (tail_keys (X ++ (k, p) :: Y)) ->
  (forall k', k' ∈ tail_keys (X ++ [(k, p)]) -> key_le cmp k' key) ->
  (forall k', k' ∈ Y.*1 -> key_lt cmp key k') ->
  exists pos, Internal.lookup_items cmp (X ++ (k, p) :: Y) key = Some (zlen X, pos) /\
    (~ (key ∈ tail_keys (X ++ [(k, p)])) -> pos = zlen X + 1).
Proof. unfold tail_keys. rewrite <- !fmap_drop. apply internal_lookup_at. done. Qed.

Lemma grouped_root root F ups : grouped root F ups -> root ∈ F.*2 ++ up_pages ups.
Proof using Type.
  clear -zero_attr. revert F. induction ups as [|lvl ups IH]; intros F; simpl; [intros ->; set_solver|].
  intros (_ & _ & H). apply IH in H. rewrite firsts_pages in H. rewrite up_pages_cons. set_solver.
Qed.

(** ** The sizes of the nodes *)

Lemma least_half top m root F ups : grouped root F ups -> (1 < length F)%nat -> least top m ups = cdiv m 2.
Proof using Type. destruct ups; [|done]. simpl. intros -> Hl. simpl in Hl. lia. Qed.

Lemma siblings_sized {B} (f : B -> Z) top m root F ups (a : list B) x b :
  grouped root F ups -> length F = length (a ++ x :: b) ->
  Forall (fun n => least top m ups <= f n <= m) (a ++ x :: b) ->
  Forall (fun n => cdiv m 2 <= f n <= m) (a ++ b).
Proof using Type.
  intros Hg Hl. rewrite !Forall_app, Forall_cons. intros (Ha & _ & Hb). destruct ups as [|lvl ups]; [|done].
  simpl in Hg. subst F. rewrite length_app in Hl. destruct a, b; simpl in Hl; try lia. done.
Qed.

Lemma half_pos m : 1 < m -> 1 <= cdiv m 2.
Proof using Type. intros Hm. rewrite cdiv_nonneg by lia. apply (Z.div_le_lower_bound m 2); lia. Qed.
End spec.
