(* ===== verification/BplusSearch.v ===== *)
(** * Finding a leaf of the B+ tree

    [find_leaf_internal] descends from the root to the leaf its getter selects.
    The descent is proved once for any getter that keeps a property of the
    position among the nodes of a level; [find_leaf], [left_most_page] and
    [right_most_page] are instances. *)

From Stdlib Require Import ZArith Lia.
From stdpp Require Import base gmap gmultiset sets tactics.
From stdpp Require Import list.
From S2P Require Import Prelude.
From S2P Require Import Monad.
From S2P Require Import LowerBound.
From S2P Require Import Comparator.
From S2P Require Import NodePool.
From S2P Require Import BplusNode.
From S2P Require Import NodeLogic.
From S2P Require Import BplusTree.
From S2P Require Import BplusSpec.
#[local] Open Scope Z_scope.

Section search.
Context {A : Type} (attr_comparator_ : A -> A -> Z) (zero_attr : A).
Abbreviation K := (A * RID)%type.
Abbreviation cmp := (key_comparator_ attr_comparator_).
Abbreviation zero_key := (zero_key zero_attr).
Abbreviation grouped := (grouped zero_attr).
Abbreviation firsts := (firsts zero_attr).
Abbreviation first_key := (first_key zero_attr).
Context (dom : K -> Prop) `{!CmpOrder dom cmp}.
Abbreviation INode := (PageNum * list (K * PageNum))%type.
Abbreviation LeafNd := (LeafNd (A := A)).
Implicit Types (P : gmultiset PageNum) (al : gset PageNum).
Context (h : IndexFileHeader) (d : gmap PageNum (PageData K)) (al : gset PageNum) (ku : Z).

Section descend.
Context (getter : Frame -> M (Index K) PageNum)
  (C : list (K * PageNum) -> K * PageNum -> list (K * PageNum) -> Prop) (E : RC -> Index K -> Prop).

(** From a selected node the getter goes to a selected child. *)
Definition getter_ok : Prop := forall a (n : INode) b,
  Forall (fun n : INode => n.2 <> []) (a ++ n :: b) ->
  sorted cmp (tail_keys (items_of (a ++ n :: b))) ->
  (forall k, k ∈ tail_keys (items_of (a ++ n :: b)) -> dom k) ->
  C (firsts a) (first_key n, n.1) (firsts b) ->
  exists X k p Y, n.2 = X ++ (k, p) :: Y /\ C (items_of a ++ X) (k, p) (Y ++ items_of b) /\
    (forall P s Q, has_int d n.1 n.2 -> st h d P al ku s -> n.1 ∈ P -> Q p s -> wp (getter n.1) s Q E).

Hypothesis Hgetter : getter_ok.

Lemma descend ups F root :
  C [] (zero_key, root) [] -> grouped root F ups -> ups_ok d ups ->
  sorted cmp (tail_keys F) -> (forall k, k ∈ tail_keys F -> dom k) ->
  (forall p, p ∈ F.*2 -> is_Some (d !! p)) ->
  exists a k p b, F = a ++ (k, p) :: b /\ C a (k, p) b /\
    forall fuel P s Q, st h d (P ⊎ {[+ root +]}) al ku s ->
      (forall s', st h d (P ⊎ {[+ p +]}) al ku s' -> wp (find_leaf_loop getter p fuel) s' Q E) ->
      wp (find_leaf_loop getter root (length ups + fuel)) s Q E.
Proof.
  intros Hroot. revert F. induction ups as [|lvl ups IH]; intros F Hg Hok Hs Hd Hp.
  - simpl in Hg. subst F. exists [], zero_key, root, []. split; [done|]. split; [done|].
    intros fuel P s Q Hst HQ. by apply HQ.
  - destruct Hg as (-> & Hn & Hg). destruct Hok as (Hint & _ & Hok).
    destruct (IH _ Hg Hok) as (a' & k0 & pn & b' & Ef & HC & Hwp).
    { by apply sorted_firsts. }
    { by eapply dom_firsts. }
    { intros p Hpin. rewrite firsts_pages in Hpin. apply list_elem_of_fmap in Hpin as (n & -> & Hin).
      rewrite list.Forall_forall in Hint. destruct (Hint n Hin) as (o & Eo). by rewrite Eo. }
    apply fmap_app_inv in Ef as (a & l & -> & Ef & ->).
    destruct l as [|n b]; [done|]. csimpl in Ef. injection Ef as -> -> ->.
    destruct (Hgetter a n b Hn Hs Hd HC) as (X & k & p & Y & En & HC' & Hget).
    exists (items_of a ++ X), k, p, (Y ++ items_of b). split; [|split; [done|]].
    { rewrite items_of_app, items_of_cons, En, <- !app_assoc. done. }
    intros fuel P s Q Hst HQ. cbn [length]. rewrite Nat.add_succ_comm.
    apply (Hwp _ P); [done|]. intros s' Hst'.
    apply Forall_app in Hint as [_ Hint]. inversion Hint as [|? ? [o Eo] _]; subst.
    assert (Hpn : n.1 ∈ P ⊎ {[+ n.1 +]}) by multiset_solver.
    assert (Hpd : is_Some (d !! p)).
    { apply Hp. rewrite items_of_app, items_of_cons, En, !fmap_app. csimpl. set_solver. }
    destruct Hpd as [dd Edd].
    simpl find_leaf_loop. apply wp_bind. unfold is_leaf. apply wp_bind.
    eapply wp_node; [done|done|done|]. apply wp_ret. cbv iota beta.
    apply wp_bind. eapply Hget; [by exists o|done|done|].
    apply wp_bind. eapply wp_unpin_page; [done|done|]. intros s1 Hst1.
    apply wp_bind. eapply wp_get_this_page; [done|done|]. intros s2 Hst2.
    apply HQ. eapply st_pins_eq; [done|multiset_solver].
Qed.
End descend.

(** ** The position of a key *)

Definition covers (key : K) (a : list (K * PageNum)) (kp : K * PageNum) (b : list (K * PageNum)) : Prop :=
  (a <> [] -> key_le cmp kp.1 key) /\ (forall k, k ∈ b.*1 -> key_lt cmp key k).

(** The items of a node from an item on are not smaller than its key. *)
Lemma tail_keys_app_r a (n : INode) b :
  sorted cmp (tail_keys (items_of (a ++ n :: b))) -> items_of a <> [] ->
  sorted cmp (n.2 ++ items_of b).*1.
Proof.
  rewrite items_of_app, items_of_cons. unfold tail_keys. destruct (items_of a) as [|x l]; [done|]. intros H _.
  csimpl in H. rewrite drop_0, fmap_app in H. by apply sorted_app in H as (_ & H & _).
Qed.

Lemma items_nonempty a : Forall (fun n : INode => n.2 <> []) a -> a <> [] -> items_of a <> [].
Proof. intros [|[pp its] l Hn _]; [done|]. rewrite items_of_cons. by destruct its. Qed.

Lemma cut_keys key (items : list (K * PageNum)) :
  dom key -> items <> [] -> sorted cmp (tail_keys items) -> (forall k, k ∈ tail_keys items -> dom k) ->
  exists X k p Y, items = X ++ (k, p) :: Y /\
    (forall k', k' ∈ tail_keys (X ++ [(k, p)]) -> key_le cmp k' key) /\
    (forall k', k' ∈ Y.*1 -> key_lt cmp key k').
Proof.
  intros Hk Hne Hs Hd. destruct items as [|[k0 p0] items]; [done|]. unfold tail_keys in *. csimpl in Hs.
  csimpl in Hd. rewrite drop_0 in Hs, Hd. clear Hne.
  induction items as [|[k1 p1] items IH] using rev_ind.
  - exists [], k0, p0, []. csimpl. set_solver.
  - rewrite fmap_app in Hs, Hd. csimpl in Hs. csimpl in Hd.
    destruct (decide (cmp k1 key <= 0)) as [Hle|Hgt].
    + exists ((k0, p0) :: items), k1, p1, []. split; [done|]. split; [|set_solver].
      csimpl. rewrite drop_0, fmap_app. csimpl. intros k' [Hk'|Hk']%elem_of_app; [|by assert (k' = k1) as -> by set_solver].
      apply sorted_app in Hs as (_ & _ & Hs). specialize (Hs k' k1 Hk' ltac:(set_solver)).
      unfold key_lt, key_le in *. pose proof (cmp_lt_le_trans dom cmp k' k1 key). 
      enough (cmp k' key < 0) by lia. apply H; auto; apply Hd; set_solver.
    + apply sorted_app in Hs as (Hs & _ & _). destruct IH as (X & k & p & Y & E & H1 & H2); [done|set_solver|].
      exists X, k, p, (Y ++ [(k1, p1)]). split; [by rewrite app_comm_cons, E, <- app_assoc|]. split; [done|].
      rewrite fmap_app. csimpl. intros k' [Hk'|Hk']%elem_of_app; [auto|]. assert (k' = k1) as -> by set_solver.
      unfold key_lt. apply (cmp_opp key k1); [done|apply Hd; set_solver|lia].
Qed.

Lemma wp_value_at p items i k q P s (Q : PageNum -> Index K -> Prop) E :
  has_int d p items -> st h d P al ku s -> p ∈ P -> zget items i = Some (k, q) -> Q q s ->
  wp (Internal.value_at p i) s Q E.
Proof.
  intros (o & Eo) Hst Hp Hi HQ. unfold Internal.value_at, Internal.item_at. apply wp_bind, wp_bind.
  eapply wp_internal; [done|done|done|]. simpl. eapply wp_of_option; [done|]. by apply wp_ret.
Qed.

Lemma zget_middle {B} (X : list B) x Y : zget (X ++ x :: Y) (zlen X) = Some x.
Proof.
  unfold zget, zlen. rewrite decide_True by lia. apply list_lookup_middle. lia.
Qed.

Lemma tail_keys_node a (n : INode) b :
  sublist (tail_keys n.2) (tail_keys (items_of (a ++ n :: b))).
Proof.
  unfold tail_keys. rewrite items_of_app, items_of_cons, !fmap_app.
  destruct (items_of a) as [|x l].
  - destruct n.2 as [|y l]; csimpl; rewrite ?drop_0; [by apply sublist_nil_l|]. by apply sublist_inserts_r.
  - csimpl. rewrite drop_0. apply sublist_inserts_l. apply sublist_inserts_r. apply sublist_drop.
Qed.

Lemma covers_right key b :
  Forall (fun n : INode => n.2 <> []) b -> dom key ->
  sorted cmp (items_of b).*1 -> (forall k, k ∈ (items_of b).*1 -> dom k) ->
  (forall k, k ∈ (firsts b).*1 -> key_lt cmp key k) -> forall k, k ∈ (items_of b).*1 -> key_lt cmp key k.
Proof.
  intros [|[pp its] l Hn _] Hk Hs Hd Hlt k Hin; [set_solver|].
  destruct its as [|[k1 p1] its]; [done|]. rewrite items_of_cons in Hs, Hd, Hin. csimpl in Hs. csimpl in Hd. csimpl in Hin.
  assert (H1 : key_lt cmp key k1) by (apply Hlt; csimpl; set_solver).
  apply elem_of_cons in Hin as [->|Hin]; [done|]. apply sorted_cons in Hs as [_ Hs]. specialize (Hs k Hin).
  unfold key_lt in *. apply (cmp_trans (dom := dom) (cmp := cmp) key k1 k); auto; apply Hd; set_solver.
Qed.

Lemma getter_find key :
  dom key -> forall E, getter_ok (fun internal_node =>
    r ← Internal.lookup cmp internal_node key; Internal.value_at internal_node r.1) (covers key) E.
Proof.
  intros Hk E a n b Hn Hs Hd [Hc1 Hc2].
  pose proof (sorted_sublist attr_comparator_ _ _ (tail_keys_node a n b) Hs) as Hsn.
  assert (Hdn : forall k, k ∈ tail_keys n.2 -> dom k).
  { intros k Hin. apply Hd. by apply (sublist_subseteq _ _ (tail_keys_node a n b)). }
  apply Forall_app in Hn as [Hna Hn]. apply Forall_cons in Hn as [Hn Hnb].
  destruct (cut_keys key n.2 Hk Hn Hsn Hdn) as (X & k & p & Y & En & HX & HY).
  exists X, k, p, Y. split; [done|]. split.
  - split; simpl.
    + intros Hne. destruct X as [|x X].
      * rewrite app_nil_r in Hne. unfold BplusSpec.first_key in Hc1. rewrite En in Hc1. simpl in Hc1. apply Hc1.
        destruct a; [done|by intros ?].
      * apply HX. unfold tail_keys. rewrite fmap_app. csimpl. rewrite drop_0. set_solver.
    + rewrite fmap_app. intros k' [Hk'|Hk']%elem_of_app; [by apply HY|].
      assert (Hsub : sublist (items_of b).*1 (tail_keys (items_of (a ++ n :: b)))).
      { unfold tail_keys. rewrite items_of_app, items_of_cons, En. clear.
        destruct (items_of a) as [|y l]; csimpl.
        - rewrite <- app_assoc. destruct X as [|x X]; csimpl; rewrite drop_0, ?fmap_app; csimpl.
          + by apply sublist_inserts_l.
          + rewrite fmap_app. by apply sublist_inserts_l, sublist_cons, sublist_inserts_l.
        - rewrite drop_0, !fmap_app. by apply sublist_inserts_l, sublist_inserts_l. }
      apply (covers_right key b); auto.
      * by eapply sorted_sublist.
      * intros k2 H2. apply Hd. by apply (sublist_subseteq _ _ Hsub).
  - intros P s Q Hint Hst Hp HQ. apply wp_bind. unfold Internal.lookup. apply wp_bind.
    destruct Hint as (o & Eo). eapply wp_internal; [done|done|done|]. simpl i_array.
    rewrite En in Hsn, Hdn.
    destruct (lookup_tail attr_comparator_ dom key X k p Y Hk Hdn Hsn HX HY) as (pos & Elk & _).
    rewrite En. eapply wp_of_option; [done|]. simpl fst.
    eapply wp_value_at; [by exists o|done|done| |done]. rewrite En. apply zget_middle.
Qed.

Lemma getter_left E : getter_ok (fun internal_node => Internal.value_at internal_node 0) (fun a _ _ => a = []) E.
Proof.
  intros a [pp its] b Hn Hs Hd Ha. apply fmap_nil_inv in Ha as ->. simpl.
  apply Forall_app in Hn as [_ Hn]. apply Forall_cons in Hn as [Hn _].
  destruct its as [|[k p] Y]; [done|]. exists [], k, p, Y. split; [done|]. split; [done|].
  intros P s Q Hint Hst Hp HQ. by eapply wp_value_at.
Qed.

Lemma getter_right E :
  getter_ok (fun internal_node => n ← size internal_node; Internal.value_at internal_node (n - 1))
    (fun _ _ b => b = []) E.
Proof.
  intros a [pp its] b Hn Hs Hd Hb. apply fmap_nil_inv in Hb as ->.
  apply Forall_app in Hn as [_ Hn]. apply Forall_cons in Hn as [Hn _].
  destruct its as [|[k p] X _] using rev_ind; [done|]. exists X, k, p, []. split; [done|]. split; [done|].
  intros P s Q Hint Hst Hp HQ. apply wp_bind. unfold size. apply wp_bind.
  destruct Hint as (o & Eo). eapply wp_node; [done|done|done|]. apply wp_ret. simpl.
  eapply (wp_value_at pp); [by exists o|done|done| |done].
  replace (zlen (X ++ [(k, p)]) - 1) with (zlen X) by (unfold zlen; rewrite length_app; simpl; lia).
  apply zget_middle.
Qed.

(** ** The leaf that is reached *)

Lemma has_leaf_chain prev ls nxt l :
  chain d prev ls nxt -> l ∈ ls -> exists n, d !! lpage l = Some (NodePage (LeafNode n)) /\ l_array n = litems l.
Proof.
  revert prev. induction ls as [|l' ls IH]; intros prev Hc Hl; [set_solver|].
  destruct Hc as [(o & E) Hc]. apply elem_of_cons in Hl as [->|Hl]; [|by apply (IH _ Hc)].
  eexists. by split.
Qed.

Lemma up_pages_dom ups p : ups_ok d ups -> p ∈ up_pages ups -> is_Some (d !! p).
Proof.
  induction ups as [|lvl ups IH]; intros Ho Hp; [by apply elem_of_nil in Hp|].
  rewrite up_pages_cons in Hp. destruct Ho as (Hint & _ & Ho). apply elem_of_app in Hp as [Hp|Hp]; [|by apply IH].
  apply list_elem_of_fmap in Hp as (n & -> & Hn). rewrite list.Forall_forall in Hint.
  destruct (Hint n Hn) as (o & E). by rewrite E.
Qed.

Lemma ups_fuel root F ups :
  grouped root F ups -> ups_ok d ups -> NoDup (up_pages ups) -> (length ups <= base.size d)%nat.
Proof.
  intros Hg Hu Hnd. pose proof (grouped_length zero_attr _ _ _ Hg) as Hl.
  assert (Hsub : list_to_set (C := gset PageNum) (up_pages ups) ⊆ base.dom d).
  { intros p Hp%elem_of_list_to_set. apply elem_of_dom. by eapply up_pages_dom, Hp. }
  apply subseteq_size in Hsub. rewrite size_list_to_set in Hsub by done. rewrite size_dom in Hsub. lia.
Qed.

Lemma tree_fuel root ls ups :
  tree_ok attr_comparator_ zero_attr dom h root ls ups d -> (length ups <= base.size d)%nat.
Proof.
  intros H. eapply ups_fuel; [by apply H..|]. by pose proof (ok_nodup _ _ _ _ _ _ _ _ H) as (_ & _ & ?)%NoDup_app.
Qed.

(** The descent of [find_leaf_internal] with a getter that keeps [C]. *)
Lemma find_leaf_internal_spec getter C E root ls ups :
  getter_ok getter C E -> C [] (zero_key, root) [] ->
  tree_ok attr_comparator_ zero_attr dom h root ls ups d -> root_page h = root ->
  exists l1 l l2, ls = l1 ++ l :: l2 /\ C (seps l1) (lsep l, lpage l) (seps l2) /\
    forall P s Q, st h d P al ku s ->
      (forall s', st h d (P ⊎ {[+ lpage l +]}) al ku s' -> Q (lpage l) s') ->
      wp (find_leaf_internal getter) s Q E.
Proof.
  intros Hgetter HC H Hroot.
  destruct (ranged_tail_sorted attr_comparator_ dom _ (ok_ranged _ _ _ _ _ _ _ _ H)) as [Hs Hd].
  assert (Hdd : forall l, l ∈ ls -> exists n, d !! lpage l = Some (NodePage (LeafNode n)) /\ l_array n = litems l).
  { intros l Hl. eapply has_leaf_chain; [|done]. by apply H. }
  assert (Hpd : forall p, p ∈ (seps ls).*2 -> is_Some (d !! p)).
  { intros p Hp. rewrite seps_pages in Hp. apply list_elem_of_fmap in Hp as (l & -> & Hl).
    destruct (Hdd l Hl) as (n & E' & _). by rewrite E'. }
  destruct (descend getter C E Hgetter ups (seps ls) root HC (ok_grouped _ _ _ _ _ _ _ _ H)
              (ok_ups _ _ _ _ _ _ _ _ H) Hs Hd Hpd) as (a & k & p & b & Ef & HC' & Hwp).
  apply fmap_app_inv in Ef as (l1 & l2 & -> & Ef & ->). destruct l2 as [|l l2]; [done|].
  csimpl in Ef. injection Ef as -> -> ->.
  exists l1, l, l2. split; [done|]. split; [done|]. intros P s Q Hst HQ.
  unfold find_leaf_internal, is_empty. apply wp_bind, wp_gets.
  rewrite (st_header _ _ _ _ _ _ Hst), Hroot.
  assert (Hrd : is_Some (d !! root) /\ 1 < root).
  { pose proof (ok_grouped _ _ _ _ _ _ _ _ H) as Hin. apply grouped_root in Hin. split.
    - apply elem_of_app in Hin as [Hin|Hin]; [by apply Hpd|].
      by eapply up_pages_dom, Hin; apply H.
    - rewrite seps_pages in Hin. pose proof (ok_pages _ _ _ _ _ _ _ _ H) as Hp.
      rewrite list.Forall_forall in Hp. by apply Hp. }
  destruct Hrd as [[dd Edd] Hr1]. rewrite (proj2 (Z.eqb_neq _ _)) by (unfold BP_INVALID_PAGE_NUM; lia).
  apply wp_bind, wp_gets. rewrite (st_header _ _ _ _ _ _ Hst), Hroot.
  apply wp_bind. eapply wp_get_this_page; [done|done|]. intros s1 Hst1.
  apply wp_bind, wp_gets. unfold pages_fuel. rewrite (st_data _ _ _ _ _ _ Hst1).
  pose proof (tree_fuel _ _ _ H) as Hfuel.
  replace (S (base.size d)) with (length ups + (S (base.size d) - length ups))%nat by lia.
  apply (Hwp _ P); [done|]. intros s2 Hst2.
  destruct (Hdd l ltac:(set_solver)) as (n & En & _).
  destruct (S (base.size d) - length ups)%nat; simpl; apply wp_bind; unfold is_leaf; apply wp_bind;
    (eapply wp_node; [done|multiset_solver|done|]); apply wp_ret; cbv iota beta; apply wp_ret; by apply HQ.
Qed.
End search.
