(* ===== verification/BplusOrder.v ===== *)
(** * The entries of an index in order

    What an index promises: a list of entries sorted by key.  [entry_insert] and
    [entry_remove] are the insertion and the deletion on that list.  The entries
    of a tree ([entries]) are such a list, and a leaf that [covers] a key splits
    it around the key. *)

From Stdlib Require Import ZArith Lia Sorted.
From stdpp Require Import base gmap sets tactics.
From stdpp Require Import list.
From S2P Require Import Prelude.
From S2P Require Import Comparator.
From S2P Require Import NodePool.
From S2P Require Import BplusNode.
From S2P Require Import NodeLogic.
From S2P Require Import BplusTree.
From S2P Require Import BplusSpec.
From S2P Require Import BplusSearch.
#[local] Open Scope Z_scope.

(** ** Sorted lists of entries *)

Section entry_list.
Context {K V : Type} (cmp : K -> K -> Z).
Implicit Types (es xs ys : list (K * V)) (k key : K).

Fixpoint entry_insert key (v : V) es : option (list (K * V)) :=
  match es with
  | [] => Some [(key, v)]
  | (k, w) :: es' =>
      if cmp key k <? 0 then Some ((key, v) :: es)
      else if cmp key k =? 0 then None
      else cons (k, w) <$> entry_insert key v es'
  end.

Fixpoint entry_remove key es : option (list (K * V)) :=
  match es with
  | [] => None
  | (k, w) :: es' =>
      if cmp key k =? 0 then Some es' else cons (k, w) <$> entry_remove key es'
  end.

Context (dom : K -> Prop) `{!CmpOrder dom cmp}.

(** A key that is between two parts of the list. *)
Definition between key xs ys : Prop :=
  dom key /\ (forall k, k ∈ (xs ++ ys).*1 -> dom k) /\
  (forall k, k ∈ xs.*1 -> key_lt cmp k key) /\ (forall k, k ∈ ys.*1 -> key_lt cmp key k).

Lemma between_new key xs ys : between key xs ys -> key ∉ (xs ++ ys).*1.
Proof.
  intros (Hk & _ & Hx & Hy). rewrite fmap_app.
  assert (Hr : ~ key_lt cmp key key) by (unfold key_lt; rewrite (cmp_refl (dom := dom)); [lia|done]).
  intros [Hin|Hin]%elem_of_app; auto.
Qed.

Lemma entry_insert_between key v xs ys :
  between key xs ys -> entry_insert key v (xs ++ ys) = Some (xs ++ (key, v) :: ys).
Proof.
  induction xs as [|[k w] xs IH]; intros (Hk & Hd & Hx & Hy).
  - destruct ys as [|[k w] ys]; [done|]. simpl. specialize (Hy k). unfold key_lt in Hy.
    rewrite (proj2 (Z.ltb_lt _ _)); [done|]. apply Hy. csimpl. by left.
  - assert (Hlt : key_lt cmp k key) by (apply Hx; csimpl; by left). unfold key_lt in Hlt.
    apply (cmp_opp (dom := dom)) in Hlt; [|apply Hd; csimpl; by left|done]. simpl.
    rewrite (proj2 (Z.ltb_ge _ _)) by lia. rewrite (proj2 (Z.eqb_neq _ _)) by lia.
    rewrite IH; [done|]. split; [done|]. split; [|split; [|done]].
    + intros k' Hk'. apply Hd. csimpl. by right.
    + intros k' Hk'. apply Hx. csimpl. by right.
Qed.

Lemma entry_insert_dup key v es :
  dom key -> (forall k, k ∈ es.*1 -> dom k) -> sorted cmp es.*1 -> key ∈ es.*1 -> entry_insert key v es = None.
Proof.
  intros Hk. induction es as [|[k w] es IH]; intros Hd Hs Hin; csimpl in *; [by apply elem_of_nil in Hin|].
  apply sorted_cons in Hs as [Hs Hlt].
  destruct (Z.eqb_spec (cmp key k) 0) as [Ez|Ez].
  - by rewrite Ez.
  - apply elem_of_cons in Hin as [->|Hin]; [by rewrite (cmp_refl (dom := dom)) in Ez by done|].
    specialize (Hlt key Hin). unfold key_lt in Hlt.
    apply (cmp_opp (dom := dom)) in Hlt; [|apply Hd; by left|done].
    rewrite (proj2 (Z.ltb_ge _ _)) by lia. rewrite IH; [done|..|done|done].
    intros k' Hk'. apply Hd. by right.
Qed.

Lemma entry_remove_at key v xs ys :
  dom key -> (forall k, k ∈ (xs ++ (key, v) :: ys).*1 -> dom k) -> sorted cmp (xs ++ (key, v) :: ys).*1 ->
  entry_remove key (xs ++ (key, v) :: ys) = Some (xs ++ ys).
Proof.
  intros Hk. induction xs as [|[k w] xs IH]; intros Hd Hs; csimpl in *.
  - by rewrite (cmp_refl (dom := dom)) by done.
  - apply sorted_cons in Hs as [Hs Hlt]. assert (H : key_lt cmp k key) by (apply Hlt; in_list).
    unfold key_lt in H. apply (cmp_opp (dom := dom)) in H; [|apply Hd; by left|done].
    rewrite (proj2 (Z.eqb_neq _ _)) by lia. rewrite IH; [done| |done]. intros k' Hk'. apply Hd. by right.
Qed.

Lemma entry_remove_none key es :
  dom key -> (forall k, k ∈ es.*1 -> dom k) -> (key ∉ es.*1) -> entry_remove key es = None.
Proof.
  intros Hk. induction es as [|[k w] es IH]; intros Hd Hn; [done|]. csimpl in *.
  apply not_elem_of_cons in Hn as [Hne Hn].
  destruct (Z.eqb_spec (cmp key k) 0) as [Ez|_].
  - apply (cmp_eq (dom := dom)) in Ez; [done|done|apply Hd; by left].
  - rewrite IH; [done| |done]. intros k' Hk'. apply Hd. by right.
Qed.
End entry_list.

(** ** The leaves of a tree *)

Section leaves.
Context {A : Type} (attr_comparator_ : A -> A -> Z).
Abbreviation K := (A * RID)%type.
Abbreviation cmp := (key_comparator_ attr_comparator_).
Context (dom : K -> Prop) `{!CmpOrder dom cmp}.
Abbreviation LeafNd := (LeafNd (A := A)).
Abbreviation ranged := (ranged attr_comparator_ dom).

Lemma entries_cons (l : LeafNd) ls : entries (l :: ls) = litems l ++ entries ls.
Proof. done. Qed.
Lemma entries_app (l1 l2 : list LeafNd) : entries (l1 ++ l2) = entries l1 ++ entries l2.
Proof. unfold entries. by rewrite fmap_app, concat_app. Qed.

Lemma ranged_dom first (ls : list LeafNd) hi : ranged first ls hi -> forall k, k ∈ (entries ls).*1 -> dom k.
Proof.
  revert first. induction ls as [|l ls IH]; intros first; [by intros _ k Hk%elem_of_nil|].
  intros [(_ & Hd & _) Hr] k. rewrite entries_cons, fmap_app. intros [Hk|Hk]%elem_of_app; [auto|by eapply IH].
Qed.

Lemma ranged_hi_dom first l (ls : list LeafNd) b : ranged first (l :: ls) (Some b) -> dom b.
Proof.
  revert first l. induction ls as [|l' ls IH]; intros first l [(_ & _ & _ & Hhi) Hr].
  - by destruct (Hhi b eq_refl).
  - by eapply IH.
Qed.

Lemma ranged_below first (ls : list LeafNd) b :
  ranged first ls (Some b) -> forall k, k ∈ (entries ls).*1 -> key_lt cmp k b.
Proof.
  revert first. induction ls as [|l ls IH]; intros first; [by intros _ k Hk%elem_of_nil|].
  intros [(_ & Hd & _ & Hhi) Hr] k. rewrite entries_cons, fmap_app. intros [Hk|Hk]%elem_of_app; [|by eapply IH].
  destruct ls as [|l' ls]; cbn [hi_of] in *; destruct (Hhi _ eq_refl) as (Hdb & Hlt & _); [auto|].
  pose proof (ranged_seps _ _ _ _ _ Hr) as (_ & _ & Hb). pose proof (ranged_hi_dom _ _ _ _ Hr).
  assert (key_lt cmp (lsep l') b) by (apply Hb; [done|csimpl; by left]).
  specialize (Hlt k Hk). unfold key_lt in *. apply (cmp_trans (dom := dom) (cmp := cmp) _ (lsep l')); auto.
Qed.

Lemma ranged_above l (ls : list LeafNd) hi :
  ranged false (l :: ls) hi -> forall k, k ∈ (entries (l :: ls)).*1 -> key_le cmp (lsep l) k.
Proof.
  revert l. induction ls as [|l' ls IH]; intros l [(_ & Hd & Hlo & Hhi) Hr] k;
    rewrite entries_cons, fmap_app; destruct (Hlo eq_refl) as [Hds Hge]; (intros [Hk|Hk]%elem_of_app; [auto|]).
  - by apply elem_of_nil in Hk.
  - destruct (Hhi _ eq_refl) as (Hdl & _ & Hlt). specialize (Hlt eq_refl).
    pose proof (IH _ Hr k Hk). pose proof (ranged_dom _ _ _ Hr k Hk). unfold key_le, key_lt in *.
    apply Z.lt_le_incl. by apply (cmp_lt_le_trans dom cmp _ (lsep l')).
Qed.

Lemma ranged_sorted first (ls : list LeafNd) hi : ranged first ls hi -> sorted cmp (entries ls).*1.
Proof.
  revert first. induction ls as [|l ls IH]; intros first; [constructor|]. intros [Hl Hr].
  rewrite entries_cons, fmap_app. apply sorted_app. split; [by apply Hl|]. split; [by eapply IH|].
  intros k1 k2 H1 H2. destruct ls as [|l' ls]; [by apply elem_of_nil in H2|].
  destruct Hl as (_ & Hd & _ & Hhi). destruct (Hhi _ eq_refl) as (Hds & Hlt & _). cbn [hi_of] in *.
  pose proof (ranged_above _ _ _ Hr k2 H2). pose proof (ranged_dom _ _ _ Hr k2 H2). specialize (Hlt k1 H1).
  unfold key_lt, key_le in *. apply (cmp_lt_le_trans dom cmp _ (lsep l')); auto.
Qed.

(** The leaf that covers a key has the smaller keys in front, the greater behind. *)
Lemma covers_sides first (l1 : list LeafNd) l l2 key :
  ranged first (l1 ++ l :: l2) None -> dom key ->
  covers attr_comparator_ key (seps l1) (lsep l, lpage l) (seps l2) ->
  (forall k, k ∈ (entries l1).*1 -> key_lt cmp k key) /\ (forall k, k ∈ (entries l2).*1 -> key_lt cmp key k).
Proof.
  intros Hr Hk [Hc1 Hc2]. pose proof (ranged_dom _ _ _ Hr) as Hd.
  rewrite entries_app, entries_cons, !fmap_app in Hd. apply ranged_app in Hr as [R1 [R2 R3]].
  split; intros k Hin.
  - pose proof (ranged_below _ _ _ R1 k Hin) as Hlt. destruct l1 as [|l1' l1]; [by apply elem_of_nil in Hin|].
    pose proof (ranged_hi_dom _ _ _ _ R1). assert (Hle : key_le cmp (lsep l) key) by (by apply Hc1).
    unfold key_lt, key_le in *. apply (cmp_lt_le_trans dom cmp _ (lsep l)); auto.
    apply Hd. rewrite !elem_of_app. tauto.
  - destruct l2 as [|l' l2]; [by apply elem_of_nil in Hin|]. pose proof (ranged_above _ _ _ R3 k Hin) as Hle.
    assert (Hlt : key_lt cmp key (lsep l')) by (apply Hc2; csimpl; by left).
    destruct R2 as (_ & _ & _ & Hhi). destruct (Hhi _ eq_refl) as (Hds & _).
    unfold key_lt, key_le in *. apply (cmp_lt_le_trans dom cmp _ (lsep l')); auto.
    apply Hd. rewrite !elem_of_app. tauto.
Qed.

(** Cut at the key, it cuts the whole list of entries. *)
Lemma covers_between first (l1 : list LeafNd) l l2 key xs ys :
  ranged first (l1 ++ l :: l2) None -> dom key ->
  covers attr_comparator_ key (seps l1) (lsep l, lpage l) (seps l2) -> litems l = xs ++ ys ->
  (forall k, k ∈ xs.*1 -> key_lt cmp k key) -> (forall k, k ∈ ys.*1 -> key_lt cmp key k) ->
  between cmp dom key (entries l1 ++ xs) (ys ++ entries l2).
Proof.
  intros Hr Hk Hcov E Hx Hy. destruct (covers_sides _ _ _ _ _ Hr Hk Hcov) as [H1 H2].
  pose proof (ranged_dom _ _ _ Hr) as Hd. rewrite entries_app, entries_cons, E in Hd.
  split; [done|]. split; [by rewrite <- !app_assoc in *|]. rewrite !fmap_app.
  split; intros k [Hin|Hin]%elem_of_app; auto.
Qed.
End leaves.

(** ** Ranges of entries *)

(** The entries between two bounds; [None] is no bound. *)
Section range.
Context {K V : Type} (cmp : K -> K -> Z).
Definition above (lo : option K) (k : K) : bool := match lo with None => true | Some b => cmp b k <=? 0 end.
Definition below (hi : option K) (k : K) : bool := match hi with None => true | Some b => cmp k b <? 0 end.
Definition entry_range (lo hi : option K) (es : list (K * V)) : list (K * V) :=
  filter (fun e => above lo e.1 && below hi e.1) es.

Lemma entry_range_const lo hi b (l : list (K * V)) :
  (forall k, k ∈ l.*1 -> above lo k && below hi k = b) -> entry_range lo hi l = if b then l else [].
Proof.
  unfold entry_range. induction l as [|e l IH]; intros H; [by destruct b|].
  rewrite filter_cons. rewrite (H e.1) by (csimpl; by left).
  rewrite IH by (intros k Hk; apply H; csimpl; by right). by destruct b.
Qed.

Lemma entry_range_none lo hi (l : list (K * V)) :
  (forall k, k ∈ l.*1 -> above lo k = false \/ below hi k = false) -> entry_range lo hi l = [].
Proof.
  intros H. apply (entry_range_const lo hi false). intros k Hk.
  destruct (H k Hk) as [-> | ->]; [done|by rewrite andb_false_r].
Qed.

Lemma entry_range_cut lo hi (es pre mid post : list (K * V)) :
  es = pre ++ mid ++ post ->
  (forall k, k ∈ pre.*1 -> above lo k = false) -> (forall k, k ∈ (mid ++ post).*1 -> above lo k = true) ->
  (forall k, k ∈ (pre ++ mid).*1 -> below hi k = true) -> (forall k, k ∈ post.*1 -> below hi k = false) ->
  entry_range lo hi es = mid.
Proof.
  intros -> H1 H2 H3 H4. unfold entry_range. rewrite !filter_app. fold (entry_range lo hi pre) (entry_range lo hi mid) (entry_range lo hi post).
  rewrite (entry_range_const lo hi false pre), (entry_range_const lo hi true mid), (entry_range_const lo hi false post);
    [by rewrite app_nil_r|..]; intros k Hk.
  - rewrite H4 by done. by rewrite andb_false_r.
  - rewrite H2, H3; [done|..]; rewrite fmap_app; in_list.
  - by rewrite H1.
Qed.

(** Two cuts of a list, at a lower and at an upper bound. *)
Lemma entry_range_cuts lo hi (es pre post pre' post' : list (K * V)) :
  es = pre ++ post -> es = pre' ++ post' ->
  (forall k, k ∈ pre.*1 -> above lo k = false) -> (forall k, k ∈ post.*1 -> above lo k = true) ->
  (forall k, k ∈ pre'.*1 -> below hi k = true) -> (forall k, k ∈ post'.*1 -> below hi k = false) ->
  (forall k, k ∈ es.*1 -> above lo k = true \/ below hi k = true) ->
  exists mid, pre' = pre ++ mid /\ post = mid ++ post' /\ entry_range lo hi es = mid.
Proof.
  intros E1 E2 H1 H2 H3 H4 H5.
  assert (Hc : exists mid, pre' = pre ++ mid /\ post = mid ++ post').
  { rewrite E1 in E2. apply app_eq_inv in E2 as [(mid & -> & ->)|(mid & -> & ->)]; [|by exists mid].
    destruct mid as [|e mid]; [exists []; by rewrite !app_nil_r|]. exfalso.
    assert (He : above lo e.1 = true \/ below hi e.1 = true) by (apply H5; rewrite E1; in_list).
    destruct He as [He|He]; [rewrite H1 in He|rewrite H4 in He]; (done || in_list). }
  destruct Hc as (mid & -> & ->). exists mid. split; [done|]. split; [done|].
  eapply entry_range_cut; [exact E1|done|done|done|done].
Qed.
End range.
