(* ===== verification/BplusInsert.v ===== *)
(** * Insertion into the B+ tree is correct

    [insert_entry_into_parent] is verified by induction on the levels above the
    split node, [insert_entry_into_leaf_node] on top of it. *)

From Stdlib Require Import ZArith Lia.
From stdpp Require Import base gmap gmultiset sets tactics.
From stdpp Require Import list.
From S2P Require Import Prelude.
From S2P Require Import Monad.
From S2P Require Import LowerBound.
From S2P Require Import Comparator.
From S2P Require Import NodePool.
From S2P Require Import BplusNode.
From S2P Require Import NodeLogic.
From S2P Require Import BplusTree.
From S2P Require Import BplusSpec.
From S2P Require Import BplusSearch.
#[local] Open Scope Z_scope.

Section insert.
Context {A : Type} (attr_comparator_ : A -> A -> Z) (zero_attr : A).
Abbreviation K := (A * RID)%type.
Abbreviation cmp := (key_comparator_ attr_comparator_).
Abbreviation zero_key := (zero_key zero_attr).
Abbreviation grouped := (grouped zero_attr).
Abbreviation firsts := (firsts zero_attr).
Abbreviation first_key := (first_key zero_attr).
Context (dom : K -> Prop) `{!CmpOrder dom cmp}.
Abbreviation INode := (PageNum * list (K * PageNum))%type.
Abbreviation LeafNd := (LeafNd (A := A)).
Implicit Types (d : gmap PageNum (PageData K)) (P : gmultiset PageNum) (al : gset PageNum) (p q : PageNum).
Implicit Types (lvl : list INode) (ups : list (list INode)) (F : list (K * PageNum)).

(** ** What does not touch a page keeps what is known of it *)

Lemma has_int_eq d d' p items : d' !! p = d !! p -> has_int d p items -> has_int d' p items.
Proof. intros E (o & Eo). exists o. by rewrite E. Qed.
Lemma has_parent_eq d d' p o : d' !! p = d !! p -> has_parent d p o -> has_parent d' p o.
Proof. intros E (n & En & Eo). exists n. by rewrite E. Qed.
Lemma has_parent_node d d' p n n' o :
  d !! p = Some (NodePage n) -> d' !! p = Some (NodePage n') -> node_parent n' = node_parent n ->
  has_parent d p o -> has_parent d' p o.
Proof. intros E E' En (n0 & E0 & <-). rewrite E in E0. injection E0 as <-. by exists n'. Qed.
Lemma ints_eq d d' lvl :
  (forall q, q ∈ lvl.*1 -> d' !! q = d !! q) ->
  Forall (fun n => has_int d n.1 n.2) lvl -> Forall (fun n => has_int d' n.1 n.2) lvl.
Proof.
  rewrite !list.Forall_forall. intros E H n Hn. eapply has_int_eq; [|by apply H].
  apply E. apply list_elem_of_fmap. by exists n.
Qed.
Lemma ints_same d d' lvl :
  (forall q, q ∈ lvl.*1 -> same_body d d' q) ->
  Forall (fun n => has_int d n.1 n.2) lvl -> Forall (fun n => has_int d' n.1 n.2) lvl.
Proof.
  rewrite !list.Forall_forall. intros E H n Hn. eapply has_int_same; [by apply H|].
  apply E. apply list_elem_of_fmap. by exists n.
Qed.
Lemma parents_ok_mono d d' ow ps :
  (forall q o, q ∈ ps -> has_parent d q o -> has_parent d' q o) -> parents_ok d ow ps -> parents_ok d' ow ps.
Proof.
  intros E H. unfold parents_ok in *. induction H as [|o p ow ps Hp H IH]; constructor.
  - apply E; [by left|done].
  - apply IH. intros q o' Hq. apply E. by right.
Qed.
Lemma parents_ok_eq d d' ow ps :
  (forall q, q ∈ ps -> d' !! q = d !! q) -> parents_ok d ow ps -> parents_ok d' ow ps.
Proof. intros E. apply parents_ok_mono. intros q o Hq. apply has_parent_eq. by apply E. Qed.
Lemma item_page_in lvl (n : INode) q : n ∈ lvl -> q ∈ n.2.*2 -> q ∈ (items_of lvl).*2.
Proof.
  intros (l1 & l2 & ->)%list_elem_of_split Hq. rewrite items_of_app, items_of_cons, !fmap_app.
  rewrite !elem_of_app. tauto.
Qed.
Lemma ups_ok_eq d d' ups :
  (forall q, q ∈ up_pages ups -> d' !! q = d !! q) -> ups_ok d ups -> ups_ok d' ups.
Proof.
  induction ups as [|lvl ups IH]; intros E H; [done|]. destruct H as (H1 & H2 & H3).
  rewrite up_pages_cons in E. split; [|split].
  - eapply ints_eq; [|done]. intros q Hq. apply E, elem_of_app. by left.
  - eapply parents_ok_eq; [|done]. intros q Hq. apply E, elem_of_app. by left.
  - apply IH; [|done]. intros q Hq. apply E, elem_of_app. by right.
Qed.

Lemma parents_ok_app d ow1 ow2 ps1 ps2 :
  parents_ok d ow1 ps1 -> parents_ok d ow2 ps2 -> parents_ok d (ow1 ++ ow2) (ps1 ++ ps2).
Proof. apply Forall2_app. Qed.
Lemma parents_ok_replicate d o ps :
  (forall p, p ∈ ps -> has_parent d p o) -> parents_ok d (replicate (length ps) o) ps.
Proof. induction ps as [|p ps IH]; intros H; constructor; [apply H; by left|apply IH; intros q Hq; apply H; by right]. Qed.
Lemma parents_ok_replicate_inv d o n ps p :
  parents_ok d (replicate n o) ps -> p ∈ ps -> has_parent d p o.
Proof.
  revert n. induction ps as [|p' ps IH]; intros n H Hp; [by apply elem_of_nil in Hp|].
  destruct n as [|n]; inversion H; subst. apply elem_of_cons in Hp as [->|Hp]; [done|]. by apply (IH n).
Qed.

(** The parents of the children of a level, node by node. *)
Lemma parents_ok_level d lvl :
  parents_ok d (owners_of lvl) (items_of lvl).*2 <->
  forall n, n ∈ lvl -> forall p, p ∈ n.2.*2 -> has_parent d p n.1.
Proof.
  induction lvl as [|n lvl IH].
  - split; [intros _ n Hn; by apply elem_of_nil in Hn|constructor].
  - rewrite owners_of_cons, items_of_cons, fmap_app. split.
    + intros (p1 & p2 & H1 & H2 & E)%Forall2_app_inv_l.
      pose proof (Forall2_length _ _ _ H1) as Hl. rewrite length_replicate in Hl.
      apply app_inj_1 in E as [<- <-]; [|by rewrite length_fmap].
      rewrite (IH : parents_ok d _ _ <-> _) in H2. intros n' [->|Hn']%elem_of_cons p Hp; [|by apply H2].
      by eapply parents_ok_replicate_inv.
    + intros H. apply parents_ok_app.
      * rewrite <- (length_fmap snd n.2). apply parents_ok_replicate. intros p Hp. by apply H; [left|].
      * apply IH. intros n' Hn'. apply H. by right.
Qed.

(** ** The levels above a list of nodes *)

Record upper_ok h root F ups d al : Prop := mk_upper_ok {
  u_grouped : grouped root F ups;
  u_parents : parents_ok d (owners ups) F.*2;
  u_ups : ups_ok d ups;
  u_nodup : NoDup (F.*2 ++ up_pages ups);
  u_pages : forall p, p ∈ F.*2 ++ up_pages ups -> 1 < p /\ p ∈ al;
  u_hdr : hdr_ok h d root
}.

Lemma with_root_id h root : root_page h = root -> with_root root h = h.
Proof. intros <-. by destruct h. Qed.

Lemma wp_update_root h d P al ku s root (Q : unit -> Index K -> Prop) E :
  st h d P al ku s -> hdr_ok h d root ->
  (forall s', st h (<[FIRST_INDEX_PAGE := HeaderPage h]> d) P al ku s' -> Q tt s') ->
  wp update_root_page_num s Q E.
Proof.
  intros Hst E0 HQ. unfold hdr_ok in E0. unfold update_root_page_num.
  do 3 wp_step. rewrite (st_header _ _ _ _ _ _ Hst). do 3 wp_step. eapply HQ.
  assert (Eh : with_root (root_page h) (with_root root h) = h) by (by destruct h). rewrite Eh in Hst.
  eapply st_pins_eq; [done|multiset_solver].
Qed.

Lemma wp_set_root h d P al ku s p (Q : unit -> Index K -> Prop) E :
  st h d P al ku s -> (forall s', st (with_root p h) d P al ku s' -> Q tt s') -> wp (set_root_page p) s Q E.
Proof.
  intros Hst HQ. apply HQ. destruct Hst as [H1 H2 H3 H4 H5 H6 H7]. split; try done. simpl. by rewrite H1.
Qed.

(** ** Splitting an internal node *)

Lemma wp_split_internal h d P al ku s pp o items (Q : PageNum -> Index K -> Prop) E :
  let m := Z.to_nat (cdiv (zlen items) 2) in
  st h d P al ku s -> pp ∈ P -> pp ∈ al ->
  d !! pp = Some (NodePage (InternalNode (mk_internal o items))) ->
  NoDup items.*2 -> pp ∉ items.*2 -> (forall q, q ∈ items.*2 -> q ∈ al /\ exists n, d !! q = Some (NodePage n)) ->
  (forall np d' s', np ∉ al -> 0 <= np -> st h d' (P ⊎ {[+ np +]}) ({[ np ]} ∪ al) ku s' ->
     d' !! pp = Some (NodePage (InternalNode (mk_internal o (take m items)))) ->
     d' !! np = Some (NodePage (InternalNode (mk_internal o (drop m items)))) ->
     (forall q n, q ∈ (drop m items).*2 -> d !! q = Some (NodePage n) ->
        d' !! q = Some (NodePage (node_set_parent np n))) ->
     (forall q, q <> pp -> q <> np -> q ∉ (drop m items).*2 -> d' !! q = d !! q) -> Q np s') ->
  wp (split (InternalHandler K) pp) s Q E.
Proof.
  intros m Hst Hpp Hal Epp Hnd Hnin Hch HQ. unfold split. wp_b.
  apply (wp_allocate_page Hst). clear Hst s. intros np d1 s Hnp Hnp0 [dd Edd] Hd1 Hst.
  assert (Hne : np <> pp) by (by intros ->). rewrite <- (Hd1 pp) in Epp by done.
  cbn [h_init_empty h_move_half_to InternalHandler]. unfold Internal.init_empty, Internal.move_half_to.
  do 2 wp_step. wp_b. eapply (wp_parent_page_num Hst); [multiset_solver|by page_at|].
  simpl node_parent. wp_b. eapply (wp_set_parent Hst); [multiset_solver|by page_at|]. clear Hst s. intros s Hst.
  rewrite insert_insert_eq in Hst. simpl node_set_parent in Hst. do 2 wp_step; [by page_at|]. cbv zeta. simpl i_array.
  assert (Hm : Z.to_nat (cdiv (zlen items) 2) = m) by done.
  assert (Hq : 0 <= cdiv (zlen items) 2 <= zlen items).
  { rewrite cdiv_nonneg by (unfold zlen; lia). split; [apply Z.div_pos; unfold zlen; lia|].
    apply Z.div_le_upper_bound; unfold zlen; lia. }
  wp_b. eapply wp_of_option.
  { unfold arr_slice. rewrite decide_True by (unfold zlen in *; lia). done. }
  rewrite Hm. rewrite take_ge by (rewrite length_drop; unfold zlen in *; lia).
  set (right := drop m items) in *.
  assert (Hsub : forall q, q ∈ right.*2 -> q ∈ items.*2).
  { intros q Hq'. unfold right in Hq'. rewrite fmap_drop in Hq'. by eapply (subseteq_drop m). }
  assert (Hright : forall q, q ∈ right.*2 -> q <> np /\ q <> pp).
  { intros q Hin%Hsub. split; intros ->; [|done]. by destruct (Hch np Hin) as [? _]. }
  unfold Internal.copy_from. wp_b. eapply wp_adopt; [done|..].
  { unfold right. rewrite fmap_drop. eapply sublist_NoDup; [done|apply sublist_drop]. }
  { intros q Hin. destruct (Hright q Hin) as [Hn1 Hn2]. rewrite lookup_insert_ne by done. rewrite Hd1 by done.
    apply Hch. auto. }
  clear Hst s. intros s Hst.
  set (d2 := adopted np right.*2 _) in *.
  assert (E2np : d2 !! np = Some (NodePage (InternalNode (mk_internal o [])))).
  { unfold d2. rewrite adopted_ne; [by page_at|]. intros Hin. by destruct (Hright _ Hin). }
  assert (E2pp : d2 !! pp = Some (NodePage (InternalNode (mk_internal o items)))).
  { unfold d2. rewrite adopted_ne; [by page_at|]. intros Hin. by destruct (Hright _ Hin). }
  wp_step. wp_step. wp_step; [by page_at|]. wp_b. simpl i_array. eapply wp_of_option.
  { unfold arr_shrink. rewrite decide_True by lia. done. }
  do 4 wp_step.
  replace (length items - Z.to_nat (zlen items - cdiv (zlen items) 2))%nat with m in Hst by (unfold zlen in *; lia).
  simpl in Hst.
  eapply HQ; [done|done|exact Hst|by page_at|by page_at|..].
  - intros q n Hin En. destruct (Hright q Hin) as [Hn1 Hn2]. rewrite !lookup_insert_ne by done.
    unfold d2. apply adopted_eq; [|done|].
    + unfold right. rewrite fmap_drop. eapply sublist_NoDup; [done|apply sublist_drop].
    + rewrite lookup_insert_ne by done. by rewrite Hd1.
  - intros q H1 H2 H3. rewrite !lookup_insert_ne by done. unfold d2. rewrite adopted_ne by done.
    rewrite lookup_insert_ne by done. by apply Hd1.
Qed.

(** Inserting right behind the item of the node that was split. *)
Lemma wp_internal_insert h d P al ku s pp o X k p Y knew pnew (Q : unit -> Index K -> Prop) E :
  st h d P al ku s -> pp ∈ P ->
  d !! pp = Some (NodePage (InternalNode (mk_internal o (X ++ (k, p) :: Y)))) ->
  sorted cmp (tail_keys (X ++ (k, p) :: (knew, pnew) :: Y)) ->
  (forall k', k' ∈ tail_keys (X ++ (k, p) :: (knew, pnew) :: Y) -> dom k') -> dom knew ->
  (forall s', st h (<[pp := NodePage (InternalNode (mk_internal o (X ++ (k, p) :: (knew, pnew) :: Y)))]> d) P al ku s' ->
     Q tt s') ->
  wp (Internal.insert cmp pp knew pnew) s Q E.
Proof.
  intros Hst Hpp Epp Hs Hd Hdk HQ.
  assert (Es : tail_keys (X ++ (k, p) :: (knew, pnew) :: Y) = tail_keys (X ++ [(k, p)]) ++ knew :: Y.*1).
  { unfold tail_keys. destruct X as [|x X]; csimpl; rewrite ?drop_0, ?fmap_app; csimpl; [done|].
    by rewrite <- app_assoc. }
  assert (Eo : tail_keys (X ++ (k, p) :: Y) = tail_keys (X ++ [(k, p)]) ++ Y.*1).
  { unfold tail_keys. destruct X as [|x X]; csimpl; rewrite ?drop_0, ?fmap_app; csimpl; [done|].
    by rewrite <- app_assoc. }
  rewrite Es in Hs, Hd. pose proof (sorted_delete _ _ _ _ Hs) as Hs'. rewrite <- Eo in Hs'.
  apply sorted_app in Hs as (_ & Hs2 & Hs1). apply sorted_cons in Hs2 as [_ Hs2].
  destruct (lookup_tail attr_comparator_ dom knew X k p Y Hdk) as (pos & Elk & Hpos); [|done|..].
  - intros k' Hk'. rewrite Eo in Hk'. apply Hd. set_solver.
  - intros k' Hk'. specialize (Hs1 k' knew Hk' ltac:(set_solver)). unfold key_lt, key_le in *. lia.
  - done.
  - rewrite Hpos in Elk.
    2: { intros Hin. specialize (Hs1 knew knew Hin ltac:(set_solver)). unfold key_lt in Hs1.
         rewrite (cmp_refl (dom := dom) (cmp := cmp)) in Hs1 by done. lia. }
    unfold Internal.insert, Internal.lookup. wp_step. wp_b. eapply wp_of_option; [done|].
    cbv zeta. wp_step. simpl i_array. wp_b. eapply wp_of_option.
    { unfold arr_insert. rewrite decide_True by (unfold zlen; rewrite length_app; simpl; lia). done. }
    wp_step. eapply HQ. simpl in Hst.
    replace (Z.to_nat (zlen X + 1)) with (length (X ++ [(k, p)])) in Hst
      by (unfold zlen; rewrite length_app; simpl; lia).
    replace (X ++ (k, p) :: Y) with ((X ++ [(k, p)]) ++ Y) in Hst by (by rewrite <- app_assoc).
    rewrite take_app_length, drop_app_length in Hst. rewrite <- app_assoc in Hst. done.
Qed.

(** ** Insertion into the levels above *)

(** The item [(knew, pnew)] has entered the list [F'] below the levels [ups]. *)
Definition inserted h d al ku ups F' P' (s' : Index K) : Prop :=
  exists root' ups' d' al',
    st (with_root root' h) d' P' al' ku s' /\ upper_ok h root' F' ups' d' al' /\ ups_sized (internal_max_size h) ups' /\ al ⊆ al' /\
    (forall q, q ∈ up_pages ups' -> q ∈ up_pages ups \/ (q ∉ al)) /\
    (forall q, q ∈ F'.*2 -> same_body d d' q) /\
    (forall q, q ∈ al -> (q ∉ F'.*2) -> (q ∉ up_pages ups) -> q <> FIRST_INDEX_PAGE -> d' !! q = d !! q).

(** What [insert_entry_into_parent] relies on. *)
Record insertable h d P al (root : PageNum) F1 (k : K) p F2 (knew : K) pnew ups : Prop := mk_insertable {
  i_upper : upper_ok h root (F1 ++ (k, p) :: F2) ups d al;
  i_sorted : sorted cmp (tail_keys (F1 ++ (k, p) :: (knew, pnew) :: F2));
  i_dom k' : k' ∈ tail_keys (F1 ++ (k, p) :: (knew, pnew) :: F2) -> dom k';
  i_new : 1 < pnew /\ pnew ∈ al /\ (pnew ∉ (F1 ++ (k, p) :: F2).*2 ++ up_pages ups) /\ exists n, d !! pnew = Some (NodePage n);
  i_pins : p ∈ P /\ pnew ∈ P;
  i_header : root_page h = root /\ 1 < internal_max_size h;
  i_sized : ups_sized (internal_max_size h) ups;
  i_reserved : 0 ∈ al /\ FIRST_INDEX_PAGE ∈ al
}.

Lemma wp_create_root_above h d P al ku s p pnew n nn root knew E :
  st h d P al ku s -> p ∈ P -> pnew ∈ P -> p <> pnew -> hdr_ok h d root ->
  0 ∈ al -> FIRST_INDEX_PAGE ∈ al -> p ∈ al -> pnew ∈ al -> 1 < p -> 1 < pnew ->
  d !! p = Some (NodePage n) -> d !! pnew = Some (NodePage nn) ->
  wp (create_root_above zero_attr p pnew knew) s (fun _ s' => exists rp d',
    (rp ∉ al) /\ 1 < rp /\ st (with_root rp h) d' (P ∖ {[+ p +]} ∖ {[+ pnew +]}) ({[ rp ]} ∪ al) ku s' /\
    d' !! rp = Some (NodePage (InternalNode (mk_internal BP_INVALID_PAGE_NUM [(zero_key, p); (knew, pnew)]))) /\
    d' !! p = Some (NodePage (node_set_parent rp n)) /\ d' !! pnew = Some (NodePage (node_set_parent rp nn)) /\
    hdr_ok h d' rp /\
    forall q, q <> rp -> q <> p -> q <> pnew -> q <> FIRST_INDEX_PAGE -> d' !! q = d !! q) E.
Proof.
  intros Hst HpP HnP Hne Eh H0 H1 Hpal Hnal Hp1 Hn1 En Enn. unfold create_root_above. wp_b.
  apply (wp_allocate_page Hst). clear Hst s. intros rp d1 s Hrp Hrp0 [dd Edd] Hd1 Hst.
  assert (Hrp1 : 1 < rp).
  { destruct (decide (rp = 0)) as [->|]; [done|]. destruct (decide (rp = 1)) as [->|]; [done|]. lia. }
  assert (Hr1 : rp <> p) by (by intros ->). assert (Hr2 : rp <> pnew) by (by intros ->).
  assert (Hf : FIRST_INDEX_PAGE = 1) by done.
  unfold Internal.init_empty. do 2 wp_step. unfold Internal.create_new_root. wp_step; [by page_at|].
  wp_b. apply wp_check; [done|]. wp_step. rewrite insert_insert_eq in Hst.
  wp_b. eapply (wp_set_parent Hst); [multiset_solver|page_at; by rewrite Hd1|]. clear Hst s. intros s Hst.
  wp_b. eapply (wp_set_parent Hst); [multiset_solver|page_at; by rewrite Hd1|]. clear Hst s. intros s Hst.
  do 4 wp_step. wp_b. apply (wp_set_root _ _ _ _ _ _ _ _ _ Hst). clear Hst s. intros s Hst.
  wp_b. apply wp_rc_of. eapply (wp_update_root _ _ _ _ _ _ root); [done|unfold hdr_ok in *; page_at; by rewrite Hd1 by page_ne|].
  clear Hst s. intros s Hst. do 2 wp_step. exists rp. eexists.
  split; [done|]. split; [done|]. split; [eapply st_pins_eq; [done|multiset_solver]|].
  split_and!; [by page_at|by page_at|by page_at|unfold hdr_ok; by page_at|].
  intros q Hq1 Hq2 Hq3 Hq4. rewrite !lookup_insert_ne by done. by apply Hd1.
Qed.

Lemma wp_insert_root h d P al ku s root F1 k p F2 knew pnew fuel E :
  insertable h d P al root F1 k p F2 knew pnew [] -> st h d P al ku s ->
  wp (insert_entry_into_parent attr_comparator_ zero_attr p pnew knew fuel) s
    (fun _ => inserted h d al ku [] (F1 ++ (k, p) :: (knew, pnew) :: F2) (P ∖ {[+ p +]} ∖ {[+ pnew +]})) E.
Proof.
  intros [[Hg Hp _ Hnd Hpg Hhdr] _ _ (Hnew1 & Hnewal & Hnew & nn & Enn) [HpP HnP] [Hr Hmax] _ [H0 H1]] Hst.
  simpl in Hg. destruct F1 as [|? [|]]; [|done|done]. csimpl in Hg. injection Hg as -> E1 ->. subst root.
  csimpl in Hp. apply Forall2_cons_1 in Hp as [(n & En & Eo) _]. csimpl in Hnew. csimpl in Hpg.
  assert (Hne : p <> pnew) by (intros ->; set_solver).
  destruct (Hpg p) as [Hp1 Hpal]; [set_solver|].
  assert (Hroot : wp (create_root_above zero_attr p pnew knew) s (fun _ =>
    inserted h d al ku [] ((zero_key, p) :: [(knew, pnew)]) (P ∖ {[+ p +]} ∖ {[+ pnew +]})) E).
  { eapply wp_mono; [by eapply wp_create_root_above|..|by intros].
    intros _ s' (rp & d' & Hrp & Hrp1 & Hst' & Erp & Ep & Epn & Hh & Hd').
    exists rp, [[(rp, [(zero_key, p); (knew, pnew)])]], d', ({[ rp ]} ∪ al). split; [done|].
    assert (rp <> p) by (by intros ->). assert (rp <> pnew) by (by intros ->).
    split; [split|split_and!].
    - simpl. split; [done|]. split; [by constructor|done].
    - csimpl. unfold parents_ok, owners_of. csimpl. repeat constructor; eexists; (split; [done|]); by destruct n as [[]|[]], nn as [[]|[]].
    - simpl. split; [|split; [|done]].
      + constructor; [|done]. by eexists.
      + constructor; [|done]. by eexists.
    - csimpl. repeat (apply NoDup_cons; split; [set_solver|]). constructor.
    - csimpl. intros q Hq. assert (q = p \/ q = pnew \/ q = rp) as [->|[->| ->]] by set_solver; set_solver.
    - done.
    - repeat split. constructor; [|done]. unfold least, zlen. simpl. lia.
    - set_solver.
    - csimpl. set_solver.
    - csimpl. intros q Hq. assert (q = p \/ q = pnew) as [->| ->] by set_solver; by eexists _, _.
    - csimpl. intros q Hq1 Hq2 _ Hq3. apply Hd'; [by intros ->|set_solver..]. }
  destruct fuel as [|fuel]; simpl insert_entry_into_parent;
    (wp_b; eapply (wp_parent_page_num Hst); [done|done|]; rewrite Eo, Z.eqb_refl; done).
Qed.

(** The node of the parent level that has the item of the split node. *)
Lemma insertable_level h d P al root F1 k p F2 knew pnew lvl ups :
  insertable h d P al root F1 k p F2 knew pnew (lvl :: ups) ->
  exists a pp X Y b o, lvl = a ++ (pp, X ++ (k, p) :: Y) :: b /\ F1 = items_of a ++ X /\ F2 = Y ++ items_of b /\
    d !! pp = Some (NodePage (InternalNode (mk_internal o (X ++ (k, p) :: Y)))) /\ has_parent d p pp /\
    p <> pp /\ pnew <> pp /\ p <> pnew /\ 1 < pp.
Proof.
  intros H. destruct (i_upper _ _ _ _ _ _ _ _ _ _ _ _ H) as [(Hg & Hn & _) Hp (Hint & _) Hnd Hpg _].
  destruct (level_cut _ _ _ _ (eq_sym Hg)) as (a & pp & X & Y & b & El & E1 & E2).
  assert (Hin : (pp, X ++ (k, p) :: Y) ∈ lvl) by (rewrite El; set_solver).
  rewrite list.Forall_forall in Hint. destruct (Hint _ Hin) as [o Eo].
  exists a, pp, X, Y, b, o. split; [done|]. split; [done|]. split; [done|]. split; [done|].
  assert (Hpp : pp ∈ lvl.*1) by (apply list_elem_of_fmap; exists (pp, X ++ (k, p) :: Y); done).
  assert (Hpf : p ∈ (F1 ++ (k, p) :: F2).*2) by (rewrite fmap_app; csimpl; set_solver).
  destruct (i_new _ _ _ _ _ _ _ _ _ _ _ _ H) as (Hn1 & _ & Hnew & _).
  rewrite up_pages_cons in *. apply NoDup_app in Hnd as (_ & Hnd & _). split; [|split_and!].
  - rewrite Hg in Hp. simpl in Hp. rewrite (parents_ok_level d lvl) in Hp. apply (Hp _ Hin). simpl.
    rewrite fmap_app. csimpl. clear. set_solver.
  - intros ->. apply (Hnd pp Hpf). set_from Hpp.
  - intros ->. apply Hnew. set_from Hpp.
  - intros ->. apply Hnew. set_from Hpf.
  - apply Hpg. set_from Hpp.
Qed.

Lemma first_key_cut pp X (x : K * PageNum) Y Z : first_key (pp, X ++ x :: Y) = first_key (pp, X ++ x :: Z).
Proof. by destruct X. Qed.

Lemma firsts_cut a pp X (x : K * PageNum) Y Z b :
  firsts (a ++ (pp, X ++ x :: Y) :: b) = firsts (a ++ (pp, X ++ x :: Z) :: b).
Proof. rewrite !firsts_app. unfold BplusSpec.firsts. csimpl. by rewrite (first_key_cut pp X x Y Z). Qed.

Lemma new_pages_perm F1 (x : K * PageNum) F2 kp (ps : list PageNum) :
  (F1 ++ x :: kp :: F2).*2 ++ ps ≡ₚ kp.2 :: (F1 ++ x :: F2).*2 ++ ps.
Proof. rewrite !fmap_app. csimpl. solve_Permutation. Qed.

Lemma new_pages_nodup F1 (x : K * PageNum) F2 kp (ps : list PageNum) :
  NoDup ((F1 ++ x :: F2).*2 ++ ps) -> (kp.2 ∉ (F1 ++ x :: F2).*2 ++ ps) -> NoDup ((F1 ++ x :: kp :: F2).*2 ++ ps).
Proof. intros H Hn. rewrite new_pages_perm. by apply NoDup_cons. Qed.

Lemma new_pages_cases F1 (x : K * PageNum) F2 kp (ps : list PageNum) q :
  q ∈ (F1 ++ x :: kp :: F2).*2 ++ ps <-> q = kp.2 \/ q ∈ (F1 ++ x :: F2).*2 ++ ps.
Proof. rewrite new_pages_perm. apply elem_of_cons. Qed.

Lemma room_level h d P al root F1 k p F2 knew pnew a pp X Y b o ups nn d' :
  insertable h d P al root F1 k p F2 knew pnew ((a ++ (pp, X ++ (k, p) :: Y) :: b) :: ups) ->
  F1 = items_of a ++ X -> F2 = Y ++ items_of b ->
  d !! pp = Some (NodePage (InternalNode (mk_internal o (X ++ (k, p) :: Y)))) ->
  d' !! pp = Some (NodePage (InternalNode (mk_internal o (X ++ (k, p) :: (knew, pnew) :: Y)))) ->
  d' !! pnew = Some (NodePage (node_set_parent pp nn)) ->
  (forall q, q <> pp -> q <> pnew -> d' !! q = d !! q) ->
  upper_ok h root (F1 ++ (k, p) :: (knew, pnew) :: F2) ((a ++ (pp, X ++ (k, p) :: (knew, pnew) :: Y) :: b) :: ups) d' al.
Proof.
  intros [[(_ & Hne & Hg) Hp (Hint & Hpar & Hups) Hnd Hpg Hhdr] _ _ (Hn1 & Hnal & Hnew & _) _ _ _ _] -> -> Epp Epp' Epn Hd'.
  set (lvl := a ++ (pp, X ++ (k, p) :: Y) :: b) in *.
  set (lvl' := a ++ (pp, X ++ (k, p) :: (knew, pnew) :: Y) :: b).
  assert (EF : (items_of a ++ X) ++ (k, p) :: Y ++ items_of b = items_of lvl).
  { unfold lvl. rewrite items_of_app, items_of_cons. cbn [snd]. by rewrite <- !app_assoc. }
  assert (EF' : (items_of a ++ X) ++ (k, p) :: (knew, pnew) :: Y ++ items_of b = items_of lvl').
  { unfold lvl'. rewrite items_of_app, items_of_cons. cbn [snd]. by rewrite <- !app_assoc. }
  assert (Epgs : lvl'.*1 = lvl.*1) by (unfold lvl, lvl'; by rewrite !fmap_app).
  pose proof (new_pages_nodup _ _ _ (knew, pnew) _ Hnd Hnew) as Hnd'.
  assert (Hmem : forall q, q ∈ (items_of lvl').*2 ++ lvl.*1 ++ up_pages ups ->
    q = pnew \/ q ∈ (items_of lvl).*2 ++ lvl.*1 ++ up_pages ups).
  { intros q Hq. rewrite <- EF' in Hq. rewrite <- EF. by apply new_pages_cases in Hq. }
  rewrite EF in *. rewrite EF' in *. rewrite up_pages_cons in *.
  assert (Hdis : forall q, q ∈ (items_of lvl).*2 -> q <> pp /\ q <> pnew).
  { intros q Hq. split; [|intros ->; apply Hnew, elem_of_app; by left]. apply NoDup_app in Hnd as (_ & Hnd & _).
    intros ->. apply (Hnd _ Hq). unfold lvl. rewrite fmap_app. csimpl. clear. set_solver. }
  assert (Hpn : forall q, q ∈ lvl.*1 ++ up_pages ups -> q <> pnew) by (intros q Hq ->; apply Hnew, elem_of_app; by right).
  apply NoDup_app in Hnd as (_ & _ & Hnd2). pose proof Hnd2 as (Hnl & Hdl & _)%NoDup_app.
  assert (Hab : forall n : INode, n ∈ a \/ n ∈ b -> n ∈ lvl /\ n ∈ lvl' /\ n.1 <> pp).
  { intros n Hn. split; [unfold lvl; set_solver|]. split; [unfold lvl'; set_solver|].
    unfold lvl in Hnl. rewrite fmap_app in Hnl. csimpl in Hnl. apply NoDup_app in Hnl as (_ & Hx & Hnl).
    apply NoDup_cons in Hnl as [Hnl _]. intros E. destruct Hn as [Hn|Hn].
    - apply (Hx pp); [|set_solver]. rewrite <- E. by apply list_elem_of_fmap_2.
    - apply Hnl. rewrite <- E. by apply list_elem_of_fmap_2. }
  assert (Hcases : forall n, n ∈ lvl' -> n = (pp, X ++ (k, p) :: (knew, pnew) :: Y) \/ n ∈ a \/ n ∈ b)
    by (unfold lvl'; set_solver).
  rewrite (parents_ok_level d lvl) in Hp.
  split.
  - split; [done|]. split.
    + rewrite list.Forall_forall in Hne |- *. intros n [->|Hn]%Hcases; [by destruct X|]. apply Hne. by apply Hab.
    + unfold lvl'. by rewrite (firsts_cut a pp X _ _ Y b).
  - simpl. rewrite parents_ok_level. intros n Hn q Hq. destruct (Hcases n Hn) as [->|Hn'].
    + simpl in Hq. rewrite fmap_app in Hq. csimpl in Hq.
      destruct (decide (q = pnew)) as [->|Hqn]; [eexists; split; [done|by destruct nn as [[]|[]]]|].
      assert (Hq2 : q ∈ (X ++ (k, p) :: Y).*2) by (rewrite fmap_app; csimpl; set_from Hq Hqn).
      assert (Hin : (pp, X ++ (k, p) :: Y) ∈ lvl) by (unfold lvl; apply elem_of_app; right; left).
      eapply has_parent_eq; [|by apply (Hp _ Hin)]. apply Hd'; [|done]. apply Hdis.
      by apply (item_page_in _ _ _ Hin).
    + destruct (Hab n Hn') as (Hl & _ & _). eapply has_parent_eq; [|by apply (Hp n)].
      destruct (Hdis q (item_page_in _ _ _ Hl Hq)). by apply Hd'.
  - split; [|split].
    + rewrite list.Forall_forall in Hint |- *. intros n Hn. destruct (Hcases n Hn) as [->|Hn']; [by eexists|].
      destruct (Hab n Hn') as (Hl & _ & Hnp). eapply has_int_eq; [|by apply Hint]. apply Hd'; [done|].
      apply Hpn. apply elem_of_app. left. by apply list_elem_of_fmap_2.
    + rewrite Epgs. eapply parents_ok_mono; [|done]. intros q x Hq Hx. destruct (decide (q = pp)) as [->|].
      * eapply has_parent_node; [exact Epp|exact Epp'|done|done].
      * eapply has_parent_eq; [|done]. apply Hd'; [done|]. apply Hpn, elem_of_app. by left.
    + eapply ups_ok_eq; [|done]. intros q Hq. apply Hd'; [|apply Hpn, elem_of_app; by right]. intros ->. apply (Hdl pp); [|done].
      unfold lvl. rewrite fmap_app. csimpl. clear. set_solver.
  - by rewrite up_pages_cons, Epgs.
  - rewrite up_pages_cons, Epgs. intros q Hq.
    destruct (Hmem q Hq) as [->|]; [done|by apply Hpg].
  - unfold hdr_ok in *. rewrite Hd'; [done|..].
    + intros E1. destruct (Hpg pp) as [Hpp _]; [|unfold FIRST_INDEX_PAGE in *; lia].
      unfold lvl. rewrite !fmap_app. csimpl. clear. set_solver.
    + unfold FIRST_INDEX_PAGE in *. lia.
Qed.

Lemma parents_ok_elem d ow ps q : parents_ok d ow ps -> q ∈ ps -> exists n, d !! q = Some (NodePage n).
Proof.
  intros H. induction H as [|o p ow ps (n & En & _) H IH]; intros Hq; [by apply elem_of_nil in Hq|].
  apply elem_of_cons in Hq as [->|Hq]; [by exists n|auto].
Qed.

(** The pages below the levels are nodes of their own. *)
Lemma insertable_below h d P al root F1 k p F2 knew pnew ups q :
  insertable h d P al root F1 k p F2 knew pnew ups -> q ∈ (F1 ++ (k, p) :: (knew, pnew) :: F2).*2 ->
  (q ∉ up_pages ups) /\ exists n, d !! q = Some (NodePage n).
Proof.
  intros [[_ Hp _ Hnd _ _] _ _ (_ & _ & Hnew & nn & Enn) _ _ _ _] Hq.
  assert (Hq' : q ∈ (F1 ++ (k, p) :: (knew, pnew) :: F2).*2 ++ []) by (by rewrite app_nil_r).
  apply new_pages_cases in Hq' as [->|Hq']; cbn [snd].
  - split; [|by exists nn]. intros Hin. apply Hnew, elem_of_app. by right.
  - rewrite app_nil_r in Hq'. split; [|by eapply parents_ok_elem].
    apply NoDup_app in Hnd as (_ & Hnd & _). by apply Hnd.
Qed.

Lemma wp_size_int h d P al ku s p o (items : list (K * PageNum)) (Q : Z -> Index K -> Prop) E :
  st h d P al ku s -> p ∈ P -> d !! p = Some (NodePage (InternalNode (mk_internal o items))) ->
  Q (zlen items) s -> wp (size p) s Q E.
Proof. intros Hst Hp Ep HQ. by eapply (wp_size_internal Hst). Qed.

Lemma wp_insert_child h d P al ku s root F1 k p F2 knew pnew a pp X Y b o ups E :
  insertable h d P al root F1 k p F2 knew pnew ((a ++ (pp, X ++ (k, p) :: Y) :: b) :: ups) ->
  F1 = items_of a ++ X -> F2 = Y ++ items_of b ->
  d !! pp = Some (NodePage (InternalNode (mk_internal o (X ++ (k, p) :: Y)))) ->
  p <> pp -> pnew <> pp -> p <> pnew -> 1 < pp -> zlen (X ++ (k, p) :: Y) < internal_max_size h ->
  st h d (P ⊎ {[+ pp +]}) al ku s ->
  wp (insert_child attr_comparator_ p pnew pp knew) s
    (fun _ => inserted h d al ku ((a ++ (pp, X ++ (k, p) :: Y) :: b) :: ups)
                (F1 ++ (k, p) :: (knew, pnew) :: F2) (P ∖ {[+ p +]} ∖ {[+ pnew +]})) E.
Proof.
  intros H E1 E2 Epp Hne1 Hne2 Hne3 Hpp1 Hroom Hst.
  destruct (i_pins _ _ _ _ _ _ _ _ _ _ _ _ H) as [HpP HnP].
  destruct (i_new _ _ _ _ _ _ _ _ _ _ _ _ H) as (Hn1 & Hnal & Hnew & nn & Enn).
  assert (Hsub : sublist (tail_keys (X ++ (k, p) :: (knew, pnew) :: Y)) (tail_keys (F1 ++ (k, p) :: (knew, pnew) :: F2))).
  { pose proof (tail_keys_node a (pp, X ++ (k, p) :: (knew, pnew) :: Y) b) as Hs.
    rewrite items_of_app, items_of_cons in Hs. cbn [snd] in Hs. subst F1 F2. by rewrite <- !app_assoc in *. }
  unfold insert_child. wp_b. eapply wp_internal_insert; [done|multiset_solver|done|..].
  { eapply sorted_sublist; [done|]. by apply H. }
  { intros k' Hk'. apply (i_dom _ _ _ _ _ _ _ _ _ _ _ _ H). by apply (sublist_subseteq _ _ Hsub). }
  { apply (i_dom _ _ _ _ _ _ _ _ _ _ _ _ H). apply (sublist_subseteq _ _ Hsub).
    unfold tail_keys. destruct X as [|x X]; csimpl; rewrite ?drop_0, ?fmap_app; csimpl; clear; set_solver. }
  clear Hst s. intros s Hst. wp_b. eapply (wp_set_parent Hst); [multiset_solver|by page_at|].
  clear Hst s. intros s Hst. do 6 wp_step.
  destruct (i_header _ _ _ _ _ _ _ _ _ _ _ _ H) as [Hroot _].
  assert (Hpp : pp ∈ up_pages ((a ++ (pp, X ++ (k, p) :: Y) :: b) :: ups)).
  { rewrite up_pages_cons, fmap_app. csimpl. clear. set_solver. }
  exists root, ((a ++ (pp, X ++ (k, p) :: (knew, pnew) :: Y) :: b) :: ups). eexists _, al.
  split; [rewrite with_root_id by done; eapply st_pins_eq; [done|multiset_solver]|].
  split_and!.
  - eapply room_level; [done|done|done|done|by page_at|by page_at|]. intros q Hq1 Hq2. by page_at.
  - destruct (i_sized _ _ _ _ _ _ _ _ _ _ _ _ H) as [Hlv Hus]. split; [|done]. unfold level_sized in *.
    rewrite Forall_app, Forall_cons in *. destruct Hlv as (Ha & Hb & Hc). split; [done|]. split; [|done].
    unfold zlen in *. cbn [snd] in *. rewrite length_app in *. simpl in *. lia.
  - done.
  - intros q. rewrite !up_pages_cons, !fmap_app. csimpl. tauto.
  - intros q Hq. destruct (insertable_below _ _ _ _ _ _ _ _ _ _ _ _ _ H Hq) as [Hnin [n En]].
    assert (Hqp : q <> pp) by (by intros ->). destruct (decide (q = pnew)) as [->|].
    + exists nn, pp. split; [done|by page_at].
    + eapply (same_body_eq d d); [by page_at|by eapply same_body_refl].
  - intros q Hq1 Hq2 Hq3 _. assert (Hqp : q <> pp) by (by intros ->).
    assert (Hqn : q <> pnew).
    { intros ->. apply Hq2. rewrite !fmap_app. csimpl. clear. set_solver. }
    by page_at.
Qed.

(** ** The split of a full parent *)

(** The node [pp] with the items [I0] has been cut into [L] and, on the new page
    [np], [R], which together hold [items]. *)
Record halves d d2 pp np o (I0 items L R : list (K * PageNum)) : Prop := mk_halves {
  hv_left : d2 !! pp = Some (NodePage (InternalNode (mk_internal o L)));
  hv_right : d2 !! np = Some (NodePage (InternalNode (mk_internal o R)));
  hv_items : L ++ R = items;
  hv_first : first_key (pp, L) = first_key (pp, I0) /\ L <> [] /\ R <> [];
  hv_left_parent q : q ∈ L.*2 -> has_parent d2 q pp;
  hv_right_parent q : q ∈ R.*2 -> has_parent d2 q np;
  hv_sizes : cdiv (zlen I0) 2 <= zlen L <= zlen I0 /\ cdiv (zlen I0) 2 <= zlen R <= zlen I0;
  hv_same q : q ∈ items.*2 -> same_body d d2 q;
  hv_other q : q <> pp -> q <> np -> (q ∉ items.*2) -> d2 !! q = d !! q
}.

Lemma halves_intro d d1 d2 pp np o L0 R0 items L R pnew nn par :
  NoDup (L0 ++ R0).*2 -> pp ∉ (L0 ++ R0).*2 -> np ∉ (L0 ++ R0).*2 -> pnew ∉ (L0 ++ R0).*2 ->
  pnew <> pp -> pnew <> np -> np <> pp -> par = pp \/ par = np ->
  (forall q, q ∈ (L0 ++ R0).*2 -> has_parent d q pp) -> d !! pnew = Some (NodePage nn) ->
  (forall q n, q ∈ R0.*2 -> d !! q = Some (NodePage n) -> d1 !! q = Some (NodePage (node_set_parent np n))) ->
  (forall q, q <> pp -> q <> np -> q ∉ R0.*2 -> d1 !! q = d !! q) ->
  d2 !! pp = Some (NodePage (InternalNode (mk_internal o L))) ->
  d2 !! np = Some (NodePage (InternalNode (mk_internal o R))) ->
  d2 !! pnew = Some (NodePage (node_set_parent par nn)) ->
  (forall q, q <> pp -> q <> np -> q <> pnew -> d2 !! q = d1 !! q) ->
  L ++ R = items -> first_key (pp, L) = first_key (pp, L0 ++ R0) /\ L <> [] /\ R <> [] ->
  (cdiv (zlen (L0 ++ R0)) 2 <= zlen L <= zlen (L0 ++ R0) /\ cdiv (zlen (L0 ++ R0)) 2 <= zlen R <= zlen (L0 ++ R0)) ->
  (forall q, q ∈ L.*2 -> q ∈ L0.*2 \/ (q = pnew /\ par = pp)) ->
  (forall q, q ∈ R.*2 -> q ∈ R0.*2 \/ (q = pnew /\ par = np)) ->
  (forall q, q = pnew \/ q ∈ (L0 ++ R0).*2 -> q ∈ items.*2) ->
  halves d d2 pp np o (L0 ++ R0) items L R.
Proof.
  intros Hnd Hpp Hnp Hpn N1 N2 N3 Hpar Hd Enn Hright Hother Epp Enp Epn Hd2 Eit Hfk Hsz HL HR Hit.
  assert (Hin : forall q, q ∈ (L0 ++ R0).*2 -> q <> pp /\ q <> np /\ q <> pnew)
    by (intros q Hq; split_and!; intros ->; done).
  rewrite fmap_app in Hnd. apply NoDup_app in Hnd as (_ & Hdis & _).
  assert (HL0 : forall q, q ∈ L0.*2 -> q ∈ (L0 ++ R0).*2) by (intros q Hq; rewrite fmap_app; apply elem_of_app; by left).
  assert (HR0 : forall q, q ∈ R0.*2 -> q ∈ (L0 ++ R0).*2) by (intros q Hq; rewrite fmap_app; apply elem_of_app; by right).
  assert (Eleft : forall q, q ∈ L0.*2 -> d2 !! q = d !! q).
  { intros q Hq. destruct (Hin q (HL0 q Hq)) as (M1 & M2 & M3). rewrite Hd2 by done. apply Hother; [done|done|by apply Hdis]. }
  assert (Eright : forall q, q ∈ R0.*2 -> exists n, d !! q = Some (NodePage n) /\ d2 !! q = Some (NodePage (node_set_parent np n))).
  { intros q Hq. destruct (Hin q (HR0 q Hq)) as (M1 & M2 & M3). destruct (Hd q (HR0 q Hq)) as (n & En & _).
    exists n. split; [done|]. rewrite Hd2 by done. by apply Hright. }
  assert (Hpnew : has_parent d2 pnew par) by (eexists; split; [done|by destruct nn as [[]|[]]]).
  split; [done|done|done|done|..].
  - intros q [Hq|[-> <-]]%HL; [|done]. eapply has_parent_eq; [by apply Eleft|]. by apply Hd, HL0.
  - intros q [Hq|[-> <-]]%HR; [|done]. destruct (Eright q Hq) as (n & _ & En). eexists. split; [done|by destruct n as [[]|[]]].
  - done.
  - intros q Hq. rewrite <- Eit, fmap_app in Hq. apply elem_of_app in Hq as [Hq|Hq].
    + apply HL in Hq as [Hq|[-> _]]; [|by exists nn, par]. destruct (Hd q (HL0 q Hq)) as (n & En & _).
      eapply (same_body_eq d d); [by apply Eleft|by eapply same_body_refl].
    + apply HR in Hq as [Hq|[-> _]]; [|by exists nn, par]. destruct (Eright q Hq) as (n & En & En2). by exists n, np.
  - intros q M1 M2 Hq. rewrite Hd2; [|done|done|intros ->; apply Hq, Hit; by left].
    apply Hother; [done|done|]. intros Hq'. apply Hq, Hit. right. by apply HR0.
Qed.

Lemma wp_key_at h d P al ku s p o k q (items : list (K * PageNum)) (Q : K -> Index K -> Prop) E :
  st h d P al ku s -> p ∈ P -> d !! p = Some (NodePage (InternalNode (mk_internal o ((k, q) :: items)))) ->
  Q k s -> wp (Internal.key_at p 0) s Q E.
Proof.
  intros Hst Hp Ep HQ. unfold Internal.key_at, Internal.item_at. wp_step. eapply wp_of_option; [reflexivity|]. by apply wp_ret.
Qed.

Lemma wp_half_right h d1 P al ku s p pnew nn knew pp np o X1 X2 k Y (Q : unit -> Index K -> Prop) E :
  st h d1 P al ku s -> {[+ p; pnew; pp; np +]} ⊆ P -> pnew <> pp -> pnew <> np -> np <> pp ->
  d1 !! pp = Some (NodePage (InternalNode (mk_internal o X1))) ->
  d1 !! np = Some (NodePage (InternalNode (mk_internal o (X2 ++ (k, p) :: Y)))) ->
  d1 !! pnew = Some (NodePage nn) -> X1 <> [] ->
  sorted cmp (tail_keys (X1 ++ X2 ++ (k, p) :: (knew, pnew) :: Y)) ->
  (forall k', k' ∈ tail_keys (X1 ++ X2 ++ (k, p) :: (knew, pnew) :: Y) -> dom k') ->
  (forall s', st h (<[pnew := NodePage (node_set_parent np nn)]>
                 (<[np := NodePage (InternalNode (mk_internal o (X2 ++ (k, p) :: (knew, pnew) :: Y)))]> d1))
               (P ∖ {[+ p +]} ∖ {[+ pnew +]}) al ku s' -> Q tt s') ->
  wp (insert_into_half attr_comparator_ p pnew pp np knew) s Q E.
Proof.
  intros Hst HP Hn1 Hn2 Hn3 Epp Enp Enn HX1 Hs Hd HQ. unfold insert_into_half. wp_b.
  destruct X1 as [|x1 X1]; [done|]. unfold tail_keys in Hs, Hd. csimpl in Hs. csimpl in Hd. rewrite drop_0 in Hs, Hd.
  set (R := X2 ++ (k, p) :: (knew, pnew) :: Y) in *.
  assert (HR : sublist R.*1 (X1 ++ R).*1) by (rewrite fmap_app; by apply sublist_inserts_l).
  assert (Hsr : sorted cmp R.*1) by (by eapply sorted_sublist).
  assert (Hdr : forall k', k' ∈ R.*1 -> dom k') by (intros k' Hk'; apply Hd; by apply (sublist_subseteq _ _ HR)).
  assert (Hkn : dom knew) by (apply Hdr; unfold R; in_list).
  assert (exists k0 q0 l0, X2 ++ (k, p) :: Y = (k0, q0) :: l0 /\ key_lt cmp k0 knew /\ dom k0) as (k0 & q0 & l0 & E0 & Hlt & Hd0).
  { unfold R in Hsr, Hdr. destruct X2 as [|[k2 q2] X2]; csimpl in Hsr; csimpl in Hdr.
    - exists k, p, Y. apply sorted_cons in Hsr as [_ Hsr]. split; [done|]. split; [apply Hsr|apply Hdr]; in_list.
    - exists k2, q2, (X2 ++ (k, p) :: Y). apply sorted_cons in Hsr as [_ Hsr]. split; [done|].
      split; [apply Hsr|apply Hdr]; in_list. }
  eapply wp_key_at; [done|multiset_solver|by rewrite Enp, E0|].
  rewrite (proj2 (Z.ltb_lt _ _)) by (by apply (cmp_opp (dom := dom) (cmp := cmp) k0 knew)). wp_b.
  assert (Htl : sublist (tail_keys R) R.*1) by apply sublist_drop.
  eapply wp_internal_insert; [done|multiset_solver|exact Enp|..].
  { by eapply sorted_sublist. }
  { intros k' Hk'. apply Hdr. by apply (sublist_subseteq _ _ Htl). }
  { done. }
  clear Hst s. intros s Hst. eapply (wp_set_parent Hst); [multiset_solver|by page_at|]. clear Hst s. intros s Hst.
  do 2 wp_step. by apply HQ.
Qed.

Lemma wp_half_left h d1 P al ku s p pnew nn knew pp np o X k Y1 Y2 (Q : unit -> Index K -> Prop) E :
  st h d1 P al ku s -> {[+ p; pnew; pp; np +]} ⊆ P -> pnew <> pp -> pnew <> np -> np <> pp ->
  d1 !! pp = Some (NodePage (InternalNode (mk_internal o (X ++ (k, p) :: Y1)))) ->
  d1 !! np = Some (NodePage (InternalNode (mk_internal o Y2))) ->
  d1 !! pnew = Some (NodePage nn) -> Y2 <> [] ->
  sorted cmp (tail_keys (X ++ (k, p) :: (knew, pnew) :: Y1 ++ Y2)) ->
  (forall k', k' ∈ tail_keys (X ++ (k, p) :: (knew, pnew) :: Y1 ++ Y2) -> dom k') ->
  (forall s', st h (<[pnew := NodePage (node_set_parent pp nn)]>
                 (<[pp := NodePage (InternalNode (mk_internal o (X ++ (k, p) :: (knew, pnew) :: Y1)))]> d1))
               (P ∖ {[+ p +]} ∖ {[+ pnew +]}) al ku s' -> Q tt s') ->
  wp (insert_into_half attr_comparator_ p pnew pp np knew) s Q E.
Proof.
  intros Hst HP Hn1 Hn2 Hn3 Epp Enp Enn HY2 Hs Hd HQ. unfold insert_into_half. wp_b.
  destruct Y2 as [|[k0 q0] Y2]; [done|].
  assert (Hsub : sublist ((knew, pnew) :: Y1 ++ (k0, q0) :: Y2).*1 (tail_keys (X ++ (k, p) :: (knew, pnew) :: Y1 ++ (k0, q0) :: Y2))).
  { unfold tail_keys. destruct X as [|x X]; csimpl; rewrite ?drop_0; [done|]. rewrite !fmap_app. csimpl. rewrite ?fmap_app. csimpl.
    by apply sublist_inserts_l, sublist_cons. }
  assert (Hsr : sorted cmp ((knew, pnew) :: Y1 ++ (k0, q0) :: Y2).*1) by (by eapply sorted_sublist).
  assert (Hdr : forall k', k' ∈ ((knew, pnew) :: Y1 ++ (k0, q0) :: Y2).*1 -> dom k')
    by (intros k' Hk'; apply Hd; by apply (sublist_subseteq _ _ Hsub)).
  csimpl in Hsr. csimpl in Hdr. apply sorted_cons in Hsr as [_ Hlt].
  assert (Hk0 : k0 ∈ (Y1 ++ (k0, q0) :: Y2).*1) by in_list.
  specialize (Hlt k0 Hk0).
  eapply wp_key_at; [done|multiset_solver|exact Enp|].
  rewrite (proj2 (Z.ltb_ge _ _)) by (unfold key_lt in Hlt; lia). wp_b.
  assert (Htl : sublist (tail_keys (X ++ (k, p) :: (knew, pnew) :: Y1))
                  (tail_keys (X ++ (k, p) :: (knew, pnew) :: Y1 ++ (k0, q0) :: Y2))).
  { unfold tail_keys. destruct X as [|x X]; csimpl; rewrite ?drop_0, ?fmap_app; csimpl; rewrite ?fmap_app; csimpl.
    - apply sublist_skip. by apply sublist_inserts_r.
    - apply sublist_app; [done|]. do 2 apply sublist_skip. by apply sublist_inserts_r. }
  eapply wp_internal_insert; [done|multiset_solver|exact Epp|..].
  { by eapply sorted_sublist. }
  { intros k' Hk'. apply Hd. by apply (sublist_subseteq _ _ Htl). }
  { apply Hdr. by left. }
  clear Hst s. intros s Hst. eapply (wp_set_parent Hst); [multiset_solver|by page_at|]. clear Hst s. intros s Hst.
  do 2 wp_step. by apply HQ.
Qed.

(** The children of the node that is split. *)
Lemma insertable_node h d P al root F1 k p F2 knew pnew a pp X Y b ups :
  insertable h d P al root F1 k p F2 knew pnew ((a ++ (pp, X ++ (k, p) :: Y) :: b) :: ups) ->
  NoDup (X ++ (k, p) :: Y).*2 /\ (pp ∉ (X ++ (k, p) :: Y).*2) /\ (pnew ∉ (X ++ (k, p) :: Y).*2) /\ pp ∈ al /\
  (forall q, q ∈ (X ++ (k, p) :: Y).*2 -> q ∈ al /\ has_parent d q pp).
Proof.
  intros [[(HF & _ & _) Hp _ Hnd Hpg _] _ _ (_ & _ & Hnew & _) _ _ _ _].
  set (lvl := a ++ (pp, X ++ (k, p) :: Y) :: b) in *.
  assert (Hin : (pp, X ++ (k, p) :: Y) ∈ lvl) by (unfold lvl; in_list).
  rewrite HF in *. simpl in Hp. rewrite (parents_ok_level d lvl) in Hp.
  assert (Hsub : forall q, q ∈ (X ++ (k, p) :: Y).*2 -> q ∈ (items_of lvl).*2) by (intros q; by apply (item_page_in lvl _ q Hin)).
  assert (Hpp : pp ∈ lvl.*1) by (unfold lvl; in_list).
  rewrite up_pages_cons in *. apply NoDup_app in Hnd as (Hnd & Hdis & _). split_and!.
  - unfold lvl in Hnd. rewrite items_of_app, items_of_cons, !(fmap_app snd (items_of a)) in Hnd.
    apply NoDup_app in Hnd as (_ & _ & Hnd). cbn [snd] in Hnd. rewrite fmap_app in Hnd.
    by apply NoDup_app in Hnd as (Hnd & _ & _).
  - intros Hq. apply (Hdis _ (Hsub _ Hq)). in_list.
  - intros Hq. apply Hnew. apply elem_of_app. left. by apply Hsub.
  - apply Hpg. rewrite !elem_of_app. tauto.
  - intros q Hq. split; [apply Hpg; rewrite elem_of_app; left; by apply Hsub|]. by apply (Hp _ Hin).
Qed.

Lemma insertable_node_keys h d P al root F1 k p F2 knew pnew a pp X Y b ups :
  insertable h d P al root F1 k p F2 knew pnew ((a ++ (pp, X ++ (k, p) :: Y) :: b) :: ups) ->
  F1 = items_of a ++ X -> F2 = Y ++ items_of b ->
  sorted cmp (tail_keys (X ++ (k, p) :: (knew, pnew) :: Y)) /\
  (forall k', k' ∈ tail_keys (X ++ (k, p) :: (knew, pnew) :: Y) -> dom k').
Proof.
  intros H -> ->.
  pose proof (tail_keys_node a (pp, X ++ (k, p) :: (knew, pnew) :: Y) b) as Hs.
  rewrite items_of_app, items_of_cons in Hs. cbn [snd] in Hs.
  replace (items_of a ++ (X ++ (k, p) :: (knew, pnew) :: Y) ++ items_of b)
    with ((items_of a ++ X) ++ (k, p) :: (knew, pnew) :: Y ++ items_of b) in Hs by (by rewrite <- !app_assoc).
  split; [eapply sorted_sublist; [done|by apply H]|].
  intros k' Hk'. apply (i_dom _ _ _ _ _ _ _ _ _ _ _ _ H). by apply (sublist_subseteq _ _ Hs).
Qed.

(** A new item goes into one of the halves. *)
Lemma half_sizes n l r :
  1 < n -> l + r = n + 1 -> l = cdiv n 2 \/ l = cdiv n 2 + 1 -> cdiv n 2 <= l <= n /\ cdiv n 2 <= r <= n.
Proof.
  intros Hn. rewrite cdiv_nonneg by lia. pose proof (Z.div_mod n 2 ltac:(lia)).
  pose proof (Z.mod_pos_bound n 2 ltac:(lia)). lia.
Qed.

Lemma wp_split_halves h d P al ku s root F1 k p F2 knew pnew a pp X Y b o ups E :
  insertable h d P al root F1 k p F2 knew pnew ((a ++ (pp, X ++ (k, p) :: Y) :: b) :: ups) ->
  F1 = items_of a ++ X -> F2 = Y ++ items_of b ->
  d !! pp = Some (NodePage (InternalNode (mk_internal o (X ++ (k, p) :: Y)))) ->
  p <> pp -> pnew <> pp -> p <> pnew -> 1 < pp ->
  1 < zlen (X ++ (k, p) :: Y) -> st h d (P ⊎ {[+ pp +]}) al ku s ->
  wp (split (InternalHandler K) pp) s (fun np s' =>
    wp (insert_into_half attr_comparator_ p pnew pp np knew) s' (fun _ s2 => exists d2 L R,
      (np ∉ al) /\ 1 < np /\
      halves d d2 pp np o (X ++ (k, p) :: Y) (X ++ (k, p) :: (knew, pnew) :: Y) L R /\
      st h d2 (P ∖ {[+ p +]} ∖ {[+ pnew +]} ⊎ {[+ pp +]} ⊎ {[+ np +]}) ({[ np ]} ∪ al) ku s2) E) E.
Proof.
  intros H E1 E2 Epp N1 N2 N3 Hpp1 Hlen Hst.
  destruct (i_pins _ _ _ _ _ _ _ _ _ _ _ _ H) as [HpP HnP].
  destruct (i_new _ _ _ _ _ _ _ _ _ _ _ _ H) as (Hn1 & Hnal & Hnew & nn & Enn).
  destruct (i_reserved _ _ _ _ _ _ _ _ _ _ _ _ H) as [H0 H1].
  destruct (insertable_node _ _ _ _ _ _ _ _ _ _ _ _ _ _ _ _ _ H) as (Hnd & Hpp & Hpn & Hppal & Hch).
  destruct (insertable_node_keys _ _ _ _ _ _ _ _ _ _ _ _ _ _ _ _ _ H E1 E2) as [Hs Hd].
  eapply wp_split_internal; [done|multiset_solver|done|done|done|done|..].
  { intros q Hq. destruct (Hch q Hq) as (Hqal & n & En & _). split; [done|by exists n]. }
  intros np d1 s' Hnp Hnp0 Hst1 Epp1 Enp1 Hright Hother.
  set (m := Z.to_nat (cdiv (zlen (X ++ (k, p) :: Y)) 2)) in *.
  assert (Hm : (0 < m < length (X ++ (k, p) :: Y))%nat).
  { unfold m. rewrite cdiv_nonneg by lia. unfold zlen in *. 
    pose proof (Z.div_str_pos (Z.of_nat (length (X ++ (k, p) :: Y))) 2 ltac:(lia)).
    pose proof (Z.div_lt (Z.of_nat (length (X ++ (k, p) :: Y))) 2 ltac:(lia) ltac:(lia)). lia. }
  assert (Hmz : cdiv (zlen (X ++ (k, p) :: Y)) 2 = Z.of_nat m) by (unfold m in *; lia).
  assert (M1 : np <> pp) by (by intros ->). assert (M2 : pnew <> np) by (by intros <-).
  assert (M3 : np ∉ (X ++ (k, p) :: Y).*2) by (intros Hq; by destruct (Hch np Hq)).
  assert (M4 : p <> np).
  { intros <-. apply M3. in_list. }
  assert (Hnp1 : 1 < np).
  { destruct (decide (np = 0)) as [->|]; [done|]. destruct (decide (np = 1)) as [->|]; [done|]. lia. }
  assert (Enn1 : d1 !! pnew = Some (NodePage nn)).
  { rewrite Hother; [done|done|done|]. intros Hq. apply Hpn. rewrite fmap_drop in Hq. by eapply (subseteq_drop m). }
  assert (Hpins : {[+ p; pnew; pp; np +]} ⊆ P ⊎ {[+ pp +]} ⊎ {[+ np +]}) by multiset_solver.
  assert (Epins : (P ⊎ {[+ pp +]} ⊎ {[+ np +]}) ∖ {[+ p +]} ∖ {[+ pnew +]} =
                  P ∖ {[+ p +]} ∖ {[+ pnew +]} ⊎ {[+ pp +]} ⊎ {[+ np +]}) by multiset_solver.
  destruct (decide (m <= length X)%nat) as [Hmx|Hmx].
  - rewrite (take_app_le _ _ _ Hmx) in Epp1. rewrite (drop_app_le _ _ _ Hmx) in Enp1, Hright, Hother.
    assert (HX1 : take m X <> []) by (intros Ht; apply (f_equal length) in Ht; rewrite length_take in Ht; simpl in Ht; lia).
    rewrite <- (take_drop m X) in Hs, Hd. rewrite <- app_assoc in Hs, Hd.
    eapply (wp_half_right _ _ _ _ _ _ _ _ _ _ _ _ _ (take m X) (drop m X)); [done|done|done|done|done|done|done|done|done|done|done|].
    intros s2 Hst2. eexists _, (take m X), (drop m X ++ (k, p) :: (knew, pnew) :: Y).
    split; [done|]. split; [done|]. split; [|eapply st_pins_eq; done].
    assert (EI : take m X ++ (drop m X ++ (k, p) :: Y) = X ++ (k, p) :: Y) by (by rewrite app_assoc, take_drop).
    rewrite <- EI. apply (halves_intro d d1 _ pp np o _ _ _ _ _ pnew nn np); rewrite ?EI; try done; try (by page_at).
    + by right.
    + intros q Hq. by apply Hch.
    + intros q Q1 Q2 Q3. by page_at.
    + by rewrite app_assoc, take_drop.
    + split_and!; [|done|by destruct (drop m X)]. rewrite <- EI. unfold BplusSpec.first_key. cbn [snd]. by destruct (take m X).
    + apply half_sizes; [done|..]; rewrite ?Hmz; clearbody m; unfold zlen; rewrite ?length_app; simpl;
        rewrite ?length_take, ?length_drop; lia.
    + by left.
    + intros q Hq. rewrite fmap_app in Hq |- *. csimpl in Hq. csimpl. rewrite !elem_of_app, !elem_of_cons in *. tauto.
    + intros q Hq. rewrite fmap_app in Hq |- *. csimpl in Hq. csimpl. rewrite !elem_of_app, !elem_of_cons in *. tauto.
  - set (j := (m - length X - 1)%nat).
    assert (Et : take m (X ++ (k, p) :: Y) = X ++ (k, p) :: take j Y).
    { rewrite take_app_ge by lia. by replace (m - length X)%nat with (S j) by (unfold j; lia). }
    assert (Ed : drop m (X ++ (k, p) :: Y) = drop j Y).
    { rewrite drop_app_ge by lia. by replace (m - length X)%nat with (S j) by (unfold j; lia). }
    rewrite Et in Epp1. rewrite Ed in Enp1, Hright, Hother. 
    assert (Hm' : Z.of_nat (length (X ++ (k, p) :: take j Y)) = Z.of_nat m) by (rewrite <- Et, length_take; lia).
    clearbody j.
    assert (HY2 : drop j Y <> []).
    { rewrite <- Ed. intros E0. apply (f_equal length) in E0. rewrite length_drop in E0. simpl in E0. lia. }
    rewrite <- (take_drop j Y) in Hs, Hd.
    eapply (wp_half_left _ _ _ _ _ _ _ _ _ _ _ _ _ X k (take j Y) (drop j Y)); [done|done|done|done|done|done|done|done|done|done|done|].
    intros s2 Hst2. eexists _, (X ++ (k, p) :: (knew, pnew) :: take j Y), (drop j Y).
    split; [done|]. split; [done|]. split; [|eapply st_pins_eq; done].
    assert (EI : (X ++ (k, p) :: take j Y) ++ drop j Y = X ++ (k, p) :: Y) by (by rewrite <- app_assoc; simpl; rewrite take_drop).
    rewrite <- EI. apply (halves_intro d d1 _ pp np o _ _ _ _ _ pnew nn pp); rewrite ?EI; try done; try (by page_at).
    + by left.
    + intros q Hq. by apply Hch.
    + intros q Q1 Q2 Q3. by page_at.
    + rewrite <- app_assoc. simpl. by rewrite take_drop.
    + split_and!; [|by destruct X|done]. rewrite <- EI. unfold BplusSpec.first_key. cbn [snd]. by destruct X.
    + apply half_sizes; [done|..]; rewrite ?Hmz, <- ?Hm'; rewrite <- ?EI; unfold zlen; rewrite ?length_app; simpl; rewrite ?length_app; lia.
    + intros q Hq. rewrite fmap_app in Hq |- *. csimpl in Hq. csimpl. rewrite !elem_of_app, !elem_of_cons in *. tauto.
    + by left.
    + intros q Hq. rewrite fmap_app in Hq |- *. csimpl in Hq. csimpl. rewrite !elem_of_app, !elem_of_cons in *. tauto.
Qed.

(** ** The recursion *)

Section up.
Context (h : IndexFileHeader) (d d2 : gmap PageNum (PageData K)) (P : gmultiset PageNum) (al : gset PageNum)
  (root : PageNum) (F1 : list (K * PageNum)) (k : K) (p : PageNum) (F2 : list (K * PageNum)) (knew : K) (pnew : PageNum)
  (a : list INode) (pp : PageNum) (X Y : list (K * PageNum)) (b : list INode) (o np : PageNum)
  (ups : list (list INode)) (L R : list (K * PageNum)) (ku : Z).
Let lvl := a ++ (pp, X ++ (k, p) :: Y) :: b.
Let lvl' := a ++ (pp, L) :: (np, R) :: b.
Hypothesis H : insertable h d P al root F1 k p F2 knew pnew (lvl :: ups).
Hypothesis E1 : F1 = items_of a ++ X.
Hypothesis E2 : F2 = Y ++ items_of b.
Hypothesis Epp : d !! pp = Some (NodePage (InternalNode (mk_internal o (X ++ (k, p) :: Y)))).
Hypothesis Hnp : np ∉ al.
Hypothesis Hnp1 : 1 < np.
Hypothesis Hh : halves d d2 pp np o (X ++ (k, p) :: Y) (X ++ (k, p) :: (knew, pnew) :: Y) L R.

Lemma up_items : F1 ++ (k, p) :: (knew, pnew) :: F2 = items_of lvl'.
Proof.
  unfold lvl'. rewrite items_of_app, !items_of_cons. cbn [snd].
  rewrite (app_assoc L R), (hv_items _ _ _ _ _ _ _ _ _ Hh), E1, E2. by rewrite <- !app_assoc.
Qed.

Lemma up_old_items : F1 ++ (k, p) :: F2 = items_of lvl.
Proof. unfold lvl. rewrite items_of_app, !items_of_cons. cbn [snd]. rewrite E1, E2. by rewrite <- !app_assoc. Qed.

Lemma up_firsts : firsts lvl' = firsts a ++ (first_key (pp, L), pp) :: (first_key (np, R), np) :: firsts b.
Proof. unfold lvl'. by rewrite firsts_app. Qed.

Lemma up_old_firsts : firsts lvl = firsts a ++ (first_key (pp, L), pp) :: firsts b.
Proof. destruct (hv_first _ _ _ _ _ _ _ _ _ Hh) as [E _]. unfold lvl. rewrite firsts_app, E. done. Qed.

(** The pages of a level and above are not pages below. *)
Lemma up_disjoint q : q ∈ (items_of lvl').*2 -> q ∈ al /\ 1 < q /\ (q ∉ lvl'.*1) /\ (q ∉ up_pages (lvl :: ups)).
Proof.
  intros Hq. rewrite <- up_items in Hq. destruct (insertable_below _ _ _ _ _ _ _ _ _ _ _ _ _ H Hq) as [Hnin _].
  assert (Hq1 : 1 < q /\ q ∈ al).
  { assert (Hq' : q ∈ (F1 ++ (k, p) :: (knew, pnew) :: F2).*2 ++ []) by (by rewrite app_nil_r).
    apply new_pages_cases in Hq' as [->|Hq']; [by destruct (i_new _ _ _ _ _ _ _ _ _ _ _ _ H) as (? & ? & _)|].
    rewrite app_nil_r in Hq'. apply (u_pages _ _ _ _ _ _ (i_upper _ _ _ _ _ _ _ _ _ _ _ _ H)).
    apply elem_of_app. by left. }
  destruct Hq1 as [Hq1 Hqal]. split_and!; [done|done| |done].
  intros Hin. assert (q = np \/ q ∈ lvl.*1) as [->|Hin2].
  { unfold lvl', lvl in *. rewrite fmap_app in *. csimpl in *. rewrite !elem_of_app, !elem_of_cons in *. tauto. }
  - done.
  - apply Hnin. rewrite up_pages_cons. apply elem_of_app. by left.
Qed.

Lemma up_part q : q ∈ (X ++ (k, p) :: (knew, pnew) :: Y).*2 -> q ∈ (items_of lvl').*2.
Proof.
  intros Hq. rewrite <- up_items, E1, E2. rewrite <- app_assoc, !fmap_app in *. csimpl in *. rewrite ?fmap_app in *.
  csimpl in *. rewrite !elem_of_app, !elem_of_cons, ?elem_of_app in *. tauto.
Qed.

Lemma up_nodup : NoDup (items_of lvl').*2.
Proof.
  rewrite <- up_items. pose proof (u_nodup _ _ _ _ _ _ (i_upper _ _ _ _ _ _ _ _ _ _ _ _ H)) as Hnd.
  assert (Hx : NoDup ((F1 ++ (k, p) :: (knew, pnew) :: F2).*2 ++ [])); [|by rewrite app_nil_r in Hx].
  apply new_pages_nodup; rewrite app_nil_r.
  - by apply NoDup_app in Hnd as (? & _ & _).
  - destruct (i_new _ _ _ _ _ _ _ _ _ _ _ _ H) as (_ & _ & Hnew & _). intros Hq. apply Hnew, elem_of_app. by left.
Qed.

(** The children of the other nodes of the level. *)
Lemma up_apart n q :
  n ∈ a \/ n ∈ b -> q ∈ n.2.*2 -> (q ∉ (X ++ (k, p) :: (knew, pnew) :: Y).*2).
Proof.
  pose proof up_nodup as Hnd. unfold lvl' in Hnd. rewrite items_of_app, !items_of_cons in Hnd. cbn [snd] in Hnd.
  rewrite (app_assoc L R), (hv_items _ _ _ _ _ _ _ _ _ Hh) in Hnd.
  rewrite (fmap_app snd (items_of a)) in Hnd. apply NoDup_app in Hnd as (_ & D1 & Hnd).
  rewrite (fmap_app snd (X ++ (k, p) :: (knew, pnew) :: Y)) in Hnd, D1. apply NoDup_app in Hnd as (_ & D2 & _).
  intros [Hn|Hn] Hq Hin.
  - apply (D1 q); [by apply (item_page_in a n)|]. apply elem_of_app. by left.
  - apply (D2 q Hin). by apply (item_page_in b n).
Qed.

(** A page above keeps its content. *)
Lemma up_above q : q ∈ up_pages (lvl :: ups) -> q <> pp -> d2 !! q = d !! q.
Proof.
  intros Hq Hne. apply (hv_other _ _ _ _ _ _ _ _ _ Hh); [done|..].
  - intros ->. apply Hnp. apply (u_pages _ _ _ _ _ _ (i_upper _ _ _ _ _ _ _ _ _ _ _ _ H)). apply elem_of_app. by right.
  - intros Hin%up_part%up_disjoint. tauto.
Qed.

Lemma insertable_up :
  insertable h d2 (P ∖ {[+ p +]} ∖ {[+ pnew +]} ⊎ {[+ pp +]} ⊎ {[+ np +]}) ({[ np ]} ∪ al) root
    (firsts a) (first_key (pp, L)) pp (firsts b) (first_key (np, R)) np ups.
Proof.
  pose proof (i_upper _ _ _ _ _ _ _ _ _ _ _ _ H) as [(_ & Hne & Hg) _ (Hint & Hpar & Hups) Hnd Hpg Hhdr].
  destruct (hv_first _ _ _ _ _ _ _ _ _ Hh) as (_ & HL & HR).
  assert (Hne' : Forall (fun n : INode => n.2 <> []) lvl').
  { unfold lvl, lvl' in *. apply Forall_app in Hne as [Ha Hb]. apply Forall_cons in Hb as [_ Hb].
    apply Forall_app. split; [done|]. by repeat constructor. }
  assert (Hpplvl : pp ∈ lvl.*1) by (unfold lvl; in_list).
  rewrite up_pages_cons in *. pose proof Hnd as (_ & _ & Hnd2)%NoDup_app. pose proof Hnd2 as (_ & Hdis2 & _)%NoDup_app.
  assert (Hpp1 : 1 < pp /\ pp ∈ al) by (apply Hpg; rewrite !elem_of_app; tauto).
  split.
  - rewrite <- up_old_firsts. split; [done| | |..].
    + rewrite firsts_pages. eapply parents_ok_mono; [|done]. intros q x Hq Hx. destruct (decide (q = pp)) as [->|].
      * eapply has_parent_node; [exact Epp|by apply Hh|done|done].
      * eapply has_parent_eq; [|done]. apply up_above; [|done]. rewrite up_pages_cons. apply elem_of_app. by left.
    + eapply ups_ok_eq; [|done]. intros q Hq. apply up_above; [rewrite up_pages_cons; apply elem_of_app; by right|].
      intros ->. by apply (Hdis2 pp).
    + by rewrite firsts_pages.
    + rewrite firsts_pages. intros q Hq. destruct (Hpg q) as [? ?]; [rewrite elem_of_app; by right|]. set_solver.
    + unfold hdr_ok in *. rewrite (hv_other _ _ _ _ _ _ _ _ _ Hh); [done|..].
      * unfold FIRST_INDEX_PAGE. lia.
      * unfold FIRST_INDEX_PAGE. lia.
      * intros Hin%up_part%up_disjoint. unfold FIRST_INDEX_PAGE in *. lia.
  - rewrite <- up_firsts. apply (sorted_firsts attr_comparator_); [done|]. rewrite <- up_items. by apply H.
  - rewrite <- up_firsts. apply dom_firsts; [done|]. rewrite <- up_items. by apply H.
  - split; [done|]. split; [set_solver|]. split; [|eexists; by apply Hh].
    rewrite <- up_old_firsts, firsts_pages. intros Hin. apply Hnp, Hpg. rewrite elem_of_app. by right.
  - split; multiset_solver.
  - by apply H.
  - by destruct (i_sized _ _ _ _ _ _ _ _ _ _ _ _ H).
  - destruct (i_reserved _ _ _ _ _ _ _ _ _ _ _ _ H). set_solver.
Qed.

Hypothesis Hfull : zlen (X ++ (k, p) :: Y) = internal_max_size h.
Lemma up_sized root' ups' :
  grouped root' (firsts lvl') ups' -> ups_sized (internal_max_size h) ups' -> ups_sized (internal_max_size h) (lvl' :: ups').
Proof.
  intros Hg Hsz. split; [|done]. destruct (i_sized _ _ _ _ _ _ _ _ _ _ _ _ H) as [Hlv _].
  pose proof (u_grouped _ _ _ _ _ _ (i_upper _ _ _ _ _ _ _ _ _ _ _ _ H)) as (_ & _ & Hg0).
  pose proof (siblings_sized zero_attr (fun n : INode => zlen n.2) 2 _ _ _ _ a _ b Hg0 ltac:(unfold BplusSpec.firsts; by rewrite length_fmap) Hlv) as Hab.
  destruct (hv_sizes _ _ _ _ _ _ _ _ _ Hh) as [HL HR]. rewrite Hfull in HL, HR. unfold level_sized.
  rewrite (least_half zero_attr 2 _ _ _ _ Hg) by (unfold BplusSpec.firsts, lvl'; rewrite length_fmap, length_app; simpl; lia).
  unfold lvl'. rewrite !Forall_app, !Forall_cons in *. tauto.
Qed.

Lemma inserted_up s' :
  inserted h d2 ({[ np ]} ∪ al) ku ups (firsts a ++ (first_key (pp, L), pp) :: (first_key (np, R), np) :: firsts b)
    ((P ∖ {[+ p +]} ∖ {[+ pnew +]} ⊎ {[+ pp +]} ⊎ {[+ np +]}) ∖ {[+ pp +]} ∖ {[+ np +]}) s' ->
  inserted h d al ku (lvl :: ups) (F1 ++ (k, p) :: (knew, pnew) :: F2) (P ∖ {[+ p +]} ∖ {[+ pnew +]}) s'.
Proof.
  intros (root' & ups2 & d3 & al3 & Hst & [Hg Hpar Hups Hnd Hpg Hhdr] & Hsz & Hal & Hups2 & Hsame & Hother).
  rewrite <- up_firsts in *. rewrite firsts_pages in *.
  pose proof (i_upper _ _ _ _ _ _ _ _ _ _ _ _ H) as [(_ & Hne & _) Hpar0 (Hint0 & _) Hnd0 Hpg0 _].
  destruct (hv_first _ _ _ _ _ _ _ _ _ Hh) as (_ & HL & HR).
  assert (Hin : forall n, n ∈ lvl' -> n = (pp, L) \/ n = (np, R) \/ (n ∈ lvl /\ (n ∈ a \/ n ∈ b))).
  { intros n Hn. unfold lvl', lvl in *. rewrite !elem_of_app, !elem_of_cons in *. tauto. }
  assert (Hpages : forall q, q ∈ lvl'.*1 -> q = np \/ q ∈ lvl.*1).
  { intros q Hq. unfold lvl', lvl in *. rewrite fmap_app in *. csimpl in *. rewrite !elem_of_app, !elem_of_cons in *. tauto. }
  assert (Hnab : forall n, n ∈ a \/ n ∈ b -> n.1 <> pp).
  { rewrite up_pages_cons in Hnd0. apply NoDup_app in Hnd0 as (_ & _ & Hnd0). apply NoDup_app in Hnd0 as (Hnd0 & _ & _).
    unfold lvl in Hnd0. rewrite fmap_app in Hnd0. csimpl in Hnd0. apply NoDup_app in Hnd0 as (_ & D1 & Hnd0).
    apply NoDup_cons in Hnd0 as [D2 _]. intros n [Hn|Hn] E.
    - apply (D1 pp); [rewrite <- E; by apply list_elem_of_fmap_2|by left].
    - apply D2. rewrite <- E. by apply list_elem_of_fmap_2. }
  assert (Hfar : forall q, q ∈ (items_of lvl').*2 -> d3 !! q = d2 !! q).
  { intros q Hq. destruct (up_disjoint q Hq) as (D1 & D2 & D3 & D4). rewrite up_pages_cons, elem_of_app in D4.
    apply Hother; [set_solver|done|tauto|unfold FIRST_INDEX_PAGE; lia]. }
  exists root', (lvl' :: ups2), d3, al3. rewrite up_items. split; [|split; [split|split_and!]].
  - eapply st_pins_eq; [done|]. clear. multiset_solver.
  - split; [done|]. split; [|done]. unfold lvl, lvl' in *. apply Forall_app in Hne as [Ha Hb].
    apply Forall_cons in Hb as [_ Hb]. apply Forall_app. split; [done|]. by repeat constructor.
  - simpl. rewrite parents_ok_level. intros n Hn q Hq. eapply has_parent_eq; [by apply Hfar, (item_page_in _ n)|].
    destruct (Hin n Hn) as [->|[->|[Hnl Hnab']]]; [by eapply hv_left_parent|by eapply hv_right_parent|].
    rewrite up_old_items in Hpar0. simpl in Hpar0. rewrite (parents_ok_level d lvl) in Hpar0.
    eapply has_parent_eq; [|by apply (Hpar0 n)].
    destruct (up_disjoint q (item_page_in _ _ _ Hn Hq)) as (D1 & D2 & D3 & D4).
    apply (hv_other _ _ _ _ _ _ _ _ _ Hh); [intros ->..|].
    + apply D3. unfold lvl'. in_list.
    + done.
    + by eapply up_apart.
  - simpl. split; [|split; [done|done]]. apply (ints_same d2); [done|]. apply list.Forall_forall. intros n Hn.
    destruct (Hin n Hn) as [->|[->|[Hnl Hnab']]]; [eexists; by apply Hh|eexists; by apply Hh|].
    rewrite list.Forall_forall in Hint0. eapply has_int_eq; [|by apply Hint0].
    apply up_above; [|by apply Hnab]. rewrite up_pages_cons. apply elem_of_app. left. by apply list_elem_of_fmap_2.
  - rewrite up_pages_cons. apply NoDup_app. split; [|split; [|done]].
    + exact up_nodup.
    + intros q Hq. destruct (up_disjoint q Hq) as (D1 & D2 & D3 & D4). rewrite up_pages_cons, elem_of_app in D4.
      intros [Hq2|Hq2]%elem_of_app; [done|]. destruct (Hups2 q Hq2) as [|Hn]; [tauto|]. apply Hn. set_solver.
  - rewrite up_pages_cons. intros q [Hq|Hq]%elem_of_app; [|by apply Hpg].
    destruct (up_disjoint q Hq) as (D1 & D2 & D3 & D4). split; [done|]. apply Hal. set_solver.
  - done.
  - by eapply up_sized.
  - set_solver.
  - intros q. rewrite !up_pages_cons. intros [Hq|Hq]%elem_of_app.
    + destruct (Hpages q Hq) as [->|]; [by right|]. left. apply elem_of_app. by left.
    + destruct (Hups2 q Hq) as [|Hn]; [left; apply elem_of_app; by right|right; set_solver].
  - intros q Hq. eapply same_body_eq; [by apply Hfar|].
    destruct (decide (q ∈ (X ++ (k, p) :: (knew, pnew) :: Y).*2)) as [Hq2|Hq2]; [by eapply hv_same|].
    destruct (up_disjoint q Hq) as (D1 & D2 & D3 & D4).
    rewrite <- up_items in Hq. destruct (insertable_below _ _ _ _ _ _ _ _ _ _ _ _ _ H Hq) as [_ [n En]].
    eapply (same_body_eq d d); [|by eapply same_body_refl]. apply (hv_other _ _ _ _ _ _ _ _ _ Hh); [intros ->..|done].
    + apply D3. unfold lvl'. in_list.
    + done.
  - intros q Q1 Q2 Q3 Q4. rewrite up_pages_cons, elem_of_app in Q3. rewrite Hother; [|set_solver| |tauto|done].
    + apply (hv_other _ _ _ _ _ _ _ _ _ Hh); [intros ->..|].
      * apply Q3. left. unfold lvl. in_list.
      * done.
      * intros Hin2%up_part. done.
    + intros Hq. destruct (Hpages q Hq) as [->|]; [done|tauto].
Qed.
End up.

(** [insert_entry_into_parent] puts the new node into the levels above. *)
Lemma wp_insert_into_parent ups : forall h d P al ku s root F1 k p F2 knew pnew fuel E,
  insertable h d P al root F1 k p F2 knew pnew ups -> (length ups <= fuel)%nat -> st h d P al ku s ->
  wp (insert_entry_into_parent attr_comparator_ zero_attr p pnew knew fuel) s
    (fun _ => inserted h d al ku ups (F1 ++ (k, p) :: (knew, pnew) :: F2) (P ∖ {[+ p +]} ∖ {[+ pnew +]})) E.
Proof.
  induction ups as [|lvl ups IH]; intros h d P al ku s root F1 k p F2 knew pnew fuel E H Hf Hst;
    [by eapply wp_insert_root|].
  destruct (insertable_level _ _ _ _ _ _ _ _ _ _ _ _ _ H)
    as (a & pp & X & Y & b & o & -> & E1 & E2 & Epp & (n & En & Ho) & N1 & N2 & N3 & Hpp1).
  destruct (i_pins _ _ _ _ _ _ _ _ _ _ _ _ H) as [HpP HnP].
  destruct (i_header _ _ _ _ _ _ _ _ _ _ _ _ H) as [_ Hmax].
  destruct fuel as [|fuel]; [simpl in Hf; lia|]. simpl insert_entry_into_parent.
  wp_b. eapply (wp_parent_page_num Hst); [done|done|]. rewrite Ho.
  rewrite (proj2 (Z.eqb_neq _ _)) by (unfold BP_INVALID_PAGE_NUM; lia).
  wp_step. wp_b. eapply wp_size_int; [done|multiset_solver|done|]. unfold Internal.max_size. wp_step.
  rewrite (st_header _ _ _ _ _ _ Hst). case_match eqn:Hroom.
  - apply Z.ltb_lt in Hroom. by eapply wp_insert_child.
  - apply Z.ltb_ge in Hroom. simpl i_array in Hroom.
    assert (Hfull : zlen (X ++ (k, p) :: Y) = internal_max_size h).
    { destruct (i_sized _ _ _ _ _ _ _ _ _ _ _ _ H) as [[_ [Hm _]%Forall_cons]%Forall_app _]. simpl in Hm. lia. }
    wp_step. eapply wp_mono; [eapply wp_split_halves with (E := fun _ _ => False); try done; simpl in *; lia|..|by intros].
    intros np s1 Hhalf. cbv beta iota. wp_b. eapply wp_mono; [exact Hhalf|..|by intros].
    intros _ s2 (d2 & L & R & Hnp & Hnp1 & Hh & Hst2). cbv beta.
    pose proof (hv_first _ _ _ _ _ _ _ _ _ Hh) as (_ & _ & HR).
    destruct R as [|[k0 q0] R]; [done|].
    wp_b. eapply wp_key_at; [done|multiset_solver|by apply Hh|].
    assert (Hup : insertable h d2 (P ∖ {[+ p +]} ∖ {[+ pnew +]} ⊎ {[+ pp +]} ⊎ {[+ np +]}) ({[ np ]} ∪ al) root
      (firsts a) (first_key (pp, L)) pp (firsts b) k0 np ups)
      by (eapply insertable_up with (R := (k0, q0) :: R); eassumption).
    eapply wp_mono; [eapply IH; [exact Hup|simpl in Hf; lia|done]|..|by intros].
    intros ? s3 Hins. eapply inserted_up with (R := (k0, q0) :: R); eassumption.
Qed.
End insert.
