(* ===== verification/BplusEntry.v ===== *)
(** * [insert_entry] keeps the index a sorted set of entries

    [index_inv ku s es]: the index [s] holds exactly the entries [es], nothing is
    pinned and [ku] keys are in use.  [insert_entry] adds the entry at its place
    or reports it as a duplicate. *)

From Stdlib Require Import ZArith Lia.
From stdpp Require Import base gmap gmultiset sets tactics.
From stdpp Require Import list.
From S2P Require Import Prelude.
From S2P Require Import Monad.
From S2P Require Import LowerBound.
From S2P Require Import Comparator.
From S2P Require Import NodePool.
From S2P Require Import BplusNode.
From S2P Require Import NodeLogic.
From S2P Require Import BplusTree.
From S2P Require Import BplusSpec.
From S2P Require Import BplusSearch.
From S2P Require Import BplusOrder.
From S2P Require Import BplusInsert.
#[local] Open Scope Z_scope.

Section entry.
Context {A : Type} (attr_comparator_ : A -> A -> Z) (zero_attr : A).
Abbreviation K := (A * RID)%type.
Abbreviation cmp := (key_comparator_ attr_comparator_).
Abbreviation zero_key := (zero_key zero_attr).
Abbreviation grouped := (grouped zero_attr).
Context (dom : K -> Prop) `{!CmpOrder dom cmp}.
Abbreviation LeafNd := (LeafNd (A := A)).
Abbreviation tree_ok := (tree_ok attr_comparator_ zero_attr dom).
Abbreviation leaf_range := (leaf_range attr_comparator_ dom).
Abbreviation ranged := (ranged attr_comparator_ dom).
Implicit Types (d : gmap PageNum (PageData K)) (P : gmultiset PageNum) (al : gset PageNum) (p q : PageNum).

Definition tree_pages (ls : list LeafNd) (ups : list (list (PageNum * list (K * PageNum)))) : list PageNum :=
  (lpage <$> ls) ++ up_pages ups.

(** The index holds the entries [es]. *)
Definition index_inv (ku : Z) (s : Index K) (es : list (K * RID)) : Prop :=
  exists h d al, st h d ∅ al ku s /\ sizes_ok h /\ 0 ∈ al /\ FIRST_INDEX_PAGE ∈ al /\
    ((root_page h = BP_INVALID_PAGE_NUM /\ es = [] /\ hdr_ok h d BP_INVALID_PAGE_NUM) \/
     exists ls ups, tree_ok h (root_page h) ls ups d /\ (forall p, p ∈ tree_pages ls ups -> p ∈ al) /\ es = entries ls).

(** ** Key ranges of leaves *)

Lemma leaf_range_insert first l hi xs key v ys :
  leaf_range first l hi -> litems l = xs ++ ys -> dom key ->
  (forall k, k ∈ xs.*1 -> key_lt cmp k key) -> (forall k, k ∈ ys.*1 -> key_lt cmp key k) ->
  (first = false -> key_le cmp (lsep l) key) -> (forall b, hi = Some b -> key_lt cmp key b) ->
  leaf_range first (mk_LeafNd (lsep l) (lpage l) (xs ++ (key, v) :: ys)) hi.
Proof.
  intros (H1 & H2 & H3 & H4) E Hd Hx Hy Hlo Hhi. rewrite E in H1, H2, H3, H4.
  assert (Hin : forall k, k ∈ (xs ++ (key, v) :: ys).*1 -> k = key \/ k ∈ (xs ++ ys).*1).
  { intros k. rewrite !fmap_app. csimpl. rewrite !elem_of_app, elem_of_cons. tauto. }
  unfold BplusSpec.leaf_range. cbn [lsep lpage litems]. split_and!.
  - rewrite fmap_app in *. csimpl. by apply sorted_insert.
  - intros k [->|Hk]%Hin; auto.
  - intros Hf. destruct (H3 Hf) as [H3a H3b]. split; [done|]. intros k [->|Hk]%Hin; auto.
  - intros b Hb. destruct (H4 b Hb) as (H4a & H4b & H4c). split; [done|]. split; [|done].
    intros k [->|Hk]%Hin; auto.
Qed.

Lemma leaf_range_split first l hi xs kB vB ys pn :
  leaf_range first l hi -> litems l = xs ++ (kB, vB) :: ys -> xs <> [] ->
  leaf_range first (mk_LeafNd (lsep l) (lpage l) xs) (Some kB) /\
  leaf_range false (mk_LeafNd kB pn ((kB, vB) :: ys)) hi.
Proof.
  intros (H1 & H2 & H3 & H4) E Hne. rewrite E in H1, H2, H3, H4. rewrite fmap_app in *. csimpl in *.
  pose proof H1 as (Hs1 & Hs2 & Hs12)%sorted_app. pose proof Hs2 as (_ & HkB)%sorted_cons.
  assert (HdB : dom kB) by (apply H2; in_list).
  unfold BplusSpec.leaf_range. cbn [lsep lpage litems]. csimpl. split; split_and!.
  - done.
  - intros k Hk. apply H2. apply elem_of_app. by left.
  - intros Hf. destruct (H3 Hf) as [H3a H3b]. split; [done|]. intros k Hk. apply H3b. apply elem_of_app. by left.
  - intros b [= <-]. split; [done|]. split.
    + intros k Hk. apply Hs12; [done|by left].
    + intros Hf. destruct (H3 Hf) as [H3a H3b]. destruct xs as [|[k1 v1] xs]; [done|]. csimpl in *.
      apply (cmp_le_lt_trans dom cmp _ k1); [done|apply H2; by left|done|apply H3b; by left|apply Hs12; by left].
  - done.
  - intros k Hk. apply H2. apply elem_of_app. by right.
  - intros _. split; [done|]. intros k [->|Hk]%elem_of_cons.
    + unfold key_le. rewrite (cmp_refl (dom := dom) (cmp := cmp)) by done. done.
    + specialize (HkB k Hk). unfold key_le, key_lt in *. lia.
  - intros b Hb. destruct (H4 b Hb) as (H4a & H4b & H4c). split; [done|]. split.
    + intros k Hk. apply H4b. apply elem_of_app. by right.
    + intros _. apply H4b. in_list.
Qed.

(** The bounds of the leaf that [find_leaf] reaches hold the key. *)
Lemma covers_bounds key (l1 : list LeafNd) l l2 :
  covers attr_comparator_ key (seps l1) (lsep l, lpage l) (seps l2) ->
  (l1 <> [] -> key_le cmp (lsep l) key) /\ (forall b, hi_of l2 None = Some b -> key_lt cmp key b).
Proof.
  intros [H1 H2]. split.
  - intros Hne. apply H1. by destruct l1.
  - destruct l2 as [|l' l2]; simpl; [done|]. intros b [= <-]. apply H2. csimpl. by left.
Qed.

(** ** Replacing the items of a leaf *)

(** The leaf, its links and its parent. *)
Lemma tree_leaf h d root l1 l l2 ups :
  tree_ok h root (l1 ++ l :: l2) ups d ->
  exists o, d !! lpage l = Some (NodePage (LeafNode (mk_leaf o (default BP_INVALID_PAGE_NUM (lpage <$> last l1))
                                                      (next_of l2 BP_INVALID_PAGE_NUM) (litems l)))) /\
    (lpage l ∉ up_pages ups) /\ (forall l', l' ∈ l1 \/ l' ∈ l2 -> lpage l' <> lpage l) /\ 1 < lpage l /\
    leaf_range (match l1 with [] => true | _ => false end) l (hi_of l2 None).
Proof.
  intros [_ Hc _ _ Hnd Hpg Hr _ _ _ _]. apply chain_app in Hc as [_ [(o & E) _]]. exists o. split; [done|].
  apply ranged_app in Hr as [_ [Hr _]]. rewrite fmap_app in *. csimpl in *.
  apply NoDup_app in Hnd as (Hnd & Hdis & _). apply NoDup_app in Hnd as (_ & D1 & Hnd). apply NoDup_cons in Hnd as [D2 _].
  split_and!; [apply Hdis; in_list| |rewrite list.Forall_forall in Hpg; apply Hpg; in_list|done].
  intros l' [Hl|Hl] El.
  - apply (D1 (lpage l)); [rewrite <- El; by apply list_elem_of_fmap_2|by left].
  - apply D2. rewrite <- El. by apply list_elem_of_fmap_2.
Qed.

Lemma tree_ok_leaf h d root l1 l l2 ups o items' :
  tree_ok h root (l1 ++ l :: l2) ups d ->
  d !! lpage l = Some (NodePage (LeafNode (mk_leaf o (default BP_INVALID_PAGE_NUM (lpage <$> last l1))
                                                     (next_of l2 BP_INVALID_PAGE_NUM) (litems l)))) ->
  leaf_range (match l1 with [] => true | _ => false end) (mk_LeafNd (lsep l) (lpage l) items') (hi_of l2 None) -> items' <> [] ->
  least 1 (leaf_max_size h) ups <= zlen items' <= leaf_max_size h ->
  tree_ok h root (l1 ++ mk_LeafNd (lsep l) (lpage l) items' :: l2) ups
    (<[lpage l := NodePage (LeafNode (mk_leaf o (default BP_INVALID_PAGE_NUM (lpage <$> last l1))
                                         (next_of l2 BP_INVALID_PAGE_NUM) items'))]> d).
Proof.
  intros H El Hrange Hitems Hsz. destruct (tree_leaf _ _ _ _ _ _ _ H) as (o' & _ & Hup & Hne & Hp1 & _).
  destruct H as [Hg Hc Hpar Hu Hnd Hpg Hr Hh Hne0 Hls Hus].
  assert (Es : seps (l1 ++ mk_LeafNd (lsep l) (lpage l) items' :: l2) = seps (l1 ++ l :: l2))
    by (unfold seps; by rewrite !fmap_app).
  assert (Ep : lpage <$> (l1 ++ mk_LeafNd (lsep l) (lpage l) items' :: l2) = lpage <$> (l1 ++ l :: l2))
    by (by rewrite !fmap_app).
  split; rewrite ?Es, ?Ep; try done.
  - apply chain_app in Hc as [H1 [H2 H3]]. apply chain_app. cbn [lpage]. split; [|split].
    + eapply chain_eq; [|done]. intros l' Hl'. rewrite lookup_insert_ne; [done|]. apply not_eq_sym, Hne. by left.
    + eexists. by rewrite lookup_insert_eq.
    + eapply chain_eq; [|done]. intros l' Hl'. rewrite lookup_insert_ne; [done|]. apply not_eq_sym, Hne. by right.
  - eapply parents_ok_mono; [|done]. intros q x _ Hx. destruct (decide (q = lpage l)) as [->|].
    + eapply has_parent_node; [exact El|by rewrite lookup_insert_eq|done|done].
    + eapply has_parent_eq; [|done]. by rewrite lookup_insert_ne.
  - eapply ups_ok_eq; [|done]. intros q Hq. rewrite lookup_insert_ne; [done|]. by intros <-.
  - apply ranged_app in Hr as [H1 [H2 H3]]. apply ranged_app. by split.
  - unfold hdr_ok in *. rewrite lookup_insert_ne; [done|]. unfold FIRST_INDEX_PAGE. lia.
  - apply Forall_app in Hne0 as [F1 F2]. apply Forall_app. split; [done|]. apply Forall_cons in F2 as [_ F2].
    by apply Forall_cons.
  - unfold leaves_sized in *. rewrite Forall_app, Forall_cons in *. tauto.
Qed.

(** The root in the header that fixes the sizes does not matter. *)
Lemma tree_ok_header h d r root ls ups : tree_ok h root ls ups d -> tree_ok (with_root r h) root ls ups d.
Proof. intros []. by split. Qed.

(** The tree as its leaves and the levels above them. *)
Lemma tree_upper h d al root (ls : list LeafNd) ups :
  tree_ok h root ls ups d -> (forall p, p ∈ tree_pages ls ups -> p ∈ al) ->
  upper_ok zero_attr h root (seps ls) ups d al.
Proof.
  intros [Hg Hc Hpar Hu Hnd Hpg Hr Hh _ _ _] Hal. rewrite list.Forall_forall in Hpg. split; rewrite ?seps_pages; try done.
  intros p Hp. split; [by apply Hpg|by apply Hal].
Qed.

Lemma upper_tree h d al root (ls : list LeafNd) ups :
  upper_ok zero_attr h root (seps ls) ups d al -> ups_sized (internal_max_size h) ups ->
  chain d BP_INVALID_PAGE_NUM ls BP_INVALID_PAGE_NUM -> ranged true ls None ->
  Forall (fun l => litems l <> []) ls -> leaves_sized (leaf_max_size h) ls ups ->
  tree_ok h root ls ups d /\ (forall p, p ∈ tree_pages ls ups -> p ∈ al).
Proof.
  intros [Hg Hpar Hu Hnd Hpg Hh] Hus Hc Hr Hne Hls. rewrite seps_pages in *. split.
  - split; try done. apply list.Forall_forall. intros p Hp. by apply Hpg.
  - intros p Hp. by apply Hpg.
Qed.

(** ** The leaf operations of an insertion *)

Lemma wp_leaf_insert h d P al ku s p o prev next xs ys key rid (Q : unit -> Index K -> Prop) E i :
  st h d P al ku s -> p ∈ P -> d !! p = Some (NodePage (LeafNode (mk_leaf o prev next (xs ++ ys)))) -> i = zlen xs ->
  (forall s', st h (<[p := NodePage (LeafNode (mk_leaf o prev next (xs ++ (key, rid) :: ys)))]> d) P al ku s' -> Q tt s') ->
  wp (Leaf.insert p i key rid) s Q E.
Proof.
  intros Hst Hp Ep -> HQ. unfold Leaf.insert. wp_step. wp_b. simpl l_array. eapply wp_of_option.
  { unfold arr_insert. rewrite decide_True by (unfold zlen; rewrite length_app; lia). done. }
  wp_step. apply HQ. unfold set_l_array in Hst. cbn [l_parent prev_brother next_brother] in Hst.
  replace (Z.to_nat (zlen xs)) with (length xs) in Hst by (unfold zlen; lia).
  by rewrite take_app_length, drop_app_length in Hst.
Qed.

Lemma wp_leaf_lookup h d P al ku s p o prev next items key (Q : Z * bool -> Index K -> Prop) E r :
  st h d P al ku s -> p ∈ P -> d !! p = Some (NodePage (LeafNode (mk_leaf o prev next items))) ->
  Leaf.lookup_items cmp items key = Some r -> Q r s -> wp (Leaf.lookup cmp p key) s Q E.
Proof.
  intros Hst Hp Ep Er HQ. unfold Leaf.lookup. wp_step. by eapply wp_of_option.
Qed.

(** Where a new key goes in a leaf. *)
Lemma leaf_position first l hi key :
  leaf_range first l hi -> dom key ->
  exists xs ys found, litems l = xs ++ ys /\
    Leaf.lookup_items cmp (litems l) key = Some (zlen xs, found) /\
    (found = true -> key ∈ (litems l).*1) /\
    (found = false -> (key ∉ (litems l).*1) /\
       (forall k, k ∈ xs.*1 -> key_lt cmp k key) /\ (forall k, k ∈ ys.*1 -> key_lt cmp key k)).
Proof.
  intros (Hs & Hd & _ & _) Hk. destruct (sorted_split dom cmp key (litems l) Hk Hd Hs) as (xs & ys & E & Hx & Hy).
  rewrite E in *. destruct (leaf_lookup_at dom cmp key xs ys Hk Hd Hs Hx Hy) as (found & Elk & Hf).
  exists xs, ys, found. split; [done|]. split; [done|]. rewrite fmap_app in *. split.
  - intros Ht. apply elem_of_app. right. by apply Hf.
  - intros ->. assert (Hny : key ∉ ys.*1) by (intros Hin; by apply Hf in Hin). split; [|split; [done|]].
    + intros [Hin|Hin]%elem_of_app; [|done]. specialize (Hx key Hin). unfold key_lt in Hx.
      rewrite (cmp_refl (dom := dom) (cmp := cmp)) in Hx by done. lia.
    + intros k Hin. specialize (Hy k Hin). unfold key_le, key_lt in *.
      destruct (decide (cmp key k = 0)) as [E0|]; [|lia].
      apply (cmp_eq (dom := dom)) in E0; [by subst|done|]. apply Hd. apply elem_of_app. by right.
Qed.

(** ** Splitting a leaf *)

Lemma wp_split_leaf h d P al ku s p o prev next items (Q : PageNum -> Index K -> Prop) E :
  let m := Z.to_nat (cdiv (zlen items) 2) in
  st h d P al ku s -> p ∈ P -> p ∈ al ->
  d !! p = Some (NodePage (LeafNode (mk_leaf o prev next items))) ->
  (forall pn d' s', (pn ∉ al) -> 0 <= pn -> st h d' (P ⊎ {[+ pn +]}) ({[ pn ]} ∪ al) ku s' ->
     d' !! p = Some (NodePage (LeafNode (mk_leaf o prev next (take m items)))) ->
     d' !! pn = Some (NodePage (LeafNode (mk_leaf o BP_INVALID_PAGE_NUM BP_INVALID_PAGE_NUM (drop m items)))) ->
     (forall q, q <> p -> q <> pn -> d' !! q = d !! q) -> Q pn s') ->
  wp (split (LeafHandler K) p) s Q E.
Proof.
  intros m Hst Hp Hal Ep HQ. unfold split. wp_b.
  apply (wp_allocate_page Hst). clear Hst s. intros pn d1 s Hpn Hpn0 [dd Edd] Hd1 Hst.
  assert (Hne : pn <> p) by (by intros ->). rewrite <- (Hd1 p) in Ep by done.
  cbn [h_init_empty h_move_half_to LeafHandler]. unfold Leaf.init_empty, Leaf.move_half_to.
  do 2 wp_step. wp_b. eapply (wp_parent_page_num Hst); [multiset_solver|by page_at|]. simpl node_parent.
  wp_b. eapply (wp_set_parent Hst); [multiset_solver|by page_at|]. clear Hst s. intros s Hst.
  rewrite insert_insert_eq in Hst. simpl node_set_parent in Hst. do 2 wp_step; [by page_at|]. wp_step; [by page_at|].
  cbv zeta. simpl l_array. wp_b. apply wp_check; [done|].
  assert (Hq : 0 <= cdiv (zlen items) 2 <= zlen items).
  { rewrite cdiv_nonneg by (unfold zlen; lia). split; [apply Z.div_pos; unfold zlen; lia|].
    apply Z.div_le_upper_bound; unfold zlen; lia. }
  wp_b. eapply wp_of_option.
  { unfold arr_slice. rewrite decide_True by lia. done. }
  wp_b. eapply wp_of_option.
  { unfold arr_shrink. rewrite decide_True by lia. done. }
  do 5 wp_step. fold m in Hst. rewrite (take_ge (drop m items)) in Hst by (rewrite length_drop; unfold m, zlen in *; lia).
  replace (length items - Z.to_nat (zlen items - cdiv (zlen items) 2))%nat with m in Hst by (unfold m, zlen in *; lia).
  simpl in Hst. eapply HQ; [done|done|exact Hst|by page_at|by page_at|].
  intros q H1 H2. rewrite !lookup_insert_ne by done. by apply Hd1.
Qed.

(** The links after the split; [l2] are the leaves behind. *)
Lemma wp_link_new_leaf h d P al ku s p pn o prev i1 i2 (l2 : list LeafNd) (Q : unit -> Index K -> Prop) E :
  st h d P al ku s -> p ∈ P -> pn ∈ P -> p <> pn ->
  d !! p = Some (NodePage (LeafNode (mk_leaf o prev (next_of l2 BP_INVALID_PAGE_NUM) i1))) ->
  d !! pn = Some (NodePage (LeafNode (mk_leaf o BP_INVALID_PAGE_NUM BP_INVALID_PAGE_NUM i2))) ->
  (forall l, l ∈ l2 -> lpage l <> p /\ lpage l <> pn /\ 1 < lpage l) ->
  NoDup (lpage <$> l2) -> chain d p l2 BP_INVALID_PAGE_NUM ->
  (forall d' s', st h d' P al ku s' ->
     d' !! p = Some (NodePage (LeafNode (mk_leaf o prev pn i1))) ->
     d' !! pn = Some (NodePage (LeafNode (mk_leaf o p (next_of l2 BP_INVALID_PAGE_NUM) i2))) ->
     chain d' pn l2 BP_INVALID_PAGE_NUM ->
     (forall q x, has_parent d q x -> has_parent d' q x) ->
     (forall q, q <> p -> q <> pn -> (q ∉ lpage <$> l2) -> d' !! q = d !! q) -> Q tt s') ->
  wp (link_new_leaf p pn) s Q E.
Proof.
  intros Hst Hp Hpn Hne Ep Epn Hl2 Hnd Hc HQ. unfold link_new_leaf.
  unfold Leaf.set_prev_page, Leaf.set_next_page, Leaf.next_page.
  do 2 wp_step. cbn [l_parent prev_brother next_brother l_array] in *.
  wp_step; [by page_at|]. do 2 wp_step; [by page_at|]. wp_step.
  cbn [l_parent prev_brother next_brother l_array] in *. rewrite insert_insert_eq in Hst.
  wp_b. eapply (wp_parent_page_num Hst); [done|by page_at|]. simpl node_parent.
  wp_b. eapply (wp_set_parent Hst); [done|by page_at|]. clear Hst s. intros s Hst. rewrite insert_insert_eq in Hst.
  simpl node_set_parent in Hst. wp_step; [by page_at|]. wp_step. wp_step; [by page_at|]. wp_step.
  cbn [l_parent prev_brother next_brother l_array] in *.
  destruct l2 as [|l l2]; cbn [next_of] in *.
  - rewrite Z.eqb_refl. simpl negb. cbv iota. wp_step. eapply HQ; [exact Hst|by page_at|by page_at|done|..].
    + intros q x Hx. destruct (decide (q = p)) as [->|]; [|destruct (decide (q = pn)) as [->|]].
      * eapply has_parent_node; [exact Ep|by page_at|done|done].
      * eapply has_parent_node; [exact Epn|by page_at|done|done].
      * apply (has_parent_eq d); [by page_at|done].
    + intros q Q1 Q2 Q3. by page_at.
  - destruct (Hl2 l) as (M1 & M2 & M3); [by left|]. destruct Hc as [(o' & El) Hc].
    rewrite (proj2 (Z.eqb_neq _ _)) by (unfold BP_INVALID_PAGE_NUM; lia). simpl negb. cbv iota.
    wp_step; [by page_at|]. wp_step; [by page_at|]. wp_step. cbn [l_parent prev_brother next_brother l_array] in *.
    wp_step. eapply HQ; [eapply st_pins_eq; [exact Hst|multiset_solver]|by page_at|by page_at|..].
    + split; [exists o'; by page_at|]. csimpl in Hnd. apply NoDup_cons in Hnd as [D1 D2].
      eapply chain_eq; [|exact Hc]. intros l' Hl'. destruct (Hl2 l') as (M4 & M5 & M6); [by right|].
      assert (lpage l' <> lpage l) by (intros E'; apply D1; rewrite <- E'; by apply list_elem_of_fmap_2).
      by page_at.
    + intros q x Hx. destruct (decide (q = p)) as [->|]; [|destruct (decide (q = pn)) as [->|];
        [|destruct (decide (q = lpage l)) as [->|]]].
      * eapply has_parent_node; [exact Ep|by page_at|done|done].
      * eapply has_parent_node; [exact Epn|by page_at|done|done].
      * eapply has_parent_node; [exact El|by page_at|done|done].
      * apply (has_parent_eq d); [by page_at|done].
    + intros q Q1 Q2 Q3. assert (q <> lpage l) by (intros ->; apply Q3; by left). by page_at.
Qed.

(** ** The insertion into a full leaf *)

(** A tree with the entries [es] in [s], grown from a state that had allocated [al]. *)
Definition tree_result h al ku P (es : list (K * RID)) (s : Index K) : Prop :=
  exists root ls ups d al', st (with_root root h) d P al' ku s /\ tree_ok h root ls ups d /\ al ⊆ al' /\
    (forall p, p ∈ tree_pages ls ups -> p ∈ al') /\ entries ls = es.

(** The tree around the leaf [l] that is split. *)
Record splittable h d al root l1 (l : LeafNd) l2 ups : Prop := mk_splittable {
  s_tree : tree_ok h root (l1 ++ l :: l2) ups d;
  s_root : root_page h = root;
  s_sizes : sizes_ok h;
  s_reserved : 0 ∈ al /\ FIRST_INDEX_PAGE ∈ al;
  s_pages p : p ∈ tree_pages (l1 ++ l :: l2) ups -> p ∈ al
}.

Lemma wp_leaf_key_at h d P al ku s p n k v items (Q : K -> Index K -> Prop) E :
  st h d P al ku s -> p ∈ P -> d !! p = Some (NodePage (LeafNode n)) -> l_array n = (k, v) :: items ->
  Q k s -> wp (Leaf.key_at p 0) s Q E.
Proof.
  intros Hst Hp Ep En HQ. unfold Leaf.key_at, Leaf.item_at. wp_step. rewrite En.
  eapply wp_of_option; [reflexivity|]. by apply wp_ret.
Qed.

Section full.
Context (h : IndexFileHeader) (d d2 : gmap PageNum (PageData K)) (al : gset PageNum) (root : PageNum)
  (l1 : list LeafNd) (l : LeafNd) (l2 : list LeafNd) (ups : list (list (PageNum * list (K * PageNum))))
  (o pn : PageNum) (IA : list (K * RID)) (kB : K) (vB : RID) (IB : list (K * RID)).
Hypothesis H : splittable h d al root l1 l l2 ups.
Let prev := default BP_INVALID_PAGE_NUM (lpage <$> last l1).
Let lA := mk_LeafNd (lsep l) (lpage l) IA.
Let lB := mk_LeafNd kB pn ((kB, vB) :: IB).
Hypothesis Hpn : pn ∉ al.
Hypothesis Hpn1 : 1 < pn.
Hypothesis El : d !! lpage l = Some (NodePage (LeafNode (mk_leaf o prev (next_of l2 BP_INVALID_PAGE_NUM) (litems l)))).
Hypothesis EA : d2 !! lpage l = Some (NodePage (LeafNode (mk_leaf o prev pn IA))).
Hypothesis EB : d2 !! pn = Some (NodePage (LeafNode (mk_leaf o (lpage l) (next_of l2 BP_INVALID_PAGE_NUM) ((kB, vB) :: IB)))).
Hypothesis Hc2 : chain d2 pn l2 BP_INVALID_PAGE_NUM.
Hypothesis Hpar2 : forall q x, q <> lpage l -> q <> pn -> has_parent d q x -> has_parent d2 q x.
Hypothesis Hd2 : forall q, q <> lpage l -> q <> pn -> (q ∉ lpage <$> l2) -> d2 !! q = d !! q.
Hypothesis HrA : leaf_range (match l1 with [] => true | _ => false end) lA (Some kB).
Hypothesis HrB : leaf_range false lB (hi_of l2 None).
Hypothesis HIA : IA <> [].
Hypothesis HszA : cdiv (leaf_max_size h) 2 <= zlen IA <= leaf_max_size h.
Hypothesis HszB : cdiv (leaf_max_size h) 2 <= zlen ((kB, vB) :: IB) <= leaf_max_size h.

Lemma full_fresh q : q ∈ tree_pages (l1 ++ l :: l2) ups -> q <> pn.
Proof. intros Hq ->. by apply Hpn, (s_pages _ _ _ _ _ _ _ _ H). Qed.

Lemma full_above q : q ∈ up_pages ups -> d2 !! q = d !! q.
Proof.
  intros Hq. pose proof (ok_nodup _ _ _ _ _ _ _ _ (s_tree _ _ _ _ _ _ _ _ H)) as (_ & Hdis & _)%NoDup_app.
  apply Hd2.
  - intros ->. apply (Hdis (lpage l)); [in_list|done].
  - apply full_fresh. apply elem_of_app. by right.
  - intros Hin. apply (Hdis q); [|done]. rewrite fmap_app. csimpl. rewrite elem_of_app, elem_of_cons. tauto.
Qed.

Lemma full_ranged : ranged true (l1 ++ lA :: lB :: l2) None.
Proof.
  pose proof (ok_ranged _ _ _ _ _ _ _ _ (s_tree _ _ _ _ _ _ _ _ H)) as [R1 [R2 R3]]%ranged_app.
  apply ranged_app. split; [done|]. split; [done|]. by split.
Qed.

Lemma full_chain : chain d2 BP_INVALID_PAGE_NUM (l1 ++ lA :: lB :: l2) BP_INVALID_PAGE_NUM.
Proof.
  pose proof (ok_chain _ _ _ _ _ _ _ _ (s_tree _ _ _ _ _ _ _ _ H)) as [C1 C2]%chain_app.
  apply chain_app. cbn [lpage]. split.
  - eapply chain_eq; [|done]. intros l' Hl'.
    destruct (tree_leaf _ _ _ _ _ _ _ (s_tree _ _ _ _ _ _ _ _ H)) as (_ & _ & _ & Hne & _).
    pose proof (ok_nodup _ _ _ _ _ _ _ _ (s_tree _ _ _ _ _ _ _ _ H)) as (Hnd & _ & _)%NoDup_app.
    rewrite fmap_app in Hnd. apply NoDup_app in Hnd as (_ & D1 & _).
    apply Hd2; [apply Hne; by left|..].
    + apply full_fresh. unfold tree_pages. rewrite fmap_app, !elem_of_app. left. left. by apply list_elem_of_fmap_2.
    + intros Hin. apply (D1 (lpage l')); [by apply list_elem_of_fmap_2|]. csimpl. by right.
  - split; [by exists o|]. split; [by exists o|done].
Qed.

Lemma full_insertable P :
  lpage l ∈ P -> pn ∈ P ->
  insertable attr_comparator_ zero_attr dom h d2 P ({[ pn ]} ∪ al) root (seps l1) (lsep l) (lpage l) (seps l2) kB pn ups.
Proof.
  intros HpP HnP. pose proof (s_tree _ _ _ _ _ _ _ _ H) as Ht.
  pose proof (tree_upper _ _ al _ _ _ Ht (s_pages _ _ _ _ _ _ _ _ H)) as [Hg Hpar Hu Hnd Hpg Hh].
  assert (Es : seps l1 ++ (lsep l, lpage l) :: seps l2 = seps (l1 ++ l :: l2)) by (unfold seps; by rewrite fmap_app).
  assert (Es2 : seps l1 ++ (lsep l, lpage l) :: (kB, pn) :: seps l2 = seps (l1 ++ lA :: lB :: l2))
    by (unfold seps; by rewrite fmap_app).
  destruct (ranged_tail_sorted attr_comparator_ dom _ full_ranged) as [Hs Hd].
  split; rewrite ?Es2; try done.
  - rewrite Es. rewrite seps_pages in *. split; rewrite ?seps_pages; try done.
    + eapply parents_ok_mono; [|done]. intros q x Hq Hx. destruct (decide (q = lpage l)) as [->|].
      * eapply has_parent_node; [exact El|exact EA|done|done].
      * apply Hpar2; [done| |done]. apply full_fresh. apply elem_of_app. by left.
    + eapply ups_ok_eq; [|done]. exact full_above.
    + intros q Hq. destruct (Hpg q Hq). set_solver.
    + unfold hdr_ok in *. assert (Hlow : FIRST_INDEX_PAGE ∉ (lpage <$> l1 ++ l :: l2)).
      { intros Hin. destruct (Hpg FIRST_INDEX_PAGE) as [Hf _]; [apply elem_of_app; by left|]. unfold FIRST_INDEX_PAGE in Hf. lia. }
      rewrite Hd2; [done|..].
      * intros E'. apply Hlow. rewrite E'. in_list.
      * unfold FIRST_INDEX_PAGE. lia.
      * intros Hin. apply Hlow. rewrite fmap_app. csimpl. rewrite !elem_of_app, elem_of_cons. tauto.
  - split; [done|]. split; [set_solver|]. split; [|by eexists].
    rewrite Es, seps_pages. intros Hin. by apply (full_fresh pn).
  - split; [by apply H|]. by apply (s_sizes _ _ _ _ _ _ _ _ H).
  - by apply Ht.
  - destruct (s_reserved _ _ _ _ _ _ _ _ H). set_solver.
Qed.

Lemma full_sized root' ups' :
  grouped root' (seps (l1 ++ lA :: lB :: l2)) ups' -> leaves_sized (leaf_max_size h) (l1 ++ lA :: lB :: l2) ups'.
Proof.
  intros Hg. pose proof (s_tree _ _ _ _ _ _ _ _ H) as Ht. unfold leaves_sized.
  rewrite (least_half zero_attr 1 _ _ _ _ Hg) by (unfold seps; rewrite length_fmap, length_app; simpl; lia).
  pose proof (siblings_sized zero_attr (fun l : LeafNd => zlen (litems l)) 1 _ _ _ _ l1 l l2 (ok_grouped _ _ _ _ _ _ _ _ Ht)
    ltac:(unfold seps; by rewrite length_fmap) (ok_leaves_sized _ _ _ _ _ _ _ _ Ht)) as Hab.
  rewrite !Forall_app, !Forall_cons in *. tauto.
Qed.

(** The insertion into the parent completes the tree. *)
Lemma wp_full_parent P ku s E :
  lpage l ∈ P -> pn ∈ P -> st h d2 P ({[ pn ]} ∪ al) ku s ->
  wp (k0 ← Leaf.key_at pn 0; fuel ← gets pages_fuel;
      insert_entry_into_parent attr_comparator_ zero_attr (lpage l) pn k0 fuel) s
    (fun _ => tree_result h al ku (P ∖ {[+ lpage l +]} ∖ {[+ pn +]}) (entries l1 ++ (IA ++ (kB, vB) :: IB) ++ entries l2)) E.
Proof.
  intros HpP HnP Hst. pose proof (full_insertable P HpP HnP) as Hins.
  wp_b. eapply wp_leaf_key_at; [done|done|done|done|]. wp_step. unfold pages_fuel.
  rewrite (st_data _ _ _ _ _ _ Hst). pose proof (i_upper _ _ _ _ _ _ _ _ _ _ _ _ _ _ _ Hins) as Hup.
  eapply wp_mono; [eapply wp_insert_into_parent; [done|exact Hins| |exact Hst]|..|by intros].
  { pose proof (ups_fuel zero_attr d2 _ _ _ (u_grouped _ _ _ _ _ _ _ Hup) (u_ups _ _ _ _ _ _ _ Hup)) as Hf.
    pose proof (u_nodup _ _ _ _ _ _ _ Hup) as (_ & _ & Hnd)%NoDup_app. specialize (Hf Hnd). lia. }
  intros _ s' (root' & ups' & d' & al' & Hst' & Hup' & Hsz & Hal & Hups' & Hsame & Hother).
  assert (Es2 : seps l1 ++ (lsep l, lpage l) :: (kB, pn) :: seps l2 = seps (l1 ++ lA :: lB :: l2))
    by (unfold seps; by rewrite fmap_app).
  rewrite Es2, ?seps_pages in *.
  destruct (upper_tree _ _ _ _ _ _ Hup' Hsz) as [Ht Hpg].
  - eapply chain_same; [|exact full_chain]. intros l' Hl'. apply Hsame. by apply list_elem_of_fmap_2.
  - exact full_ranged.
  - pose proof (ok_nonempty _ _ _ _ _ _ _ _ (s_tree _ _ _ _ _ _ _ _ H)) as [F1 F2]%Forall_app.
    apply Forall_cons in F2 as [_ F2]. apply Forall_app. split; [done|]. by repeat (apply Forall_cons; split).
  - apply (full_sized _ _ (u_grouped _ _ _ _ _ _ _ Hup')).
  - exists root', (l1 ++ lA :: lB :: l2), ups', d', al'. split; [done|]. split; [done|]. split; [set_solver|]. split; [done|].
    rewrite entries_app, !entries_cons. cbn [litems]. by rewrite !app_assoc.
Qed.
End full.

(** The two halves of the leaf [l] are in place: [IA] and [IB]. *)
Record linked d d2 (l : LeafNd) (l1 l2 : list LeafNd) o pn (IA IB : list (K * RID)) : Prop := mk_linked {
  lk_left : d2 !! lpage l = Some (NodePage (LeafNode (mk_leaf o (default BP_INVALID_PAGE_NUM (lpage <$> last l1)) pn IA)));
  lk_right : d2 !! pn = Some (NodePage (LeafNode (mk_leaf o (lpage l) (next_of l2 BP_INVALID_PAGE_NUM) IB)));
  lk_chain : chain d2 pn l2 BP_INVALID_PAGE_NUM;
  lk_parents q x : q <> lpage l -> q <> pn -> has_parent d q x -> has_parent d2 q x;
  lk_others q : q <> lpage l -> q <> pn -> (q ∉ lpage <$> l2) -> d2 !! q = d !! q
}.

Lemma linked_left d d2 (l : LeafNd) l1 l2 o pn IA IB IA' :
  linked d d2 l l1 l2 o pn IA IB -> lpage l <> pn -> (forall l', l' ∈ l2 -> lpage l' <> lpage l) ->
  linked d (<[lpage l := NodePage (LeafNode (mk_leaf o (default BP_INVALID_PAGE_NUM (lpage <$> last l1)) pn IA'))]> d2)
    l l1 l2 o pn IA' IB.
Proof.
  intros [H1 H2 H3 H4 H5] Hne Hl2. split.
  - by page_at.
  - by page_at.
  - eapply chain_eq; [|exact H3]. intros l' Hl'. specialize (Hl2 l' Hl'). by page_at.
  - intros q x Q1 Q2 Hx. apply (has_parent_eq d2); [by page_at|by apply H4].
  - intros q Q1 Q2 Q3. page_at. by apply H5.
Qed.

Lemma linked_right d d2 (l : LeafNd) l1 l2 o pn IA IB IB' :
  linked d d2 l l1 l2 o pn IA IB -> lpage l <> pn -> (forall l', l' ∈ l2 -> lpage l' <> pn) ->
  linked d (<[pn := NodePage (LeafNode (mk_leaf o (lpage l) (next_of l2 BP_INVALID_PAGE_NUM) IB'))]> d2)
    l l1 l2 o pn IA IB'.
Proof.
  intros [H1 H2 H3 H4 H5] Hne Hl2. split.
  - by page_at.
  - by page_at.
  - eapply chain_eq; [|exact H3]. intros l' Hl'. specialize (Hl2 l' Hl'). by page_at.
  - intros q x Q1 Q2 Hx. apply (has_parent_eq d2); [by page_at|by apply H4].
  - intros q Q1 Q2 Q3. page_at. by apply H5.
Qed.

(** Splitting the leaf [l] and linking the new leaf. *)
Lemma wp_split_link h d P al ku s root l1 (l : LeafNd) l2 ups
  (Q : PageNum -> Index K -> Prop) E :
  let m := Z.to_nat (cdiv (zlen (litems l)) 2) in
  splittable h d al root l1 l l2 ups -> st h d P al ku s -> lpage l ∈ P ->
  (forall o pn d2 s', pn ∉ al -> 1 < pn -> st h d2 (P ⊎ {[+ pn +]}) ({[ pn ]} ∪ al) ku s' ->
     d !! lpage l = Some (NodePage (LeafNode (mk_leaf o (default BP_INVALID_PAGE_NUM (lpage <$> last l1))
                                                (next_of l2 BP_INVALID_PAGE_NUM) (litems l)))) ->
     (forall l', l' ∈ l2 -> lpage l' <> lpage l /\ lpage l' <> pn) ->
     linked d d2 l l1 l2 o pn (take m (litems l)) (drop m (litems l)) -> Q pn s') ->
  wp (new_frame ← split (LeafHandler K) (lpage l); link_new_leaf (lpage l) new_frame;; mret new_frame) s Q E.
Proof.
  intros m Hs Hst Hp HQ. pose proof (s_tree _ _ _ _ _ _ _ _ Hs) as Ht.
  destruct (tree_leaf _ _ _ _ _ _ _ Ht) as (o & El & Hup & Hne & Hp1 & Hr).
  assert (Hal : forall l', l' ∈ l2 -> lpage l' ∈ al).
  { intros l' Hl'. apply (s_pages _ _ _ _ _ _ _ _ Hs). unfold tree_pages. rewrite fmap_app. csimpl.
    rewrite !elem_of_app, elem_of_cons. left; right; right. by apply list_elem_of_fmap_2. }
  assert (Hlal : lpage l ∈ al).
  { apply (s_pages _ _ _ _ _ _ _ _ Hs). unfold tree_pages. in_list. }
  destruct (s_reserved _ _ _ _ _ _ _ _ Hs) as [R0 R1].
  wp_b. eapply wp_split_leaf; [exact Hst|done|done|exact El|]. clear Hst s.
  intros pn d1 s Hpn Hpn0 Hst E1 E2 Ho. fold m in E1, E2.
  assert (Hpn1 : 1 < pn).
  { destruct (decide (pn = 0)) as [->|]; [done|]. destruct (decide (pn = FIRST_INDEX_PAGE)) as [->|]; [done|].
    unfold FIRST_INDEX_PAGE in *. lia. }
  assert (Hl2 : forall l', l' ∈ l2 -> lpage l' <> lpage l /\ lpage l' <> pn).
  { intros l' Hl'. split; [apply Hne; by right|]. intros Eq. apply Hpn. rewrite <- Eq. by apply Hal. }
  pose proof (ok_nodup _ _ _ _ _ _ _ _ Ht) as (Hnd & _ & _)%NoDup_app.
  pose proof (ok_pages _ _ _ _ _ _ _ _ Ht) as Hpg. rewrite list.Forall_forall in Hpg.
  pose proof (ok_chain _ _ _ _ _ _ _ _ Ht) as [_ [_ Hc]]%chain_app.
  rewrite fmap_app in Hnd. apply NoDup_app in Hnd as (_ & _ & Hnd). csimpl in Hnd. apply NoDup_cons in Hnd as [_ Hnd].
  wp_b. eapply wp_link_new_leaf with (l2 := l2); [exact Hst|multiset_solver|multiset_solver|intros Eq; apply Hpn; by rewrite <- Eq|exact E1|exact E2|..].
  - intros l' Hl'. destruct (Hl2 l' Hl'). split_and!; try done. apply Hpg. rewrite fmap_app. csimpl.
    rewrite !elem_of_app, elem_of_cons. left; right; right. by apply list_elem_of_fmap_2.
  - done.
  - eapply chain_eq; [|exact Hc]. intros l' Hl'. destruct (Hl2 l' Hl'). by apply Ho.
  - clear Hst s. intros d2 s Hst F1 F2 F3 F4 F5. apply wp_ret. eapply HQ; [exact Hpn|exact Hpn1|exact Hst|exact El|exact Hl2|].
    split; [exact F1|exact F2|exact F3|..].
    + intros q x Q1 Q2 Hx. apply F4. apply (has_parent_eq d); [by apply Ho|done].
    + intros q Q1 Q2 Q3. rewrite F5 by done. by apply Ho.
Qed.

Lemma bind_assoc_ret {S B C D} (m : M S B) (f : B -> M S C) (g : B -> M S D) s Q E :
  wp (x ← (x ← m; f x;; mret x); g x) s Q E -> wp (x ← m; f x;; g x) s Q E.
Proof. unfold wp, mbind, M_bind, mret, M_ret. destruct (m s) as [x s'| |]; try done. by destruct (f x s'). Qed.

(** A full leaf: split, link, insert into the half, then the parent. *)
Lemma wp_insert_full h d P al ku s root l1 (l : LeafNd) l2 ups xs ys key rid E :
  splittable h d al root l1 l l2 ups -> st h d P al ku s -> lpage l ∈ P ->
  litems l = xs ++ ys -> 2 <= zlen (litems l) -> leaf_max_size h <= zlen (litems l) ->
  leaf_range (match l1 with [] => true | _ => false end)
    (mk_LeafNd (lsep l) (lpage l) (xs ++ (key, rid) :: ys)) (hi_of l2 None) ->
  wp (new_frame ← split (LeafHandler K) (lpage l);
      link_new_leaf (lpage l) new_frame;;
      n ← size (lpage l);
      (if zlen xs <? n then Leaf.insert (lpage l) (zlen xs) key rid
       else Leaf.insert new_frame (zlen xs - n) key rid);;
      k0 ← Leaf.key_at new_frame 0;
      fuel ← gets pages_fuel;
      insert_entry_into_parent attr_comparator_ zero_attr (lpage l) new_frame k0 fuel) s
    (fun _ => tree_result h al ku (P ∖ {[+ lpage l +]}) (entries l1 ++ (xs ++ (key, rid) :: ys) ++ entries l2)) E.
Proof.
  intros Hs Hst Hp Exy Hlen Hfull Hr. apply bind_assoc_ret, wp_bind.
  eapply (wp_split_link _ _ _ _ _ _ _ _ _ _ _ _ _ Hs Hst Hp). clear Hst s.
  intros o pn d2 s Hpn Hpn1 Hst El Hl2 Hlk.
  set (m := Z.to_nat (cdiv (zlen (litems l)) 2)) in *.
  assert (Hm : (1 <= m < length (litems l))%nat).
  { assert (0 < cdiv (zlen (litems l)) 2 < zlen (litems l)); [|unfold m, zlen in *; lia].
    rewrite cdiv_nonneg by lia. split; [apply Z.div_str_pos; lia|apply Z.div_lt_upper_bound; lia]. }
  assert (Hne : lpage l <> pn).
  { intros Eq. apply Hpn. rewrite <- Eq. apply (s_pages _ _ _ _ _ _ _ _ Hs). unfold tree_pages. in_list. }
  wp_b. eapply (wp_size_leaf Hst); [multiset_solver|apply Hlk|]. cbn [l_array].
  assert (Hzt : zlen (take m (litems l)) = Z.of_nat m) by (unfold zlen; rewrite length_take; lia). rewrite Hzt.
  (* either way the halves make up the items with the new one *)
  assert (HP : forall IA kB vB IB d3 s3,
    linked d d3 l l1 l2 o pn IA ((kB, vB) :: IB) -> IA <> [] ->
    zlen IA = Z.of_nat m \/ zlen IA = Z.of_nat m + 1 ->
    xs ++ (key, rid) :: ys = IA ++ (kB, vB) :: IB ->
    st h d3 (P ⊎ {[+ pn +]}) ({[ pn ]} ∪ al) ku s3 ->
    wp (k0 ← Leaf.key_at pn 0; fuel ← gets pages_fuel;
      insert_entry_into_parent attr_comparator_ zero_attr (lpage l) pn k0 fuel) s3
    (fun _ => tree_result h al ku (P ∖ {[+ lpage l +]}) (entries l1 ++ (xs ++ (key, rid) :: ys) ++ entries l2)) E).
  { intros IA kB vB IB d3 s3 [K1 K2 K3 K4 K5] HIA Hma Eab Hst3.
    assert (Em : zlen (litems l) = leaf_max_size h).
    { pose proof (ok_leaves_sized _ _ _ _ _ _ _ _ (s_tree _ _ _ _ _ _ _ _ Hs)) as [_ [Hls _]%Forall_cons]%Forall_app. lia. }
    destruct (half_sizes (leaf_max_size h) (zlen IA) (zlen ((kB, vB) :: IB))) as [HsA HsB].
    { lia. }
    { apply (f_equal zlen) in Eab. rewrite <- Em, Exy. unfold zlen in *. rewrite !length_app in *. simpl in *. lia. }
    { rewrite <- Em. replace (cdiv (zlen (litems l)) 2) with (Z.of_nat m) by (unfold m in *; lia). exact Hma. }
    destruct (leaf_range_split _ _ _ _ _ _ _ pn Hr Eab HIA) as [HrA HrB]. rewrite Eab.
    eapply wp_mono;
      [eapply (wp_full_parent h d d3 al root l1 l l2 ups o pn IA kB vB IB Hs Hpn Hpn1 El K1 K2 K3 K4 K5 HrA HrB HIA HsA HsB _ ku);
        [| |exact Hst3]; multiset_solver| |by intros].
    intros _ s' (r' & ls' & ups' & d' & al' & Hst' & Hrest). exists r', ls', ups', d', al'.
    split; [|done]. eapply st_pins_eq; [exact Hst'|]. clear -Hp Hne. multiset_solver. }
  destruct (Z.ltb_spec (zlen xs) (Z.of_nat m)) as [Hlt|Hge].
  - assert (Et : take m (litems l) = xs ++ take (m - length xs) ys).
    { rewrite Exy, take_app, take_ge by (unfold zlen in *; lia). done. }
    destruct (drop m (litems l)) as [|[kB vB] IB] eqn:Ed.
    { apply (f_equal length) in Ed. rewrite length_drop in Ed. simpl in Ed. lia. }
    rewrite Et in Hlk. wp_b. eapply wp_leaf_insert; [exact Hst|multiset_solver|apply Hlk|done|]. clear Hst s.
    intros s Hst.
    assert (Hlk2 := linked_left _ _ _ _ _ _ _ _ _ (xs ++ (key, rid) :: take (m - length xs) ys) Hlk Hne
      (fun l' Hl' => proj1 (Hl2 l' Hl'))).
    eapply HP; [exact Hlk2|by destruct xs| | |exact Hst].
    { right. rewrite <- Hzt, Et. unfold zlen. rewrite !length_app. simpl. lia. }
    rewrite <- Ed, Exy, drop_app, (drop_ge xs) by (unfold zlen in *; lia). simpl.
    rewrite <- app_assoc. simpl. by rewrite take_drop.
  - assert (Ed : drop m (litems l) = drop m xs ++ ys).
    { rewrite Exy, drop_app. replace (m - length xs)%nat with 0%nat by (unfold zlen in *; lia). done. }
    assert (Et : take m (litems l) = take m xs).
    { rewrite Exy, take_app. replace (m - length xs)%nat with 0%nat by (unfold zlen in *; lia).
      rewrite take_0. apply app_nil_r. }
    rewrite Ed in Hlk. wp_b. eapply wp_leaf_insert; [exact Hst|multiset_solver|apply Hlk| |].
    { unfold zlen in *. rewrite length_drop. lia. }
    clear Hst s. intros s Hst.
    assert (Hlk2 := linked_right _ _ _ _ _ _ _ _ _ (drop m xs ++ (key, rid) :: ys) Hlk Hne
      (fun l' Hl' => proj2 (Hl2 l' Hl'))).
    destruct (drop m xs ++ (key, rid) :: ys) as [|[kB vB] IB] eqn:Eb; [by destruct (drop m xs)|].
    eapply HP; [exact Hlk2| |left; exact Hzt|rewrite <- Eb, Et, app_assoc; by rewrite take_drop|exact Hst].
    intros Ez. apply (f_equal length) in Ez. rewrite length_take in Ez. simpl in Ez. lia.
Qed.

(** ** [insert_entry_into_leaf_node] *)

(** The tree with the entries [es], nothing more pinned than [P]. *)
Lemma wp_insert_leaf_node h d P al ku s root l1 (l : LeafNd) l2 ups key rid :
  splittable h d al root l1 l l2 ups -> st h d P al ku s -> lpage l ∈ P -> dom key ->
  covers attr_comparator_ key (seps l1) (lsep l, lpage l) (seps l2) ->
  wp (insert_entry_into_leaf_node attr_comparator_ zero_attr (lpage l) key rid) s
    (fun _ s' => exists es', entry_insert cmp key rid (entries (l1 ++ l :: l2)) = Some es' /\
       tree_result h al ku (P ∖ {[+ lpage l +]}) es' s')
    (fun rc s' => rc = RECORD_DUPLICATE_KEY /\ entry_insert cmp key rid (entries (l1 ++ l :: l2)) = None /\
       st h d P al ku s').
Proof.
  intros Hs Hst Hp Hk Hcov. pose proof (s_tree _ _ _ _ _ _ _ _ Hs) as Ht.
  destruct (tree_leaf _ _ _ _ _ _ _ Ht) as (o & El & Hup & Hne & Hp1 & Hr).
  pose proof (ok_ranged _ _ _ _ _ _ _ _ Ht) as Hrg.
  destruct (leaf_position _ _ _ key Hr Hk) as (xs & ys & found & Exy & Elk & Hft & Hff).
  rewrite entries_app, entries_cons.
  unfold insert_entry_into_leaf_node. wp_b. eapply wp_leaf_lookup; [exact Hst|done|exact El|exact Elk|].
  cbv zeta. cbn [fst snd]. destruct found.
  - apply wp_throw. split; [done|]. split; [|done]. pose proof (ranged_dom _ _ _ _ _ Hrg) as Hd.
    pose proof (ranged_sorted _ _ _ _ _ Hrg) as Hsrt. rewrite entries_app, entries_cons in Hd, Hsrt.
    apply (entry_insert_dup cmp dom); [done..|]. rewrite !fmap_app, !elem_of_app. right; left. by apply Hft.
  - destruct (Hff eq_refl) as (Hnew & Hx & Hy).
    assert (Ees : entry_insert cmp key rid (entries l1 ++ litems l ++ entries l2) =
                  Some (entries l1 ++ (xs ++ (key, rid) :: ys) ++ entries l2)).
    { pose proof (entry_insert_between cmp dom key rid _ _ (covers_between _ _ _ _ _ _ _ _ _ Hrg Hk Hcov Exy Hx Hy)) as Ei.
      rewrite Exy. rewrite <- !app_assoc in *. simpl in *. done. }
    destruct (covers_bounds key l1 l l2 Hcov) as [Hlo Hhi].
    assert (Hr' : leaf_range (match l1 with [] => true | _ => false end)
                    (mk_LeafNd (lsep l) (lpage l) (xs ++ (key, rid) :: ys)) (hi_of l2 None)).
    { apply leaf_range_insert; [done..| |done]. intros Hf. apply Hlo. by destruct l1. }
    wp_b. eapply (wp_size_leaf Hst); [done|exact El|]. cbn [l_array]. unfold Leaf.max_size. wp_step.
    rewrite (st_header _ _ _ _ _ _ Hst). destruct (Z.ltb_spec (zlen (litems l)) (leaf_max_size h)) as [Hroom|Hfull].
    + rewrite Exy in El. wp_b. eapply wp_leaf_insert; [exact Hst|done|exact El|done|]. clear Hst s. intros s Hst.
      do 2 wp_step. eexists. split; [exact Ees|].
      exists root, (l1 ++ mk_LeafNd (lsep l) (lpage l) (xs ++ (key, rid) :: ys) :: l2), ups. do 2 eexists.
      split; [by rewrite with_root_id by apply Hs|]. split; [apply tree_ok_leaf; [done|by rewrite Exy|done|by destruct xs|]|].
      { pose proof (ok_leaves_sized _ _ _ _ _ _ _ _ Ht) as [_ [Hls _]%Forall_cons]%Forall_app.
        rewrite Exy in *. unfold zlen in *. rewrite !length_app in *. simpl in *. lia. }
      split; [done|]. split.
      * intros p Hin. apply (s_pages _ _ _ _ _ _ _ _ Hs). unfold tree_pages in *. rewrite fmap_app in *. exact Hin.
      * by rewrite entries_app, entries_cons.
    + eapply wp_mono; [eapply wp_insert_full with (E := fun _ _ => False); [exact Hs|exact Hst|done|exact Exy| |done|exact Hr']| |by intros].
      * destruct (s_sizes _ _ _ _ _ _ _ _ Hs). lia.
      * intros u s' Hs'. eexists. split; [exact Ees|exact Hs'].
Qed.

(** ** [create_new_tree] *)

Lemma wp_create_new_tree h d P al ku s key rid E :
  st h d P al ku s -> root_page h = BP_INVALID_PAGE_NUM -> hdr_ok h d BP_INVALID_PAGE_NUM -> sizes_ok h -> dom key ->
  0 ∈ al -> FIRST_INDEX_PAGE ∈ al ->
  wp (create_new_tree key rid) s (fun _ => tree_result h al ku P [(key, rid)]) E.
Proof.
  intros Hst Hroot Hh Hsz Hk R0 R1. unfold create_new_tree, is_empty. wp_step.
  rewrite (st_header _ _ _ _ _ _ Hst), Hroot. simpl negb. cbv iota.
  wp_b. apply (wp_allocate_page Hst). clear Hst s. intros p d1 s Hp Hp0 [dd Edd] Hd1 Hst.
  assert (Hp1 : 1 < p).
  { destruct (decide (p = 0)) as [->|]; [done|]. destruct (decide (p = FIRST_INDEX_PAGE)) as [->|]; [done|].
    unfold FIRST_INDEX_PAGE in *. lia. }
  unfold Leaf.init_empty. do 2 wp_step.
  wp_b. eapply wp_leaf_insert with (xs := []) (ys := []); [exact Hst|multiset_solver|by page_at|done|].
  clear Hst s. intros s Hst. rewrite insert_insert_eq in Hst. simpl in Hst.
  wp_b. eapply wp_set_root; [exact Hst|]. clear Hst s. intros s Hst. do 2 wp_step.
  eapply wp_update_root with (root := BP_INVALID_PAGE_NUM); [typeclasses eauto|exact Hst|..].
  { unfold hdr_ok in *. page_at. by rewrite Hd1 by page_ne. }
  clear Hst s. intros s Hst.
  exists p, [mk_LeafNd zero_key p [(key, rid)]], []. do 2 eexists.
  split; [eapply st_pins_eq; [exact Hst|multiset_solver]|]. split; [|split; [set_solver|split; [|done]]].
  - split; csimpl.
    + done.
    + split; [|done]. eexists. by page_at.
    + constructor; [|constructor]. eexists. split; [by page_at|done].
    + done.
    + apply NoDup_singleton.
    + by constructor.
    + split; [|done]. split_and!; [|intros k Hin; csimpl in Hin; set_from Hin Hk|done|done].
      csimpl. apply sorted_cons. split; [constructor|]. by intros k Hin%elem_of_nil.
    + unfold hdr_ok. by page_at.
    + by constructor.
    + destruct Hsz as [_ Hsz]. apply Forall_cons. split; [|by constructor]. unfold least, zlen. simpl. lia.
    + done.
  - unfold tree_pages. csimpl. intros q Hq. apply list_elem_of_singleton in Hq. set_solver.
Qed.

(** ** [insert_entry] *)

Lemma index_inv_result h al ku es s :
  sizes_ok h -> 0 ∈ al -> FIRST_INDEX_PAGE ∈ al -> tree_result h al (ku + 1) ∅ es s ->
  index_inv ku (set_keys (keys_in_use s - 1) s) es.
Proof.
  intros Hsz R0 R1 (root & ls & ups & d & al' & Hst & Ht & Hsub & Hpg & <-).
  exists (with_root root h), d, al'. split.
  - destruct Hst as [H1 H2 H3 H4 H5 H6 H7]. split; try done. simpl. lia.
  - split; [done|]. split; [set_solver|]. split; [set_solver|]. right. exists ls, ups.
    split; [by apply tree_ok_header|done].
Qed.

Lemma wp_find_leaf h d al ku s root ls ups key E :
  tree_ok h root ls ups d -> root_page h = root -> dom key -> st h d ∅ al ku s ->
  wp (find_leaf attr_comparator_ key) s (fun p s' => exists l1 l l2,
    ls = l1 ++ l :: l2 /\ p = lpage l /\ covers attr_comparator_ key (seps l1) (lsep l, lpage l) (seps l2) /\
    st h d {[+ lpage l +]} al ku s') E.
Proof.
  intros Ht Hroot Hk Hst. pose proof (getter_find attr_comparator_ zero_attr dom h d al ku key Hk E) as Hg.
  destruct (find_leaf_internal_spec _ _ _ _ _ _ _ _ _ _ _ _ _ Hg ltac:(by split; [|intros k Hin%elem_of_nil]) Ht Hroot)
    as (l1 & l & l2 & -> & Hcov & Hwp).
  unfold find_leaf. apply (Hwp ∅); [done|]. intros s' Hst'. exists l1, l, l2. split; [done|]. split; [done|].
  split; [done|]. eapply st_pins_eq; [exact Hst'|multiset_solver].
Qed.

Lemma wp_make_key h d P al ku s uk rid (Q : option K -> Index K -> Prop) E :
  st h d P al ku s -> (forall s', st h d P al (ku + 1) s' -> Q (Some (uk, rid)) s') ->
  wp (make_key uk rid) s Q E.
Proof.
  intros Hst HQ. unfold make_key, next_fail, wp. mrun. rewrite (st_fails _ _ _ _ _ _ Hst). apply HQ.
  destruct Hst as [H1 H2 H3 H4 H5 H6 H7]. split; try done. simpl. by rewrite H5.
Qed.

Lemma wp_insert_entry ku s es uk rid :
  index_inv ku s es -> dom (uk, rid) ->
  wp (insert_entry attr_comparator_ zero_attr (Some uk) (Some rid)) s
    (fun _ s' => exists es', entry_insert cmp (uk, rid) rid es = Some es' /\ index_inv ku s' es')
    (fun rc s' => rc = RECORD_DUPLICATE_KEY /\ entry_insert cmp (uk, rid) rid es = None /\ index_inv ku s' es).
Proof.
  intros (h & d & al & Hst & Hsz & R0 & R1 & Hcases) Hk. unfold insert_entry.
  wp_b. eapply wp_make_key; [exact Hst|]. clear Hst s. intros s Hst. cbv iota. unfold is_empty. wp_step.
  rewrite (st_header _ _ _ _ _ _ Hst).
  destruct Hcases as [(Hroot & -> & Hh)|(ls & ups & Ht & Hpg & ->)].
  - rewrite Hroot. simpl. wp_step.
    eapply wp_mono; [eapply wp_create_new_tree with (E := fun _ _ => False); done| |by intros].
    cbv beta. intros _ s' Hres. unfold free_key. wp_b. apply wp_modify, wp_ret. eexists. split; [done|].
    eapply index_inv_result; [exact Hsz|exact R0|exact R1|exact Hres].
  - assert (Hroot : 1 < root_page h).
    { pose proof (grouped_root _ _ _ _ (ok_grouped _ _ _ _ _ _ _ _ Ht)) as Hin. rewrite seps_pages in Hin.
      pose proof (ok_pages _ _ _ _ _ _ _ _ Ht) as Hall. rewrite list.Forall_forall in Hall. by apply Hall. }
    rewrite (proj2 (Z.eqb_neq _ _)) by (unfold BP_INVALID_PAGE_NUM; lia). cbv iota. wp_step.
    eapply wp_mono; [by eapply wp_find_leaf with (E := fun _ _ => False)| |by intros].
    cbv beta. intros p s1 (l1 & l & l2 & -> & -> & Hcov & Hst1). wp_step.
    assert (Hs : splittable h d al (root_page h) l1 l l2 ups) by (by split).
    eapply wp_mono; [eapply wp_insert_leaf_node; [exact Hs|exact Hst1|multiset_solver|done|exact Hcov]|..].
    + cbv beta. intros _ s2 (es' & Ees & Hres). simpl. unfold free_key. apply wp_modify.
      exists es'. split; [done|]. eapply index_inv_result; [exact Hsz|exact R0|exact R1|].
      destruct Hres as (r' & ls' & ups' & d' & al' & Hst' & Hrest). exists r', ls', ups', d', al'.
      split; [|done]. eapply st_pins_eq; [exact Hst'|multiset_solver].
    + cbv beta. intros rc s2 (-> & Ees & Hst2). rewrite bool_decide_eq_false_2 by done. simpl.
      wp_step. wp_b. apply wp_modify, wp_throw. split; [done|]. split; [done|].
      exists h, d, al. split; [|split; [done|split; [done|split; [done|right; by exists (l1 ++ l :: l2), ups]]]].
      assert (E0 : ∅ = {[+ lpage l +]} ∖ {[+ lpage l +]} :> gmultiset PageNum) by multiset_solver. rewrite E0.
      destruct Hst2 as [H1 H2 H3 H4 H5 H6 H7]. split; try done. simpl. lia.
Qed.

(** The entries of an index are sorted by key, without duplicates. *)
Lemma index_sorted ku s es :
  index_inv ku s es -> sorted cmp es.*1 /\ (forall k, k ∈ es.*1 -> dom k).
Proof.
  intros (h & d & al & _ & _ & _ & _ & [(_ & -> & _)|(ls & ups & Ht & _ & ->)]).
  - split; [constructor|]. by intros k Hk%elem_of_nil.
  - pose proof (ok_ranged _ _ _ _ _ _ _ _ Ht) as Hr. split; [by eapply ranged_sorted|by eapply ranged_dom].
Qed.

(** ** [create] and a sequence of insertions *)

(** The sizes of the nodes of a new index: given or computed from the key length. *)
Definition created_sizes (length internal_max leaf_max : Z) : Prop :=
  1 < (if internal_max <? 0 then calc_internal_page_capacity length else internal_max) /\
  1 < (if leaf_max <? 0 then calc_leaf_page_capacity length else leaf_max).

Lemma wp_create type length internal_max leaf_max (s : Index K) E :
  fails s = [] -> created_sizes length internal_max leaf_max ->
  wp (create type length internal_max leaf_max) s (fun _ s' => index_inv (keys_in_use s) s' []) E.
Proof.
  intros Hf Hsz. unfold create.
  do 2 (wp_b; apply wp_may_fail; [done|]). apply wp_bind, wp_modify. set (ku := keys_in_use s).
  assert (Hst : st (file_header_ s) {[0 := RawPage]} ∅ {[0]} ku (new_file s)) by by split.
  assert (Ha : exists s1, allocate_page (new_file s) = Ret 1 s1 /\
    st (file_header_ s) {[0 := RawPage; 1 := RawPage]} {[+ 1 +]} {[0; 1]} ku s1).
  { unfold allocate_page, may_fail, next_fail, mbind, M_bind. simpl fails. rewrite Hf. eexists. split; [reflexivity|].
    split; try done. intros p. unfold pin_count. simpl. destruct (decide (p = 1)) as [->|Hne].
    - rewrite decide_True by multiset_solver. by rewrite multiplicity_singleton.
    - rewrite decide_False by multiset_solver. unfold set_pin. simpl. change (({[1 := 1]} : gmap PageNum Z) !! p = None). by rewrite lookup_singleton_ne. }
  destruct Ha as (s1 & Ea & Hst1). clear Hst. rename Hst1 into Hst. apply wp_bind. eapply wp_Ret; [exact Ea|].
  simpl negb. cbv iota zeta. do 2 wp_step. wp_b. apply (wp_set_header Hst). clear Hst. intros s2 Hst.
  wp_step. wp_b. apply wp_next_fail; [apply Hst|]. apply wp_ret.
  do 3 eexists. split; [eapply st_pins_eq; [exact Hst|multiset_solver]|]. split; [exact Hsz|].
  split; [set_solver|]. split; [unfold FIRST_INDEX_PAGE; set_solver|]. left. split; [done|]. split; [done|].
  unfold hdr_ok. by page_at.
Qed.

(** ** [sync], and opening the file again *)

Lemma chain_agree d d' prev (ls : list LeafNd) nxt :
  (forall p n, d !! p = Some n -> d' !! p = Some n) -> chain d prev ls nxt -> chain d' prev ls nxt.
Proof.
  intros Hd. revert prev. induction ls as [|l ls IH]; intros prev; [done|]. intros [(o & E) H]. split; [|auto].
  exists o. by apply Hd.
Qed.

Lemma tree_ok_agree h d d' root ls ups :
  (forall p n, d !! p = Some n -> d' !! p = Some n) -> tree_ok h root ls ups d -> tree_ok h root ls ups d'.
Proof.
  intros Hd [Hg Hc Hp Hu Hnd Hpg Hr Hh Hne Hls Hus].
  assert (Hpar : forall q x, has_parent d q x -> has_parent d' q x) by (intros q x (n & E & En); exists n; auto).
  split; try done.
  - by eapply chain_agree.
  - eapply Forall2_impl; [exact Hp|]. intros o q. apply Hpar.
  - clear Hg Hnd Hpg Hp Hls Hus. induction ups as [|lvl ups IH]; [done|]. destruct Hu as (H1 & H2 & H3).
    split; [|split; [|by apply IH]].
    + eapply list.Forall_impl; [exact H1|]. intros n (o & E). exists o. by apply Hd.
    + eapply Forall2_impl; [exact H2|]. intros o q. apply Hpar.
  - by apply Hd.
Qed.

(** [s'] is [s] with the pages [ps] written to the file. *)
Record flushed (s s' : Index K) (ps : list PageNum) : Prop := mk_flushed {
  fl_header : file_header_ s' = file_header_ s;
  fl_data : data s' = data s;
  fl_fails : fails s' = [];
  fl_allocated : allocated s' = allocated s;
  fl_file p n : p ∈ ps -> data s !! p = Some n -> file s' !! p = Some n;
  fl_bitmap : 0 ∈ ps -> file_allocated s' = allocated s
}.

Lemma wp_flush_pages ps (s : Index K) E :
  fails s = [] -> wp (flush_pages ps) s (fun _ s' => flushed s s' ps) E.
Proof.
  assert (H : forall ps (s s0 : Index K) qs, fails s = [] -> flushed s0 s qs ->
    wp (flush_pages ps) s (fun _ s' => flushed s0 s' (qs ++ ps)) E).
  { clear ps s. induction ps as [|p ps IH]; intros s s0 qs Hf Hfl; simpl.
    { apply wp_ret. by rewrite app_nil_r. }
    wp_b. apply wp_may_fail; [done|]. apply wp_bind, wp_modify.
    rewrite cons_middle, app_assoc. apply IH; [by unfold flush_page; destruct (p =? 0)|].
    destruct Hfl as [H1 H2 H3 H4 H5 H6]. unfold flush_page. split.
    - by destruct (p =? 0).
    - by destruct (p =? 0).
    - by destruct (p =? 0).
    - by destruct (p =? 0).
    - intros q n Hq Eq. assert (Es : file s !! q = Some n \/ q = p).
      { apply elem_of_app in Hq as [Hq|Hq]; [left; by apply H5|right; by apply list_elem_of_singleton in Hq]. }
      assert (Ef : file (set_dirty (dirty s ∖ {[p]}) (set_file (match data s !! p with Some d => <[p := d]> (file s) | None => file s end) s)) !! q = Some n).
      { simpl. destruct (decide (q = p)) as [->|Hne].
        - rewrite H2, Eq. by rewrite lookup_insert_eq.
        - destruct Es as [Es| ->]; [|done]. destruct (data s !! p); [by rewrite lookup_insert_ne|done]. }
      by destruct (p =? 0).
    - intros [H0|H0]%elem_of_app.
      + destruct (p =? 0); [done|by apply H6].
      + apply list_elem_of_singleton in H0 as <-. simpl. by rewrite H4. }
  intros Hf. apply (H ps s s []); [done|]. split; try done.
  - intros p n Hp. by apply elem_of_nil in Hp.
  - intros Hp. by apply elem_of_nil in Hp.
Qed.

(** The index on a state that agrees with one that holds it. *)
Lemma wp_sync_open ku s es E :
  index_inv ku s es -> wp (sync;; close;; open false) s (fun _ s' => index_inv 0 s' es) E.
Proof.
  intros (h & d & al & Hst & Hsz & R0 & R1 & Hcases). apply wp_bind. unfold sync, flush_all_pages.
  apply wp_bind, wp_gets. eapply wp_mono; [apply wp_flush_pages with (E := E); apply Hst|cbv beta|done].
  intros _ s' [H1 H2 H3 H4 H5 H6]. rewrite (st_data _ _ _ _ _ _ Hst), (st_allocated _ _ _ _ _ _ Hst) in *.
  assert (Hfile : forall p n, d !! p = Some n -> file s' !! p = Some n).
  { intros p n Ep. apply H5; [|done]. apply elem_of_elements, elem_of_union. right. by apply elem_of_dom_2 in Ep. }
  assert (Hal : file_allocated s' = al) by (apply H6, elem_of_elements; set_solver).
  assert (E' : file s' !! FIRST_INDEX_PAGE = Some (HeaderPage h)).
  { apply Hfile. rewrite <- (with_root_id h _ eq_refl).
    destruct Hcases as [(-> & _ & Hh)|(ls & ups & Ht & _)]; [done|by destruct Ht]. }
  unfold close, open. apply wp_bind, wp_modify. cbv iota.
  assert (Hst' : st (file_header_ s') (file s') ∅ al 0 (drop_frames (drop_frames s'))) by by split.
  wp_b. apply wp_may_fail; [done|]. apply wp_bind, wp_modify.
  revert Hst'. generalize (drop_frames (drop_frames s')) as s1. intros s1 Hst1.
  wp_step. eapply (wp_get_this_page Hst1); [exact E'|]. clear Hst1 s1. intros s1 Hst1.
  wp_b. eapply (wp_frame_data Hst1); [multiset_solver|exact E'|]. wp_b. apply (wp_set_header Hst1).
  clear Hst1 s1. intros s1 Hst1. wp_b. apply wp_next_fail; [apply Hst1|]. cbv iota. wp_step.
  exists h, (file s'), al. split; [eapply st_pins_eq; [exact Hst1|multiset_solver]|].
  split; [done|]. split; [done|]. split; [done|].
  destruct Hcases as [(Er & -> & Hh)|(ls & ups & Ht & Hpg & ->)]; [left|right].
  - split; [done|]. split; [done|]. by apply Hfile.
  - exists ls, ups. split; [by eapply tree_ok_agree|done].
Qed.
End entry.
