(* ===== verification/BplusScanSpec.v ===== *)
(** * A scan delivers the entries between its bounds

    A position in the tree is a leaf and a place among its items.  [open] finds
    the position of the left and of the right bound, [next_entry] moves the left
    one on until it has delivered the item at the right one. *)

From Stdlib Require Import ZArith Lia.
From stdpp Require Import base gmap gmultiset sets tactics.
From stdpp Require Import list.
From S2P Require Import Prelude.
From S2P Require Import Monad.
From S2P Require Import LowerBound.
From S2P Require Import Comparator.
From S2P Require Import NodePool.
From S2P Require Import BplusNode.
From S2P Require Import NodeLogic.
From S2P Require Import BplusTree.
From S2P Require Import BplusScan.
From S2P Require Import BplusSpec.
From S2P Require Import BplusSearch.
From S2P Require Import BplusOrder.
From S2P Require Import BplusEntry.
#[local] Open Scope Z_scope.

Section scan.
Context {A : Type} (attr_comparator_ : A -> A -> Z) (zero_attr : A).
Abbreviation K := (A * RID)%type.
Abbreviation cmp := (key_comparator_ attr_comparator_).
Context (dom : K -> Prop) `{!CmpOrder dom cmp}.
Abbreviation LeafNd := (LeafNd (A := A)).
Abbreviation SC := BplusTreeScanner (only parsing).

(** ** Steps of a scan *)

Lemma wp_on_index {B} (m : M (Index K) B) (S : Scan) (Q : B -> Scan -> Prop) E :
  wp m (index S) (fun a i => Q a (mk_Scan i (scanner S))) (fun rc i => E rc (mk_Scan i (scanner S))) ->
  wp (on_index m) S Q E.
Proof. unfold wp, on_index, zoom. by destruct (m (index S)). Qed.

Context (h : IndexFileHeader) (d : gmap PageNum (PageData K)) (al : gset PageNum) (ku : Z)
  (root : PageNum) (ls : list LeafNd) (ups : list (list (PageNum * list (K * PageNum)))).
Hypothesis Ht : tree_ok attr_comparator_ zero_attr dom h root ls ups d.
Hypothesis Hroot : root_page h = root.

(** The scanner is [sc], the frames [P] are pinned. *)
Definition sst (P : gmultiset PageNum) (sc : SC) (S : Scan) : Prop :=
  st h d P al ku (index S) /\ scanner S = sc.

(** The leaf [l] with the leaves in front and behind. *)
Lemma leaf_at l1 l l2 :
  ls = l1 ++ l :: l2 ->
  exists o, d !! lpage l = Some (NodePage (LeafNode (mk_leaf o (default BP_INVALID_PAGE_NUM (lpage <$> last l1))
                                                      (next_of l2 BP_INVALID_PAGE_NUM) (litems l)))) /\
    1 < lpage l /\ litems l <> [].
Proof.
  intros E. pose proof Ht as Ht'. rewrite E in Ht'. destruct (tree_leaf _ _ _ _ _ _ _ _ _ _ Ht') as (o & El & _ & _ & Hp & _).
  exists o. split; [done|]. split; [done|].
  pose proof (ok_nonempty _ _ _ _ _ _ _ _ Ht') as Hne. apply Forall_app in Hne as [_ Hne].
  by apply Forall_cons in Hne as [Hne _].
Qed.

Lemma leaves_nodup : NoDup (lpage <$> ls).
Proof. pose proof (ok_nodup _ _ _ _ _ _ _ _ Ht) as H. by apply NoDup_app in H as (H & _ & _). Qed.

Lemma leaf_pages l : l ∈ ls -> 1 < lpage l.
Proof.
  intros Hl. pose proof (ok_pages _ _ _ _ _ _ _ _ Ht) as H. rewrite list.Forall_forall in H. apply H.
  apply elem_of_app. left. by apply list_elem_of_fmap_2.
Qed.

(** A leaf is found in one place only. *)
Lemma same_place l1 l l2 l1' l' l2' :
  ls = l1 ++ l :: l2 -> ls = l1' ++ l' :: l2' -> lpage l = lpage l' -> l1 = l1' /\ l = l' /\ l2 = l2'.
Proof.
  intros E E' Hp. pose proof leaves_nodup as Hnd. rewrite E in Hnd. rewrite E in E'. clear E.
  apply app_eq_inv in E' as [(m & -> & E2)|(m & -> & E2)]; destruct m as [|x m]; simpl in E2;
    injection E2 as; subst; rewrite ?app_nil_r; try done; exfalso; rewrite ?fmap_app in Hnd; csimpl in Hnd.
  - apply NoDup_app in Hnd as (Hnd & Hd & _). apply (Hd (lpage x)); [|rewrite Hp; by left].
    in_list.
  - apply NoDup_app in Hnd as (_ & _ & Hnd). apply NoDup_cons in Hnd as [Hn _]. apply Hn. rewrite Hp, fmap_app. csimpl.
    in_list.
Qed.

(** ** Looking up a bound *)

Lemma leaf_cut l1 l l2 key :
  ls = l1 ++ l :: l2 -> dom key -> covers attr_comparator_ key (seps l1) (lsep l, lpage l) (seps l2) ->
  exists xs ys found, litems l = xs ++ ys /\
    Leaf.lookup_items cmp (litems l) key = Some (zlen xs, found) /\
    (forall k, k ∈ (entries l1 ++ xs).*1 -> key_lt cmp k key) /\ (forall k, k ∈ (ys ++ entries l2).*1 -> key_le cmp key k).
Proof.
  intros E Hk Hcov. pose proof Ht as Ht'. rewrite E in Ht'.
  pose proof (ok_ranged _ _ _ _ _ _ _ _ Ht') as Hr.
  destruct (covers_sides _ _ _ _ _ _ _ Hr Hk Hcov) as [Hlo Hhi].
  apply ranged_app in Hr as [_ [(Hs & Hd & _) _]].
  destruct (sorted_split dom cmp key (litems l) Hk Hd Hs) as (xs & ys & Exy & Hx & Hy).
  rewrite Exy in *. destruct (leaf_lookup_at dom cmp key xs ys Hk Hd Hs Hx Hy) as (found & Elk & _).
  exists xs, ys, found. split; [done|]. split; [done|].
  split; rewrite fmap_app; intros k [Hin|Hin]%elem_of_app; auto.
  specialize (Hhi k Hin). unfold key_lt, key_le in *. lia.
Qed.

(** [find_leaf], [left_most_page] and [right_most_page]. *)
Lemma wp_seek key P sc S (Q : Frame * Z -> Scan -> Prop) E :
  dom key -> st h d P al (ku + 1) (index S) -> scanner S = sc ->
  (forall l1 l l2 xs ys S', ls = l1 ++ l :: l2 -> litems l = xs ++ ys ->
     (forall k, k ∈ (entries l1 ++ xs).*1 -> key_lt cmp k key) -> (forall k, k ∈ (ys ++ entries l2).*1 -> key_le cmp key k) ->
     sst (P ⊎ {[+ lpage l +]}) sc S' -> Q (lpage l, zlen xs) S') ->
  wp (seek attr_comparator_ key) S Q E.
Proof.
  intros Hk Hst Hsc HQ. unfold seek. apply wp_on_index. wp_b. apply wp_catch. unfold find_leaf.
  pose proof (getter_find attr_comparator_ zero_attr dom h d al (ku + 1) key Hk
    (fun rc s' => wp (free_key;; throw rc) s' (fun a i => wp (r ← Leaf.lookup cmp a key; free_key;; mret (a, r.1)) i
       (fun a i => Q a (mk_Scan i (scanner S))) (fun rc i => E rc (mk_Scan i (scanner S))))
       (fun rc i => E rc (mk_Scan i (scanner S))))) as Hg.
  destruct (find_leaf_internal_spec _ _ _ _ _ _ _ _ _ _ _ _ _ Hg ltac:(by split; [|intros k Hin%elem_of_nil]) Ht Hroot)
    as (l1 & l & l2 & Els & Hcov & Hwp).
  apply (Hwp P); [done|]. intros s1 Hst1. clear Hwp Hg.
  destruct (leaf_at _ _ _ Els) as (o & El & _). destruct (leaf_cut _ _ _ _ Els Hk Hcov) as (xs & ys & f & Exy & Elk & Hx & Hy).
  wp_b. eapply wp_leaf_lookup; [exact Hst1|multiset_solver|exact El|exact Elk|].
  wp_b. apply wp_modify, wp_ret. simpl. apply (HQ l1 l l2 xs ys); [done|done|done|done|].
  split; [|done]. simpl. destruct Hst1 as [H1 H2 H3 H4 H5 H6 H7]. split; try done. simpl. lia.
Qed.

Lemma wp_edge (C : list (K * PageNum) -> K * PageNum -> list (K * PageNum) -> Prop) getter P sc S (Q : Frame -> Scan -> Prop) E :
  getter_ok attr_comparator_ zero_attr dom h d al ku getter C (fun rc i => E rc (mk_Scan i (scanner S))) ->
  C [] (zero_key zero_attr, root) [] -> sst P sc S ->
  (forall l1 l l2 S', ls = l1 ++ l :: l2 -> C (seps l1) (lsep l, lpage l) (seps l2) ->
     sst (P ⊎ {[+ lpage l +]}) sc S' -> Q (lpage l) S') ->
  wp (on_index (find_leaf_internal getter)) S Q E.
Proof.
  intros Hg HC [Hst Hsc] HQ. apply wp_on_index.
  destruct (find_leaf_internal_spec _ _ _ _ _ _ _ _ _ _ _ _ _ Hg HC Ht Hroot) as (l1 & l & l2 & Els & Hcov & Hwp).
  apply (Hwp P); [done|]. intros s1 Hst1. by eapply HQ.
Qed.

(** ** The bounds *)

Definition low_bound (left : option (A * Z)) (inclusive : bool) : option K :=
  (fun b : A * Z => (b.1, if inclusive then RID_min else RID_max)) <$> left.
Definition high_bound (right : option (A * Z)) (inclusive : bool) : option K :=
  (fun b : A * Z => (b.1, if inclusive then RID_max else RID_min)) <$> right.
Definition bound_dom (b : option K) : Prop := forall k, b = Some k -> dom k.

Lemma wp_bound_key uk len (incl want : bool) kin kex P sc S (Q : K -> Scan -> Prop) E :
  sst P sc S ->
  (forall S', st h d P al (ku + 1) (index S') -> scanner S' = sc -> Q (uk, if incl then kin else kex) S') ->
  wp (bound_key None uk len incl want kin kex) S Q E.
Proof.
  intros [Hst Hsc] HQ. unfold bound_key. cbv iota. wp_b. apply wp_ret. wp_b. apply wp_on_index. cbn [fst snd].
  rewrite orb_false_r. eapply wp_make_key; [exact Hst|]. intros s1 Hst1.
  eapply wp_of_option; [reflexivity|]. by apply HQ.
Qed.

(** The parts of the list of entries around a position. *)
Lemma entries_at l1 (l : LeafNd) l2 xs ys :
  ls = l1 ++ l :: l2 -> litems l = xs ++ ys -> entries ls = (entries l1 ++ xs) ++ ys ++ entries l2.
Proof. intros -> E. by rewrite entries_app, entries_cons, E, <- !app_assoc. Qed.

Definition left_found lo P sc (stop : bool) (S : Scan) : Prop :=
  if stop then exists l, l ∈ ls /\ sst (P ⊎ {[+ lpage l +]}) (set_left (Some (lpage l)) sc) S /\
    (forall k, k ∈ (entries ls).*1 -> above cmp lo k = false)
  else exists a l b u v, ls = a ++ l :: b /\ litems l = u ++ v /\ v <> [] /\
    (forall k, k ∈ (entries a ++ u).*1 -> above cmp lo k = false) /\
    (forall k, k ∈ (v ++ entries b).*1 -> above cmp lo k = true) /\
    sst (P ⊎ {[+ lpage l +]}) (set_iter (zlen u) (set_left (Some (lpage l)) sc)) S.

Lemma sst_upd P sc S (f : SC -> SC) : sst P sc S -> sst P (f sc) (mk_Scan (index S) (f (scanner S))).
Proof. intros [H <-]. by split. Qed.

Lemma sst_pins P P' sc S : sst P sc S -> P = P' -> sst P' sc S.
Proof. by intros H <-. Qed.

Lemma wp_open_left left incl P sc S E :
  bound_dom (low_bound left incl) -> sst P sc S ->
  wp (open_left attr_comparator_ None left incl) S (left_found (low_bound left incl) P sc) E.
Proof.
  intros Hdom Hs. unfold open_left. destruct left as [[uk len]|]; cbn [low_bound fmap option_fmap option_map fst snd] in *.
  - set (lk := (uk, if incl then RID_min else RID_max)) in *. assert (Hk : dom lk) by (by apply Hdom).
    wp_b. eapply wp_bound_key; [exact Hs|]. clear Hs S. intros S Hst Hsc. fold lk.
    wp_b. eapply wp_seek; [exact Hk|exact Hst|exact Hsc|]. clear Hst Hsc S.
    intros l1 l l2 xs ys S Els Exy Hx Hy Hs. destruct (leaf_at _ _ _ Els) as (o & El & Hp & Hne).
    wp_b. apply wp_modify. apply (sst_upd _ _ _ (set_left (Some (lpage l)))) in Hs.
    revert Hs. generalize (mk_Scan (index S) (set_left (Some (lpage l)) (scanner S))) as S1. clear S. intros S [Hst Hsc].
    wp_b. apply wp_on_index. eapply (wp_size_leaf Hst); [multiset_solver|exact El|]. cbn [l_array].
    assert (Ha : forall k, k ∈ (ys ++ entries l2).*1 -> above cmp (Some lk) k = true).
    { intros k Hin. apply Z.leb_le. by apply Hy. }
    assert (Hb : forall k, k ∈ (entries l1 ++ xs).*1 -> above cmp (Some lk) k = false).
    { intros k Hin. apply Z.leb_gt. apply Hx in Hin as Hlt. apply (cmp_opp (dom := dom)); [| |exact Hlt]; [|done].
      pose proof (ranged_dom _ _ _ _ _ (ok_ranged _ _ _ _ _ _ _ _ Ht)) as Hd. apply Hd.
      rewrite (entries_at _ _ _ _ _ Els Exy), fmap_app. apply elem_of_app. by left. }
    assert (HS : mk_Scan (index S) (scanner S) = S) by (by destruct S). rewrite HS. rewrite Exy.
    destruct (Z.leb_spec (zlen (xs ++ ys)) (zlen xs)) as [Hend|Hin].
    + assert (ys = []) as -> by (destruct ys; [done|unfold zlen in Hend; rewrite length_app in Hend; simpl in Hend; lia]).
      wp_b. apply wp_on_index. unfold Leaf.next_page. wp_step. wp_step. cbn [next_brother]. rewrite HS.
      destruct l2 as [|l' l2]; cbn [next_of].
      * rewrite Z.eqb_refl. apply wp_ret. exists l. split; [rewrite Els; in_list|]. split; [by split|].
        intros k Hk'. rewrite (entries_at _ _ _ _ _ Els Exy), app_nil_r in Hk'. by apply Hb.
      * assert (Els' : ls = (l1 ++ [l]) ++ l' :: l2) by (by rewrite <- app_assoc).
        destruct (leaf_at _ _ _ Els') as (o' & El' & Hp' & Hne').
        rewrite (proj2 (Z.eqb_neq _ _)) by (unfold BP_INVALID_PAGE_NUM; lia).
        wp_b. apply wp_on_index. apply (wp_unpin_page Hst); [multiset_solver|]. intros s1 Hst1.
        wp_b. apply wp_on_index. eapply (wp_get_this_page Hst1); [exact El'|]. intros s2 Hst2.
        do 2 (wp_b; apply wp_modify). apply wp_ret.
        exists (l1 ++ [l]), l', l2, [], (litems l'). split; [done|]. split; [done|]. split; [done|]. split; [|split].
        -- intros k Hk'. apply Hb. rewrite app_nil_r, entries_app, entries_cons, Exy, app_nil_r in Hk'.
           by rewrite app_nil_r in Hk'.
        -- intros k Hk'. by apply Ha.
        -- split; [simpl; eapply st_pins_eq; [exact Hst2|multiset_solver]|]. simpl. by rewrite Hsc.
    + wp_b. apply wp_modify, wp_ret. exists l1, l, l2, xs, ys. split; [done|]. split; [done|]. split; [|split; [done|split; [done|]]].
      * intros ->. rewrite app_nil_r in Hin. lia.
      * split; [exact Hst|]. simpl. by rewrite Hsc.
  - wp_b. eapply wp_edge; [apply getter_left|done|exact Hs|]. clear Hs S. intros l1 l l2 S Els Hl Hs.
    apply fmap_nil_inv in Hl as ->. destruct (leaf_at _ _ _ Els) as (o & El & Hp & Hne).
    do 2 (wp_b; apply wp_modify). apply wp_ret. exists [], l, l2, [], (litems l). split_and!; try done.
    + intros k Hin. by apply elem_of_nil in Hin.
    + destruct Hs as [H1 H2]. split; [exact H1|]. simpl. by rewrite H2.
Qed.

Definition right_found hi P sc (stop : bool) (S : Scan) : Prop :=
  if stop then exists l, l ∈ ls /\ sst (P ⊎ {[+ lpage l +]}) (set_end (-1) (set_right (Some (lpage l)) sc)) S /\
    (forall k, k ∈ (entries ls).*1 -> below cmp hi k = false)
  else exists a l b u v, ls = a ++ l :: b /\ litems l = u ++ v /\ u <> [] /\
    (forall k, k ∈ (entries a ++ u).*1 -> below cmp hi k = true) /\
    (forall k, k ∈ (v ++ entries b).*1 -> below cmp hi k = false) /\
    sst (P ⊎ {[+ lpage l +]}) (set_end (zlen u - 1) (set_right (Some (lpage l)) sc)) S.

Lemma wp_open_right right incl P sc S E :
  bound_dom (high_bound right incl) -> sst P sc S ->
  wp (open_right attr_comparator_ None right incl) S (right_found (high_bound right incl) P sc) E.
Proof.
  intros Hdom Hs. unfold open_right. destruct right as [[uk len]|]; cbn [high_bound fmap option_fmap option_map fst snd] in *.
  - set (rk := (uk, if incl then RID_max else RID_min)) in *. assert (Hk : dom rk) by (by apply Hdom).
    wp_b. eapply wp_bound_key; [exact Hs|]. clear Hs S. intros S Hst Hsc. fold rk.
    wp_b. eapply wp_seek; [exact Hk|exact Hst|exact Hsc|]. clear Hst Hsc S.
    intros l1 l l2 xs ys S Els Exy Hx Hy Hs. destruct (leaf_at _ _ _ Els) as (o & El & Hp & Hne).
    wp_b. apply wp_modify. apply (sst_upd _ _ _ (set_right (Some (lpage l)))) in Hs.
    revert Hs. generalize (mk_Scan (index S) (set_right (Some (lpage l)) (scanner S))) as S1. clear S. intros S [Hst Hsc].
    assert (Hb : forall k, k ∈ (entries l1 ++ xs).*1 -> below cmp (Some rk) k = true).
    { intros k Hin. apply Z.ltb_lt. by apply Hx. }
    assert (Ha : forall k, k ∈ (ys ++ entries l2).*1 -> below cmp (Some rk) k = false).
    { intros k Hin. apply Z.ltb_ge. apply (cmp_le_opp dom cmp); [done| |by apply Hy].
      pose proof (ranged_dom _ _ _ _ _ (ok_ranged _ _ _ _ _ _ _ _ Ht)) as Hd. apply Hd.
      rewrite (entries_at _ _ _ _ _ Els Exy), fmap_app. apply elem_of_app. by right. }
    assert (HS : mk_Scan (index S) (scanner S) = S) by (by destruct S).
    destruct (Z.ltb_spec 0 (zlen xs)) as [Hin|Hend].
    + wp_b. apply wp_modify, wp_ret. exists l1, l, l2, xs, ys. split; [done|]. split; [done|]. split; [by destruct xs|].
      split; [done|split; [done|]]. split; [exact Hst|]. simpl. by rewrite Hsc.
    + assert (xs = []) as -> by (destruct xs; [done|unfold zlen in Hend; simpl in Hend; lia]).
      wp_b. apply wp_on_index. unfold Leaf.prev_page. wp_step. wp_step. cbn [prev_brother]. rewrite HS.
      destruct l1 as [|l' l1 _] using rev_ind.
      * simpl default. rewrite Z.eqb_refl. wp_b. apply wp_modify, wp_ret. exists l. split; [rewrite Els; in_list|].
        split; [split; [exact Hst|simpl; by rewrite Hsc]|].
        intros k Hk'. rewrite (entries_at _ _ _ _ _ Els Exy) in Hk'. by apply Ha.
      * rewrite last_snoc. simpl default. rewrite <- app_assoc in Els. simpl in Els.
        destruct (leaf_at _ _ _ Els) as (o' & El' & Hp' & Hne').
        rewrite (proj2 (Z.eqb_neq _ _)) by (unfold BP_INVALID_PAGE_NUM; lia).
        wp_b. apply wp_on_index. apply (wp_unpin_page Hst); [multiset_solver|]. intros s1 Hst1.
        wp_b. apply wp_on_index. eapply (wp_get_this_page Hst1); [exact El'|]. intros s2 Hst2.
        wp_b. apply wp_modify. wp_b. apply wp_on_index. cbn [index scanner].
        eapply (wp_size_leaf Hst2); [multiset_solver|exact El'|]. wp_b. apply wp_modify. apply wp_ret. cbn [l_array].
        exists l1, l', (l :: l2), (litems l'), []. split; [done|]. split; [by rewrite app_nil_r|]. split; [done|]. split; [|split].
        -- intros k Hk'. apply Hb. by rewrite app_nil_r, entries_app, entries_cons, app_nil_r.
        -- intros k Hk'. apply Ha. rewrite entries_cons, Exy in Hk'. exact Hk'.
        -- split; [simpl; eapply st_pins_eq; [exact Hst2|multiset_solver]|]. simpl. by rewrite Hsc.
  - wp_b. eapply wp_edge; [apply getter_right|done|exact Hs|]. clear Hs S. intros l1 l l2 S Els Hl Hs.
    apply fmap_nil_inv in Hl as ->. destruct (leaf_at _ _ _ Els) as (o & El & Hp & Hne). destruct Hs as [Hst Hsc].
    wp_b. apply wp_modify. wp_b. apply wp_on_index. cbn [index scanner].
    eapply (wp_size_leaf Hst); [multiset_solver|exact El|]. wp_b. apply wp_modify. apply wp_ret. cbn [l_array].
    exists l1, l, [], (litems l), []. split_and!; try done.
    + by rewrite app_nil_r.
    + intros k Hin. by apply elem_of_nil in Hin.
    + simpl. by rewrite Hsc.
Qed.

(** ** The positions of the two bounds *)

Lemma places a (l : LeafNd) b a' l' b' :
  a ++ l :: b = a' ++ l' :: b' ->
  (a = a' /\ l = l' /\ b = b') \/ (exists mid, a' = a ++ l :: mid /\ b = mid ++ l' :: b') \/
  (exists mid, a = a' ++ l' :: mid /\ b' = mid ++ l :: b).
Proof.
  intros [(m & -> & E)|(m & -> & E)]%app_eq_inv; destruct m as [|x m]; simpl in E; injection E as -> E.
  - left. by rewrite app_nil_r, E.
  - right; right. by exists m.
  - left. by rewrite app_nil_r, E.
  - right; left. by exists m.
Qed.

(** The item at the right bound is [m] items behind the left bound. *)
Lemma bounds_order a l b u v a' l' b' u' v' m :
  ls = a ++ l :: b -> litems l = u ++ v -> ls = a' ++ l' :: b' -> litems l' = u' ++ v' -> u' <> [] -> m <> [] ->
  entries a' ++ u' = (entries a ++ u) ++ m ->
  (a = a' /\ l = l' /\ b = b' /\ u' = u ++ m) \/
  (exists mid, a' = a ++ l :: mid /\ b = mid ++ l' :: b' /\ m = v ++ entries mid ++ u' /\ lpage l <> lpage l').
Proof.
  intros E1 E2 E3 E4 Hu Hm E. pose proof E3 as E5. rewrite E1 in E5. apply places in E5 as [(-> & -> & ->)|[(mid & -> & ->)|(mid & -> & ->)]].
  - left. split_and!; try done. by rewrite <- app_assoc in E; apply app_inv_head in E.
  - right. exists mid. split; [done|]. split; [done|]. split.
    + rewrite entries_app, entries_cons, E2, <- !app_assoc in E. by apply app_inv_head, app_inv_head in E.
    + intros Hp. destruct (same_place _ _ _ _ _ _ E1 E3 Hp) as (Ea & _). apply (f_equal length) in Ea.
      rewrite length_app in Ea. simpl in Ea. lia.
  - exfalso. rewrite entries_app, entries_cons, E4 in E. apply (f_equal length) in E. rewrite !length_app in E.
    destruct m; [done|]. simpl in E. lia.
Qed.

(** Without an item between the bounds the scan is seen to be empty. *)
Lemma bounds_empty a l b u v a' l' b' u' v' :
  ls = a ++ l :: b -> litems l = u ++ v -> v <> [] -> ls = a' ++ l' :: b' -> litems l' = u' ++ v' -> u' <> [] ->
  entries a' ++ u' = entries a ++ u ->
  (lpage l = lpage l' /\ u' = u) \/ (lpage l <> lpage l' /\ exists c, a = c ++ [l']).
Proof.
  intros E1 E2 Hv E3 E4 Hu E. pose proof E3 as E5. rewrite E1 in E5.
  apply places in E5 as [(-> & -> & ->)|[(mid & -> & ->)|(mid & -> & ->)]].
  - left. split; [done|]. by apply app_inv_head in E.
  - exfalso. rewrite entries_app, entries_cons, E2 in E. apply (f_equal length) in E. rewrite !length_app in E.
    destruct u'; [done|]. simpl in E. lia.
  - right. split.
    + intros Hp. destruct (same_place _ _ _ _ _ _ E1 E3 Hp) as (Ea & _). apply (f_equal length) in Ea.
      rewrite length_app in Ea. simpl in Ea. lia.
    + exists a'. do 2 f_equal. destruct mid as [|l2 mid]; [done|]. exfalso.
      assert (Hl2 : litems l2 <> []).
      { assert (Els : ls = (a' ++ [l']) ++ l2 :: (mid ++ l :: b)) by (rewrite E3, <- app_assoc; done).
        by destruct (leaf_at _ _ _ Els) as (_ & _ & _ & H). }
      rewrite entries_app, !entries_cons, E4 in E. apply (f_equal length) in E. rewrite !length_app in E.
      destruct (litems l2); [done|]. simpl in E. lia.
Qed.

Lemma prev_behind a l b l' :
  ls = a ++ l :: b -> l' ∈ l :: b -> default BP_INVALID_PAGE_NUM (lpage <$> last a) <> lpage l'.
Proof.
  intros E Hl'. destruct a as [|x a _] using rev_ind.
  - assert (1 < lpage l') by (apply leaf_pages; by rewrite E). simpl. unfold BP_INVALID_PAGE_NUM. lia.
  - rewrite last_snoc. simpl. intros Hp. pose proof leaves_nodup as Hnd. rewrite E, <- app_assoc, fmap_app in Hnd.
    apply NoDup_app in Hnd as (_ & _ & Hnd). cbn [app fmap list_fmap] in Hnd. apply NoDup_cons in Hnd as [Hn _].
    apply Hn. rewrite Hp. change (lpage l' ∈ (lpage <$> (l :: b))). by apply list_elem_of_fmap_2.
Qed.

(** ** [next_entry] *)

Definition frames_of (sc : SC) : gmultiset PageNum :=
  (match left_frame_ sc with Some p => {[+ p +]} | None => ∅ end) ⊎
  (match right_frame_ sc with Some p => {[+ p +]} | None => ∅ end).

(** The scanner has yet to deliver the entries [m]. *)
Definition to_come (sc : SC) (m : list (K * RID)) : Prop :=
  match m with
  | [] => end_index_ sc = -1
  | _ => exists a l b u v a' l' b' u' v',
      (ls = a ++ l :: b /\ litems l = u ++ v /\ v <> [] /\ left_frame_ sc = Some (lpage l) /\ iter_index_ sc = zlen u) /\
      (ls = a' ++ l' :: b' /\ litems l' = u' ++ v' /\ u' <> [] /\ right_frame_ sc = Some (lpage l') /\
       end_index_ sc = zlen u' - 1) /\
      entries a' ++ u' = (entries a ++ u) ++ m
  end.
Definition scanning (m : list (K * RID)) (S : Scan) : Prop :=
  exists sc, sst (frames_of sc) sc S /\ to_come sc m.

Lemma wp_the_left (S : Scan (A := A)) p (Q : Frame -> Scan -> Prop) E : left_frame_ (scanner S) = Some p -> Q p S -> wp the_left S Q E.
Proof. intros Hp HQ. unfold the_left. wp_b. apply wp_get_state. eapply wp_of_option; [exact Hp|done]. Qed.
Lemma wp_the_right (S : Scan (A := A)) p (Q : Frame -> Scan -> Prop) E : right_frame_ (scanner S) = Some p -> Q p S -> wp the_right S Q E.
Proof. intros Hp HQ. unfold the_right. wp_b. apply wp_get_state. eapply wp_of_option; [exact Hp|done]. Qed.

Lemma wp_next_entry e m S E :
  scanning (e :: m) S -> wp next_entry S (fun rid S' => rid = e.2 /\ scanning m S') E.
Proof.
  intros (sc & [Hst Hsc] & a & l & b & u & v & a' & l' & b' & u' & v' & (E1 & E2 & Hv & Hlf & Hit) & (E3 & E4 & Hu & Hrf & Hend) & Em).
  destruct (leaf_at _ _ _ E1) as (o & El & Hp & _).
  pose proof (bounds_order _ _ _ _ _ _ _ _ _ _ _ E1 E2 E3 E4 Hu (not_eq_sym (@nil_cons _ e m)) Em) as Hord.
  destruct v as [|[k rid] v]; [done|].
  assert (e = (k, rid)) as ->.
  { destruct Hord as [(-> & -> & -> & ->)|(mid & _ & _ & Ez & _)]; [|by injection Ez].
    rewrite E2 in E4. rewrite <- app_assoc in E4. apply app_inv_head in E4. by injection E4. }
  assert (Hfr : frames_of sc = {[+ lpage l +]} ⊎ {[+ lpage l' +]}) by (unfold frames_of; by rewrite Hlf, Hrf).
  rewrite Hfr in Hst. unfold next_entry. wp_b. apply wp_get_state. rewrite Hsc, Hend, Hit.
  assert (0 < zlen u') by (destruct u'; [done|unfold zlen; simpl; lia]).
  rewrite (proj2 (Z.eqb_neq _ _)) by lia. wp_b. eapply wp_the_left; [by rewrite Hsc|].
  wp_b. apply wp_on_index. unfold Leaf.value_at, Leaf.item_at. wp_b. eapply (wp_leaf Hst); [multiset_solver|exact El|].
  cbn [l_array]. rewrite E2. eapply wp_of_option; [apply zget_middle|]. apply wp_ret. cbn [snd].
  assert (HS : mk_Scan (index S) (scanner S) = S) by (by destruct S). rewrite HS.
  wp_b. eapply wp_the_right; [by rewrite Hsc|].
  (* the left bound moves on within its leaf *)
  assert (Hstep : forall S' sc', m <> [] -> v <> [] -> sst (frames_of sc) sc' S' ->
    left_frame_ sc' = left_frame_ sc -> right_frame_ sc' = right_frame_ sc -> end_index_ sc' = end_index_ sc ->
    iter_index_ sc' = iter_index_ sc + 1 -> scanning m S').
  { intros S' sc' Hm Hv' Hs' L1 L2 L3 L4. exists sc'. split; [by unfold frames_of in *; rewrite L1, L2|].
    destruct m as [|e m]; [done|]. exists a, l, b, (u ++ [(k, rid)]), v, a', l', b', u', v'. split_and!; try done.
    - by rewrite <- app_assoc.
    - by rewrite L1.
    - rewrite L4, Hit. unfold zlen. rewrite length_app. simpl. lia.
    - by rewrite L2.
    - by rewrite L3.
    - rewrite Em, <- !app_assoc. done. }
  rewrite <- Hfr in Hst.
  destruct Hord as [(-> & -> & -> & ->)|(mid & -> & -> & [= ->] & Hne)].
  - rewrite Z.eqb_refl. rewrite E2, <- app_assoc in E4. apply app_inv_head in E4. injection E4 as ->.
    destruct m as [|e m].
    + rewrite (proj2 (Z.eqb_eq _ _)) by (unfold zlen; rewrite length_app; simpl; lia). cbn [andb].
      wp_b. apply wp_modify, wp_ret. split; [done|]. exists (set_end (-1) sc). split; [|done].
      split; [done|]. simpl. by rewrite Hsc.
    + rewrite (proj2 (Z.eqb_neq _ _)) by (unfold zlen; rewrite length_app; simpl; lia). cbn [andb].
      wp_b. apply wp_on_index. eapply (wp_size_leaf Hst); [rewrite Hfr; multiset_solver|exact El|]. cbn [l_array].
      rewrite E2, (proj2 (Z.ltb_lt _ _)) by (unfold zlen; rewrite length_app; simpl; lia).
      wp_b. apply wp_modify, wp_ret. split; [done|].
      apply (Hstep _ (set_iter (zlen u + 1) sc)); try done; [|by rewrite <- Hit].
      split; [done|]. simpl. by rewrite Hsc.
  - rewrite (proj2 (Z.eqb_neq _ _) Hne). cbn [andb negb].
    wp_b. apply wp_on_index. eapply (wp_size_leaf Hst); [rewrite Hfr; multiset_solver|exact El|]. cbn [l_array].
    rewrite HS, E2. destruct v as [|e0 v].
    + rewrite (proj2 (Z.ltb_ge _ _)) by (unfold zlen; rewrite length_app; simpl; lia).
      wp_b. apply wp_on_index. unfold Leaf.next_page. wp_b. eapply (wp_leaf Hst); [rewrite Hfr; multiset_solver|exact El|].
      apply wp_ret. cbn [next_brother]. rewrite HS.
      assert (Hb : exists l2 b2, mid ++ l' :: b' = l2 :: b2) by (destruct mid; simpl; eauto).
      destruct Hb as (l2 & b2 & Eb). rewrite Eb in E1 |- *. cbn [next_of].
      assert (E1' : ls = (a ++ [l]) ++ l2 :: b2) by (by rewrite <- app_assoc).
      destruct (leaf_at _ _ _ E1') as (o2 & El2 & Hp2 & Hne2).
      wp_b. apply wp_on_index. apply (wp_unpin_page Hst); [rewrite Hfr; multiset_solver|]. intros s1 Hst1.
      rewrite (proj2 (Z.eqb_neq _ _)) by (unfold BP_INVALID_PAGE_NUM; lia).
      wp_b. apply wp_catch, wp_on_index. eapply (wp_get_this_page Hst1); [exact El2|]. intros s2 Hst2.
      do 2 (wp_b; apply wp_modify). apply wp_ret. split; [done|].
      set (sc' := set_iter 0 (set_left (Some (lpage l2)) sc)). exists sc'. split.
      { split; [|by simpl; rewrite Hsc]. simpl. eapply st_pins_eq; [exact Hst2|]. unfold frames_of at 2. simpl. rewrite Hrf, Hfr.
        multiset_solver. }
      assert (Hm : [] ++ entries mid ++ u' <> []) by (simpl; destruct (entries mid), u'; done).
      destruct ([] ++ entries mid ++ u') as [|e m] eqn:Em'; [done|].
      exists (a ++ [l]), l2, b2, [], (litems l2), (a ++ l :: mid), l', b', u', v'. split_and!; try done.
      rewrite Em, entries_app, entries_cons, E2, app_nil_r. cbn [entries fmap list_fmap concat]. by rewrite app_nil_r, <- !app_assoc.
    + rewrite (proj2 (Z.ltb_lt _ _)) by (unfold zlen; rewrite length_app; simpl; lia).
      wp_b. apply wp_modify, wp_ret. split; [done|].
      apply (Hstep _ (set_iter (zlen u + 1) sc)); try done; [|by rewrite <- Hit].
      split; [done|]. simpl. by rewrite Hsc.
Qed.

Lemma wp_next_entry_end S (Q : RID -> Scan -> Prop) E : scanning [] S -> E RECORD_EOF S -> wp next_entry S Q E.
Proof.
  intros (sc & [Hst Hsc] & Hend) HE. unfold next_entry. wp_b. apply wp_get_state. rewrite Hsc.
  simpl in Hend. rewrite Hend. by apply wp_throw.
Qed.

Lemma wp_collect m S rids fuel (Q : list RID * RC -> Scan -> Prop) E :
  scanning m S -> (length m <= fuel)%nat ->
  (forall S', scanning [] S' -> Q (rids ++ m.*2, RECORD_EOF) S') -> wp (collect rids fuel) S Q E.
Proof.
  revert S rids fuel. induction m as [|e m IH]; intros S rids fuel Hs Hf HQ.
  - destruct fuel; simpl; wp_b; apply wp_attempt; (apply wp_next_entry_end; [done|]); apply wp_ret;
      rewrite app_nil_r in HQ; by apply HQ.
  - simpl in Hf. destruct fuel as [|fuel]; [lia|]. simpl. wp_b. apply wp_attempt.
    eapply wp_mono; [apply (wp_next_entry _ _ _ (fun _ _ => False) Hs)|cbv beta|done].
    intros rid S' [-> Hs']. apply (IH S'); [done|lia|]. intros S2 HS2. rewrite <- app_assoc. by apply HQ.
Qed.

Lemma wp_close S sc (Q : unit -> Scan -> Prop) E :
  sst (frames_of sc) sc S -> (forall S', st h d ∅ al ku (index S') -> Q tt S') -> wp close S Q E.
Proof using Type.
  clear Ht Hroot CmpOrder0 ls ups root dom zero_attr attr_comparator_.
  intros [Hst Hsc] HQ. unfold close. wp_b. apply wp_get_state. rewrite Hsc.
  assert (H1 : forall S', sst (match right_frame_ sc with Some p => {[+ p +]} | None => ∅ end) (set_left None sc) S' ->
    wp (s ← get_state;
        match right_frame_ (scanner s) with
        | Some frame => on_index (unpin_page frame);; upd_scanner (set_right None)
        | None => mret tt
        end;;
        upd_scanner (set_end (-1));; upd_scanner (set_inited false)) S' Q E).
  { intros S' [Hst' Hsc']. wp_b. apply wp_get_state. rewrite Hsc'. simpl. destruct (right_frame_ sc) as [p|].
    - wp_b. apply wp_on_index. apply (wp_unpin_page Hst'); [multiset_solver|]. intros s1 Hst1.
      do 2 (wp_b; apply wp_modify). apply wp_modify. apply HQ. simpl. eapply st_pins_eq; [exact Hst1|multiset_solver].
    - wp_b. apply wp_ret. wp_b. apply wp_modify. apply wp_modify. by apply HQ. }
  unfold frames_of in Hst. destruct (left_frame_ sc) as [p|] eqn:El.
  - wp_b. apply wp_on_index. apply (wp_unpin_page Hst); [multiset_solver|]. intros s1 Hst1. wp_b. apply wp_modify.
    apply H1. split; [|by simpl; rewrite Hsc]. simpl. eapply st_pins_eq; [exact Hst1|multiset_solver].
  - wp_b. apply wp_ret. apply H1. split; [eapply st_pins_eq; [exact Hst|multiset_solver]|]. rewrite Hsc.
    destruct sc. simpl in El. by subst.
Qed.

(** ** [open] and the whole scan *)

(** The check of the bounds in [open]. *)
Definition bounds_valid (left : option (A * Z)) (li : bool) (right : option (A * Z)) (ri : bool) : bool :=
  match left, right with
  | Some (l, _), Some (r, _) =>
      negb ((0 <? attr_comparator_ l r) || ((attr_comparator_ l r =? 0) && (negb li || negb ri)))
  | _, _ => true
  end.

Lemma bounds_cover left li right ri k :
  bounds_valid left li right ri = true -> bound_dom (low_bound left li) -> bound_dom (high_bound right ri) -> dom k ->
  above cmp (low_bound left li) k = true \/ below cmp (high_bound right ri) k = true.
Proof.
  intros Hv Hl Hr Hk. destruct left as [[l ll]|]; [|by left]. destruct right as [[r lr]|]; [|by right].
  set (lk := (l, if li then RID_min else RID_max)). set (rk := (r, if ri then RID_max else RID_min)).
  assert (Hlk : dom lk) by (by apply Hl). assert (Hrk : dom rk) by (by apply Hr).
  assert (Hle : cmp lk rk <= 0).
  { unfold bounds_valid in Hv. unfold key_comparator_, KeyComparator, lk, rk. cbn [fst snd].
    destruct (Z.eqb_spec (attr_comparator_ l r) 0) as [E|E]; cbn [negb].
    - rewrite E in Hv. by destruct li, ri.
    - destruct (Z.ltb_spec 0 (attr_comparator_ l r)); [done|]. lia. }
  change (above cmp (Some lk) k = true \/ below cmp (Some rk) k = true). simpl.
  destruct (Z.leb_spec (cmp lk k) 0); [by left|right]. apply Z.ltb_lt.
  apply (cmp_lt_le_trans dom cmp _ lk); auto. apply (cmp_opp (dom := dom)); [done|done|lia].
Qed.

Lemma wp_open left li right ri S E :
  bounds_valid left li right ri = true -> bound_dom (low_bound left li) -> bound_dom (high_bound right ri) ->
  sst ∅ new_scanner S ->
  wp (open attr_comparator_ None left li right ri) S
    (fun _ => scanning (entry_range cmp (low_bound left li) (high_bound right ri) (entries ls))) E.
Proof.
  intros Hv Hl Hr Hs. pose proof (ranged_dom _ _ _ _ _ (ok_ranged _ _ _ _ _ _ _ _ Ht)) as Hd.
  assert (Hcov : forall k, k ∈ (entries ls).*1 -> above cmp (low_bound left li) k = true \/ below cmp (high_bound right ri) k = true).
  { intros k Hk. apply bounds_cover; auto. }
  set (lo := low_bound left li) in *. set (hi := high_bound right ri) in *.
  unfold open. wp_b. apply wp_get_state. rewrite (proj2 Hs). cbn [inited_ new_scanner]. wp_b. apply wp_modify.
  apply (sst_upd _ _ _ (set_inited true)) in Hs. cbn zeta.
  match goal with |- wp (if ?b then _ else _) _ _ _ => assert (b = false) as -> end.
  { unfold bounds_valid in Hv. destruct left as [[l ll]|], right as [[r lr]|]; try done. by apply negb_true_iff. }
  wp_b. eapply wp_mono; [apply (wp_open_left left li ∅ _ _ (fun _ _ => False) Hl Hs)|cbv beta|done].
  clear Hs S. intros stop S Hlf. destruct stop.
  { destruct Hlf as (l & _ & Hs & Hall). apply wp_ret. rewrite entry_range_none by (intros k Hk; left; by apply Hall).
    eexists. split; [eapply sst_pins; [exact Hs|]; unfold frames_of; simpl; multiset_solver|done]. }
  destruct Hlf as (a & l & b & u & v & E1 & E2 & Hne & Hlo & Hlo' & Hs).
  wp_b. eapply wp_mono; [apply (wp_open_right right ri _ _ _ (fun _ _ => False) Hr Hs)|cbv beta|done].
  clear Hs S. intros stop S Hrf. destruct stop.
  { destruct Hrf as (l' & _ & Hs & Hall). apply wp_ret. rewrite entry_range_none by (intros k Hk; right; by apply Hall).
    eexists. split; [eapply sst_pins; [exact Hs|]; unfold frames_of; simpl; multiset_solver|done]. }
  destruct Hrf as (a' & l' & b' & u' & v' & E3 & E4 & Hne' & Hhi & Hhi' & Hs).
  destruct (leaf_at _ _ _ E1) as (o & El & Hp & _).
  destruct (entry_range_cuts cmp lo hi (entries ls) (entries a ++ u) (v ++ entries b) (entries a' ++ u') (v' ++ entries b'))
    as (mid & Em & _ & ->); [exact (entries_at _ _ _ _ _ E1 E2)|exact (entries_at _ _ _ _ _ E3 E4)|done|done|done|done|done|].
  set (sc := set_end _ _) in Hs.
  assert (Hfr : (∅ ⊎ {[+ lpage l +]}) ⊎ {[+ lpage l' +]} = frames_of sc :> gmultiset PageNum)
    by (unfold frames_of; simpl; multiset_solver).
  rewrite Hfr in Hs. clear Hfr. destruct Hs as [Hst Hsc].
  wp_b. eapply wp_the_left; [by rewrite Hsc|]. wp_b. eapply wp_the_right; [by rewrite Hsc|].
  wp_b. apply wp_get_state. rewrite Hsc. cbn [end_index_ iter_index_ set_end set_iter set_left set_right set_inited sc].
  assert (Hdone : wp (upd_scanner (set_end (-1))) S (fun _ => scanning []) E).
  { apply wp_modify. exists (set_end (-1) sc). split; [|done]. split; [done|]. simpl. by rewrite Hsc. }
  assert (Hprev : forall Q, Q (default BP_INVALID_PAGE_NUM (lpage <$> last a)) S -> wp (on_index (Leaf.prev_page (lpage l))) S Q E).
  { intros Q HQ. apply wp_on_index. unfold Leaf.prev_page. wp_b. eapply (wp_leaf Hst); [|exact El|].
    - unfold frames_of. simpl. multiset_solver.
    - apply wp_ret. cbn [prev_brother]. by destruct S. }
  destruct mid as [|e mid].
  - rewrite app_nil_r in Em. destruct (bounds_empty _ _ _ _ _ _ _ _ _ _ E1 E2 Hne E3 E4 Hne' Em) as [(Hpp & ->)|(Hpp & c & ->)].
    + rewrite Hpp, Z.eqb_refl. cbn [andb]. by rewrite (proj2 (Z.ltb_lt _ _)) by lia.
    + rewrite (proj2 (Z.eqb_neq _ _) Hpp). cbn [andb]. wp_b. apply Hprev. rewrite last_snoc. simpl default.
      by rewrite Z.eqb_refl.
  - assert (Hnot : (lpage l =? lpage l') && (zlen u' - 1 <? zlen u) = false /\
      (default BP_INVALID_PAGE_NUM (lpage <$> last a) =? lpage l') = false).
    { destruct (bounds_order _ _ _ _ _ _ _ _ _ _ _ E1 E2 E3 E4 Hne' (not_eq_sym (@nil_cons _ e mid)) Em)
        as [(-> & -> & -> & ->)|(mid' & -> & -> & _ & Hpp)].
      - rewrite Z.eqb_refl. cbn [andb]. split; [apply Z.ltb_ge; unfold zlen; rewrite length_app; simpl; lia|].
        apply Z.eqb_neq. eapply prev_behind; [exact E1|by left].
      - rewrite (proj2 (Z.eqb_neq _ _) Hpp). split; [done|]. apply Z.eqb_neq. eapply prev_behind; [exact E1|right; in_list]. }
    destruct Hnot as [-> Hn2]. wp_b. apply Hprev. rewrite Hn2. apply wp_ret.
    exists sc. split; [by split|]. exists a, l, b, u, v, a', l', b', u', v'. by split_and!.
Qed.

(** Opening a scan, reading it to its end and closing it. *)
Lemma wp_scan left li right ri fuel S E :
  bounds_valid left li right ri = true -> bound_dom (low_bound left li) -> bound_dom (high_bound right ri) ->
  sst ∅ new_scanner S ->
  (length (entry_range cmp (low_bound left li) (high_bound right ri) (entries ls)) <= fuel)%nat ->
  wp (scan attr_comparator_ None left li right ri fuel) S
    (fun rids S' => rids = (entry_range cmp (low_bound left li) (high_bound right ri) (entries ls)).*2 /\
       st h d ∅ al ku (index S')) E.
Proof.
  intros Hv Hl Hr Hs Hf. unfold scan. wp_b. apply wp_catch.
  eapply wp_mono; [apply (wp_open left li right ri S (fun _ _ => False) Hv Hl Hr Hs)|cbv beta|done].
  intros u S1 Hs1. wp_b. eapply wp_collect; [exact Hs1|exact Hf|]. intros S2 (sc & Hs2 & _).
  wp_b. eapply wp_close; [exact Hs2|]. intros S3 Hst3. cbn [fst snd].
  rewrite bool_decide_eq_true_2 by done. by apply wp_ret.
Qed.
End scan.
