(* ===== verification/BplusLevels.v ===== *)
(** * The levels of a B+ tree, one at a time

    [upper_level] takes the lowest of the levels above a list of nodes off, or
    puts it on; [upper_replace] exchanges the items of one of its nodes.  They are
    what a deletion needs of the levels: it changes a key of a parent, or takes a
    child away from it. *)

From Stdlib Require Import ZArith Lia.
From stdpp Require Import base gmap gmultiset sets tactics.
From stdpp Require Import list.
From S2P Require Import Prelude.
From S2P Require Import Monad.
From S2P Require Import LowerBound.
From S2P Require Import Comparator.
From S2P Require Import NodePool.
From S2P Require Import BplusNode.
From S2P Require Import NodeLogic.
From S2P Require Import BplusTree.
From S2P Require Import BplusSpec.
From S2P Require Import BplusSearch.
From S2P Require Import BplusInsert.
#[local] Open Scope Z_scope.

Section levels.
Context {A : Type} (attr_comparator_ : A -> A -> Z) (zero_attr : A).
Abbreviation K := (A * RID)%type.
Abbreviation cmp := (key_comparator_ attr_comparator_).
Abbreviation grouped := (grouped zero_attr).
Abbreviation firsts := (firsts zero_attr).
Abbreviation first_key := (first_key zero_attr).
Abbreviation upper_ok := (upper_ok zero_attr).
Abbreviation INode := (PageNum * list (K * PageNum))%type.
Implicit Types (d : gmap PageNum (PageData K)) (P : gmultiset PageNum) (al : gset PageNum) (p q : PageNum).
Implicit Types (lvl a b : list INode) (ups : list (list INode)) (F : list (K * PageNum)).

(** The nodes of a level and their children. *)
Record level_ok lvl ups d al : Prop := mk_level_ok {
  lv_nonempty : Forall (fun n : INode => n.2 <> []) lvl;
  lv_ints n : n ∈ lvl -> has_int d n.1 n.2;
  lv_parents n p : n ∈ lvl -> p ∈ n.2.*2 -> has_parent d p n.1;
  lv_nodup : NoDup (items_of lvl).*2;
  lv_below q : q ∈ (items_of lvl).*2 -> 1 < q /\ q ∈ al /\ (q ∉ up_pages (lvl :: ups))
}.

Lemma upper_level h root F lvl ups d al :
  upper_ok h root F (lvl :: ups) d al <->
  F = items_of lvl /\ level_ok lvl ups d al /\ upper_ok h root (firsts lvl) ups d al.
Proof.
  split.
  - intros [(-> & Hne & Hg) Hp (Hi & Hpar & Hu) Hnd Hpg Hh]. rewrite up_pages_cons in Hnd, Hpg.
    pose proof Hnd as (Hnd1 & Hdis & Hnd2)%NoDup_app. split; [done|]. split.
    + split; [done|by apply list.Forall_forall| |done|].
      * intros n p Hn Hpn. simpl in Hp. rewrite (parents_ok_level d lvl) in Hp. by apply (Hp n).
      * intros q Hq. destruct (Hpg q) as [H1 H2]; [apply elem_of_app; by left|]. split; [done|]. split; [done|].
        rewrite up_pages_cons. by apply Hdis.
    + split; rewrite ?firsts_pages; try done. intros q Hq. apply Hpg. apply elem_of_app. by right.
  - intros (-> & [Hne Hi Hp Hnd Hb] & [Hg Hpar Hu Hnd2 Hpg Hh]). rewrite firsts_pages in *. split; try done.
    + simpl. rewrite (parents_ok_level d lvl). intros n Hn p. by apply Hp.
    + split; [by apply list.Forall_forall|done].
    + rewrite up_pages_cons. apply NoDup_app. split; [done|]. split; [|done]. intros q Hq. by apply Hb.
    + rewrite up_pages_cons. intros q [Hq|Hq]%elem_of_app; [|by apply Hpg]. by destruct (Hb q Hq) as (H1 & H2 & _).
Qed.

(** Pages that are not part of the levels may change. *)
Lemma upper_frame h root F ups d d' al al' :
  upper_ok h root F ups d al ->
  (forall q, q ∈ up_pages ups -> d' !! q = d !! q) ->
  (forall q o, q ∈ F.*2 -> has_parent d q o -> has_parent d' q o) ->
  d' !! FIRST_INDEX_PAGE = d !! FIRST_INDEX_PAGE ->
  (forall q, q ∈ F.*2 ++ up_pages ups -> q ∈ al -> q ∈ al') ->
  upper_ok h root F ups d' al'.
Proof.
  intros [Hg Hp Hu Hnd Hpg Hh] Hd Hpar Hh' Hal. split; try done.
  - by eapply parents_ok_mono.
  - by eapply ups_ok_eq.
  - intros q Hq. destruct (Hpg q Hq). split; [done|by apply Hal].
  - unfold hdr_ok in *. by rewrite Hh'.
Qed.

Lemma firsts_replace a pp (I I' : list (K * PageNum)) b :
  first_key (pp, I') = first_key (pp, I) -> firsts (a ++ (pp, I') :: b) = firsts (a ++ (pp, I) :: b).
Proof. intros E. rewrite !firsts_app. unfold BplusSpec.firsts. csimpl. by rewrite E. Qed.

Lemma replace_pages a pp (I I' : list (K * PageNum)) b : (a ++ (pp, I') :: b).*1 = (a ++ (pp, I) :: b).*1.
Proof. by rewrite !fmap_app. Qed.

(** The other nodes of a level are on other pages. *)
Lemma other_nodes a pp (I : list (K * PageNum)) b n :
  NoDup (a ++ (pp, I) :: b).*1 -> n ∈ a \/ n ∈ b -> n.1 <> pp.
Proof.
  rewrite fmap_app. csimpl. intros (_ & D1 & (D2 & _)%NoDup_cons)%NoDup_app [Hn|Hn] E.
  - apply (D1 n.1); [by apply list_elem_of_fmap_2|rewrite E; by left].
  - apply D2. rewrite <- E. by apply list_elem_of_fmap_2.
Qed.

Lemma upper_nodup h root F ups d al : upper_ok h root F ups d al -> NoDup F.*2.
Proof. intros H. by pose proof (u_nodup _ _ _ _ _ _ _ H) as (? & _ & _)%NoDup_app. Qed.

Lemma upper_replace h root F a pp (I I' : list (K * PageNum)) b ups d d' al al' o :
  upper_ok h root F ((a ++ (pp, I) :: b) :: ups) d al ->
  sublist I'.*2 I.*2 -> I' <> [] -> first_key (pp, I') = first_key (pp, I) ->
  d !! pp = Some (NodePage (InternalNode (mk_internal o I))) ->
  d' !! pp = Some (NodePage (InternalNode (mk_internal o I'))) ->
  (forall q, q ∈ up_pages ((a ++ (pp, I) :: b) :: ups) -> q <> pp -> d' !! q = d !! q) ->
  (forall q o, q ∈ (items_of (a ++ (pp, I') :: b)).*2 -> has_parent d q o -> has_parent d' q o) ->
  d' !! FIRST_INDEX_PAGE = d !! FIRST_INDEX_PAGE ->
  (forall q, q ∈ (items_of (a ++ (pp, I') :: b)).*2 ++ up_pages ((a ++ (pp, I) :: b) :: ups) -> q ∈ al -> q ∈ al') ->
  upper_ok h root (items_of (a ++ (pp, I') :: b)) ((a ++ (pp, I') :: b) :: ups) d' al'.
Proof.
  intros (-> & [Hne Hi Hp Hnd Hb] & Hu)%upper_level Hsub HI' Hfk E E' Hd Hpar Hh Hal.
  pose proof (upper_nodup _ _ _ _ _ _ Hu) as Hpn. rewrite firsts_pages in Hpn.
  assert (Hin : (pp, I) ∈ a ++ (pp, I) :: b) by in_list.
  assert (Hold : forall n, n ∈ a \/ n ∈ b -> n ∈ a ++ (pp, I) :: b).
  { intros n. rewrite elem_of_app, elem_of_cons. tauto. }
  assert (Hcases : forall n, n ∈ a ++ (pp, I') :: b -> n = (pp, I') \/ n ∈ a \/ n ∈ b).
  { intros n. rewrite elem_of_app, elem_of_cons. tauto. }
  assert (Hits : sublist (items_of (a ++ (pp, I') :: b)).*2 (items_of (a ++ (pp, I) :: b)).*2).
  { rewrite !items_of_app, !items_of_cons, !fmap_app. cbn [snd]. apply sublist_app; [done|]. by apply sublist_app. }
  assert (Epg : up_pages ((a ++ (pp, I') :: b) :: ups) = up_pages ((a ++ (pp, I) :: b) :: ups)).
  { by rewrite !up_pages_cons, (replace_pages a pp I I' b). }
  apply upper_level. split; [done|]. split; [split|].
  - apply Forall_app in Hne as [H1 [_ H2]%Forall_cons]. apply Forall_app. split; [done|]. by apply Forall_cons.
  - intros n [->|Hn]%Hcases; [by exists o|]. eapply has_int_eq; [|by apply Hi, Hold].
    apply Hd; [|by eapply other_nodes]. rewrite up_pages_cons. apply elem_of_app. left. by apply list_elem_of_fmap_2, Hold.
  - intros n p Hn Hpn'. apply Hpar; [by apply (item_page_in _ n)|].
    destruct (Hcases n Hn) as [->|Hn']; [|apply Hp; [by apply Hold|done]].
    apply (Hp (pp, I)); [done|]. by apply (sublist_subseteq _ _ Hsub).
  - eapply sublist_NoDup; [exact Hnd|exact Hits].
  - intros q Hq. destruct (Hb q) as (H1 & H2 & H3); [by apply (sublist_subseteq _ _ Hits)|]. rewrite Epg.
    split; [done|]. split; [|done]. apply Hal; [apply elem_of_app; by left|done].
  - rewrite (firsts_replace a pp I I' b Hfk). eapply upper_frame; [exact Hu|..].
    + intros q Hq. apply Hd; [rewrite up_pages_cons; apply elem_of_app; by right|].
      pose proof (u_nodup _ _ _ _ _ _ _ Hu) as (_ & Hdis & _)%NoDup_app. rewrite firsts_pages in Hdis.
      intros ->. apply (Hdis pp); [in_list|done].
    + rewrite firsts_pages. intros q x Hq. destruct (decide (q = pp)) as [->|Hne'].
      * by eapply has_parent_node.
      * apply has_parent_eq. apply Hd; [|done]. rewrite up_pages_cons. apply elem_of_app. by left.
    + done.
    + rewrite firsts_pages. intros q Hq. apply Hal. rewrite up_pages_cons. apply elem_of_app. by right.
Qed.
End levels.
