(* ===== verification/BplusMove.v ===== *)
(** * Moving items between siblings of the B+ tree

    The rules for the operations a deletion works with: taking an item from a
    sibling, merging two siblings, changing and removing an item of the parent,
    giving a page back.  [wp_underflow] puts them together for a node with too few
    items ([coalesce_or_redistribute]), for leaves and internal nodes alike. *)

From Stdlib Require Import ZArith Lia.
From stdpp Require Import base gmap gmultiset sets tactics.
From stdpp Require Import list.
From S2P Require Import Prelude.
From S2P Require Import Monad.
From S2P Require Import LowerBound.
From S2P Require Import Comparator.
From S2P Require Import NodePool.
From S2P Require Import BplusNode.
From S2P Require Import NodeLogic.
From S2P Require Import BplusTree.
From S2P Require Import BplusSpec.
From S2P Require Import BplusSearch.
From S2P Require Import BplusInsert.
#[local] Open Scope Z_scope.

Section move.
Context {A : Type}.
Abbreviation K := (A * RID)%type.
Context {h : IndexFileHeader} {d : gmap PageNum (PageData K)} {P : gmultiset PageNum}
  {al : gset PageNum} {ku : Z} {s : Index K} {E : RC -> Index K -> Prop}.
Hypothesis Hst : st h d P al ku s.
Implicit Types (p q pp : PageNum).

(** ** The parent *)

Lemma zset_middle {B} (X : list B) x y Y : zset (X ++ x :: Y) (zlen X) y = Some (X ++ y :: Y).
Proof.
  unfold zset, zlen. rewrite decide_True by (rewrite length_app; simpl; lia). rewrite Nat2Z.id.
  by rewrite insert_app_r_alt, Nat.sub_diag by lia.
Qed.

Lemma arr_remove_middle {B} (X : list B) x Y : arr_remove (X ++ x :: Y) (zlen X) = Some (X ++ Y).
Proof.
  unfold arr_remove, zlen. rewrite decide_True by (rewrite length_app; simpl; lia). rewrite Nat2Z.id.
  rewrite take_app_length, cons_middle, app_assoc.
  replace (S (length X)) with (length (X ++ [x])) by (rewrite length_app; simpl; lia). by rewrite drop_app_length.
Qed.

Lemma shrink_last {B} (L : list B) x : take (length (L ++ [x]) - 1) (L ++ [x]) = L.
Proof. rewrite length_app. simpl. rewrite Nat.add_sub. apply take_app_length. Qed.

Lemma wp_set_key_at pp o X k p Y i k' (Q : unit -> Index K -> Prop) :
  pp ∈ P -> d !! pp = Some (NodePage (InternalNode (mk_internal o (X ++ (k, p) :: Y)))) -> i = zlen X ->
  (forall s', st h (<[pp := NodePage (InternalNode (mk_internal o (X ++ (k', p) :: Y)))]> d) P al ku s' -> Q tt s') ->
  wp (Internal.set_key_at pp i k') s Q E.
Proof.
  intros Hpp Epp -> HQ. unfold Internal.set_key_at. wp_step. simpl i_array.
  wp_b. eapply wp_of_option; [apply zget_middle|]. wp_b. eapply wp_of_option; [apply zset_middle|].
  wp_step. by apply HQ.
Qed.

Lemma wp_internal_remove pp o X x Y i (Q : unit -> Index K -> Prop) :
  pp ∈ P -> d !! pp = Some (NodePage (InternalNode (mk_internal o (X ++ x :: Y)))) -> i = zlen X ->
  (forall s', st h (<[pp := NodePage (InternalNode (mk_internal o (X ++ Y)))]> d) P al ku s' -> Q tt s') ->
  wp (Internal.remove pp i) s Q E.
Proof.
  intros Hpp Epp -> HQ. unfold Internal.remove. wp_step. simpl i_array. wp_b. eapply wp_of_option; [apply arr_remove_middle|].
  wp_step. by apply HQ.
Qed.

Lemma wp_int_key_at p o items i k q (Q : K -> Index K -> Prop) :
  p ∈ P -> d !! p = Some (NodePage (InternalNode (mk_internal o items))) -> zget items i = Some (k, q) ->
  Q k s -> wp (Internal.key_at p i) s Q E.
Proof.
  intros Hp Ep Ei HQ. unfold Internal.key_at, Internal.item_at. wp_step. simpl i_array.
  eapply wp_of_option; [exact Ei|]. by apply wp_ret.
Qed.

Lemma wp_lf_key_at p n i k v (Q : K -> Index K -> Prop) :
  p ∈ P -> d !! p = Some (NodePage (LeafNode n)) -> zget (l_array n) i = Some (k, v) ->
  Q k s -> wp (Leaf.key_at p i) s Q E.
Proof.
  intros Hp Ep Ei HQ. unfold Leaf.key_at, Leaf.item_at. wp_step. eapply wp_of_option; [exact Ei|]. by apply wp_ret.
Qed.

(** ** Giving a page back *)

Lemma wp_dispose_page p (Q : unit -> Index K -> Prop) :
  (p ∉ P) ->
  (forall d' s', (forall q, q <> p -> d' !! q = d !! q) -> st h d' P (al ∖ {[ p ]}) ku s' -> Q tt s') ->
  wp (dispose_page p) s Q E.
Proof.
  intros Hp HQ. unfold wp, dispose_page. mrun. rewrite (st_pin_count _ _ _ _ _ _ p Hst).
  apply not_elem_of_multiplicity in Hp. rewrite Hp. simpl.
  apply (HQ (data (write_back p s))).
  - intros q Hq. unfold write_back. destruct (decide _); [simpl; by rewrite (st_data _ _ _ _ _ _ Hst)|]. simpl.
    rewrite <- (st_data _ _ _ _ _ _ Hst). destruct (file s !! p); [by rewrite lookup_insert_ne|by rewrite lookup_delete_ne].
  - destruct Hst as [H1 H2 H3 H4 H5 H6 H7]. unfold write_back. destruct (decide _); split; try done; simpl; by rewrite H4.
Qed.

(** ** An item moves to a sibling *)

Lemma wp_leaf_first_to_end pl pr ol vl nl L or vr nr x R (Q : unit -> Index K -> Prop) :
  pl ∈ P -> pr ∈ P -> pl <> pr ->
  d !! pl = Some (NodePage (LeafNode (mk_leaf ol vl nl L))) ->
  d !! pr = Some (NodePage (LeafNode (mk_leaf or vr nr (x :: R)))) ->
  (forall s', st h (<[pr := NodePage (LeafNode (mk_leaf or vr nr R))]>
                     (<[pl := NodePage (LeafNode (mk_leaf ol vl nl (L ++ [x])))]> d)) P al ku s' -> Q tt s') ->
  wp (Leaf.move_first_to_end pr pl) s Q E.
Proof.
  intros Hl Hr Hne El Er HQ. unfold Leaf.move_first_to_end, Leaf.item_at, Leaf.append.
  wp_step. wp_b. eapply wp_of_option; [reflexivity|]. do 2 wp_step. wp_step; [by page_at|]. wp_step.
  simpl in *. by apply HQ.
Qed.

Lemma wp_leaf_last_to_front pl pr ol vl nl L or vr nr x R (Q : unit -> Index K -> Prop) :
  pl ∈ P -> pr ∈ P -> pl <> pr ->
  d !! pl = Some (NodePage (LeafNode (mk_leaf ol vl nl (L ++ [x])))) ->
  d !! pr = Some (NodePage (LeafNode (mk_leaf or vr nr R))) ->
  (forall s', st h (<[pl := NodePage (LeafNode (mk_leaf ol vl nl L))]>
                     (<[pr := NodePage (LeafNode (mk_leaf or vr nr (x :: R)))]> d)) P al ku s' -> Q tt s') ->
  wp (Leaf.move_last_to_front pl pr) s Q E.
Proof.
  intros Hl Hr Hne El Er HQ. unfold Leaf.move_last_to_front, Leaf.item_at, Leaf.preappend.
  wp_step. wp_step. simpl l_array. replace (zlen (L ++ [x]) - 1) with (zlen L) by (unfold zlen; rewrite length_app; simpl; lia).
  wp_b. eapply wp_of_option; [apply zget_middle|]. do 2 wp_step. wp_step; [by page_at|]. simpl l_array.
  wp_b. eapply wp_of_option.
  { unfold arr_shrink. rewrite decide_True by (unfold zlen; rewrite length_app; simpl; lia). done. }
  wp_step. apply HQ. simpl in *.
  rewrite shrink_last in *. done.
Qed.

Lemma wp_adopt_one this k q n (Q : unit -> Index K -> Prop) :
  d !! q = Some (NodePage n) ->
  (forall s', st h (<[q := NodePage (node_set_parent this n)]> d) P al ku s' -> Q tt s') ->
  wp (Internal.adopt this [(k, q)]) s Q E.
Proof.
  intros En HQ. eapply wp_adopt; [exact Hst|apply NoDup_singleton|..].
  - intros q' Hq. apply list_elem_of_singleton in Hq as ->. by exists n.
  - csimpl. rewrite En. exact HQ.
Qed.

Lemma wp_int_first_to_end pl pr ol L or k q R n (Q : unit -> Index K -> Prop) :
  pl ∈ P -> pr ∈ P -> pl <> pr -> q <> pl -> q <> pr ->
  d !! pl = Some (NodePage (InternalNode (mk_internal ol L))) ->
  d !! pr = Some (NodePage (InternalNode (mk_internal or ((k, q) :: R)))) ->
  d !! q = Some (NodePage n) ->
  (forall s', st h (<[pr := NodePage (InternalNode (mk_internal or R))]>
                     (<[pl := NodePage (InternalNode (mk_internal ol (L ++ [(k, q)])))]>
                        (<[q := NodePage (node_set_parent pl n)]> d))) P al ku s' -> Q tt s') ->
  wp (Internal.move_first_to_end pr pl) s Q E.
Proof.
  intros Hl Hr Hne Hq1 Hq2 El Er En HQ. unfold Internal.move_first_to_end, Internal.item_at, Internal.append, Internal.copy_from.
  wp_step. wp_b. eapply wp_of_option; [reflexivity|]. wp_b. eapply wp_adopt_one; [exact En|].
  clear Hst s. intros s Hst. wp_step; [by page_at|]. wp_step. wp_step; [by page_at|]. wp_step. by apply HQ.
Qed.

Lemma wp_int_last_to_front pl pr ol L or k q R n (Q : unit -> Index K -> Prop) :
  pl ∈ P -> pr ∈ P -> pl <> pr -> q <> pl -> q <> pr ->
  d !! pl = Some (NodePage (InternalNode (mk_internal ol (L ++ [(k, q)])))) ->
  d !! pr = Some (NodePage (InternalNode (mk_internal or R))) ->
  d !! q = Some (NodePage n) ->
  (forall s', st h (<[pl := NodePage (InternalNode (mk_internal ol L))]>
                     (<[pr := NodePage (InternalNode (mk_internal or ((k, q) :: R)))]>
                        (<[q := NodePage (node_set_parent pr n)]> d))) P al ku s' -> Q tt s') ->
  wp (Internal.move_last_to_front pl pr) s Q E.
Proof.
  intros Hl Hr Hne Hq1 Hq2 El Er En HQ. unfold Internal.move_last_to_front, Internal.item_at, Internal.preappend.
  wp_step. wp_step. simpl i_array.
  replace (zlen (L ++ [(k, q)]) - 1) with (zlen L) by (unfold zlen; rewrite length_app; simpl; lia).
  wp_b. eapply wp_of_option; [apply zget_middle|]. wp_b. eapply wp_adopt_one; [exact En|].
  clear Hst s. intros s Hst. wp_step; [by page_at|]. wp_step. wp_step; [by page_at|]. simpl i_array.
  wp_b. eapply wp_of_option.
  { unfold arr_shrink. rewrite decide_True by (unfold zlen; rewrite length_app; simpl; lia). done. }
  wp_step. apply HQ. simpl in *. rewrite shrink_last in *. done.
Qed.

(** ** Merging two siblings *)

Lemma wp_int_move_to pl pr ol L or R (Q : unit -> Index K -> Prop) :
  pl ∈ P -> pr ∈ P -> pl <> pr -> NoDup R.*2 -> (pl ∉ R.*2) -> (pr ∉ R.*2) ->
  d !! pl = Some (NodePage (InternalNode (mk_internal ol L))) ->
  d !! pr = Some (NodePage (InternalNode (mk_internal or R))) ->
  (forall q, q ∈ R.*2 -> exists n, d !! q = Some (NodePage n)) ->
  (forall d' s', st h d' P al ku s' ->
     d' !! pl = Some (NodePage (InternalNode (mk_internal ol (L ++ R)))) ->
     (forall q n, q ∈ R.*2 -> d !! q = Some (NodePage n) -> d' !! q = Some (NodePage (node_set_parent pl n))) ->
     (forall q, q <> pl -> q <> pr -> (q ∉ R.*2) -> d' !! q = d !! q) -> Q tt s') ->
  wp (Internal.move_to pr pl) s Q E.
Proof.
  intros Hl Hr Hne Hnd Hpl Hpr El Er Hch HQ. unfold Internal.move_to, Internal.copy_from. wp_step. simpl i_array.
  wp_b. eapply wp_adopt; [exact Hst|exact Hnd|exact Hch|]. clear Hst s. intros s Hst.
  assert (Hne1 : forall q, (q ∉ R.*2) -> adopted pl R.*2 d !! q = d !! q) by (intros q; apply adopted_ne).
  wp_step; [by rewrite Hne1|]. wp_step. wp_step; [page_at; by rewrite Hne1|]. wp_step.
  eapply HQ; [exact Hst|by page_at|..].
  - intros q n Hq En. assert (q <> pl /\ q <> pr) as [? ?] by (split; intros ->; done). page_at. by apply adopted_eq.
  - intros q H1 H2 H3. page_at. by apply Hne1.
Qed.

Lemma wp_leaf_merge pl pr ol vl L or R (l2 : list (LeafNd (A := A))) frame neighbor pp (Q : unit -> Index K -> Prop) :
  pl ∈ P -> pr ∈ P -> pl <> pr ->
  d !! pl = Some (NodePage (LeafNode (mk_leaf ol vl pr L))) ->
  d !! pr = Some (NodePage (LeafNode (mk_leaf or pl (next_of l2 BP_INVALID_PAGE_NUM) R))) ->
  (forall l, l ∈ l2 -> lpage l <> pl /\ lpage l <> pr /\ 1 < lpage l) ->
  NoDup (lpage <$> l2) -> chain d pr l2 BP_INVALID_PAGE_NUM ->
  (forall d' s', st h d' P al ku s' ->
     d' !! pl = Some (NodePage (LeafNode (mk_leaf ol vl (next_of l2 BP_INVALID_PAGE_NUM) (L ++ R)))) ->
     chain d' pl l2 BP_INVALID_PAGE_NUM ->
     (forall q x, has_parent d q x -> has_parent d' q x) ->
     (forall q, q <> pl -> q <> pr -> (q ∉ lpage <$> l2) -> d' !! q = d !! q) -> Q tt s') ->
  wp (Leaf.move_to pr pl;; l ← is_leaf pl; if (l : bool) then unlink_leaf pl pr frame neighbor pp else mret tt) s Q E.
Proof.
  intros Hl Hr Hne El Er Hl2 Hnd Hc HQ. unfold Leaf.move_to, unlink_leaf, Leaf.next_page, Leaf.set_next_page, Leaf.set_prev_page.
  do 4 wp_step. wp_step; [by page_at|]. wp_step. wp_step; [by page_at|]. wp_step. wp_step; [by page_at|]. wp_step.
  simpl in *. destruct l2 as [|l l2]; cbn [next_of] in *.
  - rewrite Z.eqb_refl. cbn [negb]. wp_step. wp_b. eapply (wp_is_leaf Hst); [done|by page_at|]. cbv iota.
    wp_step; [by page_at|]. wp_step. wp_step; [by page_at|]. wp_step. wp_step; [by page_at|]. wp_step. simpl in *.
    wp_step. eapply HQ; [exact Hst|by page_at|done|..].
    + intros q x. destruct (decide (q = pl)) as [->|]; [eapply has_parent_node; [exact El|by page_at|done]|].
      destruct (decide (q = pr)) as [->|]; [eapply has_parent_node; [exact Er|by page_at|done]|].
      apply has_parent_eq. by page_at.
    + intros q Q1 Q2 _. by page_at.
  - destruct (Hl2 l) as (M1 & M2 & M3); [by left|]. destruct Hc as [(o' & E2) Hc].
    rewrite (proj2 (Z.eqb_neq _ _)) by (unfold BP_INVALID_PAGE_NUM; lia). cbn [negb].
    wp_step; [by page_at|]. wp_step; [by page_at|]. do 3 wp_step. simpl in *.
    wp_b. eapply (wp_is_leaf Hst); [multiset_solver|by page_at|]. cbv iota.
    wp_step; [by page_at|]. wp_step. wp_step; [by page_at|]. wp_step. wp_step; [by page_at|]. wp_step. simpl in *.
    rewrite (proj2 (Z.eqb_neq _ _)) by (unfold BP_INVALID_PAGE_NUM; lia). cbn [negb].
    wp_step. wp_step; [by page_at|]. wp_step; [by page_at|]. do 2 wp_step. simpl in *.
    eapply HQ; [eapply st_pins_eq; [exact Hst|multiset_solver]|by page_at|..].
    + split; [exists o'; by page_at|]. csimpl in Hnd. apply NoDup_cons in Hnd as [D1 D2].
      eapply chain_eq; [|exact Hc]. intros l' Hl'. destruct (Hl2 l') as (M4 & M5 & M6); [by right|].
      assert (lpage l' <> lpage l) by (intros E'; apply D1; rewrite <- E'; by apply list_elem_of_fmap_2).
      by page_at.
    + intros q x. destruct (decide (q = pl)) as [->|]; [eapply has_parent_node; [exact El|by page_at|done]|].
      destruct (decide (q = pr)) as [->|]; [eapply has_parent_node; [exact Er|by page_at|done]|].
      destruct (decide (q = lpage l)) as [->|]; [eapply has_parent_node; [exact E2|by page_at|done]|].
      apply has_parent_eq. by page_at.
    + intros q Q1 Q2 Q3. assert (q <> lpage l) by (intros ->; apply Q3; by left). by page_at.
Qed.
End move.

Lemma wp_seq {S B C D F} (m1 : M S B) (m2 : M S C) (m3 : C -> M S D) (k : M S F) s Q E :
  wp ((m1;; x ← m2; m3 x);; k) s Q E -> wp (m1;; x ← m2; m3 x;; k) s Q E.
Proof.
  unfold wp, mbind, M_bind. destruct (m1 s) as [u s1| |]; try done. by destruct (m2 s1) as [x s2| |].
Qed.

Lemma wp_assoc {S B C D} (m1 : M S B) (m2 : B -> M S C) (g : C -> M S D) s Q E :
  wp (y ← (x ← m1; m2 x); g y) s Q E -> wp (x ← m1; y ← m2 x; g y) s Q E.
Proof. unfold wp, mbind, M_bind. by destruct (m1 s) as [u s1| |]. Qed.

(** ** A node with too few items *)

Section underflow.
Context {A : Type} (attr_comparator_ : A -> A -> Z).
Abbreviation K := (A * RID)%type.
Abbreviation cmp := (key_comparator_ attr_comparator_).
Context (dom : K -> Prop) `{!CmpOrder dom cmp}.
Implicit Types (p q pp : PageNum) (d : gmap PageNum (PageData K)).

Definition node_size (n : IndexNode K) : Z :=
  match n with LeafNode n => zlen (l_array n) | InternalNode n => zlen (i_array n) end.

Lemma wp_size_node h d P al ku s p n (Q : Z -> Index K -> Prop) E :
  st h d P al ku s -> p ∈ P -> d !! p = Some (NodePage n) -> Q (node_size n) s -> wp (size p) s Q E.
Proof. intros Hst Hp Ep HQ. unfold size. wp_step. by destruct n. Qed.

Context (hd : NodeHandler K) (up : Frame -> M (Index K) unit).

(** An item moves between the siblings [pl] and [pr], to the left one if [side];
    the result is the first key of the right one. *)
Definition rotate (side : bool) pl pr : M (Index K) K :=
  if side then _ ← rc_of (h_move_first_to_end pr pl); h_key_at pr 0
  else _ ← rc_of (h_move_last_to_front pl pr); h_key_at pr 0.

(** The items of [pr] move to [pl]. *)
Definition merge pl pr frame neighbor pp : M (Index K) unit :=
  h_move_to pr pl;; l ← is_leaf pl; if (l : bool) then unlink_leaf pl pr frame neighbor pp else mret tt.

Section siblings.
Context (h : IndexFileHeader) (d : gmap PageNum (PageData K)) (al : gset PageNum) (ku : Z)
  (pp op pl pr : PageNum) (X : list (K * PageNum)) (kl kr : K) (Y : list (K * PageNum))
  (Q : unit -> Index K -> Prop) (E : RC -> Index K -> Prop).
Hypothesis Epp : d !! pp = Some (NodePage (InternalNode (mk_internal op (X ++ (kl, pl) :: (kr, pr) :: Y)))).
Hypothesis Hne : pl <> pr /\ pl <> pp /\ pr <> pp.

Definition rotated side : Prop := forall s, st h d {[+ pl; pr; pp +]} al ku s ->
  wp (rotate side pl pr) s (fun k' s' => exists d1, st h d1 {[+ pl; pr; pp +]} al ku s' /\ d1 !! pp = d !! pp /\
    forall s2, st h (<[pp := NodePage (InternalNode (mk_internal op (X ++ (kl, pl) :: (k', pr) :: Y)))]> d1) ∅ al ku s2 -> Q tt s2) E.

Definition merged frame neighbor : Prop := forall s,
  st h (<[pp := NodePage (InternalNode (mk_internal op (X ++ (kl, pl) :: Y)))]> d) {[+ pl; pr; pp +]} al ku s ->
  wp (merge pl pr frame neighbor pp) s (fun _ s' => exists d1, st h d1 {[+ pl; pr; pp +]} al ku s' /\
    forall d2 s2, (forall q, q <> pr -> d2 !! q = d1 !! q) -> st h d2 {[+ pp +]} (al ∖ {[ pr ]}) ku s2 -> wp (up pp) s2 Q E) E.

Lemma wp_redistribute (side : bool) s :
  rotated side -> (side = true -> X = []) -> st h d {[+ pl; pr; pp +]} al ku s ->
  wp (if side then redistribute hd pr pl pp 0 else redistribute hd pl pr pp (zlen X + 1)) s Q E.
Proof.
  intros Hrot HX Hst. specialize (Hrot _ Hst). unfold rotate in Hrot. destruct Hne as (N1 & N2 & N3).
  assert (Hi : zlen (X ++ [(kl, pl)]) = zlen X + 1) by (unfold zlen; rewrite length_app; simpl; lia).
  assert (Hx : 0 <= zlen X) by (unfold zlen; lia).
  assert (Hrest : forall k' s', (exists d1, st h d1 {[+ pl; pr; pp +]} al ku s' /\ d1 !! pp = d !! pp /\
      forall s2, st h (<[pp := NodePage (InternalNode (mk_internal op (X ++ (kl, pl) :: (k', pr) :: Y)))]> d1) ∅ al ku s2 -> Q tt s2) ->
    forall a b c, {[+ a; b; c +]} = {[+ pl; pr; pp +]} :> gmultiset PageNum ->
    wp (Internal.set_key_at pp (zlen X + 1) k') s'
      (fun _ s0 => wp (mark_dirty a;; mark_dirty b;; mark_dirty c;; unpin_page c;; unpin_page a;; unpin_page b) s0 Q E) E).
  { intros k' s' (d1 & Hst1 & E1 & HQ) a b c Eabc.
    eapply (wp_set_key_at Hst1 pp op (X ++ [(kl, pl)]) kr pr Y); [multiset_solver|rewrite E1, Epp; by rewrite <- app_assoc|done|].
    clear Hst1. intros s1 Hst1. rewrite <- app_assoc in Hst1. rewrite <- Eabc in Hst1.
    do 6 wp_step. apply HQ. eapply st_pins_eq; [exact Hst1|multiset_solver]. }
  destruct side; unfold redistribute.
  - rewrite (HX eq_refl) in *. cbn [Z.eqb]. apply wp_bind, wp_assoc, wp_bind.
    eapply wp_mono; [exact Hrot| |done]. intros k' s' H. cbv beta. apply (Hrest k' s' H). multiset_solver.
  - rewrite (proj2 (Z.eqb_neq _ _)) by lia. apply wp_bind, wp_assoc, wp_bind.
    eapply wp_mono; [exact Hrot| |done]. intros k' s' H. cbv beta. apply (Hrest k' s' H). multiset_solver.
Qed.

Lemma wp_coalesce (side : bool) s :
  (forall frame neighbor, merged frame neighbor) -> (side = true -> X = []) -> st h d {[+ pl; pr; pp +]} al ku s ->
  wp (if side then coalesce hd up pr pl pp 0 else coalesce hd up pl pr pp (zlen X + 1)) s Q E.
Proof.
  intros Hm HX Hst. destruct Hne as (N1 & N2 & N3). assert (Hx : 0 <= zlen X) by (unfold zlen; lia).
  assert (Hrest : forall frame neighbor, wp (Internal.remove pp (zlen X + 1);; h_move_to pr pl;; l ← is_leaf pl;
    (if (l : bool) then unlink_leaf pl pr frame neighbor pp else mret tt);;
    unpin_page pl;; unpin_page pr;; _ ← rc_of (dispose_page pr); up pp) s Q E).
  { intros frame neighbor. wp_b. eapply (wp_internal_remove Hst pp op (X ++ [(kl, pl)]) (kr, pr) Y);
      [multiset_solver|rewrite Epp; by rewrite <- app_assoc|unfold zlen; rewrite length_app; simpl; lia|].
    clear Hst s. intros s Hst. rewrite <- app_assoc in Hst. apply wp_seq, wp_bind.
    eapply wp_mono; [exact (Hm frame neighbor s Hst)| |done]. clear Hst s. intros _ s (d1 & Hst & Hup). cbv beta.
    do 3 wp_step. eapply (wp_dispose_page Hst); [multiset_solver|]. clear Hst s. intros d2 s Hd2 Hst.
    apply (Hup d2); [exact Hd2|]. eapply st_pins_eq; [exact Hst|multiset_solver]. }
  destruct side; unfold coalesce.
  - rewrite (HX eq_refl) in *. exact (Hrest pl pr).
  - rewrite (proj2 (Z.eqb_neq _ _)) by lia. exact (Hrest pr pl).
Qed.
End siblings.

(** The node [p], the child behind [X] of [pp], has fewer than [mn] items; [kk] is
    the key of its last one. *)
Section node.
Context (h : IndexFileHeader) (d : gmap PageNum (PageData K)) (al : gset PageNum) (ku : Z)
  (pp op p : PageNum) (X : list (K * PageNum)) (k : K) (Y : list (K * PageNum)) (nd : IndexNode K) (mn mx : Z) (kk : K)
  (Q : unit -> Index K -> Prop) (E : RC -> Index K -> Prop).
Abbreviation I := (X ++ (k, p) :: Y).
Hypothesis Hp : d !! p = Some (NodePage nd).
Hypothesis Hpar : node_parent nd = pp.
Hypothesis Hpp1 : 1 < pp.
Hypothesis Epp : d !! pp = Some (NodePage (InternalNode (mk_internal op I))).
Hypothesis Hmin : forall s, file_header_ s = h -> h_min_size s = Ret mn s.
Hypothesis Hmax : forall s, file_header_ s = h -> h_max_size s = Ret mx s.
Hypothesis Hsmall : node_size nd < mn.
Hypothesis Hlast : forall P s Q, st h d P al ku s -> p ∈ P -> Q kk s -> wp (h_key_at p (node_size nd - 1)) s Q E.
Hypothesis Hkk : dom kk.
Hypothesis Hdom : forall k', k' ∈ tail_keys I -> dom k'.
Hypothesis Hsorted : sorted cmp (tail_keys I).
Hypothesis Hlow : forall k', k' ∈ tail_keys (X ++ [(k, p)]) -> key_le cmp k' kk.
Hypothesis Hhigh : forall k', k' ∈ Y.*1 -> key_lt cmp kk k'.
Hypothesis Hnodup : NoDup I.*2.
Hypothesis Hppout : pp ∉ I.*2.
Hypothesis Hnodes : forall q, q ∈ I.*2 -> exists n, d !! q = Some (NodePage n).
Hypothesis Hmore : X ++ Y <> [].

(** [p] and the sibling that is chosen, in their order: the left one is [p] if [side]. *)
Definition chosen (side : bool) X' kl pl kr pr Y' : Prop :=
  I = X' ++ (kl, pl) :: (kr, pr) :: Y' /\ (side = true -> X' = []) /\ p = (if side then pl else pr) /\ pl <> pr.

Hypothesis Hrot : forall side X' kl pl kr pr Y' nl nr,
  chosen side X' kl pl kr pr Y' -> d !! pl = Some (NodePage nl) -> d !! pr = Some (NodePage nr) ->
  mx < node_size nl + node_size nr -> rotated h d al ku pp op pl pr X' kl Y' Q E side.
Hypothesis Hmrg : forall side X' kl pl kr pr Y' nl nr,
  chosen side X' kl pl kr pr Y' -> d !! pl = Some (NodePage nl) -> d !! pr = Some (NodePage nr) ->
  node_size nl + node_size nr <= mx -> forall frame neighbor, merged h d al ku pp op pl pr X' kl Y' Q E frame neighbor.

Lemma wp_siblings (side : bool) X' kl pl kr pr Y' nl nr s :
  chosen side X' kl pl kr pr Y' -> d !! pl = Some (NodePage nl) -> d !! pr = Some (NodePage nr) ->
  st h d {[+ pl; pr; pp +]} al ku s ->
  let index := if side then 0 else zlen X' + 1 in
  let neighbor := if side then pr else pl in
  wp (if mx <? node_size nl + node_size nr then redistribute hd neighbor p pp index
      else coalesce hd up neighbor p pp index) s Q E.
Proof.
  intros Hc El Er Hst. pose proof Hc as (EI & HX & Ep & Hne).
  assert (Hpl : pl ∈ I.*2) by (rewrite EI; in_list). assert (Hpr : pr ∈ I.*2) by (rewrite EI; in_list).
  assert (Hne' : pl <> pr /\ pl <> pp /\ pr <> pp) by (split_and!; [done|intros ->; done..]).
  pose proof Epp as Epp'. rewrite EI in Epp'.
  destruct (Z.ltb_spec mx (node_size nl + node_size nr)) as [Hlt|Hge].
  - pose proof (wp_redistribute h d al ku pp op pl pr X' kl kr Y' Q E Epp' Hne' side s (Hrot _ _ _ _ _ _ _ _ _ Hc El Er Hlt) HX Hst) as H.
    by destruct side; cbv zeta; rewrite Ep.
  - pose proof (wp_coalesce h d al ku pp op pl pr X' kl kr Y' Q E Epp' Hne' side s (Hmrg _ _ _ _ _ _ _ _ _ Hc El Er Hge) HX Hst) as H.
    by destruct side; cbv zeta; rewrite Ep.
Qed.

Lemma wp_underflow s :
  st h d {[+ p +]} al ku s -> wp (coalesce_or_redistribute_body attr_comparator_ hd up p) s Q E.
Proof.
  intros Hst. unfold coalesce_or_redistribute_body.
  wp_b. eapply wp_size_node; [exact Hst|multiset_solver|exact Hp|].
  wp_b. eapply wp_Ret; [apply Hmin, Hst|]. rewrite (proj2 (Z.leb_gt _ _)) by lia.
  wp_b. eapply (wp_parent_page_num Hst); [multiset_solver|exact Hp|]. rewrite Hpar.
  rewrite (proj2 (Z.eqb_neq _ _)) by (unfold BP_INVALID_PAGE_NUM; lia).
  wp_step. wp_step. wp_b. eapply Hlast; [exact Hst|multiset_solver|].
  destruct (lookup_tail attr_comparator_ dom kk X k p Y Hkk Hdom Hsorted Hlow Hhigh) as (pos & Elk & _).
  unfold Internal.lookup. wp_step. wp_b. eapply wp_of_option; [exact Elk|]. cbv zeta. cbn [fst].
  wp_b. eapply wp_value_at; [by exists op|exact Hst|multiset_solver|apply zget_middle|].
  assert (HX : X = [] \/ exists X0 kx px, X = X0 ++ [(kx, px)]).
  { clear. destruct X as [|[kx px] X0 _] using rev_ind; [by left|right; eauto]. }
  destruct HX as [HX|(X0 & kx & px & HX)].
  - assert (HY : exists k2 p2 Y', Y = (k2, p2) :: Y').
    { pose proof Hmore as Hm. rewrite HX in Hm. destruct Y as [|[k2 p2] Y']; [done|eauto]. }
    destruct HY as (k2 & p2 & Y' & HY).
    assert (Hc : chosen true [] k p k2 p2 Y').
    { split_and!; [by rewrite HX, HY|done|done|]. pose proof Hnodup as Hn. rewrite HX, HY in Hn.
      csimpl in Hn. apply NoDup_cons in Hn as [Hn _]. intros ->. apply Hn. by left. }
    destruct (Hnodes p2) as [n2 E2]; [rewrite HX, HY; in_list|].
    assert (Hz : zlen X = 0) by (by rewrite HX). rewrite Hz. cbn [Z.eqb].
    wp_b. eapply wp_value_at; [by exists op|exact Hst|multiset_solver|rewrite HX, HY; reflexivity|].
    wp_step. wp_step. wp_b. eapply wp_size_node; [exact Hst|multiset_solver|exact E2|].
    wp_b. eapply wp_Ret; [apply Hmax, Hst|]. eapply (wp_siblings true); [exact Hc|exact Hp|exact E2|].
    eapply st_pins_eq; [exact Hst|multiset_solver].
  - assert (Hz : zlen X = zlen X0 + 1) by (rewrite HX; unfold zlen; rewrite length_app; simpl; lia).
    assert (Hz0 : 0 <= zlen X0) by (unfold zlen; lia).
    assert (EI : I = X0 ++ (kx, px) :: (k, p) :: Y) by (rewrite HX; by rewrite <- app_assoc).
    assert (Hc : chosen false X0 kx px k p Y).
    { split_and!; [done|done|done|]. pose proof Hnodup as Hn. rewrite EI, fmap_app in Hn. csimpl in Hn.
      apply NoDup_app in Hn as (_ & _ & Hn). apply NoDup_cons in Hn as [Hn _]. intros ->. apply Hn. by left. }
    destruct (Hnodes px) as [nx Ex]; [rewrite EI; in_list|].
    rewrite Hz, (proj2 (Z.eqb_neq _ _)) by lia. replace (zlen X0 + 1 - 1) with (zlen X0) by lia.
    wp_b. eapply wp_value_at; [by exists op|exact Hst|multiset_solver|rewrite EI; apply zget_middle|].
    wp_step. wp_step. wp_b. eapply wp_size_node; [exact Hst|multiset_solver|exact Ex|].
    wp_b. eapply wp_Ret; [apply Hmax, Hst|]. rewrite (Z.add_comm (node_size nd)).
    eapply (wp_siblings false); [exact Hc|exact Ex|exact Hp|].
    eapply st_pins_eq; [exact Hst|multiset_solver].
Qed.
End node.
End underflow.
