(* ===== verification/BplusDelete.v ===== *)
(** * Rebalancing the B+ tree after a deletion

    [coalesce_or_redistribute] on the levels above the leaves: a node with too few
    items takes one from a sibling, or is merged with it, and then the parent has
    one child less.  By induction on the levels, the tree above the nodes [F] is a
    tree again ([balanced]), with every node at least half full. *)

From Stdlib Require Import ZArith Lia.
From stdpp Require Import base gmap gmultiset sets tactics.
From stdpp Require Import list.
From S2P Require Import Prelude.
From S2P Require Import Monad.
From S2P Require Import LowerBound.
From S2P Require Import Comparator.
From S2P Require Import NodePool.
From S2P Require Import BplusNode.
From S2P Require Import NodeLogic.
From S2P Require Import BplusTree.
From S2P Require Import BplusSpec.
From S2P Require Import BplusSearch.
From S2P Require Import BplusInsert.
From S2P Require Import BplusLevels.
From S2P Require Import BplusMove.
#[local] Open Scope Z_scope.

Section delete.
Context {A : Type} (attr_comparator_ : A -> A -> Z) (zero_attr : A).
Abbreviation K := (A * RID)%type.
Abbreviation cmp := (key_comparator_ attr_comparator_).
Abbreviation zero_key := (zero_key zero_attr).
Abbreviation grouped := (grouped zero_attr).
Abbreviation firsts := (firsts zero_attr).
Abbreviation first_key := (first_key zero_attr).
Abbreviation upper_ok := (upper_ok zero_attr).
Context (dom : K -> Prop) `{!CmpOrder dom cmp}.
Abbreviation INode := (PageNum * list (K * PageNum))%type.
Implicit Types (d : gmap PageNum (PageData K)) (P : gmultiset PageNum) (al : gset PageNum) (p q : PageNum).
Implicit Types (lvl a b ns : list INode) (ups : list (list INode)) (F I X Y L R : list (K * PageNum)).

(** ** The parent of a node *)

(** The node above [p] in the level [a ++ (pp, X ++ (k, p) :: Y) :: b]. *)
Lemma parent_node h root F1 k p F2 lvl ups d al :
  upper_ok h root (F1 ++ (k, p) :: F2) (lvl :: ups) d al ->
  exists a pp X Y b o, lvl = a ++ (pp, X ++ (k, p) :: Y) :: b /\ F1 = items_of a ++ X /\ F2 = Y ++ items_of b /\
    d !! pp = Some (NodePage (InternalNode (mk_internal o (X ++ (k, p) :: Y)))) /\ has_parent d p pp /\ 1 < pp /\ pp ∈ al /\
    NoDup (X ++ (k, p) :: Y).*2 /\ (pp ∉ (X ++ (k, p) :: Y).*2) /\
    (forall q, q ∈ (X ++ (k, p) :: Y).*2 -> 1 < q /\ exists n, d !! q = Some (NodePage n)).
Proof.
  intros (HF & [Hne Hi Hp Hnd Hb] & Hu)%upper_level.
  destruct (level_cut _ _ _ _ (eq_sym HF)) as (a & pp & X & Y & b & -> & E1 & E2).
  assert (Hin : (pp, X ++ (k, p) :: Y) ∈ a ++ (pp, X ++ (k, p) :: Y) :: b) by in_list.
  destruct (Hi _ Hin) as [o Eo]. exists a, pp, X, Y, b, o.
  assert (Hpp : 1 < pp /\ pp ∈ al).
  { apply (u_pages _ _ _ _ _ _ _ Hu). rewrite firsts_pages. apply elem_of_app. left. in_list. }
  split_and!; try done.
  - apply (Hp _ _ Hin). cbn [snd]. in_list.
  - by apply Hpp.
  - by apply Hpp.
  - rewrite items_of_app, items_of_cons in Hnd. cbn [snd] in Hnd. rewrite (fmap_app snd (items_of a)) in Hnd.
    apply NoDup_app in Hnd as (_ & _ & Hnd). rewrite fmap_app in Hnd. by apply NoDup_app in Hnd as (Hnd & _ & _).
  - intros Hq. destruct (Hb pp) as (_ & _ & H); [exact (item_page_in _ _ _ Hin Hq)|]. apply H.
    rewrite up_pages_cons. apply elem_of_app. left. in_list.
  - intros q Hq. destruct (Hb q) as (H & _); [exact (item_page_in _ _ _ Hin Hq)|]. split; [done|].
    destruct (Hp _ _ Hin Hq) as (n & En & _). by exists n.
Qed.

(** ** Regrouping the items of neighbouring nodes *)

Lemma level_regroup a ns ns' b ups ups' d d' al al' :
  level_ok (a ++ ns ++ b) ups d al ->
  items_of ns' = items_of ns -> Forall (fun n : INode => n.2 <> []) ns' ->
  (forall n, n ∈ ns' -> has_int d' n.1 n.2) ->
  (forall n p, n ∈ ns' -> p ∈ n.2.*2 -> has_parent d' p n.1) ->
  (forall q, q ∈ (a ++ b).*1 -> same_body d d' q) ->
  (forall n q, n ∈ a ++ b -> q ∈ n.2.*2 -> d' !! q = d !! q) ->
  (forall q, q ∈ up_pages ((a ++ ns' ++ b) :: ups') -> q ∈ up_pages ((a ++ ns ++ b) :: ups)) ->
  (forall q, q ∈ (items_of (a ++ ns ++ b)).*2 -> q ∈ al -> q ∈ al') ->
  level_ok (a ++ ns' ++ b) ups' d' al'.
Proof.
  intros [Hne Hi Hp Hnd Hb] Eit Hne' Hi' Hp' Hsame Hitem Hup Hal.
  assert (EI : items_of (a ++ ns' ++ b) = items_of (a ++ ns ++ b)) by (by rewrite !items_of_app, Eit).
  assert (Hcases : forall n, n ∈ a ++ ns' ++ b -> n ∈ ns' \/ (n ∈ a ++ b /\ n ∈ a ++ ns ++ b)).
  { intros n. rewrite !elem_of_app. tauto. }
  split; rewrite ?EI; try done.
  - rewrite !Forall_app in *. tauto.
  - intros n [Hn|[Hn Hn']]%Hcases; [by apply Hi'|]. eapply has_int_same; [by apply Hi|].
    apply Hsame. by apply list_elem_of_fmap_2.
  - intros n p [Hn|[Hn Hn']]%Hcases Hpn; [by apply Hp'|]. eapply has_parent_eq; [|by apply Hp].
    by apply (Hitem n).
  - intros q Hq. destruct (Hb q Hq) as (H1 & H2 & H3). split; [done|]. split; [by apply Hal|].
    intros Hin. by apply H3, Hup.
Qed.

(** ** What rebalancing needs and achieves *)

(** The tree above [F] in a state that came from [d]; the pages of [F] are the same up to their parents. *)
Definition balanced h d al ku F ups0 (s' : Index K) : Prop :=
  exists root' ups' d' al', st (with_root root' h) d' ∅ al' ku s' /\ upper_ok h root' F ups' d' al' /\
    ups_sized (internal_max_size h) ups' /\ al' ⊆ al /\ 0 ∈ al' /\ FIRST_INDEX_PAGE ∈ al' /\
    (forall q, q ∈ al -> (q ∉ up_pages ups0) -> q ∈ al') /\
    (forall q, q ∈ up_pages ups' -> q ∈ up_pages ups0) /\
    (forall q, q ∈ F.*2 -> same_body d d' q) /\
    (forall q, (q ∉ F.*2) -> (q ∉ up_pages ups0) -> q <> FIRST_INDEX_PAGE -> d' !! q = d !! q).

(** The node [pp] may have an item too few. *)
Record deficient h d al root a pp I b ups : Prop := mk_deficient {
  d_upper : upper_ok h root (items_of (a ++ (pp, I) :: b)) ((a ++ (pp, I) :: b) :: ups) d al;
  d_sorted : sorted cmp (tail_keys (items_of (a ++ (pp, I) :: b)));
  d_dom k : k ∈ tail_keys (items_of (a ++ (pp, I) :: b)) -> dom k;
  d_others : Forall (fun n : INode => least 2 (internal_max_size h) ups <= zlen n.2 <= internal_max_size h) (a ++ b);
  d_size : least 2 (internal_max_size h) ups - 1 <= zlen I <= internal_max_size h;
  d_ups : ups_sized (internal_max_size h) ups;
  d_header : root_page h = root /\ 6 <= internal_max_size h;
  d_reserved : 0 ∈ al /\ FIRST_INDEX_PAGE ∈ al
}.

Lemma upper_same h root F ups d al q : upper_ok h root F ups d al -> q ∈ F.*2 -> same_body d d q.
Proof.
  intros H Hq. destruct (parents_ok_elem _ _ _ q (u_parents _ _ _ _ _ _ _ H) Hq) as [n En]. by eapply same_body_refl.
Qed.

(** Enough items: nothing changes. *)
Lemma balanced_refl h d al ku root a pp I b ups s' :
  deficient h d al root a pp I b ups -> least 2 (internal_max_size h) ups <= zlen I -> st h d ∅ al ku s' ->
  balanced h d al ku (items_of (a ++ (pp, I) :: b)) ((a ++ (pp, I) :: b) :: ups) s'.
Proof.
  intros [Hu _ _ Ho Hs Hus [Hr Him] [R0 R1]] Hl Hst. exists root, ((a ++ (pp, I) :: b) :: ups), d, al.
  split; [by rewrite with_root_id|]. split_and!; try done.
  - apply Forall_app in Ho as [Ha Hb]. split; [|done]. apply Forall_app. split; [done|]. apply Forall_cons.
    split; [cbn [snd]; lia|done].
  - intros q Hq. by eapply upper_same.
Qed.

(** ** The root *)

(** At the top there is one node. *)
Lemma deficient_top h d al root a pp I b :
  deficient h d al root a pp I b [] -> a = [] /\ b = [] /\ pp = root /\ first_key (pp, I) = zero_key /\ has_parent d pp BP_INVALID_PAGE_NUM.
Proof.
  intros [Hu _ _ _ _ _ _ _]. apply upper_level in Hu as (_ & _ & [Hg Hpar _ _ _ _]). simpl in Hg.
  destruct a as [|x a]; [|by destruct a]. destruct b; [|done]. unfold BplusSpec.firsts in *. csimpl in Hg. csimpl in Hpar.
  injection Hg as E1 E2. split_and!; try done. by apply Forall2_cons_1 in Hpar as [H _].
Qed.

(** A root with one child gives way to the child. *)
Lemma wp_adjust_root h d al ku root pp k c o s E :
  deficient h d al root [] pp [(k, c)] [] [] -> st h d {[+ pp +]} al ku s ->
  d !! pp = Some (NodePage (InternalNode (mk_internal o [(k, c)]))) ->
  wp (adjust_root pp) s (fun _ => balanced h d al ku [(k, c)] [[(pp, [(k, c)])]]) E.
Proof.
  intros Hdef Hst Epp. destruct (deficient_top _ _ _ _ _ _ _ _ Hdef) as (_ & _ & _ & Hk & _). simpl in Hk.
  destruct Hdef as [Hu _ _ _ _ _ [Hr Him] [R0 R1]]. pose proof (u_hdr _ _ _ _ _ _ _ Hu) as Hh.
  destruct (proj1 (upper_level _ _ _ _ _ _ _ _) Hu) as (_ & [_ _ Hp _ Hb] & Hu1).
  destruct (Hb c) as (Hc1 & Hcal & Hcpp); [by left|]. csimpl in Hcpp.
  assert (Hne : c <> pp) by (intros ->; apply Hcpp; by left).
  assert (Hpp1 : 1 < pp /\ pp ∈ al) by (apply (u_pages _ _ _ _ _ _ _ Hu1); by left).
  destruct (Hp (pp, [(k, c)]) c) as (n & En & _); [by left|by left|].
  unfold adjust_root. wp_b. eapply (wp_is_leaf Hst); [multiset_solver|exact Epp|]. cbv iota.
  wp_b. eapply wp_size_int; [exact Hst|multiset_solver|exact Epp|]. cbn [andb].
  wp_b. eapply wp_value_at; [by exists o|exact Hst|multiset_solver|reflexivity|].
  wp_step. wp_b. eapply (wp_set_parent Hst); [multiset_solver|exact En|]. clear Hst s. intros s Hst.
  do 1 wp_step. wp_b. eapply wp_set_root; [exact Hst|]. clear Hst s. intros s Hst.
  wp_step. eapply wp_update_root with (root := root); [typeclasses eauto|exact Hst| |].
  { unfold hdr_ok in *. rewrite lookup_insert_ne by page_ne. exact Hh. }
  clear Hst s. intros s Hst. do 2 wp_step. eapply (wp_dispose_page Hst); [multiset_solver|].
  clear Hst s. intros d' s Hd' Hst.
  assert (Ec : d' !! c = Some (NodePage (node_set_parent BP_INVALID_PAGE_NUM n))).
  { rewrite Hd' by done. by page_at. }
  exists c, [], d', (al ∖ {[ pp ]}). split; [eapply st_pins_eq; [exact Hst|multiset_solver]|]. destruct Hpp1 as [Hpp1 Hppal].
  split_and!.
  - split; csimpl.
    + by rewrite <- Hk.
    + constructor; [|constructor]. eexists. split; [exact Ec|by destruct n as [[]|[]]].
    + done.
    + apply NoDup_singleton.
    + intros q Hq. apply list_elem_of_singleton in Hq as ->. split; [done|]. apply elem_of_difference. split; [done|].
      by intros Hin%elem_of_singleton.
    + unfold hdr_ok. rewrite Hd' by page_ne. by page_at.
  - done.
  - clear. set_solver.
  - apply elem_of_difference. split; [done|]. intros Hin%elem_of_singleton. lia.
  - apply elem_of_difference. split; [done|]. intros Hin%elem_of_singleton. unfold FIRST_INDEX_PAGE in *. lia.
  - csimpl. intros q Hqal Hq. apply elem_of_difference. split; [done|]. intros ->%elem_of_singleton. apply Hq. by left.
  - intros q Hq. by apply elem_of_nil in Hq.
  - csimpl. intros q Hq. apply list_elem_of_singleton in Hq as ->. by exists n, BP_INVALID_PAGE_NUM.
  - csimpl. intros q Q1 Q2 Q3. assert (q <> c /\ q <> pp) as [? ?] by (split; intros ->; [apply Q1|apply Q2]; by left).
    rewrite Hd' by done. by page_at.
Qed.

(** ** A parent that loses a child *)

Lemma parent_dropped h root F a' pq o X' kl pl kr pr Y' b' ups d d2 al :
  upper_ok h root F ((a' ++ (pq, X' ++ (kl, pl) :: (kr, pr) :: Y') :: b') :: ups) d al ->
  sorted cmp (tail_keys F) -> (forall k, k ∈ tail_keys F -> dom k) ->
  ups_sized (internal_max_size h) ((a' ++ (pq, X' ++ (kl, pl) :: (kr, pr) :: Y') :: b') :: ups) ->
  root_page h = root /\ 6 <= internal_max_size h -> 0 ∈ al /\ FIRST_INDEX_PAGE ∈ al ->
  d !! pq = Some (NodePage (InternalNode (mk_internal o (X' ++ (kl, pl) :: (kr, pr) :: Y')))) ->
  d2 !! pq = Some (NodePage (InternalNode (mk_internal o (X' ++ (kl, pl) :: Y')))) ->
  (forall q, q ∈ up_pages ((a' ++ (pq, X' ++ (kl, pl) :: (kr, pr) :: Y') :: b') :: ups) -> q <> pq -> d2 !! q = d !! q) ->
  (forall q x, q ∈ F.*2 -> q <> pr -> has_parent d q x -> has_parent d2 q x) ->
  d2 !! FIRST_INDEX_PAGE = d !! FIRST_INDEX_PAGE ->
  deficient h d2 (al ∖ {[ pr ]}) root a' pq (X' ++ (kl, pl) :: Y') b' ups.
Proof.
  intros Hu Hs Hd [Hab Hus] Hh [R0 R1] Epq Eq2 Hup Hpar Hd1.
  set (lvl := a' ++ (pq, X' ++ (kl, pl) :: (kr, pr) :: Y') :: b') in *. set (lvl2 := a' ++ (pq, X' ++ (kl, pl) :: Y') :: b').
  pose proof (proj1 (upper_level _ _ _ _ _ _ _ _) Hu) as (HF & [_ _ _ Hnd Hb] & _).
  assert (Ep : (items_of lvl).*2 ≡ₚ pr :: (items_of lvl2).*2).
  { unfold lvl, lvl2. rewrite !items_of_app, !items_of_cons, !fmap_app. cbn [snd]. rewrite !fmap_app. csimpl. solve_Permutation. }
  rewrite Ep in Hnd. apply NoDup_cons in Hnd as [Hpr _].
  destruct (Hb pr) as (Hr1 & _ & Hr2); [rewrite Ep; by left|].
  assert (Hsub : sublist (tail_keys (items_of lvl2)) (tail_keys F)).
  { rewrite HF. unfold lvl2, lvl, tail_keys. rewrite !items_of_app, !items_of_cons, !fmap_app. cbn [snd]. rewrite !fmap_app. csimpl.
    destruct ((items_of a').*1) as [|x1 l1]; csimpl; rewrite ?drop_0.
    - destruct (X'.*1) as [|x2 l2]; csimpl; rewrite ?drop_0; [by apply sublist_cons|].
      rewrite <- !app_assoc. apply sublist_app; [done|]. simpl. by apply sublist_skip, sublist_cons.
    - apply sublist_app; [done|]. rewrite <- !app_assoc. apply sublist_app; [done|]. simpl. by apply sublist_skip, sublist_cons. }
  split; try done.
  - eapply (upper_replace attr_comparator_ zero_attr); [exact Hu| | |apply first_key_cut|exact Epq|exact Eq2|exact Hup|..].
    + rewrite !fmap_app. csimpl. apply sublist_app; [done|]. by apply sublist_skip, sublist_cons.
    + by intros [_ ?]%app_eq_nil.
    + intros q x Hq. apply Hpar; [rewrite HF, Ep; by right|]. by intros ->.
    + done.
    + intros q Hq Hqal. apply elem_of_difference. split; [done|]. intros ->%elem_of_singleton.
      apply elem_of_app in Hq as [Hq|Hq]; [by apply Hpr|by apply Hr2].
  - by eapply sorted_sublist.
  - intros k Hk. apply Hd. by apply (sublist_subseteq _ _ Hsub).
  - unfold level_sized, lvl in *. rewrite Forall_app, Forall_cons in Hab. apply Forall_app. tauto.
  - unfold level_sized, lvl in Hab. rewrite Forall_app, Forall_cons in Hab. cbn [snd] in Hab. destruct Hab as (_ & Hm & _).
    unfold zlen in *. rewrite length_app in *. simpl in *. lia.
  - unfold FIRST_INDEX_PAGE in *. split; apply elem_of_difference; (split; [done|]); intros Hin%elem_of_singleton; lia.
Qed.

(** ** Two siblings *)

Definition half_full h (n : INode) : Prop := cdiv (internal_max_size h) 2 <= zlen n.2 <= internal_max_size h.

(** The nodes [pl] and [pr] of a level, next to each other below the node [pq]. *)
Record siblings h d al root a1 pl L pr R b1 a' pq o X' Y' b' ups : Prop := mk_siblings {
  sb_level : level_ok (a1 ++ (pl, L) :: (pr, R) :: b1)
    ((a' ++ (pq, X' ++ (first_key (pl, L), pl) :: (first_key (pr, R), pr) :: Y') :: b') :: ups) d al;
  sb_upper : upper_ok h root (firsts (a1 ++ (pl, L) :: (pr, R) :: b1))
    ((a' ++ (pq, X' ++ (first_key (pl, L), pl) :: (first_key (pr, R), pr) :: Y') :: b') :: ups) d al;
  sb_parent : d !! pq = Some (NodePage (InternalNode
    (mk_internal o (X' ++ (first_key (pl, L), pl) :: (first_key (pr, R), pr) :: Y'))));
  sb_left : firsts a1 = items_of a' ++ X';
  sb_right : firsts b1 = Y' ++ items_of b';
  sb_sorted : sorted cmp (tail_keys (items_of (a1 ++ (pl, L) :: (pr, R) :: b1)));
  sb_dom k : k ∈ tail_keys (items_of (a1 ++ (pl, L) :: (pr, R) :: b1)) -> dom k;
  sb_others : Forall (half_full h) (a1 ++ b1);
  sb_above : ups_sized (internal_max_size h)
    ((a' ++ (pq, X' ++ (first_key (pl, L), pl) :: (first_key (pr, R), pr) :: Y') :: b') :: ups);
  sb_header : root_page h = root /\ 6 <= internal_max_size h;
  sb_reserved : 0 ∈ al /\ FIRST_INDEX_PAGE ∈ al
}.

(** The sibling of a deficient node is half full. *)
Lemma deficient_siblings h d al root a pp I b a' pq o X Y b' ups side X' kl pl kr pr Y' :
  deficient h d al root a pp I b ((a' ++ (pq, X ++ (first_key (pp, I), pp) :: Y) :: b') :: ups) ->
  firsts a = items_of a' ++ X -> firsts b = Y ++ items_of b' ->
  d !! pq = Some (NodePage (InternalNode (mk_internal o (X ++ (first_key (pp, I), pp) :: Y)))) ->
  chosen pp X (first_key (pp, I)) Y side X' kl pl kr pr Y' ->
  exists a1 L R b1, a ++ (pp, I) :: b = a1 ++ (pl, L) :: (pr, R) :: b1 /\
    kl = first_key (pl, L) /\ kr = first_key (pr, R) /\ siblings h d al root a1 pl L pr R b1 a' pq o X' Y' b' ups /\
    (if side then L = I /\ half_full h (pr, R) else R = I /\ half_full h (pl, L)).
Proof.
  intros Hdef Ea Eb Epq (EI & HX & Epp & Hne). pose proof Hdef as [Hu Hs Hd Ho Hsz Hus Hh HR].
  apply upper_level in Hu as (_ & Hlv & Hu). pose proof (u_grouped _ _ _ _ _ _ _ Hu) as (Hf & _ & _).
  pose proof (upper_nodup _ _ _ _ _ _ _ Hu) as Hnd. rewrite firsts_pages in Hnd.
  assert (Ef : firsts (a ++ (pp, I) :: b) = (items_of a' ++ X') ++ (kl, pl) :: (kr, pr) :: (Y' ++ items_of b')).
  { rewrite Hf, items_of_app, items_of_cons. cbn [snd]. rewrite EI, <- !app_assoc. done. }
  apply fmap_app_inv in Ef as (a1 & l1 & E1 & E2 & Elvl). destruct l1 as [|[pl' L] [|[pr' R] b1]]; [done|done|].
  csimpl in E2. injection E2 as -> -> -> -> E3. exists a1, L, R, b1.
  assert (Hin : forall n, n ∈ a1 ++ (pl', L) :: (pr', R) :: b1 -> n.1 = pp -> n = (pp, I)).
  { intros n Hn En. rewrite <- Elvl in Hn. rewrite elem_of_app, elem_of_cons in Hn. destruct Hn as [Hn|[Hn|Hn]]; [|done|];
    exfalso; eapply (other_nodes a pp I b n); eauto. }
  assert (Hhalf : forall n, n ∈ a1 ++ (pl', L) :: (pr', R) :: b1 -> n.1 <> pp -> half_full h n).
  { intros n Hn Hnp. rewrite <- Elvl in Hn. rewrite list.Forall_forall in Ho. apply Ho. clear -Hn Hnp.
    rewrite !elem_of_app, elem_of_cons in *. destruct Hn as [Hn|[->|Hn]]; [tauto|done|tauto]. }
  assert (Hnd1 : forall n, n ∈ a1 ++ b1 -> n.1 <> pp).
  { intros n Hn E. rewrite Elvl, fmap_app in Hnd. csimpl in Hnd.
    assert (Hpp : pp = pl' \/ pp = pr') by (destruct side; tauto).
    apply NoDup_app in Hnd as (_ & D1 & Hnd). apply NoDup_cons in Hnd as [D2 Hnd]. apply NoDup_cons in Hnd as [D3 _].
    apply elem_of_app in Hn as [Hn|Hn]; apply (list_elem_of_fmap_2 fst) in Hn; rewrite E in Hn.
    - apply (D1 _ Hn). destruct Hpp as [-> | ->]; in_list.
    - destruct Hpp as [-> | ->]; [apply D2; by right|by apply D3]. }
  split; [done|]. split; [done|]. split; [done|]. rewrite Elvl, EI in *. split.
  - split; try done. apply list.Forall_forall. intros n Hn. apply Hhalf; [|by apply Hnd1].
    clear -Hn. rewrite !elem_of_app, !elem_of_cons in *. tauto.
  - destruct side; subst pp.
    + split; [|apply Hhalf; [in_list|done]]. assert (E : (pl', L) = (pl', I)) by (apply Hin; [in_list|done]). by injection E.
    + split; [|apply Hhalf; [in_list|done]]. assert (E : (pr', R) = (pr', I)) by (apply Hin; [in_list|done]). by injection E.
Qed.

(** *** An item moves from one to the other *)

(** The items of the nodes [pl] and [pr] are divided anew, into [L'] and [R']. *)
Record regroup d d1 pl pr L R L' R' : Prop := mk_regroup {
  rg_left : exists o, d !! pl = Some (NodePage (InternalNode (mk_internal o L))) /\
                      d1 !! pl = Some (NodePage (InternalNode (mk_internal o L')));
  rg_right : exists o, d !! pr = Some (NodePage (InternalNode (mk_internal o R))) /\
                       d1 !! pr = Some (NodePage (InternalNode (mk_internal o R')));
  rg_items : L' ++ R' = L ++ R;
  rg_first : first_key (pl, L') = first_key (pl, L) /\ L' <> [] /\ R' <> [];
  rg_left_parent q : q ∈ L'.*2 -> has_parent d1 q pl;
  rg_right_parent q : q ∈ R'.*2 -> has_parent d1 q pr;
  rg_same q : q ∈ (L ++ R).*2 -> same_body d d1 q;
  rg_other q : q <> pl -> q <> pr -> (q ∉ (L ++ R).*2) -> d1 !! q = d !! q
}.

(** The child [q] goes to the node [par]. *)
Lemma regroup_intro d d1 pl pr L R L' R' q n par ol or :
  NoDup (L ++ R).*2 -> (pl ∉ (L ++ R).*2) -> (pr ∉ (L ++ R).*2) -> q ∈ (L ++ R).*2 ->
  d !! pl = Some (NodePage (InternalNode (mk_internal ol L))) -> d1 !! pl = Some (NodePage (InternalNode (mk_internal ol L'))) ->
  d !! pr = Some (NodePage (InternalNode (mk_internal or R))) -> d1 !! pr = Some (NodePage (InternalNode (mk_internal or R'))) ->
  d !! q = Some (NodePage n) -> d1 !! q = Some (NodePage (node_set_parent par n)) ->
  (forall q', q' <> pl -> q' <> pr -> q' <> q -> d1 !! q' = d !! q') ->
  L' ++ R' = L ++ R -> first_key (pl, L') = first_key (pl, L) /\ L' <> [] /\ R' <> [] ->
  (forall q', q' ∈ L.*2 -> has_parent d q' pl) -> (forall q', q' ∈ R.*2 -> has_parent d q' pr) ->
  (forall q', q' ∈ L'.*2 -> (q' = q /\ par = pl) \/ (q' ∈ L.*2 /\ q' <> q)) ->
  (forall q', q' ∈ R'.*2 -> (q' = q /\ par = pr) \/ (q' ∈ R.*2 /\ q' <> q)) ->
  regroup d d1 pl pr L R L' R'.
Proof.
  intros Hnd Hl Hr Hq El El' Er Er' En En' Ho Eit Hf HpL HpR HL HR.
  assert (Hsub : forall q', q' ∈ (L ++ R).*2 -> q' <> pl /\ q' <> pr) by (intros q' H; split; intros ->; done).
  assert (Hin : forall q', (q' ∈ L.*2 -> q' ∈ (L ++ R).*2) /\ (q' ∈ R.*2 -> q' ∈ (L ++ R).*2)).
  { intros q'. rewrite fmap_app, elem_of_app. tauto. }
  assert (Hqp : has_parent d1 q par) by (eexists; split; [exact En'|by destruct n as [[]|[]]]).
  split; [by exists ol|by exists or|done|done|..].
  - intros q' [[-> <-]|[H1 H2]]%HL; [done|]. destruct (Hsub q' (proj1 (Hin q') H1)) as [M1 M2].
    eapply has_parent_eq; [by apply Ho|by apply HpL].
  - intros q' [[-> <-]|[H1 H2]]%HR; [done|]. destruct (Hsub q' (proj2 (Hin q') H1)) as [M1 M2].
    eapply has_parent_eq; [by apply Ho|by apply HpR].
  - intros q' Hq'. destruct (decide (q' = q)) as [->|Hne]; [by exists n, par|].
    destruct (Hsub q' Hq') as [M1 M2]. eapply (same_body_eq d d); [by apply Ho|].
    rewrite fmap_app, elem_of_app in Hq'. destruct Hq' as [H|H]; [destruct (HpL q' H) as (n' & E' & _)|destruct (HpR q' H) as (n' & E' & _)];
      by eapply same_body_refl.
  - intros q' M1 M2 M3. apply Ho; [done|done|]. intros ->. done.
Qed.

(** The pages of two siblings, their children and the node above are apart. *)
Lemma siblings_apart h d al root a1 pl L pr R b1 a' pq o X' Y' b' ups :
  siblings h d al root a1 pl L pr R b1 a' pq o X' Y' b' ups ->
  NoDup (L ++ R).*2 /\ pl <> pr /\ pl <> pq /\ pr <> pq /\ pl ∈ al /\ 1 < pl /\ 1 < pr /\ 1 < pq /\
  (forall q, q ∈ (L ++ R).*2 -> 1 < q /\ q <> pl /\ q <> pr /\ q <> pq) /\
  (forall n, n ∈ a1 ++ b1 -> n.1 <> pl /\ n.1 <> pr /\ n.1 <> pq /\ (n.1 ∉ (L ++ R).*2)) /\
  (forall n q, n ∈ a1 ++ b1 -> q ∈ n.2.*2 -> 1 < q /\ q <> pl /\ q <> pr /\ q <> pq /\ (q ∉ (L ++ R).*2)) /\
  (forall n, n ∈ a1 ++ b1 -> n ∈ a1 ++ (pl, L) :: (pr, R) :: b1).
Proof.
  intros [[_ _ _ Hnd Hb] Hu _ _ _ _ _ _ _ _ _]. set (lvl := a1 ++ (pl, L) :: (pr, R) :: b1) in *.
  pose proof (u_nodup _ _ _ _ _ _ _ Hu) as (Hndl & Hdis & _)%NoDup_app. rewrite firsts_pages in Hndl, Hdis.
  pose proof (u_pages _ _ _ _ _ _ _ Hu) as Hpg. rewrite firsts_pages in Hpg.
  assert (Hpq : forall p, p ∈ lvl.*1 -> p <> pq).
  { intros p Hp ->. apply (Hdis pq Hp). rewrite up_pages_cons. apply elem_of_app. left. in_list. }
  assert (Hpl : pl ∈ lvl.*1) by (unfold lvl; in_list). assert (Hpr : pr ∈ lvl.*1) by (unfold lvl; in_list).
  assert (Hsub : forall q, q ∈ (L ++ R).*2 -> q ∈ (items_of lvl).*2).
  { intros q. unfold lvl. rewrite items_of_app, !items_of_cons, !fmap_app, !elem_of_app. cbn [snd]. tauto. }
  assert (Hmem : forall n, n ∈ a1 ++ b1 -> n ∈ lvl).
  { intros n. unfold lvl. rewrite !elem_of_app, !elem_of_cons. tauto. }
  assert (Hapart : forall q p, q ∈ (items_of lvl).*2 -> p ∈ lvl.*1 \/ p = pq -> q <> p).
  { intros q p Hq Hp ->. destruct (Hb p Hq) as (_ & _ & H). apply H. rewrite !up_pages_cons, !elem_of_app.
    destruct Hp as [Hp| ->]; [tauto|]. right; left. in_list. }
  assert (Hother : forall n, n ∈ a1 ++ b1 -> n.1 <> pl /\ n.1 <> pr).
  { intros n Hn. unfold lvl in Hndl. rewrite fmap_app in Hndl. csimpl in Hndl.
    apply NoDup_app in Hndl as (_ & D1 & Hndl). apply NoDup_cons in Hndl as [D2 Hndl]. apply NoDup_cons in Hndl as [D3 _].
    apply elem_of_app in Hn as [Hn|Hn]; apply (list_elem_of_fmap_2 fst) in Hn.
    - split; intros E; apply (D1 _ Hn); rewrite E; in_list.
    - split; intros E; rewrite E in Hn; [apply D2; by right|by apply D3]. }
  assert (Hndi : NoDup (L ++ R).*2 /\ forall n q, n ∈ a1 ++ b1 -> q ∈ n.2.*2 -> (q ∉ (L ++ R).*2)).
  { unfold lvl in Hnd. rewrite items_of_app, !items_of_cons in Hnd. cbn [snd] in Hnd. rewrite (app_assoc L R) in Hnd.
    rewrite (fmap_app snd (items_of a1)) in Hnd. apply NoDup_app in Hnd as (_ & D1 & Hnd).
    rewrite (fmap_app snd (L ++ R)) in Hnd, D1. apply NoDup_app in Hnd as (Hnd & D2 & _). split; [done|].
    intros n q [Hn|Hn]%elem_of_app Hq Hin.
    - apply (D1 q); [by apply (item_page_in a1 n)|]. apply elem_of_app. by left.
    - apply (D2 q Hin). by apply (item_page_in b1 n). }
  destruct Hndi as [Hndi Hsep].
  assert (Hlow : forall p, p ∈ lvl.*1 -> 1 < p /\ p ∈ al) by (intros p Hp; apply Hpg, elem_of_app; by left).
  split; [done|]. split.
  { intros E. unfold lvl in Hndl. rewrite fmap_app in Hndl. csimpl in Hndl. apply NoDup_app in Hndl as (_ & _ & Hndl).
    apply NoDup_cons in Hndl as [D _]. apply D. rewrite E. by left. }
  split; [by apply Hpq|]. split; [by apply Hpq|]. split; [by apply Hlow|]. split; [by apply Hlow|]. split; [by apply Hlow|]. split.
  { apply Hpg. rewrite up_pages_cons, !elem_of_app. right; left. in_list. }
  split; [|split; [|split]].
  - intros q Hq. split; [by apply Hb, Hsub|]. split_and!; apply Hapart; auto.
  - intros n Hn. destruct (Hother n Hn) as [H1 H2]. split; [done|]. split; [done|]. split.
    + apply Hpq. by apply list_elem_of_fmap_2, Hmem.
    + intros Hin. apply (Hapart n.1 n.1); [by apply Hsub|left; by apply list_elem_of_fmap_2, Hmem|done].
  - intros n q Hn Hq. assert (Hin : q ∈ (items_of lvl).*2) by (by apply (item_page_in lvl n); [apply Hmem|]).
    split; [by apply Hb|]. split; [apply Hapart; auto|]. split; [apply Hapart; auto|]. split; [apply Hapart; auto|].
    by apply (Hsep n).
  - exact Hmem.
Qed.

Section pair.
Context (h : IndexFileHeader) (d : gmap PageNum (PageData K)) (al : gset PageNum) (ku : Z) (root : PageNum)
  (a1 : list INode) (pl : PageNum) (L : list (K * PageNum)) (pr : PageNum) (R : list (K * PageNum)) (b1 : list INode)
  (a' : list INode) (pq o : PageNum) (X' Y' : list (K * PageNum)) (b' : list INode) (ups : list (list INode)).
Hypothesis Hsib : siblings h d al root a1 pl L pr R b1 a' pq o X' Y' b' ups.
Let lvl := a1 ++ (pl, L) :: (pr, R) :: b1.
Let plvl := a' ++ (pq, X' ++ (first_key (pl, L), pl) :: (first_key (pr, R), pr) :: Y') :: b'.
Let Hapart := siblings_apart _ _ _ _ _ _ _ _ _ _ _ _ _ _ _ _ _ Hsib.

Lemma pair_children q : q ∈ (L ++ R).*2 -> 1 < q /\ q <> pl /\ q <> pr /\ q <> pq.
Proof. intros Hq. by apply Hapart. Qed.

Lemma pair_node n : n ∈ a1 ++ b1 -> n ∈ lvl /\ n.1 <> pl /\ n.1 <> pr /\ n.1 <> pq /\ (n.1 ∉ (L ++ R).*2).
Proof. intros Hn. split; by apply Hapart. Qed.

Lemma pair_item n q : n ∈ a1 ++ b1 -> q ∈ n.2.*2 -> 1 < q /\ q <> pl /\ q <> pr /\ q <> pq /\ (q ∉ (L ++ R).*2).
Proof. destruct Hapart as (_ & _ & _ & _ & _ & _ & _ & _ & _ & _ & H & _). by apply H. Qed.

Lemma pair_items q : q ∈ (items_of lvl).*2 <-> q ∈ (L ++ R).*2 \/ exists n, n ∈ a1 ++ b1 /\ q ∈ n.2.*2.
Proof.
  assert (E : forall l, q ∈ (items_of l).*2 <-> exists n : INode, n ∈ l /\ q ∈ n.2.*2).
  { induction l as [|n l IH]; [split; [by intros H%elem_of_nil|by intros (n & H%elem_of_nil & _)]|].
    rewrite items_of_cons, fmap_app, elem_of_app, IH. setoid_rewrite elem_of_cons. split.
    - intros [H|(n' & H1 & H2)]; [by exists n; auto|exists n'; auto].
    - intros (n' & [->|H1] & H2); [by left|right; by exists n']. }
  unfold lvl. rewrite items_of_app, !items_of_cons. cbn [snd]. rewrite !fmap_app, !elem_of_app, !E.
  setoid_rewrite elem_of_app. split.
  - intros [(n & H1 & H2)|[H|[H|(n & H1 & H2)]]]; eauto.
  - intros [[H|H]|(n & [H1|H1] & H2)]; eauto 6.
Qed.

Lemma pair_pages q : q ∈ lvl.*1 <-> q = pl \/ q = pr \/ exists n, n ∈ a1 ++ b1 /\ q = n.1.
Proof.
  assert (E : q ∈ (a1 ++ b1).*1 <-> exists n : INode, n ∈ a1 ++ b1 /\ q = n.1).
  { rewrite list_elem_of_fmap. split; intros (n & H1 & H2); by exists n. }
  rewrite <- E. unfold lvl. rewrite !fmap_app. csimpl. rewrite !elem_of_app, !elem_of_cons. tauto.
Qed.

(** The pages above the level are not part of it. *)
Lemma pair_above q : q ∈ up_pages (plvl :: ups) -> q <> pl /\ q <> pr /\ (q ∉ (L ++ R).*2) /\ 1 < q.
Proof.
  intros Hq. pose proof Hsib as [Hlv Hu _ _ _ _ _ _ _ _ _].
  pose proof (u_nodup _ _ _ _ _ _ _ Hu) as (_ & Hdis & _)%NoDup_app. rewrite firsts_pages in Hdis.
  assert (Hpl : pl ∈ lvl.*1) by (apply pair_pages; by left). assert (Hpr : pr ∈ lvl.*1) by (apply pair_pages; by right; left).
  split; [intros ->; by apply (Hdis pl)|]. split; [intros ->; by apply (Hdis pr)|]. split.
  - intros Hin. destruct (lv_below _ _ _ _ Hlv q) as (_ & _ & H); [apply pair_items; by left|].
    apply H. rewrite up_pages_cons. apply elem_of_app. by right.
  - apply (u_pages _ _ _ _ _ _ _ Hu). apply elem_of_app. by right.
Qed.

(** What is left alone outside of the two nodes, their children and their parent. *)
Definition apart d' : Prop := forall q, q <> pl -> q <> pr -> q <> pq -> (q ∉ (L ++ R).*2) -> d' !! q = d !! q.

(** The parent with the items [I']. *)
Lemma pair_upper I' d' al' :
  sublist I'.*2 (X' ++ (first_key (pl, L), pl) :: (first_key (pr, R), pr) :: Y').*2 ->
  (exists l, I' = X' ++ (first_key (pl, L), pl) :: l) ->
  d' !! pq = Some (NodePage (InternalNode (mk_internal o I'))) -> apart d' ->
  (forall q x, q = pl \/ q = pr -> q ∈ (items_of (a' ++ (pq, I') :: b')).*2 -> has_parent d q x -> has_parent d' q x) ->
  (forall q, q ∈ (items_of (a' ++ (pq, I') :: b')).*2 ++ up_pages (plvl :: ups) -> q ∈ al -> q ∈ al') ->
  upper_ok h root (items_of (a' ++ (pq, I') :: b')) ((a' ++ (pq, I') :: b') :: ups) d' al'.
Proof.
  intros Hsub (l & EI) Eq Hd Hpar Hal. pose proof Hsib as [_ Hu Epq Ea Eb _ _ _ _ _ _].
  assert (Epar : (firsts lvl).*2 = (items_of plvl).*2).
  { f_equal. apply (proj1 (upper_level _ _ _ _ _ _ _ _) Hu). }
  eapply (upper_replace attr_comparator_ zero_attr); [exact Hu|exact Hsub|rewrite EI; by intros [_ ?]%app_eq_nil| |exact Epq|exact Eq|..].
  - rewrite EI. apply first_key_cut.
  - intros q Hq Hne. destruct (pair_above q Hq) as (M1 & M2 & M3 & _). by apply Hd.
  - intros q x Hq Hx. destruct (decide (q = pl \/ q = pr)) as [Hlr|Hlr]; [by apply Hpar|].
    assert (Hin : q ∈ (items_of plvl).*2).
    { eapply sublist_subseteq; [|exact Hq]. unfold plvl. rewrite !items_of_app, !items_of_cons, !fmap_app. cbn [snd].
      apply sublist_app; [done|]. by apply sublist_app. }
    rewrite <- Epar, firsts_pages in Hin. apply pair_pages in Hin as [->|[->|(n & Hn & ->)]]; [tauto|tauto|].
    destruct (pair_node n Hn) as (_ & M1 & M2 & M3 & M4). eapply has_parent_eq; [by apply Hd|done].
  - destruct Hapart as (_ & _ & _ & _ & _ & Hl1 & Hr1 & Hq1 & Hch & _).
    apply Hd; [unfold FIRST_INDEX_PAGE; lia..|]. intros Hin. destruct (Hch _ Hin). unfold FIRST_INDEX_PAGE in *. lia.
  - exact Hal.
Qed.

(** The level with the nodes [ns'] in the place of the two, below a tree that is in order. *)
Lemma pair_balanced ns' root' ups' d' al' s' :
  st (with_root root' h) d' ∅ al' ku s' ->
  upper_ok h root' (firsts (a1 ++ ns' ++ b1)) ups' d' al' -> ups_sized (internal_max_size h) ups' ->
  al' ⊆ al -> 0 ∈ al' -> FIRST_INDEX_PAGE ∈ al' -> (forall q, q ∈ al -> (q ∉ up_pages (lvl :: plvl :: ups)) -> q ∈ al') ->
  (forall q, q ∈ up_pages ups' -> q ∈ up_pages (plvl :: ups)) ->
  items_of ns' = L ++ R -> Forall (half_full h) ns' -> (forall q, q ∈ ns'.*1 -> q = pl \/ q = pr) ->
  (forall n, n ∈ ns' -> has_int d' n.1 n.2) -> (forall n p, n ∈ ns' -> p ∈ n.2.*2 -> has_parent d' p n.1) ->
  (forall n, n ∈ a1 ++ b1 -> same_body d d' n.1) ->
  (forall q, q ∈ (L ++ R).*2 -> same_body d d' q) ->
  (forall q, q <> pl -> q <> pr -> (q ∉ (L ++ R).*2) -> (q ∉ (a1 ++ b1).*1) -> (q ∉ up_pages (plvl :: ups)) ->
     q <> FIRST_INDEX_PAGE -> d' !! q = d !! q) ->
  balanced h d al ku (items_of lvl) (lvl :: plvl :: ups) s'.
Proof.
  intros Hst Hu' Hus' Hsub R0 R1 Hal Hpg Eit Hhalf Hns Hint Hpar Hsame Hch Hrest. pose proof Hsib as [Hlv Hu _ _ _ _ _ Ho _ [Hr Him] _].
  assert (Hup : forall q, q ∈ up_pages ((a1 ++ ns' ++ b1) :: ups') -> q ∈ up_pages (lvl :: plvl :: ups)).
  { intros q. rewrite (up_pages_cons (_ ++ _)), (up_pages_cons lvl), !elem_of_app. intros [Hq|Hq]; [left|by right; apply Hpg].
    apply pair_pages. rewrite !fmap_app, !elem_of_app in Hq. setoid_rewrite elem_of_app.
    destruct Hq as [Hq|[Hq|Hq]]; [|destruct (Hns q Hq); tauto|]; apply list_elem_of_fmap in Hq as (n & -> & Hn); eauto 6. }
  assert (Hitem : forall n q, n ∈ a1 ++ b1 -> q ∈ n.2.*2 -> d' !! q = d !! q).
  { intros n q Hn Hq. destruct (pair_item n q Hn Hq) as (M0 & M1 & M2 & M3 & M4).
    assert (Hin : q ∈ (items_of lvl).*2) by (apply pair_items; right; by exists n).
    destruct (lv_below _ _ _ _ Hlv q Hin) as (_ & _ & Hnin). rewrite up_pages_cons, elem_of_app in Hnin.
    apply Hrest; [done|done|done| |tauto|unfold FIRST_INDEX_PAGE; lia].
    intros (n' & -> & Hn')%list_elem_of_fmap. apply Hnin. left. apply pair_pages. right; right. by exists n'. }
  assert (Elv : items_of (a1 ++ ns' ++ b1) = items_of lvl).
  { unfold lvl. rewrite !items_of_app, !items_of_cons, Eit. cbn [snd]. by rewrite <- !app_assoc. }
  exists root', ((a1 ++ ns' ++ b1) :: ups'), d', al'. split; [done|]. split; [|split; [|split_and!; try done]].
  - apply upper_level. split; [done|]. split; [|done].
    apply (level_regroup a1 [(pl, L); (pr, R)] ns' b1 (plvl :: ups) ups' d d' al al' Hlv); try done.
    + rewrite Eit. unfold items_of. simpl. by rewrite app_nil_r.
    + eapply list.Forall_impl; [exact Hhalf|]. intros n [Hn _]. rewrite cdiv_nonneg in Hn by lia.
      assert (1 <= internal_max_size h / 2) by (apply Z.div_le_lower_bound; lia). destruct n.2; [unfold zlen in Hn; simpl in Hn; lia|done].
    + intros q (n & -> & Hn)%list_elem_of_fmap. by apply Hsame.
    + intros q Hq Hqal. apply Hal; [done|]. by destruct (lv_below _ _ _ _ Hlv q Hq) as (_ & _ & Hn).
  - split; [|done]. assert (Hall : Forall (half_full h) (a1 ++ ns' ++ b1)) by (rewrite !Forall_app in *; tauto).
    eapply list.Forall_impl; [exact Hall|]. intros n [Hn1 Hn2]. split; [|done]. rewrite cdiv_nonneg in Hn1 by lia.
    assert (3 <= internal_max_size h / 2) by (apply Z.div_le_lower_bound; lia).
    unfold least. destruct ups'; [lia|]. rewrite cdiv_nonneg by lia. done.
  - intros q [Hq|(n & Hn & Hq)]%pair_items; [by apply Hch|]. eapply (same_body_eq d d); [by apply (Hitem n)|].
    destruct (lv_parents _ _ _ _ Hlv n q) as (n' & En & _); [by apply pair_node|done|]. by eapply same_body_refl.
  - intros q Q1 Q2 Q3. rewrite up_pages_cons, elem_of_app in Q2. apply Hrest; try tauto.
    + intros ->. apply Q2. left. apply pair_pages. by left.
    + intros ->. apply Q2. left. apply pair_pages. by right; left.
    + intros Hin. apply Q1, pair_items. by left.
    + intros (n & -> & Hn)%list_elem_of_fmap. apply Q2. left. apply pair_pages. right; right. by exists n.
Qed.

(** After an item has moved and the parent has the new first key. *)
Lemma pair_rotated d1 L' R' s' :
  regroup d d1 pl pr L R L' R' -> half_full h (pl, L') -> half_full h (pr, R') ->
  st h (<[pq := NodePage (InternalNode (mk_internal o
          (X' ++ (first_key (pl, L), pl) :: (first_key (pr, R'), pr) :: Y')))]> d1) ∅ al ku s' ->
  balanced h d al ku (items_of lvl) (lvl :: plvl :: ups) s'.
Proof.
  intros [(ol & El & El') (or & Er & Er') Eit (Efk & HL & HR) HpL HpR Hsame Hother] HfL HfR Hst.
  pose proof Hapart as (_ & N1 & N2 & N3 & _). pose proof Hsib as [_ Hu Epq Ea Eb _ _ _ Hab [Hr Him] [R0 R1]].
  set (I' := X' ++ (first_key (pl, L), pl) :: (first_key (pr, R'), pr) :: Y') in *.
  set (d2 := <[pq := _]> d1) in *.
  assert (Hd2 : apart d2) by (intros q M1 M2 M3 M4; unfold d2; rewrite lookup_insert_ne by done; by apply Hother).
  assert (Hch2 : forall q, q ∈ (L ++ R).*2 -> d2 !! q = d1 !! q).
  { intros q Hq. destruct (pair_children q Hq) as (_ & _ & _ & M). unfold d2. by rewrite lookup_insert_ne. }
  assert (E2l : d2 !! pl = Some (NodePage (InternalNode (mk_internal ol L')))) by (unfold d2; by page_at).
  assert (E2r : d2 !! pr = Some (NodePage (InternalNode (mk_internal or R')))) by (unfold d2; by page_at).
  assert (Hin : forall q, q ∈ L'.*2 \/ q ∈ R'.*2 -> q ∈ (L ++ R).*2) by (intros q; rewrite <- Eit, fmap_app, elem_of_app; done).
  assert (Ef : firsts (a1 ++ [(pl, L'); (pr, R')] ++ b1) = items_of (a' ++ (pq, I') :: b')).
  { rewrite firsts_app, items_of_app, items_of_cons. unfold BplusSpec.firsts at 2. rewrite fmap_app. csimpl.
    rewrite Efk. change ((fun n : INode => (first_key n, n.1)) <$> b1) with (firsts b1). unfold I'. rewrite Ea, Eb, <- !app_assoc. done. }
  apply (pair_balanced [(pl, L'); (pr, R')] root ((a' ++ (pq, I') :: b') :: ups) d2 al s'); try done.
  - by rewrite with_root_id.
  - rewrite Ef. apply pair_upper; try done.
    + unfold I'. by rewrite !fmap_app.
    + by eexists.
    + unfold d2. by page_at.
    + intros q x [->| ->] _; [by apply (has_parent_node d d2 pl _ _ x El E2l)|by apply (has_parent_node d d2 pr _ _ x Er E2r)].
  - unfold plvl in *. unfold I'. destruct Hab as [Hab Hus]. split; [|done]. unfold level_sized in *.
    rewrite Forall_app, Forall_cons in *. cbn [snd] in *. destruct Hab as (? & Hm & ?). split; [done|]. split; [|done].
    unfold zlen in *; rewrite length_app in *; simpl in *; lia.
  - intros q. unfold plvl. by rewrite !up_pages_cons, !fmap_app.
  - rewrite <- Eit. unfold items_of. simpl. by rewrite app_nil_r.
  - by repeat (apply Forall_cons; split).
  - csimpl. intros q. rewrite !elem_of_cons, elem_of_nil. tauto.
  - intros n [->|[->|Hn%elem_of_nil]%elem_of_cons]%elem_of_cons; [by exists ol|by exists or|done].
  - intros n p [->|[->|Hn%elem_of_nil]%elem_of_cons]%elem_of_cons Hp; [| |done]; cbn [fst snd] in *;
      (eapply has_parent_eq; [apply Hch2; auto|auto]).
  - intros n Hn. destruct (pair_node n Hn) as (Hn' & M1 & M2 & M3 & M4).
    destruct (lv_ints _ _ _ _ (sb_level _ _ _ _ _ _ _ _ _ _ _ _ _ _ _ _ _ Hsib) n Hn') as [on En].
    eapply (same_body_eq d d); [by apply Hd2|by eapply same_body_refl].
  - intros q Hq. eapply same_body_eq; [by apply Hch2|by apply Hsame].
  - intros q M1 M2 M3 _ M4 _. apply Hd2; try done. intros ->. apply M4. rewrite up_pages_cons. apply elem_of_app. left. unfold plvl. in_list.
Qed.

(** After the right node has been merged into the left one: what is left to do above. *)
Section merged.
Context (d2 : gmap PageNum (PageData K)) (ol : PageNum).
Hypothesis El : d !! pl = Some (NodePage (InternalNode (mk_internal ol L))).
Hypothesis El2 : d2 !! pl = Some (NodePage (InternalNode (mk_internal ol (L ++ R)))).
Hypothesis Eq2 : d2 !! pq = Some (NodePage (InternalNode (mk_internal o (X' ++ (first_key (pl, L), pl) :: Y')))).
Hypothesis Hd2 : apart d2.
Hypothesis Hch2 : forall q, q ∈ (L ++ R).*2 -> has_parent d2 q pl /\ same_body d d2 q.
Hypothesis HL : L <> [].
Hypothesis Hsize : half_full h (pl, L ++ R).
Let plvl2 := a' ++ (pq, X' ++ (first_key (pl, L), pl) :: Y') :: b'.

Lemma merged_firsts : firsts (a1 ++ [(pl, L ++ R)] ++ b1) = items_of plvl2.
Proof.
  unfold plvl2. pose proof Hsib as [_ _ _ Ea Eb _ _ _ _ _ _].
  rewrite firsts_app, items_of_app, items_of_cons. unfold BplusSpec.firsts at 2. rewrite fmap_app. csimpl.
  assert (Efk : first_key (pl, L ++ R) = first_key (pl, L)) by (unfold BplusSpec.first_key; cbn [snd]; by destruct L).
  rewrite Efk. change ((fun n : INode => (first_key n, n.1)) <$> b1) with (firsts b1). rewrite Ea, Eb, <- !app_assoc. done.
Qed.

Lemma merged_deficient : deficient h d2 (al ∖ {[ pr ]}) root a' pq (X' ++ (first_key (pl, L), pl) :: Y') b' ups.
Proof.
  pose proof Hsib as [Hlv Hu Epq Ea Eb Hs Hd _ Hab Hh HR]. pose proof Hapart as (_ & _ & _ & _ & _ & Hl1 & Hr1 & Hq1 & _).
  eapply (parent_dropped h root _ a' pq o X' _ pl _ pr Y' b' ups d d2 al Hu); try done.
  - apply sorted_firsts; [apply Hlv|done].
  - apply dom_firsts; [apply Hlv|done].
  - intros q Hq Hne. destruct (pair_above q Hq) as (M1 & M2 & M3 & _). by apply Hd2.
  - rewrite firsts_pages. intros q x [->|[->|(n & Hn & ->)]]%pair_pages Hne Hx; [by apply (has_parent_node d d2 pl _ _ x El El2)|done|].
    destruct (pair_node n Hn) as (_ & M1 & M2 & M3 & M4). eapply has_parent_eq; [by apply Hd2|done].
  - apply Hd2; [unfold FIRST_INDEX_PAGE; lia..|]. intros Hin. destruct (pair_children _ Hin). unfold FIRST_INDEX_PAGE in *. lia.
Qed.

Lemma pair_merged s' :
  balanced h d2 (al ∖ {[ pr ]}) ku (items_of plvl2) (plvl2 :: ups) s' ->
  balanced h d al ku (items_of lvl) (lvl :: plvl :: ups) s'.
Proof.
  intros (root' & ups' & d3 & al' & Hst & Hu' & Hus' & Hsub & R0 & R1 & Hal & Hpg & Hsame & Hother).
  rewrite <- merged_firsts in *. rewrite firsts_pages in *. pose proof Hapart as (_ & N1 & _).
  assert (Epg : forall q, q ∈ up_pages (plvl2 :: ups) <-> q ∈ up_pages (plvl :: ups)).
  { intros q. unfold plvl2, plvl. by rewrite !up_pages_cons, !fmap_app. }
  assert (Hlow : forall q, q ∈ (a1 ++ [(pl, L ++ R)] ++ b1).*1 <-> q = pl \/ q ∈ (a1 ++ b1).*1).
  { intros q. rewrite !fmap_app. csimpl. rewrite !elem_of_app, elem_of_cons. tauto. }
  assert (Hfar : forall q, q ∈ (L ++ R).*2 -> d3 !! q = d2 !! q).
  { intros q Hq. destruct (pair_children q Hq) as (M1 & M2 & M3 & M4). apply Hother.
    - intros [?|(n & -> & Hn)%list_elem_of_fmap]%Hlow; [done|]. by destruct (pair_node n Hn) as (_ & _ & _ & _ & M).
    - intros Hin%Epg. by destruct (pair_above q Hin) as (_ & _ & M & _).
    - unfold FIRST_INDEX_PAGE. lia. }
  apply (pair_balanced [(pl, L ++ R)] root' ups' d3 al' s'); try done.
  - intros q Hq. apply Hsub in Hq. by apply elem_of_difference in Hq as [Hq _].
  - intros q Hq Hn. rewrite up_pages_cons, elem_of_app in Hn. apply Hal.
    + apply elem_of_difference. split; [done|]. intros ->%elem_of_singleton. apply Hn. left. apply pair_pages. by right; left.
    + rewrite Epg. tauto.
  - intros q Hq. by apply Epg, Hpg.
  - unfold items_of. simpl. by rewrite app_nil_r.
  - by apply Forall_singleton.
  - csimpl. intros q ->%list_elem_of_singleton. by left.
  - intros n ->%list_elem_of_singleton. eapply has_int_same; [by eexists|]. apply Hsame, Hlow. by left.
  - intros n p ->%list_elem_of_singleton Hp. eapply has_parent_eq; [by apply Hfar|by apply Hch2].
  - intros n Hn. destruct (pair_node n Hn) as (Hn' & M1 & M2 & M3 & M4).
    destruct (lv_ints _ _ _ _ (sb_level _ _ _ _ _ _ _ _ _ _ _ _ _ _ _ _ _ Hsib) n Hn') as [on En].
    eapply same_body_trans; [|apply Hsame, Hlow; right; by apply list_elem_of_fmap_2].
    eapply (same_body_eq d d); [by apply Hd2|by eapply same_body_refl].
  - intros q Hq. eapply same_body_eq; [by apply Hfar|by apply Hch2].
  - intros q M1 M2 M3 M4 M5 M6. rewrite Hother; [apply Hd2; try done| |by rewrite Epg|done].
    + intros ->. apply M5. rewrite up_pages_cons. apply elem_of_app. left. unfold plvl. in_list.
    + intros [?|?]%Hlow; done.
Qed.
End merged.

(** ** The moves between the two nodes *)

Lemma pair_contents : exists ol or,
  d !! pl = Some (NodePage (InternalNode (mk_internal ol L))) /\ d !! pr = Some (NodePage (InternalNode (mk_internal or R))) /\
  (forall q, q ∈ L.*2 -> has_parent d q pl) /\ (forall q, q ∈ R.*2 -> has_parent d q pr) /\ L <> [] /\ R <> [].
Proof.
  pose proof Hsib as [[Hne Hi Hp _ _] _ _ _ _ _ _ _ _ _ _].
  assert (Hl : (pl, L) ∈ lvl) by (unfold lvl; in_list). assert (Hr : (pr, R) ∈ lvl) by (unfold lvl; in_list).
  destruct (Hi _ Hl) as [ol El]. destruct (Hi _ Hr) as [or Er]. exists ol, or. rewrite list.Forall_forall in Hne.
  split_and!; [done|done|intros q; by apply (Hp (pl, L))|intros q; by apply (Hp (pr, R))|by apply (Hne _ Hl)|by apply (Hne _ Hr)].
Qed.

Abbreviation outcome := (fun _ : unit => balanced h d al ku (items_of lvl) (lvl :: plvl :: ups)).

Lemma pair_rotate_right E :
  zlen L + 1 <= internal_max_size h -> cdiv (internal_max_size h) 2 - 1 <= zlen L -> half_full h (pr, R) ->
  internal_max_size h < zlen L + zlen R -> zlen L < internal_max_size h - cdiv (internal_max_size h) 2 ->
  rotated (InternalHandler K) h d al ku pq o pl pr X' (first_key (pl, L)) Y' outcome E true.
Proof.
  intros H1 H2 [H3 H4] H5 H6 s Hst. cbn [snd] in *. destruct pair_contents as (ol & or & El & Er & HpL & HpR & HL & HR).
  pose proof Hapart as (Hnd & N1 & N2 & N3 & _). pose proof (sb_header _ _ _ _ _ _ _ _ _ _ _ _ _ _ _ _ _ Hsib) as [_ Him].
  assert (Hhalf : 3 <= cdiv (internal_max_size h) 2) by (rewrite cdiv_nonneg by lia; apply Z.div_le_lower_bound; lia).
  assert (HR2 : exists k q k1 q1 R2, R = (k, q) :: (k1, q1) :: R2).
  { destruct R as [|[k q] [|[k1 q1] R2]]; [done|unfold zlen in *; simpl in *; lia|eauto 6]. }
  destruct HR2 as (k & q & k1 & q1 & R2 & ER).
  assert (Hdis : (forall q', q' ∈ L.*2 -> q' <> q) /\ (q ∉ ((k1, q1) :: R2).*2)).
  { rewrite ER, fmap_app in Hnd. csimpl in Hnd. apply NoDup_app in Hnd as (_ & D1 & Hnd). apply NoDup_cons in Hnd as [D2 _].
    split; [|done]. intros q' Hq' ->. apply (D1 q Hq'). by left. }
  destruct Hdis as [Hdis1 Hdis2].
  assert (Hq : q ∈ (L ++ R).*2) by (rewrite ER; in_list).
  destruct (pair_children q Hq) as (M1 & M2 & M3 & M4). destruct (HpR q) as (n & En & _); [rewrite ER; in_list|].
  unfold rotate. cbn [h_move_first_to_end h_key_at InternalHandler]. wp_step. rewrite ER in Er.
  eapply (wp_int_first_to_end Hst pl pr ol L or k q ((k1, q1) :: R2) n); [multiset_solver|multiset_solver|done|done|done|done|done|done|].
  clear Hst s. intros s Hst. eapply (wp_int_key_at Hst pr or _ 0 k1 q1); [multiset_solver|by page_at|reflexivity|].
  eexists. split; [exact Hst|]. split; [by page_at|]. intros s2 Hst2.
  eapply (pair_rotated _ (L ++ [(k, q)]) ((k1, q1) :: R2)); [|..|exact Hst2].
  - eapply (regroup_intro d _ pl pr L R _ _ q n pl ol or); try done; try (by page_at).
    + intros Hin. by destruct (pair_children _ Hin) as (_ & ? & _).
    + intros Hin. by destruct (pair_children _ Hin) as (_ & _ & ? & _).
    + by rewrite ER.
    + intros q' Q1 Q2 Q3. by page_at.
    + rewrite ER. by rewrite <- app_assoc.
    + split_and!; [|by intros [_ ?]%app_eq_nil|done]. unfold BplusSpec.first_key. cbn [snd]. clear -HL. by destruct L.
    + intros q' Hq'. rewrite fmap_app in Hq'. apply elem_of_app in Hq' as [Hq'|Hq'%list_elem_of_singleton]; [right|by left].
      split; [done|by apply Hdis1].
    + intros q' Hq'. right. rewrite ER. csimpl. split; [by right|]. intros ->. done.
  - unfold half_full, zlen in *. cbn [snd]. rewrite length_app. simpl. lia.
  - unfold half_full, zlen in *. rewrite ER in *. simpl in *. lia.
Qed.

Lemma pair_rotate_left E :
  zlen R + 1 <= internal_max_size h -> cdiv (internal_max_size h) 2 - 1 <= zlen R -> half_full h (pl, L) ->
  internal_max_size h < zlen L + zlen R -> zlen R < internal_max_size h - cdiv (internal_max_size h) 2 ->
  rotated (InternalHandler K) h d al ku pq o pl pr X' (first_key (pl, L)) Y' outcome E false.
Proof.
  intros H1 H2 [H3 H4] H5 H6 s Hst. cbn [snd] in *. destruct pair_contents as (ol & or & El & Er & HpL & HpR & HL & HR).
  pose proof Hapart as (Hnd & N1 & N2 & N3 & _). pose proof (sb_header _ _ _ _ _ _ _ _ _ _ _ _ _ _ _ _ _ Hsib) as [_ Him].
  assert (Hhalf : 3 <= cdiv (internal_max_size h) 2) by (rewrite cdiv_nonneg by lia; apply Z.div_le_lower_bound; lia).
  assert (HL2 : exists x1 L2 k q, L = (x1 :: L2) ++ [(k, q)]).
  { clear -H3 Hhalf. destruct L as [|[k q] L2 _] using rev_ind; [unfold zlen in *; simpl in *; lia|].
    destruct L2 as [|x1 L2]; [unfold zlen in *; simpl in *; lia|eauto 6]. }
  destruct HL2 as (x1 & L2 & k & q & EL).
  assert (HqL : q ∈ L.*2) by (rewrite EL, fmap_app; apply elem_of_app; right; by left).
  assert (Hq : q ∈ (L ++ R).*2) by (rewrite fmap_app; apply elem_of_app; by left).
  destruct (pair_children q Hq) as (M1 & M2 & M3 & M4). destruct (HpL q HqL) as (n & En & _).
  assert (Hdis : forall q', q' ∈ (x1 :: L2).*2 \/ q' ∈ R.*2 -> q' <> q).
  { rewrite EL, !fmap_app in Hnd. apply NoDup_app in Hnd as (HndL & D1 & _). apply NoDup_app in HndL as (_ & D2 & _).
    intros q' [Hq'|Hq'] ->; [by apply (D2 q Hq'); left|apply (D1 q); [apply elem_of_app; right; by left|done]]. }
  unfold rotate. cbn [h_move_last_to_front h_key_at InternalHandler]. wp_step. rewrite EL in El.
  eapply (wp_int_last_to_front Hst pl pr ol (x1 :: L2) or k q R n); [multiset_solver|multiset_solver|done|done|done|done|done|done|].
  clear Hst s. intros s Hst. eapply (wp_int_key_at Hst pr or _ 0 k q); [multiset_solver|by page_at|reflexivity|].
  eexists. split; [exact Hst|]. split; [by page_at|]. intros s2 Hst2.
  eapply (pair_rotated _ (x1 :: L2) ((k, q) :: R)); [|..|exact Hst2].
  - eapply (regroup_intro d _ pl pr L R _ _ q n pr ol or); try done; try (by page_at).
    + intros Hin. by destruct (pair_children _ Hin) as (_ & ? & _).
    + intros Hin. by destruct (pair_children _ Hin) as (_ & _ & ? & _).
    + by rewrite EL.
    + intros q' Q1 Q2 Q3. by page_at.
    + rewrite EL. by rewrite <- app_assoc.
    + rewrite EL. by split_and!.
    + intros q' Hq'. right. split; [rewrite EL; rewrite fmap_app; apply elem_of_app; by left|apply Hdis; by left].
    + intros q' Hq'. csimpl in Hq'. apply elem_of_cons in Hq' as [->|Hq']; [by left|right]. split; [done|]. apply Hdis. by right.
  - unfold half_full, zlen in *. rewrite EL in *. rewrite !length_app in *. simpl in *. lia.
  - unfold half_full, zlen in *. simpl in *. lia.
Qed.

(** A merge leaves the rest to [up]. *)
Lemma pair_merge (up : Frame -> M (Index K) unit) E :
  half_full h (pl, L ++ R) ->
  (forall d2 s2, st h d2 {[+ pq +]} (al ∖ {[ pr ]}) ku s2 ->
     deficient h d2 (al ∖ {[ pr ]}) root a' pq (X' ++ (first_key (pl, L), pl) :: Y') b' ups ->
     wp (up pq) s2 (fun _ => balanced h d2 (al ∖ {[ pr ]}) ku (items_of (a' ++ (pq, X' ++ (first_key (pl, L), pl) :: Y') :: b'))
       ((a' ++ (pq, X' ++ (first_key (pl, L), pl) :: Y') :: b') :: ups)) E) ->
  forall frame neighbor, merged (InternalHandler K) up h d al ku pq o pl pr X' (first_key (pl, L)) Y' outcome E frame neighbor.
Proof.
  intros Hsize Hup frame neighbor s Hst. destruct pair_contents as (ol & or & El & Er & HpL & HpR & HL & HR).
  pose proof Hapart as (Hnd & N1 & N2 & N3 & _).
  assert (Hin : forall q, q ∈ R.*2 -> q ∈ (L ++ R).*2) by (intros q; rewrite fmap_app, elem_of_app; tauto).
  unfold merge. cbn [h_move_to InternalHandler].
  wp_b. eapply (wp_int_move_to Hst pl pr ol L or R); [multiset_solver|multiset_solver|done| | | |by page_at|by page_at|..].
  { rewrite fmap_app in Hnd. by apply NoDup_app in Hnd as (_ & _ & Hnd). }
  { intros Hq. by destruct (pair_children _ (Hin _ Hq)) as (_ & ? & _). }
  { intros Hq. by destruct (pair_children _ (Hin _ Hq)) as (_ & _ & ? & _). }
  { intros q Hq. destruct (pair_children _ (Hin _ Hq)) as (_ & _ & _ & ?). destruct (HpR q Hq) as (n & En & _).
    exists n. by page_at. }
  clear Hst s. intros d1 s Hst E1 Hch Hother. wp_b. eapply (wp_is_leaf Hst); [multiset_solver|exact E1|]. cbv iota. apply wp_ret.
  exists d1. split; [exact Hst|]. intros d2 s2 Hd2 Hst2.
  assert (El2 : d2 !! pl = Some (NodePage (InternalNode (mk_internal ol (L ++ R))))) by (by rewrite Hd2).
  assert (Eq2 : d2 !! pq = Some (NodePage (InternalNode (mk_internal o (X' ++ (first_key (pl, L), pl) :: Y'))))).
  { rewrite Hd2 by done. rewrite Hother; [by page_at|done|done|]. intros Hq. by destruct (pair_children _ (Hin _ Hq)) as (_ & _ & _ & ?). }
  assert (Hap : apart d2).
  { intros q M1 M2 M3 M4. rewrite Hd2, Hother by auto. by page_at. }
  assert (Hc2 : forall q, q ∈ (L ++ R).*2 -> has_parent d2 q pl /\ same_body d d2 q).
  { intros q Hq. destruct (pair_children q Hq) as (M1 & M2 & M3 & M4).
    destruct (decide (q ∈ R.*2)) as [Hr|Hr].
    - destruct (HpR q Hr) as (n & En & _). assert (E2 : d2 !! q = Some (NodePage (node_set_parent pl n))).
      { rewrite Hd2 by done. apply Hch; [done|by page_at]. }
      split; [eexists; split; [exact E2|by destruct n as [[]|[]]]|by exists n, pl].
    - assert (E2 : d2 !! q = d !! q) by (rewrite Hd2, Hother by done; by page_at).
      assert (Hl : q ∈ L.*2) by (rewrite fmap_app in Hq; apply elem_of_app in Hq as [?|?]; done).
      destruct (HpL q Hl) as (n & En & Eo). split; [by eapply has_parent_eq; [|apply HpL]|].
      eapply (same_body_eq d d); [done|by eapply same_body_refl]. }
  eapply wp_mono; [apply (Hup d2 s2 Hst2)|intros u s'; cbv beta|done].
  - by eapply (merged_deficient d2 ol).
  - by eapply (pair_merged d2 ol).
Qed.
End pair.

(** ** The position of a node in its parent *)

(** The search for the key [kk] of the node [p] finds [p] in the parent. *)
Lemma parent_search kk F1 k p F2 a' X Y b' :
  dom kk -> covers attr_comparator_ kk F1 (k, p) F2 -> sorted cmp (tail_keys (F1 ++ (k, p) :: F2)) ->
  (forall k', k' ∈ tail_keys (F1 ++ (k, p) :: F2) -> dom k') -> F1 = items_of a' ++ X -> F2 = Y ++ items_of b' ->
  (forall k', k' ∈ tail_keys (X ++ (k, p) :: Y) -> dom k') /\ sorted cmp (tail_keys (X ++ (k, p) :: Y)) /\
  (forall k', k' ∈ tail_keys (X ++ [(k, p)]) -> key_le cmp k' kk) /\ (forall k', k' ∈ Y.*1 -> key_lt cmp kk k').
Proof.
  intros Hk [Hc1 Hc2] Hs Hd E1 E2.
  assert (Hsub : sublist (tail_keys (X ++ (k, p) :: Y)) (tail_keys (F1 ++ (k, p) :: F2))).
  { pose proof (tail_keys_node a' (p, X ++ (k, p) :: Y) b') as H. rewrite items_of_app, items_of_cons in H. cbn [snd] in H.
    rewrite E1, E2, <- !app_assoc. by rewrite <- app_assoc in H. }
  pose proof (sorted_sublist attr_comparator_ _ _ Hsub Hs) as Hs'.
  assert (Hd' : forall k', k' ∈ tail_keys (X ++ (k, p) :: Y) -> dom k') by (intros k' Hk'; apply Hd; by apply (sublist_subseteq _ _ Hsub)).
  split; [done|]. split; [done|]. split.
  - destruct X as [|x X0]; [by intros k' Hk'%elem_of_nil|].
    assert (Hle : key_le cmp k kk) by (apply Hc1; rewrite E1; by intros [_ ?]%app_eq_nil).
    unfold tail_keys in *. csimpl. csimpl in Hs'. csimpl in Hd'. rewrite drop_0 in *. rewrite !fmap_app in *. csimpl in *.
    apply sorted_app in Hs' as (_ & _ & Hlt). intros k' [Hk'|Hk'%list_elem_of_singleton]%elem_of_app; [|by subst].
    specialize (Hlt k' k Hk' ltac:(by left)). unfold key_lt, key_le in *. apply Z.lt_le_incl.
    apply (cmp_lt_le_trans dom cmp k' k kk); auto; apply Hd'; in_list.
  - intros k' Hk'. apply Hc2. rewrite E2, fmap_app. apply elem_of_app. by left.
Qed.

(** The last key of a node is between its first key and the next nodes. *)
Lemma last_covers a pp I I0 kk qq b :
  Forall (fun n : INode => n.2 <> []) (a ++ (pp, I) :: b) -> sorted cmp (tail_keys (items_of (a ++ (pp, I) :: b))) ->
  (forall k, k ∈ tail_keys (items_of (a ++ (pp, I) :: b)) -> dom k) -> I = I0 ++ [(kk, qq)] -> I0 <> [] ->
  dom kk /\ covers attr_comparator_ kk (firsts a) (first_key (pp, I), pp) (firsts b).
Proof.
  intros Hne Hs Hd EI HI0. pose proof (tail_keys_node a (pp, I) b) as Hsub. cbn [snd] in Hsub.
  assert (Hkk : kk ∈ tail_keys I).
  { rewrite EI. destruct I0 as [|x I0]; [done|]. unfold tail_keys. csimpl. rewrite drop_0, fmap_app. in_list. }
  assert (Hdk : dom kk) by (apply Hd; by apply (sublist_subseteq _ _ Hsub)). split; [done|]. split.
  - intros Ha. assert (Ha' : items_of a <> []).
    { apply items_nonempty; [by apply Forall_app in Hne as [? _]|]. intros ->. by apply Ha. }
    pose proof (tail_keys_app_r attr_comparator_ _ _ _ Hs Ha') as Hs2. cbn [snd] in Hs2. rewrite EI in Hs2 |- *.
    destruct I0 as [|[k0 q0] I0]; [done|]. cbn [BplusSpec.first_key snd app fst].
    csimpl in Hs2. apply sorted_cons in Hs2 as [_ Hs2]. specialize (Hs2 kk). rewrite !fmap_app in Hs2. csimpl in Hs2.
    unfold key_lt, key_le in *. apply Z.lt_le_incl, Hs2. in_list.
  - intros k Hk. apply Forall_app in Hne as [_ Hne]. apply Forall_cons in Hne as [_ Hb].
    apply (sublist_subseteq _ _ (firsts_sublist zero_attr _ Hb)) in Hk.
    assert (Hsub2 : sublist (kk :: (items_of b).*1) (tail_keys (items_of (a ++ (pp, I) :: b)))).
    { rewrite items_of_app, items_of_cons. cbn [snd]. rewrite EI. unfold tail_keys. rewrite !fmap_app, <- !app_assoc. csimpl.
      destruct ((items_of a).*1) as [|x l]; csimpl; rewrite ?drop_0.
      - destruct I0 as [|x I0]; [done|]. csimpl. rewrite drop_0. by apply sublist_inserts_l.
      - by apply sublist_inserts_l, sublist_inserts_l. }
    pose proof (sorted_sublist attr_comparator_ _ _ Hsub2 Hs) as Hs3. apply sorted_cons in Hs3 as [_ Hs3]. by apply Hs3.
Qed.

(** ** [coalesce_or_redistribute] on internal nodes *)

Lemma deficient_contents h d al root a pp I b ups :
  deficient h d al root a pp I b ups ->
  exists o, d !! pp = Some (NodePage (InternalNode (mk_internal o I))) /\ I <> [].
Proof.
  intros [Hu _ _ _ _ _ _ _]. apply upper_level in Hu as (_ & [Hne Hi _ _ _] & _).
  assert (Hin : (pp, I) ∈ a ++ (pp, I) :: b) by in_list. destruct (Hi _ Hin) as [o Eo]. exists o. split; [done|].
  apply Forall_app in Hne as [_ Hne]. by apply Forall_cons in Hne as [Hne _].
Qed.

(** Below another level. *)
Lemma wp_rebalance_below h d al ku root a pp I b plvl ups up s E :
  deficient h d al root a pp I b (plvl :: ups) -> st h d {[+ pp +]} al ku s ->
  zlen I < internal_max_size h - cdiv (internal_max_size h) 2 ->
  (forall d2 al2 a2 p2 I2 b2 s2, deficient h d2 al2 root a2 p2 I2 b2 ups -> st h d2 {[+ p2 +]} al2 ku s2 ->
     wp (up p2) s2 (fun _ => balanced h d2 al2 ku (items_of (a2 ++ (p2, I2) :: b2)) ((a2 ++ (p2, I2) :: b2) :: ups)) E) ->
  wp (coalesce_or_redistribute_body attr_comparator_ (InternalHandler K) up pp) s
    (fun _ => balanced h d al ku (items_of (a ++ (pp, I) :: b)) ((a ++ (pp, I) :: b) :: plvl :: ups)) E.
Proof.
  intros Hdef Hst Hsmall Hup. destruct (deficient_contents _ _ _ _ _ _ _ _ _ Hdef) as (opp & Epp & HI).
  pose proof Hdef as [Hu Hs Hd _ Hsz [Hlvl Hus] [_ Him] _]. apply upper_level in Hu as (_ & [Hne _ _ _ _] & Hu).
  assert (Ef : firsts (a ++ (pp, I) :: b) = firsts a ++ (first_key (pp, I), pp) :: firsts b) by (by rewrite firsts_app).
  pose proof Hu as Hu1. rewrite Ef in Hu1.
  destruct (parent_node _ _ _ _ _ _ _ _ _ _ Hu1) as (a' & pq & X & Y & b' & o & -> & Ea & Eb & Epq & Hpar & Hpq1 & _ & Hnd & Hout & Hch).
  assert (Hhalf : 3 <= cdiv (internal_max_size h) 2) by (rewrite cdiv_nonneg by lia; apply Z.div_le_lower_bound; lia).
  cbn [least] in Hsz.
  assert (HIs : exists I0 kk qq, I = I0 ++ [(kk, qq)] /\ I0 <> []).
  { clear -Hsz Hhalf. destruct I as [|[kk qq] I0 _] using rev_ind; [unfold zlen in *; simpl in *; lia|].
    exists I0, kk, qq. split; [done|]. intros ->. unfold zlen in *. simpl in *. lia. }
  destruct HIs as (I0 & kk & qq & EI & HI0).
  destruct (last_covers a pp I I0 kk qq b Hne Hs Hd EI HI0) as [Hdk Hcov].
  pose proof (sorted_firsts attr_comparator_ zero_attr _ Hne Hs) as Hsf. rewrite Ef in Hsf.
  pose proof (dom_firsts zero_attr dom _ Hne Hd) as Hdf. rewrite Ef in Hdf.
  destruct (parent_search kk _ _ _ _ a' X Y b' Hdk Hcov Hsf Hdf Ea Eb) as (P1 & P2 & P3 & P4).
  assert (Eopp : opp = pq).
  { destruct Hpar as (n & En & Eo). rewrite Epp in En. injection En as <-. done. }
  assert (Hmore : X ++ Y <> []).
  { intros [-> ->]%app_eq_nil. unfold level_sized in Hlvl. rewrite Forall_app, Forall_cons in Hlvl.
    destruct Hlvl as (_ & [Hl _] & _). unfold least, zlen in Hl. simpl in Hl. destruct ups; lia. }
  eapply (wp_underflow attr_comparator_ dom (InternalHandler K) up h d al ku pq o pp X (first_key (pp, I)) Y
    (InternalNode (mk_internal opp I)) (internal_max_size h - cdiv (internal_max_size h) 2) (internal_max_size h) kk); try done.
  - by intros s' <-.
  - by intros s' <-.
  - intros P s' Q' Hst' Hp HQ. eapply (wp_int_key_at Hst'); [done|exact Epp| |exact HQ]. cbn [node_size i_array].
    rewrite EI. replace (zlen (I0 ++ [(kk, qq)]) - 1) with (zlen I0) by (unfold zlen; rewrite length_app; simpl; lia).
    apply zget_middle.
  - intros q Hq. by apply Hch.
  - intros side X' kl pl kr pr Y' nl nr Hc El Er Hlt.
    destruct (deficient_siblings _ _ _ _ _ _ _ _ _ _ _ _ _ _ _ _ _ _ _ _ _ _ Hdef Ea Eb Epq Hc)
      as (a1 & L & R & b1 & Elv & -> & -> & Hsib & Hside).
    destruct (pair_contents _ _ _ _ _ _ _ _ _ _ _ _ _ _ _ _ _ Hsib) as (ol & or & El' & Er' & _).
    rewrite El in El'. rewrite Er in Er'. injection El' as ->. injection Er' as ->. cbn [node_size i_array] in Hlt.
    destruct Hc as (EIp & _ & _ & _). rewrite Elv, EIp. destruct side; destruct Hside as [-> Hf].
    + eapply pair_rotate_right; [exact Hsib|lia|lia|exact Hf|lia|lia].
    + eapply pair_rotate_left; [exact Hsib|lia|lia|exact Hf|lia|lia].
  - intros side X' kl pl kr pr Y' nl nr Hc El Er Hle.
    destruct (deficient_siblings _ _ _ _ _ _ _ _ _ _ _ _ _ _ _ _ _ _ _ _ _ _ Hdef Ea Eb Epq Hc)
      as (a1 & L & R & b1 & Elv & -> & -> & Hsib & Hside).
    destruct (pair_contents _ _ _ _ _ _ _ _ _ _ _ _ _ _ _ _ _ Hsib) as (ol & or & El' & Er' & _).
    rewrite El in El'. rewrite Er in Er'. injection El' as ->. injection Er' as ->. cbn [node_size i_array] in Hle.
    destruct Hc as (EIp & _ & _ & _). rewrite Elv, EIp. eapply pair_merge; [exact Hsib| |].
    + assert (0 <= zlen L /\ 0 <= zlen R) by (unfold zlen; lia).
      unfold half_full in *. cbn [snd] in *. assert (El2 : zlen (L ++ R) = zlen L + zlen R) by (unfold zlen; rewrite length_app; lia).
      rewrite El2. destruct side; destruct Hside as [_ Hf]; lia.
    + intros d2 s2 Hst2 Hdef2. by apply Hup.
Qed.

Lemma wp_rebalance ups : forall h d al ku root a pp I b fuel s E,
  deficient h d al root a pp I b ups -> (length ups < fuel)%nat -> st h d {[+ pp +]} al ku s ->
  wp (coalesce_or_redistribute_internal attr_comparator_ fuel pp) s
    (fun _ => balanced h d al ku (items_of (a ++ (pp, I) :: b)) ((a ++ (pp, I) :: b) :: ups)) E.
Proof.
  induction ups as [|plvl ups IH]; intros h d al ku root a pp I b fuel s E Hdef Hf Hst;
    (destruct fuel as [|fuel]; [simpl in Hf; lia|]); simpl coalesce_or_redistribute_internal;
    destruct (deficient_contents _ _ _ _ _ _ _ _ _ Hdef) as (o & Epp & HI);
    pose proof (d_header _ _ _ _ _ _ _ _ _ Hdef) as [Hroot Him];
    assert (Hhalf : 3 <= cdiv (internal_max_size h) 2) by (rewrite cdiv_nonneg by lia; apply Z.div_le_lower_bound; lia);
    assert (Hhalf2 : 2 * cdiv (internal_max_size h) 2 <= internal_max_size h)
      by (rewrite cdiv_nonneg by lia; apply Z.mul_div_le; lia).
  - unfold coalesce_or_redistribute_body. wp_b. eapply wp_size_int; [exact Hst|multiset_solver|exact Epp|].
    cbn [h_min_size InternalHandler]. unfold Internal.min_size. wp_step. rewrite (st_header _ _ _ _ _ _ Hst).
    destruct (Z.leb_spec (internal_max_size h - cdiv (internal_max_size h) 2) (zlen I)) as [Hge|Hlt].
    + apply (wp_unpin_page Hst); [multiset_solver|]. intros s' Hst'. eapply balanced_refl; [exact Hdef|simpl; lia|].
      eapply st_pins_eq; [exact Hst'|multiset_solver].
    + destruct (deficient_top _ _ _ _ _ _ _ _ Hdef) as (-> & -> & _ & _ & (n & En & Eo)).
      wp_b. eapply (wp_parent_page_num Hst); [multiset_solver|exact En|]. rewrite Eo, Z.eqb_refl.
      destruct (Z.ltb_spec 1 (zlen I)) as [H1|H1].
      * apply (wp_unpin_page Hst); [multiset_solver|]. intros s' Hst'. eapply balanced_refl; [exact Hdef|simpl; lia|].
        eapply st_pins_eq; [exact Hst'|multiset_solver].
      * destruct I as [|[k c] [|x I]]; [done| |unfold zlen in *; simpl in *; lia].
        wp_step. eapply wp_mono; [eapply wp_adjust_root with (E := fun _ _ => False); [exact Hdef|exact Hst|exact Epp]| |done].
        intros u s' Hb. by apply wp_ret.
  - destruct (Z.leb_spec (internal_max_size h - cdiv (internal_max_size h) 2) (zlen I)) as [Hge|Hlt].
    + unfold coalesce_or_redistribute_body. wp_b. eapply wp_size_int; [exact Hst|multiset_solver|exact Epp|].
      cbn [h_min_size InternalHandler]. unfold Internal.min_size. wp_step. rewrite (st_header _ _ _ _ _ _ Hst).
      rewrite (proj2 (Z.leb_le _ _)) by done.
      apply (wp_unpin_page Hst); [multiset_solver|]. intros s' Hst'. eapply balanced_refl; [exact Hdef|cbn [least]; lia|].
      eapply st_pins_eq; [exact Hst'|multiset_solver].
    + eapply wp_rebalance_below; [exact Hdef|exact Hst|exact Hlt|]. intros d2 al2 a2 p2 I2 b2 s2 Hdef2 Hst2.
      apply (IH h d2 al2 ku root); [exact Hdef2|simpl in Hf; lia|exact Hst2].
Qed.
End delete.
