(* ===== verification/BplusRemove.v ===== *)
(** * [delete_entry] takes an entry out of the index

    The leaf level of a deletion: the item leaves its leaf ([thin]); a leaf with too
    few items takes one from a sibling or is merged with it, which leaves the rest
    to the levels above ([BplusDelete]); the last leaf goes with its last item. *)

From Stdlib Require Import ZArith Lia.
From stdpp Require Import base gmap gmultiset sets tactics.
From stdpp Require Import list.
From S2P Require Import Prelude.
From S2P Require Import Monad.
From S2P Require Import LowerBound.
From S2P Require Import Comparator.
From S2P Require Import NodePool.
From S2P Require Import BplusNode.
From S2P Require Import NodeLogic.
From S2P Require Import BplusTree.
From S2P Require Import BplusSpec.
From S2P Require Import BplusSearch.
From S2P Require Import BplusOrder.
From S2P Require Import BplusInsert.
From S2P Require Import BplusEntry.
From S2P Require Import BplusLevels.
From S2P Require Import BplusMove.
From S2P Require Import BplusDelete.
#[local] Open Scope Z_scope.

Section remove.
Context {A : Type} (attr_comparator_ : A -> A -> Z) (zero_attr : A).
Abbreviation K := (A * RID)%type.
Abbreviation cmp := (key_comparator_ attr_comparator_).
Context (dom : K -> Prop) `{!CmpOrder dom cmp}.
Abbreviation LeafNd := (LeafNd (A := A)).
Abbreviation INode := (PageNum * list (K * PageNum))%type.
Abbreviation tree_ok := (tree_ok attr_comparator_ zero_attr dom).
Abbreviation leaf_range := (leaf_range attr_comparator_ dom).
Abbreviation ranged := (ranged attr_comparator_ dom).
Abbreviation upper_ok := (upper_ok zero_attr).
Implicit Types (d : gmap PageNum (PageData K)) (P : gmultiset PageNum) (al : gset PageNum) (p q : PageNum).
Implicit Types (ups : list (list INode)) (ls : list LeafNd).

(** ** Key ranges of leaves *)

Lemma leaf_range_delete first (l : LeafNd) hi xs x ys :
  leaf_range first l hi -> litems l = xs ++ x :: ys ->
  leaf_range first (mk_LeafNd (lsep l) (lpage l) (xs ++ ys)) hi.
Proof.
  intros (H1 & H2 & H3 & H4) E. rewrite E in H1, H2, H3, H4.
  assert (Hsub : sublist (xs ++ ys).*1 (xs ++ x :: ys).*1).
  { rewrite !fmap_app. csimpl. apply sublist_app; [done|]. by apply sublist_cons. }
  assert (Hin : forall k, k ∈ (xs ++ ys).*1 -> k ∈ (xs ++ x :: ys).*1) by (by apply sublist_subseteq).
  unfold BplusSpec.leaf_range. cbn [lsep lpage litems]. split_and!.
  - by eapply sorted_sublist.
  - auto.
  - intros Hf. destruct (H3 Hf) as [H3a H3b]. auto.
  - intros b Hb. destruct (H4 b Hb) as (H4a & H4b & H4c). auto.
Qed.

Lemma leaf_range_merge first (l1 l2 : LeafNd) hi :
  leaf_range first l1 (Some (lsep l2)) -> leaf_range false l2 hi ->
  leaf_range first (mk_LeafNd (lsep l1) (lpage l1) (litems l1 ++ litems l2)) hi.
Proof.
  intros (S1 & D1 & L1 & R1) (S2 & D2 & L2 & R2). destruct (L2 eq_refl) as [Dm Hge].
  destruct (R1 _ eq_refl) as (_ & Hlt & Hsep).
  assert (Hin : forall k, k ∈ (litems l1 ++ litems l2).*1 -> k ∈ (litems l1).*1 \/ k ∈ (litems l2).*1).
  { intros k. by rewrite fmap_app, elem_of_app. }
  unfold key_lt, key_le in *. unfold BplusSpec.leaf_range. cbn [lsep lpage litems]. split_and!.
  - rewrite fmap_app. apply sorted_app. split; [done|]. split; [done|]. intros k1 k2 H1 H2.
    apply (cmp_lt_le_trans dom cmp k1 (lsep l2) k2); auto.
  - intros k [Hk|Hk]%Hin; auto.
  - intros Hf. destruct (L1 Hf) as [Da Hb]. split; [done|]. intros k [Hk|Hk]%Hin; [by apply Hb|].
    apply Z.lt_le_incl, (cmp_lt_le_trans dom cmp _ (lsep l2) k); auto.
  - intros b Hb. destruct (R2 b Hb) as (Db & Hlb & Hsb). split; [done|]. split.
    + intros k [Hk|Hk]%Hin; [|by apply Hlb].
      apply (cmp_trans (dom := dom) (cmp := cmp) k (lsep l2) b); auto.
    + intros Hf. destruct (L1 Hf) as [Da _]. apply (cmp_trans (dom := dom) (cmp := cmp) _ (lsep l2) b); auto.
Qed.

(** A key of a leaf is between the separators around it. *)
Lemma leaf_covers (l1 : list LeafNd) l l2 kk :
  ranged true (l1 ++ l :: l2) None -> kk ∈ (litems l).*1 ->
  dom kk /\ covers attr_comparator_ kk (seps l1) (lsep l, lpage l) (seps l2).
Proof.
  intros Hr Hkk. apply ranged_app in Hr as [_ [(_ & Hd & Hlo & Hhi) Hr]]. split; [by apply Hd|]. split.
  - intros Hne. destruct l1 as [|x l1]; [done|]. by apply Hlo.
  - intros k Hk. destruct l2 as [|l' l2]; [by apply elem_of_nil in Hk|].
    destruct (Hhi _ eq_refl) as (Hdl & Hlt & _). specialize (Hlt kk Hkk).
    pose proof (ranged_seps _ _ _ _ _ Hr) as (Hs & Hds & _).
    assert (E : (seps (l' :: l2)).*1 = lsep <$> l' :: l2) by (unfold seps; rewrite <- list_fmap_compose; by apply list_fmap_ext).
    rewrite E in Hk. specialize (Hds k Hk). csimpl in Hs. apply sorted_cons in Hs as [_ Hs]. csimpl in Hk.
    apply elem_of_cons in Hk as [->|Hk]; [done|]. specialize (Hs k Hk). unfold key_lt in *.
    apply (cmp_trans (dom := dom) (cmp := cmp) kk (lsep l') k); auto.
Qed.

(** ** A leaf with an item less *)

Definition leaf_half h (l : LeafNd) : Prop := cdiv (leaf_max_size h) 2 <= zlen (litems l) <= leaf_max_size h.

(** The leaf [l] may have an item too few. *)
Record thin h d al root (l1 : list LeafNd) l l2 ups : Prop := mk_thin {
  t_upper : upper_ok h root (seps (l1 ++ l :: l2)) ups d al;
  t_chain : chain d BP_INVALID_PAGE_NUM (l1 ++ l :: l2) BP_INVALID_PAGE_NUM;
  t_ranged : ranged true (l1 ++ l :: l2) None;
  t_others : leaves_sized (leaf_max_size h) (l1 ++ l2) ups;
  t_size : least 1 (leaf_max_size h) ups - 1 <= zlen (litems l) <= leaf_max_size h;
  t_ups : ups_sized (internal_max_size h) ups;
  t_header : root_page h = root /\ 6 <= internal_max_size h /\ 4 <= leaf_max_size h;
  t_reserved : 0 ∈ al /\ FIRST_INDEX_PAGE ∈ al
}.

(** The state holds the entries [es], in a tree or, when there are none, without. *)
Definition removed h ku (es : list (K * RID)) (s' : Index K) : Prop :=
  exists root' d' al', st (with_root root' h) d' ∅ al' ku s' /\ 0 ∈ al' /\ FIRST_INDEX_PAGE ∈ al' /\
    ((root' = BP_INVALID_PAGE_NUM /\ es = [] /\ hdr_ok h d' BP_INVALID_PAGE_NUM) \/
     exists ls ups, tree_ok h root' ls ups d' /\ (forall p, p ∈ tree_pages ls ups -> p ∈ al') /\ es = entries ls).

Lemma least_pos h ups : 4 <= leaf_max_size h -> 1 <= least 1 (leaf_max_size h) ups <= Z.max 1 (cdiv (leaf_max_size h) 2).
Proof.
  intros H. assert (2 <= cdiv (leaf_max_size h) 2) by (rewrite cdiv_nonneg by lia; apply Z.div_le_lower_bound; lia).
  destruct ups; simpl; lia.
Qed.

(** A tree in parts, all of them in order. *)
Lemma removed_tree h d al ku root ls ups s' :
  upper_ok h root (seps ls) ups d al -> chain d BP_INVALID_PAGE_NUM ls BP_INVALID_PAGE_NUM -> ranged true ls None ->
  leaves_sized (leaf_max_size h) ls ups -> ups_sized (internal_max_size h) ups -> 4 <= leaf_max_size h ->
  0 ∈ al -> FIRST_INDEX_PAGE ∈ al -> st (with_root root h) d ∅ al ku s' -> removed h ku (entries ls) s'.
Proof.
  intros Hu Hc Hr Hls Hus Hm R0 R1 Hst. exists root, d, al. split; [done|]. split; [done|]. split; [done|]. right.
  exists ls, ups.
  destruct (upper_tree attr_comparator_ zero_attr dom h d al root ls ups Hu Hus Hc Hr) as [Ht Hp]; [|done|by split_and!].
  eapply list.Forall_impl; [exact Hls|]. intros l [Hl _] E. pose proof (least_pos h ups Hm). rewrite E in Hl.
  unfold zlen in Hl. simpl in Hl. lia.
Qed.

Lemma thin_removed h d al ku root l1 l l2 ups s' :
  thin h d al root l1 l l2 ups -> least 1 (leaf_max_size h) ups <= zlen (litems l) -> st h d ∅ al ku s' ->
  removed h ku (entries (l1 ++ l :: l2)) s'.
Proof.
  intros [Hu Hc Hr Ho Hs Hus (Hroot & Him & Hm) [R0 R1]] Hl Hst.
  eapply (removed_tree h d al ku root); try done; [|by rewrite with_root_id].
  unfold leaves_sized in *. rewrite Forall_app in Ho. rewrite Forall_app, Forall_cons. split; [tauto|]. split; [lia|tauto].
Qed.

(** A leaf of the chain with other items. *)
Lemma chain_leaf d d' (l1 : list LeafNd) l l2 items' :
  chain d BP_INVALID_PAGE_NUM (l1 ++ l :: l2) BP_INVALID_PAGE_NUM ->
  has_leaf d' (lpage l) (default BP_INVALID_PAGE_NUM (lpage <$> last l1)) (next_of l2 BP_INVALID_PAGE_NUM) items' ->
  (forall l', l' ∈ l1 \/ l' ∈ l2 -> d' !! lpage l' = d !! lpage l') ->
  chain d' BP_INVALID_PAGE_NUM (l1 ++ mk_LeafNd (lsep l) (lpage l) items' :: l2) BP_INVALID_PAGE_NUM.
Proof.
  intros [H1 [H2 H3]]%chain_app Hl Hd. apply chain_app. cbn [lpage]. split; [|split].
  - eapply chain_eq; [|exact H1]. intros l' Hl'. apply Hd. by left.
  - exact Hl.
  - eapply chain_eq; [|exact H3]. intros l' Hl'. apply Hd. by right.
Qed.

Lemma leaf_node_at d (l1 : list LeafNd) l l2 :
  chain d BP_INVALID_PAGE_NUM (l1 ++ l :: l2) BP_INVALID_PAGE_NUM ->
  exists o v n, d !! lpage l = Some (NodePage (LeafNode (mk_leaf o v n (litems l)))).
Proof. intros [_ [(o & El) _]]%chain_app. by do 3 eexists. Qed.

Lemma thin_delete h d al root (l1 : list LeafNd) l l2 ups xs x ys :
  tree_ok h root (l1 ++ l :: l2) ups d -> (forall p, p ∈ tree_pages (l1 ++ l :: l2) ups -> p ∈ al) ->
  root_page h = root /\ 6 <= internal_max_size h /\ 4 <= leaf_max_size h -> 0 ∈ al /\ FIRST_INDEX_PAGE ∈ al ->
  litems l = xs ++ x :: ys ->
  exists o prev next, d !! lpage l = Some (NodePage (LeafNode (mk_leaf o prev next (xs ++ x :: ys)))) /\
    thin h (<[lpage l := NodePage (LeafNode (mk_leaf o prev next (xs ++ ys)))]> d) al root l1
      (mk_LeafNd (lsep l) (lpage l) (xs ++ ys)) l2 ups.
Proof.
  intros Ht Hpg Hh HR Ei. destruct (tree_leaf _ _ _ _ _ _ _ _ _ _ Ht) as (o & El & Hup & Hne & Hp1 & Hrange).
  rewrite Ei in El. do 3 eexists. split; [exact El|].
  pose proof (tree_upper _ _ _ _ _ al _ _ _ Ht Hpg) as Hu. destruct Ht as [_ Hc _ _ _ _ Hr _ _ Hls Hus].
  set (d' := <[lpage l := _]> d).
  assert (Es : seps (l1 ++ mk_LeafNd (lsep l) (lpage l) (xs ++ ys) :: l2) = seps (l1 ++ l :: l2))
    by (unfold seps; by rewrite !fmap_app).
  assert (Hd' : forall q, q <> lpage l -> d' !! q = d !! q) by (intros q Hq; unfold d'; by page_at).
  unfold leaves_sized in Hls. rewrite Forall_app, Forall_cons in Hls. destruct Hls as (Ha & Hl & Hb).
  split; try done.
  - rewrite Es. eapply upper_frame; [exact Hu|..].
    + intros q Hq. apply Hd'. by intros ->.
    + intros q y _ Hy. destruct (decide (q = lpage l)) as [->|].
      * eapply has_parent_node; [exact El|unfold d'; by page_at|done|done].
      * eapply has_parent_eq; [by apply Hd'|done].
    + apply Hd'. unfold FIRST_INDEX_PAGE. lia.
    + done.
  - eapply chain_leaf; [exact Hc|eexists; unfold d'; by page_at|]. intros l' Hl'. by apply Hd', Hne.
  - apply ranged_app in Hr as [R1 [R2 R3]]. apply ranged_app. split; [done|]. split; [|done].
    by eapply leaf_range_delete.
  - unfold leaves_sized. by rewrite Forall_app.
  - cbn [litems]. rewrite Ei in Hl. unfold zlen in *. rewrite !length_app in *. simpl in *. lia.
Qed.

(** ** The only leaf *)

Lemma thin_root h d al root (l1 : list LeafNd) l l2 :
  thin h d al root l1 l l2 [] -> l1 = [] /\ l2 = [] /\ root = lpage l /\ 1 < lpage l /\
  exists o, o = BP_INVALID_PAGE_NUM /\
    d !! lpage l = Some (NodePage (LeafNode (mk_leaf o BP_INVALID_PAGE_NUM BP_INVALID_PAGE_NUM (litems l)))).
Proof.
  intros [[Hg Hpar _ _ Hpg _] Hc _ _ _ _ _ _]. destruct l1 as [|x l1]; [|by destruct l1]. destruct l2; [|done].
  csimpl in Hg. injection Hg as _ E2. csimpl in Hpar. apply Forall2_cons_1 in Hpar as [(n & En & Eo) _].
  destruct Hc as [(o & El) _]. cbn [next_of] in El. split_and!; try done.
  - apply Hpg. csimpl. by left.
  - exists o. split; [|done]. rewrite El in En. injection En as <-. done.
Qed.

Lemma wp_leaf_root h d al ku root (l1 : list LeafNd) l l2 up s E :
  thin h d al root l1 l l2 [] -> st h d {[+ lpage l +]} al ku s ->
  zlen (litems l) < leaf_max_size h - cdiv (leaf_max_size h) 2 ->
  wp (coalesce_or_redistribute_body attr_comparator_ (LeafHandler K) up (lpage l)) s
    (fun _ => removed h ku (entries (l1 ++ l :: l2))) E.
Proof.
  intros Ht Hst Hsmall. destruct (thin_root _ _ _ _ _ _ _ Ht) as (-> & -> & Eroot & Hl1 & o & -> & El).
  pose proof Ht as [Hu _ _ _ _ _ (Hroot & _ & _) [R0 R1]]. pose proof (u_hdr _ _ _ _ _ _ _ Hu) as Hh.
  unfold coalesce_or_redistribute_body. wp_b. eapply (wp_size_leaf Hst); [multiset_solver|exact El|].
  cbn [h_min_size LeafHandler l_array]. unfold Leaf.min_size. wp_step. rewrite (st_header _ _ _ _ _ _ Hst).
  rewrite (proj2 (Z.leb_gt _ _)) by lia.
  wp_b. eapply (wp_parent_page_num Hst); [multiset_solver|exact El|]. cbn [node_parent l_parent]. rewrite Z.eqb_refl.
  assert (Hkeep : forall s', 1 <= zlen (litems l) -> st h d ({[+ lpage l +]} ∖ {[+ lpage l +]}) al ku s' ->
    removed h ku (entries ([] ++ [l])) s').
  { intros s' Hn Hst'. eapply thin_removed; [exact Ht|exact Hn|]. eapply st_pins_eq; [exact Hst'|multiset_solver]. }
  destruct (Z.ltb_spec 1 (zlen (litems l))) as [Hn|Hn].
  { apply (wp_unpin_page Hst); [multiset_solver|]. intros s' Hst'. apply Hkeep; [lia|done]. }
  unfold adjust_root. wp_step. wp_b. eapply (wp_is_leaf Hst); [multiset_solver|exact El|]. cbv iota.
  wp_b. eapply (wp_size_leaf Hst); [multiset_solver|exact El|]. cbn [andb l_array].
  destruct (Z.ltb_spec 0 (zlen (litems l))) as [H0|H0].
  { do 2 wp_step. apply wp_ret. apply Hkeep; [lia|done]. }
  assert (Ei : litems l = []) by (destruct (litems l); [done|unfold zlen in *; simpl in *; lia]).
  wp_b. eapply wp_set_root; [exact Hst|]. clear Hst s. intros s Hst.
  wp_step. eapply wp_update_root with (root := root); [typeclasses eauto|exact Hst|exact Hh|].
  clear Hst s. intros s Hst. do 2 wp_step. eapply (wp_dispose_page Hst); [multiset_solver|].
  clear Hst s. intros d' s Hd' Hst. do 2 wp_step.
  exists BP_INVALID_PAGE_NUM, d', (al ∖ {[ lpage l ]}). split; [eapply st_pins_eq; [exact Hst|multiset_solver]|].
  unfold FIRST_INDEX_PAGE in *. split; [|split].
  - apply elem_of_difference. split; [done|]. intros Hin%elem_of_singleton. lia.
  - apply elem_of_difference. split; [done|]. intros Hin%elem_of_singleton. lia.
  - left. split; [done|]. split; [unfold entries; csimpl; by rewrite Ei|]. unfold hdr_ok, FIRST_INDEX_PAGE. rewrite Hd' by lia.
    by page_at.
Qed.

(** ** Two neighbouring leaves *)

(** The leaves [lL] and [lR], next to each other below the node [pq]. *)
Record leaf_siblings h d al root (a1 : list LeafNd) lL lR b1 (a' : list INode) pq o X' Y' b' ups : Prop := mk_leaf_siblings {
  ls_upper : upper_ok h root (seps (a1 ++ lL :: lR :: b1))
    ((a' ++ (pq, X' ++ (lsep lL, lpage lL) :: (lsep lR, lpage lR) :: Y') :: b') :: ups) d al;
  ls_parent : d !! pq = Some (NodePage (InternalNode
    (mk_internal o (X' ++ (lsep lL, lpage lL) :: (lsep lR, lpage lR) :: Y'))));
  ls_left : seps a1 = items_of a' ++ X';
  ls_right : seps b1 = Y' ++ items_of b';
  ls_chain : chain d BP_INVALID_PAGE_NUM (a1 ++ lL :: lR :: b1) BP_INVALID_PAGE_NUM;
  ls_ranged : ranged true (a1 ++ lL :: lR :: b1) None;
  ls_others : Forall (leaf_half h) (a1 ++ b1);
  ls_above : ups_sized (internal_max_size h)
    ((a' ++ (pq, X' ++ (lsep lL, lpage lL) :: (lsep lR, lpage lR) :: Y') :: b') :: ups);
  ls_header : root_page h = root /\ 6 <= internal_max_size h /\ 4 <= leaf_max_size h;
  ls_reserved : 0 ∈ al /\ FIRST_INDEX_PAGE ∈ al
}.

(** Different leaves are on different pages. *)
Lemma leaf_page_inj ls (l l' : LeafNd) : NoDup (lpage <$> ls) -> l ∈ ls -> l' ∈ ls -> lpage l = lpage l' -> l = l'.
Proof.
  intros Hnd [i Hi]%list_elem_of_lookup [j Hj]%list_elem_of_lookup E.
  assert (Hij : i = j).
  { eapply (NoDup_lookup (lpage <$> ls)); [done|rewrite list_lookup_fmap, Hi; done|rewrite list_lookup_fmap, Hj; simpl; by rewrite E]. }
  subst j. congruence.
Qed.

Lemma thin_siblings h d al root (l1 : list LeafNd) l l2 a' pq o X Y b' ups side X' kl pl kr pr Y' :
  thin h d al root l1 l l2 ((a' ++ (pq, X ++ (lsep l, lpage l) :: Y) :: b') :: ups) ->
  d !! pq = Some (NodePage (InternalNode (mk_internal o (X ++ (lsep l, lpage l) :: Y)))) ->
  chosen (lpage l) X (lsep l) Y side X' kl pl kr pr Y' ->
  exists a1 lL lR b1, l1 ++ l :: l2 = a1 ++ lL :: lR :: b1 /\ kl = lsep lL /\ pl = lpage lL /\ kr = lsep lR /\ pr = lpage lR /\
    leaf_siblings h d al root a1 lL lR b1 a' pq o X' Y' b' ups /\
    (if side then lL = l /\ leaf_half h lR else lR = l /\ leaf_half h lL).
Proof.
  intros Ht Epq (EI & HX & Epp & Hne). pose proof Ht as [Hu Hc Hr Ho Hsz Hus Hh HR].
  pose proof (u_grouped _ _ _ _ _ _ _ Hu) as (Hf & _ & _).
  pose proof (upper_nodup _ _ _ _ _ _ _ Hu) as Hnd. rewrite seps_pages in Hnd.
  assert (Ef : seps (l1 ++ l :: l2) = (items_of a' ++ X') ++ (kl, pl) :: (kr, pr) :: (Y' ++ items_of b')).
  { rewrite Hf, items_of_app, items_of_cons. cbn [snd]. rewrite EI, <- !app_assoc. done. }
  apply fmap_app_inv in Ef as (a1 & ls & E1 & E2 & Els). destruct ls as [|lL [|lR b1]]; [done|done|].
  csimpl in E2. injection E2 as -> -> -> -> E3. exists a1, lL, lR, b1.
  assert (Hl : l ∈ a1 ++ lL :: lR :: b1) by (rewrite <- Els; in_list).
  rewrite Els in *.
  assert (Hhalf : forall l', l' ∈ a1 ++ lL :: lR :: b1 -> l' <> l -> leaf_half h l').
  { intros l' Hl' Hn. rewrite <- Els in Hl'. unfold leaves_sized in Ho. rewrite list.Forall_forall in Ho. apply Ho. clear -Hl' Hn.
    rewrite !elem_of_app, elem_of_cons in *. tauto. }
  assert (El : l = if side then lL else lR).
  { destruct side; (eapply leaf_page_inj; [exact Hnd|exact Hl|in_list|done]). }
  assert (Hother : forall l', l' ∈ a1 ++ b1 -> l' <> l).
  { intros l' Hl' ->. rewrite fmap_app in Hnd. csimpl in Hnd. apply NoDup_app in Hnd as (_ & D1 & Hnd).
    apply NoDup_cons in Hnd as [D2 Hnd]. apply NoDup_cons in Hnd as [D3 _].
    apply elem_of_app in Hl' as [Hl'|Hl']; apply (list_elem_of_fmap_2 lpage) in Hl'; rewrite Epp in Hl'.
    - apply (D1 _ Hl'). destruct side; in_list.
    - destruct side; [apply D2; by right|by apply D3]. }
  do 5 (split; [done|]). rewrite EI in *. split.
  - split; try done. apply list.Forall_forall. intros l' Hl'. apply Hhalf; [|by apply Hother].
    clear -Hl'. rewrite !elem_of_app, !elem_of_cons in *. tauto.
  - destruct side; subst l; (split; [done|]; apply Hhalf; [in_list|]; intros E; apply Hne; by rewrite E).
Qed.

Section pair.
Context (h : IndexFileHeader) (d : gmap PageNum (PageData K)) (al : gset PageNum) (ku : Z) (root : PageNum)
  (a1 : list LeafNd) (lL lR : LeafNd) (b1 : list LeafNd)
  (a' : list INode) (pq o : PageNum) (X' Y' : list (K * PageNum)) (b' : list INode) (ups : list (list INode)).
Hypothesis Hsib : leaf_siblings h d al root a1 lL lR b1 a' pq o X' Y' b' ups.
Abbreviation pl := (lpage lL).
Abbreviation pr := (lpage lR).
Let lvs := a1 ++ lL :: lR :: b1.
Let plvl := a' ++ (pq, X' ++ (lsep lL, pl) :: (lsep lR, pr) :: Y') :: b'.

Lemma leaf_pair_contents : exists oL vL oR,
  vL = default BP_INVALID_PAGE_NUM (lpage <$> last a1) /\
  d !! pl = Some (NodePage (LeafNode (mk_leaf oL vL pr (litems lL)))) /\
  d !! pr = Some (NodePage (LeafNode (mk_leaf oR pl (next_of b1 BP_INVALID_PAGE_NUM) (litems lR)))) /\
  chain d BP_INVALID_PAGE_NUM a1 pl /\ chain d pr b1 BP_INVALID_PAGE_NUM.
Proof.
  pose proof (ls_chain _ _ _ _ _ _ _ _ _ _ _ _ _ _ _ Hsib) as [H1 [(oL & EL) [(oR & ER) H4]]]%chain_app.
  by exists oL, (default BP_INVALID_PAGE_NUM (lpage <$> last a1)), oR.
Qed.

(** The pages are apart. *)
Lemma leaf_pair_apart :
  pl <> pr /\ pl <> pq /\ pr <> pq /\ 1 < pl /\ 1 < pr /\ 1 < pq /\ NoDup (lpage <$> b1) /\
  (forall l, l ∈ a1 ++ b1 -> lpage l <> pl /\ lpage l <> pr /\ lpage l <> pq /\ 1 < lpage l) /\
  (forall l, l ∈ a1 -> lpage l ∉ lpage <$> b1) /\
  (forall q, q ∈ up_pages (plvl :: ups) -> q <> pl /\ q <> pr /\ (q ∉ lpage <$> b1) /\ 1 < q).
Proof.
  pose proof (ls_upper _ _ _ _ _ _ _ _ _ _ _ _ _ _ _ Hsib) as Hu. fold plvl in Hu.
  pose proof (u_nodup _ _ _ _ _ _ _ Hu) as (Hnd & Hdis & _)%NoDup_app. pose proof (u_pages _ _ _ _ _ _ _ Hu) as Hpg.
  rewrite seps_pages in *. fold lvs in Hnd, Hdis, Hpg.
  assert (Hlow : forall q, q ∈ lpage <$> lvs -> 1 < q) by (intros q Hq; apply Hpg, elem_of_app; by left).
  assert (Hpq : pq ∈ up_pages (plvl :: ups)) by (rewrite up_pages_cons; apply elem_of_app; left; unfold plvl; in_list).
  assert (Hpl : pl ∈ lpage <$> lvs) by (unfold lvs; in_list). assert (Hpr : pr ∈ lpage <$> lvs) by (unfold lvs; in_list).
  assert (Hmem : forall l, l ∈ a1 ++ b1 -> lpage l ∈ lpage <$> lvs).
  { intros l Hl. apply list_elem_of_fmap_2. unfold lvs. rewrite !elem_of_app, !elem_of_cons in *. tauto. }
  unfold lvs in Hnd. rewrite fmap_app in Hnd. csimpl in Hnd. apply NoDup_app in Hnd as (_ & D1 & Hnd).
  apply NoDup_cons in Hnd as [D2 Hnd]. apply NoDup_cons in Hnd as [D3 D4].
  split_and!; try done.
  - intros E. apply D2. rewrite E. by left.
  - intros E. apply (Hdis pl Hpl). by rewrite E.
  - intros E. apply (Hdis pr Hpr). by rewrite E.
  - by apply Hlow.
  - by apply Hlow.
  - apply Hpg, elem_of_app. by right.
  - intros l Hl. pose proof (Hmem l Hl) as Hm. split_and!; [..|by apply Hlow].
    + intros E. apply elem_of_app in Hl as [Hl|Hl]; apply (list_elem_of_fmap_2 lpage) in Hl; rewrite E in Hl.
      * apply (D1 _ Hl). by left.
      * apply D2. by right.
    + intros E. apply elem_of_app in Hl as [Hl|Hl]; apply (list_elem_of_fmap_2 lpage) in Hl; rewrite E in Hl.
      * apply (D1 _ Hl). by right; left.
      * done.
    + intros E. apply (Hdis _ Hm). by rewrite E.
  - intros l Hl Hb. apply (D1 (lpage l)); [by apply list_elem_of_fmap_2|by right; right].
  - intros q Hq. split_and!.
    + intros ->. by apply (Hdis pl).
    + intros ->. by apply (Hdis pr).
    + intros (l & -> & Hl)%list_elem_of_fmap. apply (Hdis (lpage l)); [|done]. apply Hmem, elem_of_app. by right.
    + apply Hpg, elem_of_app. by right.
Qed.

Lemma leaf_pair_ranged :
  leaf_range (match a1 with [] => true | _ => false end) lL (Some (lsep lR)) /\ leaf_range false lR (hi_of b1 None).
Proof. by pose proof (ls_ranged _ _ _ _ _ _ _ _ _ _ _ _ _ _ _ Hsib) as [_ [H1 [H2 _]]]%ranged_app. Qed.

(** The leaf on [p] in two states, with other items. *)
Definition leaf_items d1 d2 p I I' : Prop := exists o v n,
  d1 !! p = Some (NodePage (LeafNode (mk_leaf o v n I))) /\ d2 !! p = Some (NodePage (LeafNode (mk_leaf o v n I'))).

Lemma leaf_items_parent d1 d2 p I I' x : leaf_items d1 d2 p I I' -> has_parent d1 p x -> has_parent d2 p x.
Proof. intros (op & v & n & E1 & E2). by eapply has_parent_node. Qed.

(** An item has moved, and the parent has the new first key. *)
Lemma leaf_pair_rotated d1 L' kB vB R2 s' :
  leaf_items d d1 pl (litems lL) L' -> leaf_items d d1 pr (litems lR) ((kB, vB) :: R2) ->
  (forall q, q <> pl -> q <> pr -> d1 !! q = d !! q) ->
  L' ++ (kB, vB) :: R2 = litems lL ++ litems lR -> L' <> [] ->
  cdiv (leaf_max_size h) 2 <= zlen L' <= leaf_max_size h ->
  cdiv (leaf_max_size h) 2 <= zlen ((kB, vB) :: R2) <= leaf_max_size h ->
  st h (<[pq := NodePage (InternalNode (mk_internal o (X' ++ (lsep lL, pl) :: (kB, pr) :: Y')))]> d1) ∅ al ku s' ->
  removed h ku (entries lvs) s'.
Proof.
  intros HL HR Hother Eit HL' HsL HsR Hst. pose proof leaf_pair_apart as (N1 & N2 & N3 & Hl1 & Hr1 & Hq1 & Hnd & Hfar & _ & Hup).
  destruct leaf_pair_contents as (oL & vL & oR & -> & El & Er & Ha & Hb).
  pose proof Hsib as [Hu Epq Ea Eb Hc Hr Ho [Hab Hus] (Hroot & Him & Hm) [R0 R1]].
  set (I' := X' ++ (lsep lL, pl) :: (kB, pr) :: Y') in *. set (d2 := <[pq := _]> d1) in *.
  set (ls' := a1 ++ mk_LeafNd (lsep lL) pl L' :: mk_LeafNd kB pr ((kB, vB) :: R2) :: b1).
  assert (E2 : forall q, q <> pq -> d2 !! q = d1 !! q) by (intros q Hq; unfold d2; by page_at).
  assert (Hkeep : forall l, l ∈ a1 ++ b1 -> d2 !! lpage l = d !! lpage l).
  { intros l Hl. destruct (Hfar l Hl) as (M1 & M2 & M3 & _). by rewrite E2, Hother. }
  assert (Es : seps ls' = items_of (a' ++ (pq, I') :: b')).
  { unfold ls', seps, I'. rewrite !fmap_app, items_of_app, items_of_cons. csimpl.
    change ((fun l : LeafNd => (lsep l, lpage l)) <$> a1) with (seps a1).
    change ((fun l : LeafNd => (lsep l, lpage l)) <$> b1) with (seps b1). rewrite Ea, Eb, <- !app_assoc. done. }
  assert (Ee : entries lvs = entries ls').
  { unfold lvs, ls'. rewrite !entries_app, !entries_cons. cbn [litems]. by rewrite !(app_assoc _ _ (entries b1)), Eit. }
  rewrite Ee. apply (removed_tree h d2 al ku root ls' ((a' ++ (pq, I') :: b') :: ups)); try done.
  - rewrite Es. eapply (upper_replace attr_comparator_ zero_attr); [exact Hu|unfold I'; by rewrite !fmap_app| |apply first_key_cut|exact Epq|unfold d2; by page_at|..].
    + by intros [_ ?]%app_eq_nil.
    + intros q Hq Hne. destruct (Hup q Hq) as (M1 & M2 & _). by rewrite E2, Hother.
    + intros q x Hq Hx. destruct (decide (q = pl)) as [->|]; [|destruct (decide (q = pr)) as [->|]].
      * eapply has_parent_eq; [by apply E2|by eapply leaf_items_parent].
      * eapply has_parent_eq; [by apply E2|by eapply leaf_items_parent].
      * eapply has_parent_eq; [|done]. rewrite E2; [by apply Hother|]. intros ->. rewrite <- Es, seps_pages in Hq.
        apply list_elem_of_fmap in Hq as (l & El' & Hl). unfold ls' in Hl. rewrite elem_of_app, !elem_of_cons in Hl.
        destruct Hl as [Hl|[->|[->|Hl]]]; [|done|done|]; (destruct (Hfar l) as (_ & _ & M & _); [apply elem_of_app; tauto|done]).
    + unfold FIRST_INDEX_PAGE. rewrite E2, Hother by lia. done.
    + done.
  - apply chain_app. split; [|split; [|split]].
    + eapply chain_eq; [|exact Ha]. intros l Hl. apply Hkeep, elem_of_app. by left.
    + destruct HL as (oL' & v & n & E1 & E1'). rewrite El in E1. injection E1 as <- <- <-. exists oL. by rewrite E2.
    + destruct HR as (oR' & v & n & E1 & E1'). rewrite Er in E1. injection E1 as <- <- <-. exists oR. by rewrite E2.
    + eapply chain_eq; [|exact Hb]. intros l Hl. apply Hkeep, elem_of_app. by right.
  - destruct leaf_pair_ranged as [G1 G2]. pose proof (leaf_range_merge _ _ _ _ G1 G2) as G.
    destruct (leaf_range_split _ _ _ _ _ L' kB vB R2 pr G (eq_sym Eit) HL') as [G3 G4]. cbn [lsep lpage] in G3.
    apply ranged_app in Hr as [H1 [_ [_ H2]]]. apply ranged_app. by split_and!.
  - unfold leaves_sized. rewrite Forall_app in Ho. unfold ls'. rewrite Forall_app, !Forall_cons. cbn [least litems]. unfold leaf_half in Ho. tauto.
  - split; [|done]. unfold level_sized in *. rewrite Forall_app, Forall_cons in *. cbn [snd] in *.
    destruct Hab as (? & Hs & ?). split; [done|]. split; [|done]. unfold I', zlen in *; rewrite length_app in *; simpl in *; lia.
  - by rewrite with_root_id.
Qed.

Abbreviation outcome := (fun _ : unit => removed h ku (entries lvs)).

Lemma half_two : 2 <= cdiv (leaf_max_size h) 2 /\ 2 * cdiv (leaf_max_size h) 2 <= leaf_max_size h.
Proof.
  destruct (ls_header _ _ _ _ _ _ _ _ _ _ _ _ _ _ _ Hsib) as (_ & _ & Hm). rewrite cdiv_nonneg by lia.
  split; [apply Z.div_le_lower_bound; lia|apply Z.mul_div_le; lia].
Qed.

Lemma leaf_rotate_right E :
  cdiv (leaf_max_size h) 2 - 1 <= zlen (litems lL) < leaf_max_size h - cdiv (leaf_max_size h) 2 -> leaf_half h lR ->
  leaf_max_size h < zlen (litems lL) + zlen (litems lR) ->
  rotated (LeafHandler K) h d al ku pq o pl pr X' (lsep lL) Y' outcome E true.
Proof.
  intros H1 [H2 H3] H4 s Hst. destruct leaf_pair_contents as (oL & vL & oR & _ & El & Er & _).
  pose proof leaf_pair_apart as (N1 & N2 & N3 & _). destruct half_two as [Hh Hh2].
  assert (HR : exists x kB vB R2, litems lR = x :: (kB, vB) :: R2).
  { destruct (litems lR) as [|x [|[kB vB] R2]]; [unfold zlen in *; simpl in *; lia..|eauto]. }
  destruct HR as (x & kB & vB & R2 & ER). unfold rotate. cbn [h_move_first_to_end h_key_at LeafHandler]. wp_step.
  pose proof Er as Er'. rewrite ER in Er'.
  eapply (wp_leaf_first_to_end Hst pl pr); [multiset_solver|multiset_solver|done|exact El|exact Er'|].
  clear Hst s. intros s Hst. eapply (wp_lf_key_at Hst pr _ 0 kB vB); [multiset_solver|by page_at|reflexivity|].
  eexists. split; [exact Hst|]. split; [by page_at|]. intros s2 Hst2.
  eapply (leaf_pair_rotated _ (litems lL ++ [x]) kB vB R2); [..|exact Hst2].
  - exists oL, vL, pr. split; [done|]. by page_at.
  - exists oR, pl, (next_of b1 BP_INVALID_PAGE_NUM). split; [done|]. by page_at.
  - intros q Q1 Q2. by page_at.
  - rewrite ER. by rewrite <- app_assoc.
  - by intros [_ ?]%app_eq_nil.
  - unfold zlen in *. rewrite length_app. simpl. lia.
  - rewrite ER in *. unfold zlen in *. simpl in *. lia.
Qed.

Lemma leaf_rotate_left E :
  cdiv (leaf_max_size h) 2 - 1 <= zlen (litems lR) < leaf_max_size h - cdiv (leaf_max_size h) 2 -> leaf_half h lL ->
  leaf_max_size h < zlen (litems lL) + zlen (litems lR) ->
  rotated (LeafHandler K) h d al ku pq o pl pr X' (lsep lL) Y' outcome E false.
Proof.
  intros H1 [H2 H3] H4 s Hst. destruct leaf_pair_contents as (oL & vL & oR & _ & El & Er & _).
  pose proof leaf_pair_apart as (N1 & N2 & N3 & _). destruct half_two as [Hh Hh2].
  assert (HL : exists x L2 kB vB, litems lL = (x :: L2) ++ [(kB, vB)]).
  { clear -H2 Hh. destruct (litems lL) as [|[kB vB] L2 _] using rev_ind; [unfold zlen in *; simpl in *; lia|].
    destruct L2 as [|x L2]; [unfold zlen in *; simpl in *; lia|eauto]. }
  destruct HL as (x & L2 & kB & vB & EL). unfold rotate. cbn [h_move_last_to_front h_key_at LeafHandler]. wp_step.
  pose proof El as El'. rewrite EL in El'.
  eapply (wp_leaf_last_to_front Hst pl pr); [multiset_solver|multiset_solver|done|exact El'|exact Er|].
  clear Hst s. intros s Hst. eapply (wp_lf_key_at Hst pr _ 0 kB vB); [multiset_solver|by page_at|reflexivity|].
  eexists. split; [exact Hst|]. split; [by page_at|]. intros s2 Hst2.
  eapply (leaf_pair_rotated _ (x :: L2) kB vB (litems lR)); [..|exact Hst2].
  - exists oL, vL, pr. split; [done|]. by page_at.
  - exists oR, pl, (next_of b1 BP_INVALID_PAGE_NUM). split; [done|]. by page_at.
  - intros q Q1 Q2. by page_at.
  - rewrite EL. by rewrite <- app_assoc.
  - done.
  - rewrite EL in *. unfold zlen in *. rewrite length_app in *. simpl in *. lia.
  - unfold zlen in *. simpl in *. lia.
Qed.

(** *** A merge *)

Let plvl2 := a' ++ (pq, X' ++ (lsep lL, pl) :: Y') :: b'.
Let lM := mk_LeafNd (lsep lL) pl (litems lL ++ litems lR).

Lemma leaf_merged_seps : seps (a1 ++ lM :: b1) = items_of plvl2.
Proof.
  pose proof Hsib as [_ _ Ea Eb _ _ _ _ _ _]. unfold plvl2, seps. rewrite fmap_app, items_of_app, items_of_cons. csimpl.
  change ((fun l : LeafNd => (lsep l, lpage l)) <$> a1) with (seps a1).
  change ((fun l : LeafNd => (lsep l, lpage l)) <$> b1) with (seps b1). rewrite Ea, Eb, <- !app_assoc. done.
Qed.

(** What the levels above make of it. *)
Lemma leaf_pair_merged d2 s' :
  chain d2 BP_INVALID_PAGE_NUM (a1 ++ lM :: b1) BP_INVALID_PAGE_NUM -> leaf_half h lM ->
  balanced zero_attr h d2 (al ∖ {[ pr ]}) ku (items_of plvl2) (plvl2 :: ups) s' -> removed h ku (entries lvs) s'.
Proof.
  intros Hc2 Hhalf (root' & ups' & d3 & al' & Hst & Hu' & Hus' & _ & R0 & R1 & _ & _ & Hsame & _).
  pose proof Hsib as [_ _ _ _ _ Hr Ho _ (_ & _ & Hm) _]. rewrite <- leaf_merged_seps, seps_pages in *.
  assert (Ee : entries lvs = entries (a1 ++ lM :: b1)).
  { unfold lvs. rewrite !entries_app, !entries_cons. unfold lM. cbn [litems]. by rewrite <- app_assoc. }
  rewrite Ee. apply (removed_tree h d3 al' ku root' (a1 ++ lM :: b1) ups'); try done.
  - eapply chain_same; [|exact Hc2]. intros l Hl. apply Hsame. by apply list_elem_of_fmap_2.
  - destruct leaf_pair_ranged as [G1 G2]. apply ranged_app in Hr as [H1 [_ [_ H2]]]. apply ranged_app.
    split; [done|]. split; [|done]. by apply (leaf_range_merge _ lL lR).
  - assert (Hall : Forall (leaf_half h) (a1 ++ lM :: b1)) by (rewrite Forall_app, Forall_cons in *; tauto).
    eapply list.Forall_impl; [exact Hall|]. intros l [Hl1 Hl2]. split; [|done].
    pose proof (least_pos h ups' Hm). pose proof half_two. lia.
Qed.

Lemma leaf_pair_merge (up : Frame -> M (Index K) unit) E :
  leaf_half h lM ->
  (forall d2 s2, st h d2 {[+ pq +]} (al ∖ {[ pr ]}) ku s2 ->
     deficient attr_comparator_ zero_attr dom h d2 (al ∖ {[ pr ]}) root a' pq (X' ++ (lsep lL, pl) :: Y') b' ups ->
     wp (up pq) s2 (fun _ => balanced zero_attr h d2 (al ∖ {[ pr ]}) ku (items_of plvl2) (plvl2 :: ups)) E) ->
  forall frame neighbor, merged (LeafHandler K) up h d al ku pq o pl pr X' (lsep lL) Y' outcome E frame neighbor.
Proof.
  intros Hhalf Hup frame neighbor s Hst.
  destruct leaf_pair_contents as (oL & vL & oR & EvL & El & Er & Ha & Hb).
  pose proof leaf_pair_apart as (N1 & N2 & N3 & Hl1 & Hr1 & Hq1 & Hnd & Hfar & Hsplit & Habove).
  pose proof Hsib as [Hu Epq Ea Eb Hc Hr Ho Hab (Hroot & Him & Hm) HR].
  unfold merge. cbn [h_move_to LeafHandler].
  eapply (wp_leaf_merge Hst pl pr oL vL (litems lL) oR (litems lR) b1); [multiset_solver|multiset_solver|done|by page_at|by page_at|..].
  - intros l Hl. destruct (Hfar l) as (M1 & M2 & _ & M3); [apply elem_of_app; by right|done].
  - done.
  - eapply chain_eq; [|exact Hb]. intros l Hl. destruct (Hfar l) as (_ & _ & M & _); [apply elem_of_app; by right|]. by page_at.
  - clear Hst s. intros d1 s Hst E1 Hc1 Hpar Hother. exists d1. split; [exact Hst|]. intros d2 s2 Hd2 Hst2.
    assert (Hkeep : forall q, q <> pl -> q <> pr -> q <> pq -> (q ∉ lpage <$> b1) -> d2 !! q = d !! q).
    { intros q M1 M2 M3 M4. rewrite Hd2, Hother by done. by page_at. }
    assert (Eq2 : d2 !! pq = Some (NodePage (InternalNode (mk_internal o (X' ++ (lsep lL, pl) :: Y'))))).
    { rewrite Hd2 by done. rewrite Hother; [by page_at|done|done|]. intros (l & E' & Hl)%list_elem_of_fmap.
      destruct (Hfar l) as (_ & _ & M & _); [apply elem_of_app; by right|done]. }
    eapply wp_mono; [apply (Hup d2 s2 Hst2)|intros u s'; cbv beta; apply leaf_pair_merged; [|done]|done].
    + destruct (ranged_tail_sorted attr_comparator_ dom _ Hr) as [Hs Hd].
      eapply (parent_dropped attr_comparator_ zero_attr dom h root _ a' pq o X' _ pl _ pr Y' b' ups d d2 al Hu); try done.
      * intros q Hq Hne. destruct (Habove q Hq) as (M1 & M2 & M3 & _). by apply Hkeep.
      * intros q x Hq Hne Hx. apply (has_parent_eq d1); [by apply Hd2|]. apply Hpar.
        apply (has_parent_eq d); [|done]. rewrite lookup_insert_ne; [done|]. intros <-.
        pose proof (u_nodup _ _ _ _ _ _ _ Hu) as (_ & Hdis & _)%NoDup_app. apply (Hdis pq); [done|].
        rewrite up_pages_cons. apply elem_of_app. left. in_list.
      * apply Hkeep; [unfold FIRST_INDEX_PAGE; lia..|]. intros (l & E' & Hl)%list_elem_of_fmap.
        destruct (Hfar l) as (_ & _ & _ & M); [apply elem_of_app; by right|]. unfold FIRST_INDEX_PAGE in *. lia.
    + apply chain_app. split; [|split].
      * eapply chain_eq; [|exact Ha]. intros l Hl. destruct (Hfar l) as (M1 & M2 & M3 & _); [apply elem_of_app; by left|].
        by apply Hkeep; [..|apply Hsplit].
      * rewrite <- EvL. exists oL. cbn [lM lpage litems]. by rewrite Hd2.
      * cbn [lM lpage]. eapply chain_eq; [|exact Hc1]. intros l Hl. apply Hd2.
        by destruct (Hfar l) as (_ & M & _); [apply elem_of_app; by right|].
Qed.
End pair.

(** ** [coalesce_or_redistribute] on a leaf *)

Lemma thin_below h d al ku root (l1 : list LeafNd) l l2 plvl ups fuel s E :
  thin h d al root l1 l l2 (plvl :: ups) -> st h d {[+ lpage l +]} al ku s -> (length ups < fuel)%nat ->
  zlen (litems l) < leaf_max_size h - cdiv (leaf_max_size h) 2 ->
  wp (coalesce_or_redistribute_body attr_comparator_ (LeafHandler K) (coalesce_or_redistribute_internal attr_comparator_ fuel) (lpage l)) s
    (fun _ => removed h ku (entries (l1 ++ l :: l2))) E.
Proof.
  intros Ht Hst Hf Hsmall. pose proof Ht as [Hu Hc Hr _ Hsz [Hlvl _] (_ & Him & Hm) _]. cbn [least] in Hsz.
  assert (Hh : 2 <= cdiv (leaf_max_size h) 2) by (rewrite cdiv_nonneg by lia; apply Z.div_le_lower_bound; lia).
  assert (Ef : seps (l1 ++ l :: l2) = seps l1 ++ (lsep l, lpage l) :: seps l2) by (unfold seps; by rewrite fmap_app).
  pose proof Hu as Hu1. rewrite Ef in Hu1.
  destruct (parent_node _ _ _ _ _ _ _ _ _ _ _ Hu1) as (a' & pq & X & Y & b' & o & -> & Ea & Eb & Epq & Hpar & Hpq1 & _ & Hnd & Hout & Hch).
  destruct (leaf_node_at d l1 l l2 Hc) as (ol & vl & nl & El).
  assert (HIs : exists I0 kk vv, litems l = I0 ++ [(kk, vv)]).
  { clear -Hsz Hh. destruct (litems l) as [|[kk vv] I0 _] using rev_ind; [unfold zlen in *; simpl in *; lia|eauto]. }
  destruct HIs as (I0 & kk & vv & EI).
  destruct (leaf_covers l1 l l2 kk Hr) as [Hdk Hcov]; [rewrite EI; in_list|].
  destruct (ranged_tail_sorted attr_comparator_ dom _ Hr) as [Hsf Hdf]. rewrite Ef in Hsf, Hdf.
  destruct (parent_search attr_comparator_ dom kk _ _ _ _ a' X Y b' Hdk Hcov Hsf Hdf Ea Eb) as (P1 & P2 & P3 & P4).
  assert (Eol : ol = pq) by (destruct Hpar as (n & En & Eo); rewrite El in En; by injection En as <-).
  assert (Hmore : X ++ Y <> []).
  { intros [-> ->]%app_eq_nil. unfold level_sized in Hlvl. rewrite Forall_app, Forall_cons in Hlvl.
    destruct Hlvl as (_ & [Hl _] & _). unfold least, zlen in Hl. simpl in Hl.
    destruct ups; [lia|]. rewrite cdiv_nonneg in Hl by lia. assert (3 <= internal_max_size h / 2) by (apply Z.div_le_lower_bound; lia). lia. }
  eapply (wp_underflow attr_comparator_ dom (LeafHandler K) _ h d al ku pq o (lpage l) X (lsep l) Y
    (LeafNode (mk_leaf ol vl nl (litems l))) (leaf_max_size h - cdiv (leaf_max_size h) 2) (leaf_max_size h) kk); try done.
  - by intros s' <-.
  - by intros s' <-.
  - intros P s' Q' Hst' Hp HQ. eapply (wp_lf_key_at Hst'); [done|exact El| |exact HQ]. cbn [node_size l_array].
    rewrite EI. replace (zlen (I0 ++ [(kk, vv)]) - 1) with (zlen I0) by (unfold zlen; rewrite length_app; simpl; lia).
    apply zget_middle.
  - intros q Hq. by apply Hch.
  - intros side X' kl pl kr pr Y' n1 n2 Hcs E1 E2 Hlt.
    destruct (thin_siblings _ _ _ _ _ _ _ _ _ _ _ _ _ _ _ _ _ _ _ _ _ Ht Epq Hcs) as (a1 & lL & lR & b1 & Elv & -> & -> & -> & -> & Hsib & Hside).
    destruct (leaf_pair_contents _ _ _ _ _ _ _ _ _ _ _ _ _ _ _ Hsib) as (oL & vL & oR & _ & EL & ER & _).
    rewrite E1 in EL. rewrite E2 in ER. injection EL as ->. injection ER as ->. cbn [node_size l_array] in Hlt. rewrite Elv.
    destruct side; destruct Hside as [-> Hhalf]; [eapply leaf_rotate_right|eapply leaf_rotate_left]; (exact Hsib || exact Hhalf || lia).
  - intros side X' kl pl kr pr Y' n1 n2 Hcs E1 E2 Hle.
    destruct (thin_siblings _ _ _ _ _ _ _ _ _ _ _ _ _ _ _ _ _ _ _ _ _ Ht Epq Hcs) as (a1 & lL & lR & b1 & Elv & -> & -> & -> & -> & Hsib & Hside).
    destruct (leaf_pair_contents _ _ _ _ _ _ _ _ _ _ _ _ _ _ _ Hsib) as (oL & vL & oR & _ & EL & ER & _).
    rewrite E1 in EL. rewrite E2 in ER. injection EL as ->. injection ER as ->. cbn [node_size l_array] in Hle. rewrite Elv.
    eapply leaf_pair_merge; [exact Hsib| |].
    + assert (0 <= zlen (litems lL) /\ 0 <= zlen (litems lR)) by (unfold zlen; lia).
      assert (El2 : zlen (litems lL ++ litems lR) = zlen (litems lL) + zlen (litems lR)) by (unfold zlen; rewrite length_app; lia).
      unfold leaf_half in *. cbn [litems]. rewrite El2. destruct side; destruct Hside as [_ Hf']; lia.
    + intros d2 s2 Hst2 Hdef. by eapply wp_rebalance.
Qed.

Lemma wp_coalesce_leaf h d al ku root (l1 : list LeafNd) l l2 ups s E :
  thin h d al root l1 l l2 ups -> st h d {[+ lpage l +]} al ku s ->
  zlen (litems l) < leaf_max_size h - cdiv (leaf_max_size h) 2 ->
  wp (coalesce_or_redistribute_leaf attr_comparator_ (lpage l)) s (fun _ => removed h ku (entries (l1 ++ l :: l2))) E.
Proof.
  intros Ht Hst Hsmall. unfold coalesce_or_redistribute_leaf. wp_step. unfold pages_fuel. rewrite (st_data _ _ _ _ _ _ Hst).
  destruct ups as [|plvl ups]; [by eapply wp_leaf_root|]. eapply thin_below; [exact Ht|exact Hst| |exact Hsmall].
  pose proof Ht as [Hu _ _ _ _ _ _ _]. pose proof (u_nodup _ _ _ _ _ _ _ Hu) as (_ & _ & Hnd)%NoDup_app.
  pose proof (ups_fuel zero_attr d _ _ _ (u_grouped _ _ _ _ _ _ _ Hu) (u_ups _ _ _ _ _ _ _ Hu) Hnd) as Hl. simpl in Hl. lia.
Qed.

(** ** [delete_entry] *)

(** Where a key is in a leaf, if it is there. *)
Lemma leaf_find first l hi key :
  leaf_range first l hi -> dom key ->
  (exists xs v ys, litems l = xs ++ (key, v) :: ys /\ Leaf.lookup_items cmp (litems l) key = Some (zlen xs, true)) \/
  (exists i, Leaf.lookup_items cmp (litems l) key = Some (i, false) /\ (key ∉ (litems l).*1)).
Proof.
  intros (Hs & Hd & _ & _) Hk. destruct (sorted_split dom cmp key (litems l) Hk Hd Hs) as (xs & ys & E & Hx & Hy).
  rewrite E in *. destruct (leaf_lookup_at dom cmp key xs ys Hk Hd Hs Hx Hy) as (found & Elk & Hf).
  assert (Hrefl : ~ key_lt cmp key key) by (unfold key_lt; rewrite (cmp_refl (dom := dom) (cmp := cmp)) by done; lia).
  destruct found; [left|right; exists (zlen xs); split; [done|]].
  - destruct ys as [|[k v] ys]; [apply proj1 in Hf; specialize (Hf eq_refl); by apply elem_of_nil in Hf|].
    assert (Hin : key ∈ ((k, v) :: ys).*1) by (by apply Hf).
    assert (k = key) as ->; [|by eauto 6]. csimpl in Hin. apply elem_of_cons in Hin as [->|Hin]; [done|]. exfalso.
    rewrite fmap_app in Hs, Hd. csimpl in Hs. csimpl in Hd. apply sorted_app in Hs as (_ & [_ Hlt]%sorted_cons & _).
    specialize (Hlt key Hin). specialize (Hy k ltac:(csimpl; by left)). apply Hrefl. unfold key_lt, key_le in *.
    apply (cmp_le_lt_trans dom cmp key k key); [done|apply Hd; in_list|done|done|done].
  - rewrite fmap_app. intros [Hin|Hin]%elem_of_app; [by apply Hrefl, Hx|]. by apply Hf in Hin.
Qed.

(** The leaf that covers the key has it, or no leaf. *)
Lemma covered_key (l1 : list LeafNd) l l2 key :
  ranged true (l1 ++ l :: l2) None -> dom key -> covers attr_comparator_ key (seps l1) (lsep l, lpage l) (seps l2) ->
  (key ∉ (litems l).*1) -> key ∉ (entries (l1 ++ l :: l2)).*1.
Proof.
  intros Hr Hk Hcov Hn. destruct (covers_sides _ _ _ _ _ _ _ Hr Hk Hcov) as [H1 H2].
  assert (Hrefl : ~ key_lt cmp key key) by (unfold key_lt; rewrite (cmp_refl (dom := dom) (cmp := cmp)) by done; lia).
  rewrite entries_app, entries_cons, !fmap_app, !elem_of_app. intros [Hin|[Hin|Hin]]; auto.
Qed.

Lemma wp_leaf_remove h d P al ku s p o prev next xs x ys key (Q : Z -> Index K -> Prop) E :
  st h d P al ku s -> p ∈ P -> d !! p = Some (NodePage (LeafNode (mk_leaf o prev next (xs ++ x :: ys)))) ->
  Leaf.lookup_items cmp (xs ++ x :: ys) key = Some (zlen xs, true) ->
  (forall s', st h (<[p := NodePage (LeafNode (mk_leaf o prev next (xs ++ ys)))]> d) P al ku s' -> Q 1 s') ->
  wp (Leaf.remove_key cmp p key) s Q E.
Proof.
  intros Hst Hp Ep Elk HQ. unfold Leaf.remove_key. wp_b.
  eapply wp_leaf_lookup; [exact Hst|exact Hp|exact Ep|exact Elk|]. cbn [fst snd]. unfold Leaf.remove. wp_step. simpl l_array.
  wp_b. eapply wp_of_option; [apply arr_remove_middle|].
  do 2 wp_step. by apply HQ.
Qed.

(** The leaf with the key, and what becomes of the tree without it. *)
Lemma wp_delete_found h d al ku root (l1 : list LeafNd) l l2 ups xs key v ys s E :
  tree_ok h root (l1 ++ l :: l2) ups d -> (forall p, p ∈ tree_pages (l1 ++ l :: l2) ups -> p ∈ al) ->
  root_page h = root /\ 6 <= internal_max_size h /\ 4 <= leaf_max_size h -> 0 ∈ al /\ FIRST_INDEX_PAGE ∈ al ->
  litems l = xs ++ (key, v) :: ys -> Leaf.lookup_items cmp (litems l) key = Some (zlen xs, true) ->
  st h d {[+ lpage l +]} al ku s ->
  wp (delete_entry_internal attr_comparator_ (lpage l) key) s
    (fun _ => removed h ku ((entries l1 ++ xs) ++ (ys ++ entries l2))) E.
Proof.
  intros Ht Hpg Hh HR Ei Elk Hst. destruct (thin_delete h d al root l1 l l2 ups xs (key, v) ys Ht Hpg Hh HR Ei) as (o & prev & next & El & Hthin).
  set (l' := mk_LeafNd (lsep l) (lpage l) (xs ++ ys)) in *.
  assert (Ee : (entries l1 ++ xs) ++ (ys ++ entries l2) = entries (l1 ++ l' :: l2)).
  { rewrite entries_app, entries_cons. unfold l'. cbn [litems]. by rewrite <- !app_assoc. }
  rewrite Ee. unfold delete_entry_internal. rewrite Ei in Elk.
  wp_b. eapply wp_leaf_remove; [exact Hst|multiset_solver|exact El|exact Elk|]. clear Hst s. intros s Hst. cbn [Z.eqb].
  wp_step. wp_b. eapply (wp_size_leaf Hst); [multiset_solver|by page_at|]. cbn [l_array]. unfold Leaf.min_size. wp_step.
  rewrite (st_header _ _ _ _ _ _ Hst). change (zlen (xs ++ ys)) with (zlen (litems l')).
  destruct (Z.leb_spec (leaf_max_size h - cdiv (leaf_max_size h) 2) (zlen (litems l'))) as [Hge|Hlt].
  - apply (wp_unpin_page Hst); [multiset_solver|]. intros s2 Hst2. eapply thin_removed; [exact Hthin| |].
    + destruct Hh as (_ & _ & Hm).
      assert (2 <= cdiv (leaf_max_size h) 2 /\ 2 * cdiv (leaf_max_size h) 2 <= leaf_max_size h).
      { rewrite cdiv_nonneg by lia. split; [apply Z.div_le_lower_bound; lia|apply Z.mul_div_le; lia]. }
      pose proof (least_pos h ups Hm). lia.
    + eapply st_pins_eq; [exact Hst2|multiset_solver].
  - eapply (wp_coalesce_leaf h _ al ku root l1 l' l2); [exact Hthin|exact Hst|exact Hlt].
Qed.

Lemma wp_delete_missing h d al ku (l1 : list LeafNd) l l2 i key s E :
  chain d BP_INVALID_PAGE_NUM (l1 ++ l :: l2) BP_INVALID_PAGE_NUM ->
  Leaf.lookup_items cmp (litems l) key = Some (i, false) -> st h d {[+ lpage l +]} al ku s ->
  (forall s', st h d ∅ al ku s' -> E RECORD_RECORD_NOT_EXIST s') ->
  wp (delete_entry_internal attr_comparator_ (lpage l) key) s (fun _ _ => False) E.
Proof.
  intros Hc Elk Hst HE. destruct (leaf_node_at d l1 l l2 Hc) as (o & v & n & El). unfold delete_entry_internal, Leaf.remove_key.
  wp_b. eapply wp_leaf_lookup; [exact Hst|multiset_solver|exact El|exact Elk|]. cbn [snd]. wp_step. cbn [Z.eqb]. wp_step.
  apply wp_throw, HE. eapply st_pins_eq; [exact Hst|multiset_solver].
Qed.

Lemma removed_inv h ku es s :
  sizes_ok h -> removed h (ku + 1) es s ->
  index_inv attr_comparator_ zero_attr dom ku (set_keys (keys_in_use s - 1) s) es.
Proof.
  intros Hsz (root & d & al & Hst & R0 & R1 & Hcases). exists (with_root root h), d, al. split.
  - destruct Hst as [H1 H2 H3 H4 H5 H6 H7]. split; try done. simpl. lia.
  - split; [done|]. split; [done|]. split; [done|]. destruct Hcases as [(-> & -> & Hh)|(ls & ups & Ht & Hp & ->)]; [by left|right].
    exists ls, ups. split; [by apply tree_ok_header|done].
Qed.

Lemma st_free_key h d P al ku (s : Index K) : st h d P al (ku + 1) s -> st h d P al ku (set_keys (keys_in_use s - 1) s).
Proof. intros [H1 H2 H3 H4 H5 H6 H7]. split; try done. simpl. lia. Qed.

Lemma wp_delete_entry ku s es uk rid :
  index_inv attr_comparator_ zero_attr dom ku s es -> dom (uk, rid) ->
  4 <= leaf_max_size (file_header_ s) -> 6 <= internal_max_size (file_header_ s) ->
  wp (delete_entry attr_comparator_ uk rid) s
    (fun _ s' => exists es', entry_remove cmp (uk, rid) es = Some es' /\ index_inv attr_comparator_ zero_attr dom ku s' es')
    (fun rc s' => rc = (if decide (es = []) then EMPTY else RECORD_RECORD_NOT_EXIST) /\
       entry_remove cmp (uk, rid) es = None /\ index_inv attr_comparator_ zero_attr dom ku s' es).
Proof.
  intros (h & d & al & Hst & Hsz & R0 & R1 & Hcases) Hk Hlm Him. rewrite (st_header _ _ _ _ _ _ Hst) in Hlm, Him.
  assert (Hsame : forall s', st h d ∅ al (ku + 1) s' ->
    index_inv attr_comparator_ zero_attr dom ku (set_keys (keys_in_use s' - 1) s') es).
  { intros s' Hst'. exists h, d, al. split; [by apply st_free_key|done]. }
  unfold delete_entry. wp_b. eapply wp_make_key; [exact Hst|]. clear Hst s. intros s Hst. cbv iota. wp_step.
  destruct Hcases as [(Hroot & -> & Hh)|(ls & ups & Ht & Hpg & ->)].
  - unfold find_leaf, find_leaf_internal, is_empty. wp_step. rewrite (st_header _ _ _ _ _ _ Hst), Hroot. cbn [Z.eqb BP_INVALID_PAGE_NUM].
    apply wp_throw. unfold free_key. wp_b. apply wp_modify, wp_throw. rewrite decide_True by done. split; [done|]. split; [done|].
    by apply Hsame.
  - assert (Hne : entries ls <> []).
    { pose proof (ok_nonempty _ _ _ _ _ _ _ _ Ht) as Hall. pose proof (grouped_nonempty _ _ _ _ (ok_grouped _ _ _ _ _ _ _ _ Ht)) as Hls.
      destruct Hall as [|l ls' Hl _]; [done|]. rewrite entries_cons. by intros [? _]%app_eq_nil. }
    eapply wp_mono; [by eapply wp_find_leaf with (E := fun _ _ => False)| |by intros].
    cbv beta. intros p s1 (l1 & l & l2 & -> & -> & Hcov & Hst1).
    pose proof (ok_ranged _ _ _ _ _ _ _ _ Ht) as Hr. pose proof Hr as [_ [Hrange _]]%ranged_app.
    wp_step. destruct (leaf_find _ _ _ _ Hrange Hk) as [(xs & v & ys & Ei & Elk)|(i & Elk & Hmiss)].
    + eapply wp_mono; [eapply wp_delete_found with (E := fun _ _ => False); [exact Ht|exact Hpg|done|done|exact Ei|exact Elk|exact Hst1]| |by intros].
      cbv beta. intros u s2 Hrem. unfold free_key. wp_b. apply wp_modify, wp_ret.
      exists ((entries l1 ++ xs) ++ (ys ++ entries l2)). split; [|by eapply removed_inv].
      assert (Ee : entries (l1 ++ l :: l2) = (entries l1 ++ xs) ++ (uk, rid, v) :: (ys ++ entries l2)).
      { rewrite entries_app, entries_cons, Ei, <- !app_assoc. done. }
      pose proof (ranged_dom _ _ _ _ _ Hr) as Hd. pose proof (ranged_sorted _ _ _ _ _ Hr) as Hs. rewrite Ee in *.
      by apply (entry_remove_at _ dom).
    + eapply wp_mono; [eapply wp_delete_missing with (E := fun rc s' => rc = RECORD_RECORD_NOT_EXIST /\ st h d ∅ al (ku + 1) s')| |];
        [exact (ok_chain _ _ _ _ _ _ _ _ Ht)|exact Elk|exact Hst1|by intros|by intros|].
      cbv beta. intros rc s2 [-> Hst2]. unfold free_key. wp_b. apply wp_modify, wp_throw. rewrite decide_False by done.
      split; [done|]. split; [|by apply Hsame]. apply (entry_remove_none _ dom); [done|by eapply ranged_dom|by apply covered_key].
Qed.
End remove.
