(* ===== verification/BplusIndex.v ===== *)
(** * What the index promises

    The B+ tree implements a sorted list of entries: [insert_entry] refines
    [entry_insert] and [delete_entry] refines [entry_remove].  The properties are stated for any attribute comparator that
    orders the attribute values; the witnesses are indexes of integers. *)

From Stdlib Require Import ZArith Lia Sorted.
From stdpp Require Import base gmap gmultiset sets tactics.
From stdpp Require Import list.
From S2P Require Import Prelude.
From S2P Require Import Monad.
From S2P Require Import Comparator.
From S2P Require Import NodePool.
From S2P Require Import BplusNode.
From S2P Require Import NodeLogic.
From S2P Require Import BplusScan.
From S2P Require Import BplusTree.
From S2P Require Import BplusSpec.
From S2P Require Import BplusOrder.
From S2P Require Import BplusEntry.
From S2P Require Import BplusRemove.
From S2P Require Import BplusScanSpec.
#[local] Open Scope Z_scope.

(** The state an operation ends in. *)
Definition final_state {S A} (s0 : S) (o : outcome S A) : S :=
  match o with Ret _ s => s | Err _ s => s | Stuck => s0 end.

Section index.
Context {A : Type} (attr_comparator_ : A -> A -> Z) (zero_attr : A).
Abbreviation K := (A * RID)%type.
Abbreviation cmp := (key_comparator_ attr_comparator_).
Context (dom : K -> Prop) `{!CmpOrder dom cmp}.
Abbreviation index_inv := (index_inv attr_comparator_ zero_attr dom).
Abbreviation insert_entry := (insert_entry attr_comparator_ zero_attr).

(** The insertions of a list of keys, one after the other. *)
Fixpoint insert_entries (keys : list K) : M (Index K) unit :=
  match keys with
  | [] => mret tt
  | (user_key, rid) :: keys => insert_entry (Some user_key) (Some rid);; insert_entries keys
  end.

(** Deletions, likewise. *)
Fixpoint delete_entries (keys : list K) : M (Index K) unit :=
  match keys with
  | [] => mret tt
  | (user_key, rid) :: keys => delete_entry attr_comparator_ user_key rid;; delete_entries keys
  end.

Definition key_entry (k : K) : K * RID := (k, k.2).



Fixpoint entry_inserts (keys : list K) (es : list (K * RID)) : option (list (K * RID)) :=
  match keys with
  | [] => Some es
  | k :: keys => es ← entry_insert cmp k k.2 es; entry_inserts keys es
  end.

Lemma wp_insert_entries ku s es es' keys E :
  index_inv ku s es -> (forall k, k ∈ keys -> dom k) -> entry_inserts keys es = Some es' ->
  wp (insert_entries keys) s (fun _ s' => index_inv ku s' es') E.
Proof.
  revert s es. induction keys as [|[uk rid] keys IH]; intros s es Hi Hk Ees.
  { injection Ees as <-. by apply wp_ret. }
  simpl in Ees |- *. apply bind_Some in Ees as (es1 & E1 & Ees).
  apply wp_bind. eapply wp_mono; [apply (wp_insert_entry _ _ dom); [exact Hi|apply Hk; by left]|..]; cbv beta.
  - intros _ s1 (es2 & E2 & Hi1). rewrite E1 in E2. injection E2 as <-.
    apply (IH s1 es1); [done| |done]. intros k Hin. apply Hk. by right.
  - intros rc s1 (_ & E2 & _). by rewrite E1 in E2.
Qed.


(** C1: [insert_entry] refines the insertion into a sorted list of entries: on an
    index that holds [es] it puts the new entry at its place among them, whatever
    leaves and internal nodes are split on the way, or, when the key is already
    there, reports [RECORD_DUPLICATE_KEY] and changes nothing; no frame stays
    pinned, no key stays in use, and it never runs out of fuel. *)
Theorem insert_entry_refines ku s es user_key rid :
  index_inv ku s es -> dom (user_key, rid) ->
  match insert_entry (Some user_key) (Some rid) s with
  | Ret _ s' => exists es', entry_insert cmp (user_key, rid) rid es = Some es' /\ index_inv ku s' es'
  | Err rc s' => rc = RECORD_DUPLICATE_KEY /\ entry_insert cmp (user_key, rid) rid es = None /\ index_inv ku s' es
  | Stuck => False
  end.
Proof. intros Hi Hk. exact (wp_insert_entry _ _ dom _ _ _ _ _ Hi Hk). Qed.



(** C6: After [sync], closing the index, which drops every frame, and opening
    the file again gives an index with the same entries. *)
Theorem sync_open_roundtrip ku s es :
  index_inv ku s es ->
  match (sync;; close;; open false) s with Ret _ s' => index_inv 0 s' es | _ => False end.
Proof. intros Hi. exact (wp_sync_open _ _ dom ku s es (fun _ _ => False) Hi). Qed.

(** ** Scans *)

Lemma wp_index_scan ku s es left li right ri fuel E :
  index_inv ku s es -> es <> [] -> bounds_valid attr_comparator_ left li right ri = true ->
  bound_dom dom (low_bound left li) -> bound_dom dom (high_bound right ri) -> (length es <= fuel)%nat ->
  wp (scan attr_comparator_ None left li right ri fuel) (mk_Scan s new_scanner)
    (fun rids S' => rids = (entry_range cmp (low_bound left li) (high_bound right ri) es).*2 /\ index_inv ku (index S') es) E.
Proof.
  intros (h & d & al & Hst & Hsz & R0 & R1 & Hcases) Hne Hv Hl Hr Hf.
  destruct Hcases as [(_ & -> & _)|(ls & ups & Ht & Hpg & ->)]; [done|].
  eapply wp_mono; [apply (wp_scan attr_comparator_ zero_attr dom h d al ku _ ls ups Ht eq_refl left li right ri fuel _
    (fun _ _ => False) Hv Hl Hr)|cbv beta|done].
  - by split.
  - etransitivity; [|exact Hf]. apply length_filter.
  - intros rids S' [-> Hst']. split; [done|]. exists h, d, al. split_and!; try done. right. by exists ls, ups.
Qed.

(** Without a root page there is nothing to scan. *)
Lemma wp_index_scan_empty ku s user_key len right ri fuel (Q : list RID -> Scan -> Prop) :
  index_inv ku s [] -> bounds_valid attr_comparator_ (Some (user_key, len)) true right ri = true ->
  wp (scan attr_comparator_ None (Some (user_key, len)) true right ri fuel) (mk_Scan s new_scanner) Q
    (fun rc S' => rc = EMPTY /\ index_inv ku (index S') []).
Proof.
  intros (h & d & al & Hst & Hsz & R0 & R1 & Hcases) Hv.
  destruct Hcases as [(Hroot & _ & Hh)|(ls & ups & Ht & Hpg & E)].
  2:{ exfalso. pose proof (grouped_nonempty _ _ _ _ (ok_grouped _ _ _ _ _ _ _ _ Ht)) as Hls.
      pose proof (ok_nonempty _ _ _ _ _ _ _ _ Ht) as Hne. destruct ls as [|l ls]; [done|].
      apply Forall_cons in Hne as [Hne _]. rewrite entries_cons in E. by destruct (litems l). }
  unfold scan. wp_b. apply wp_catch. unfold BplusScan.open. wp_b. apply wp_get_state. cbn [scanner inited_ new_scanner].
  wp_b. apply wp_modify. cbn zeta.
  match goal with |- wp (if ?b then _ else _) _ _ _ => assert (b = false) as -> end.
  { unfold bounds_valid in Hv. destruct right as [[r lr]|]; [|done]. by apply negb_true_iff. }
  wp_b. unfold open_left, bound_key. wp_b. apply wp_ret. wp_b. apply wp_on_index. eapply wp_make_key; [exact Hst|].
  clear Hst. intros s1 Hst1. wp_b. eapply wp_of_option; [reflexivity|].
  wp_b. unfold seek. apply wp_on_index. wp_b. apply wp_catch. cbn [index].
  unfold find_leaf, find_leaf_internal, is_empty. wp_b. apply wp_gets. rewrite (st_header _ _ _ _ _ _ Hst1), Hroot.
  apply wp_throw. wp_b. apply wp_modify, wp_throw. cbn [scanner].
  assert (Hst2 : st h d ∅ al ku (set_keys (keys_in_use s1 - 1) s1)).
  { destruct Hst1 as [H1 H2 H3 H4 H5 H6 H7]. split; try done. simpl. lia. }
  wp_b. eapply wp_close with (h := h) (d := d) (al := al) (ku := ku) (sc := set_inited true new_scanner); [split; [eapply st_pins_eq; [exact Hst2|done]|reflexivity]|]. intros S' Hst'. apply wp_throw. split; [done|].
  exists h, d, al. split_and!; try done. by left.
Qed.

(** C4: A scan delivers the record identifiers of exactly the entries between
    its bounds, in the order of the keys, and leaves the index as it was, with
    nothing pinned and no key in use; one more turn of the loop than there are
    entries is enough. *)
Theorem scan_entries ku s es left li right ri fuel :
  index_inv ku s es -> es <> [] -> bounds_valid attr_comparator_ left li right ri = true ->
  bound_dom dom (low_bound left li) -> bound_dom dom (high_bound right ri) -> (length es <= fuel)%nat ->
  match scan attr_comparator_ None left li right ri fuel (mk_Scan s new_scanner) with
  | Ret rids S' => rids = (entry_range cmp (low_bound left li) (high_bound right ri) es).*2 /\ index_inv ku (index S') es
  | _ => False
  end.
Proof. intros Hi Hne Hv Hl Hr Hf. exact (wp_index_scan _ _ _ _ _ _ _ _ (fun _ _ => False) Hi Hne Hv Hl Hr Hf). Qed.
End index.

(** ** Looking up an attribute value *)

Section lookup.
Context {A : Type} (attr_comparator_ : A -> A -> Z) (zero_attr : A).
Context (attr_dom : A -> Prop) `{!CmpOrder attr_dom attr_comparator_}.
Definition key_dom (k : A * RID) : Prop := attr_dom k.1 /\ valid_rid k.2.
#[export] Instance key_dom_order : CmpOrder key_dom (key_comparator_ attr_comparator_).
Proof. unfold key_comparator_, key_dom. apply _. Qed.
Abbreviation cmp := (key_comparator_ attr_comparator_).

(** The entries of an attribute value, [eq_entries]. *)
Definition eq_entries (user_key : A) (es : list ((A * RID) * RID)) : list ((A * RID) * RID) :=
  filter (fun e => attr_comparator_ user_key e.1.1 = 0) es.

Lemma range_eq_entries user_key es :
  attr_dom user_key -> (forall k, k ∈ es.*1 -> key_dom k /\ k.2 <> RID_max) ->
  entry_range cmp (Some (user_key, RID_min)) (Some (user_key, RID_max)) es = eq_entries user_key es.
Proof.
  intros Hu Hes. unfold entry_range, eq_entries. apply filter_ext_elem. intros [[a rid] v] Hin.
  destruct (Hes (a, rid)) as [[Ha Hrid] Hmax]; [by apply (list_elem_of_fmap_2 fst) in Hin|]. cbn [fst snd] in *.
  unfold above, below, key_comparator_, KeyComparator. cbn [fst snd].
  pose proof (cmp_opp (dom := attr_dom) (cmp := attr_comparator_) user_key a Hu Ha) as H1.
  pose proof (cmp_opp (dom := attr_dom) (cmp := attr_comparator_) a user_key Ha Hu) as H2.
  destruct (RID_min_max rid Hrid) as [H3 H4].
  assert (H5 : RID_compare rid RID_max <> 0).
  { intros E. apply Hmax. apply (cmp_eq (dom := valid_rid) (cmp := RID_compare)) in E; [done|done|].
    unfold valid_rid, RID_max, INT_MAX. simpl. lia. }
  destruct (Z.eqb_spec (attr_comparator_ user_key a) 0) as [E|E], (Z.eqb_spec (attr_comparator_ a user_key) 0) as [E'|E'];
    cbn [negb]; try (exfalso; lia).
  - rewrite (proj2 (Z.leb_le _ _)), (proj2 (Z.ltb_lt _ _)) by lia. done.
  - split; [|done]. intros [Hle%Z.leb_le Hlt%Z.ltb_lt]%Is_true_true%andb_true_iff. lia.
Qed.

(** C5: [get_entry] returns the record identifiers of exactly the entries with
    the given attribute value, and reports an index without entries. *)
Theorem get_entry_correct ku s es user_key key_len fuel :
  index_inv attr_comparator_ zero_attr key_dom ku s es -> attr_dom user_key ->
  (forall k, k ∈ es.*1 -> k.2 <> RID_max) -> (length es <= fuel)%nat ->
  match get_entry attr_comparator_ None user_key key_len fuel s with
  | Ret rids s' => es <> [] /\ rids = (eq_entries user_key es).*2 /\ index_inv attr_comparator_ zero_attr key_dom ku s' es
  | Err rc s' => es = [] /\ rc = EMPTY /\ index_inv attr_comparator_ zero_attr key_dom ku s' es
  | Stuck => False
  end.
Proof.
  intros Hi Hu Hmax Hf. destruct (index_sorted _ _ _ _ _ _ Hi) as [_ Hd].
  assert (Hrange : forall r : RID, valid_rid r -> key_dom (user_key, r)) by (by split).
  assert (Hmin : valid_rid RID_min /\ valid_rid RID_max) by (unfold valid_rid, RID_min, RID_max, INT_MAX; simpl; lia).
  assert (Hv : bounds_valid attr_comparator_ (Some (user_key, key_len)) true (Some (user_key, key_len)) true = true)
    by (unfold bounds_valid; by rewrite (cmp_refl (dom := attr_dom))).
  assert (Hb : bound_dom key_dom (Some (user_key, RID_min)) /\ bound_dom key_dom (Some (user_key, RID_max)))
    by (split; intros k [= <-]; by apply Hrange, Hmin).
  unfold get_entry. destruct es as [|e es].
  - pose proof (wp_index_scan_empty attr_comparator_ zero_attr key_dom ku s user_key key_len (Some (user_key, key_len)) true
      fuel (fun _ _ => False) Hi Hv) as H. unfold wp in H.
    destruct (scan _ _ _ _ _ _ _ _) as [rids S'|rc S'|]; [done| |done]. by destruct H as [-> H].
  - pose proof (wp_index_scan attr_comparator_ zero_attr key_dom ku s _ (Some (user_key, key_len)) true (Some (user_key, key_len)) true
      fuel (fun _ _ => False) Hi (not_eq_sym (@nil_cons _ e es)) Hv (proj1 Hb) (proj2 Hb) Hf) as H. unfold wp in H.
    destruct (scan _ _ _ _ _ _ _ _) as [rids S'|rc S'|]; [|done|done].
    destruct H as [-> Hi']. split; [done|]. split; [|done]. f_equal. apply range_eq_entries; [done|]. intros k Hk. auto.
Qed.
End lookup.

(** ** An index of integers *)

Definition int_dom (k : Z * RID) : Prop := half_int32 k.1 /\ valid_rid k.2.
#[global] Instance int_key_order : CmpOrder int_dom (key_comparator_ compare_int).
Proof. unfold key_comparator_, int_dom. apply _. Qed.

Definition no_index : Index (Z * RID) := mk_Index (mk_header 0 0 0 0 0 INTS) ∅ ∅ ∅ ∅ ∅ ∅ 0 [] ∅.
(** Nodes of at most four items, as in the tests of the tree. *)
Definition small_index : Index (Z * RID) := final_state no_index (create INTS 4 4 4 no_index).
Definition ints_index (keys : list (Z * RID)) : Index (Z * RID) :=
  final_state small_index (insert_entries compare_int 0 keys small_index).
Definition int_keys (l : list Z) : list (Z * RID) := (fun i => (i, mk_RID 1 i)) <$> l.


Lemma new_index_inv internal_max leaf_max :
  created_sizes 4 internal_max leaf_max ->
  index_inv compare_int 0 int_dom 0 (final_state no_index (create INTS 4 internal_max leaf_max no_index)) [].
Proof.
  intros Hsz.
  pose proof (wp_create compare_int 0 int_dom INTS 4 internal_max leaf_max no_index (fun _ _ => False) eq_refl Hsz) as H.
  unfold wp, final_state in *. by destruct (create INTS 4 internal_max leaf_max no_index) as [[] s|rc s|].
Qed.

Lemma small_index_inv : index_inv compare_int 0 int_dom 0 small_index [].
Proof. apply new_index_inv. unfold created_sizes. simpl. lia. Qed.

(** The negative keys from [-1] down. *)
Definition neg_keys (l : list Z) : list (Z * RID) := (fun i => (- i, mk_RID 1 i)) <$> l.

Lemma neg_keys_dom l : Forall (fun i => 0 <= i < 100) l -> forall k, k ∈ neg_keys l -> int_dom k.
Proof.
  intros H k Hk. apply list_elem_of_fmap in Hk as (i & -> & Hi). rewrite list.Forall_forall in H.
  specialize (H i Hi). unfold int_dom, half_int32, valid_rid, INT_MAX. simpl. lia.
Qed.

Lemma int_keys_dom l : Forall (fun i => 0 <= i < 100) l -> forall k, k ∈ int_keys l -> int_dom k.
Proof.
  intros H k Hk. apply list_elem_of_fmap in Hk as (i & -> & Hi). rewrite list.Forall_forall in H.
  specialize (H i Hi). unfold int_dom, half_int32, valid_rid, INT_MAX. simpl. lia.
Qed.

Lemma filled_index_inv s keys es :
  index_inv compare_int 0 int_dom 0 s [] ->
  (forall k, k ∈ keys -> int_dom k) -> entry_inserts compare_int keys [] = Some es ->
  index_inv compare_int 0 int_dom 0 (final_state s (insert_entries compare_int 0 keys s)) es.
Proof.
  intros Hi Hl Ees.
  pose proof (wp_insert_entries compare_int 0 int_dom 0 s [] es keys (fun _ _ => False) Hi Hl Ees) as H.
  unfold wp, final_state in *.
  by destruct (insert_entries compare_int 0 keys s) as [[] s'|rc s'|].
Qed.

Definition int_entries (l : list Z) : list ((Z * RID) * RID) := key_entry <$> int_keys l.

(** A tree of two levels. *)
Definition index6 : Index (Z * RID) := ints_index (int_keys [2; 4; 6; 8; 10; 12]).
Lemma index6_inv : index_inv compare_int 0 int_dom 0 index6 (int_entries [2; 4; 6; 8; 10; 12]).
Proof. apply filled_index_inv; [exact small_index_inv|apply int_keys_dom; repeat constructor; lia|reflexivity]. Qed.

(** A new key next to a full leaf. *)
Lemma insert_entry_refines_witness :
  (index_inv compare_int 0 int_dom 0 index6 (int_entries [2; 4; 6; 8; 10; 12]) /\ int_dom (9, mk_RID 1 9)) /\
  match insert_entry compare_int 0 (Some 9) (Some (mk_RID 1 9)) index6 with
  | Ret _ s' => index_inv compare_int 0 int_dom 0 s' (int_entries [2; 4; 6; 8; 9; 10; 12])
  | _ => False
  end.
Proof.
  assert (Hk : int_dom (9, mk_RID 1 9)) by (apply (int_keys_dom [9]); [repeat constructor; lia|by left]).
  split; [split; [exact index6_inv|exact Hk]|].
  pose proof (insert_entry_refines compare_int 0 int_dom 0 _ _ 9 (mk_RID 1 9) index6_inv Hk) as H.
  destruct (insert_entry _ _ _ _ _) as [u s'|rc s'|]; [|by destruct H as (_ & E & _)|done].
  destruct H as (es' & E & H). vm_compute in E. by injection E as <-.
Defined.




Lemma sync_open_roundtrip_witness :
  index_inv compare_int 0 int_dom 0 index6 (int_entries [2; 4; 6; 8; 10; 12]) /\
  match (sync;; close;; open false) index6 with
  | Ret _ s' => index_inv compare_int 0 int_dom 0 s' (int_entries [2; 4; 6; 8; 10; 12])
  | _ => False
  end.
Proof. split; [exact index6_inv|]. exact (sync_open_roundtrip compare_int 0 int_dom 0 _ _ index6_inv). Defined.

(** The keys from 3 (excluded) to 8 (included). *)
Lemma scan_entries_witness :
  (index_inv compare_int 0 int_dom 0 index6 (int_entries [2; 4; 6; 8; 10; 12]) /\
   bounds_valid compare_int (Some (3, 4)) false (Some (8, 4)) true = true /\
   bound_dom int_dom (low_bound (Some (3, 4)) false) /\ bound_dom int_dom (high_bound (Some (8, 4)) true)) /\
  match scan compare_int None (Some (3, 4)) false (Some (8, 4)) true 6 (mk_Scan index6 new_scanner) with
  | Ret rids _ => rids = [mk_RID 1 4; mk_RID 1 6; mk_RID 1 8]
  | _ => False
  end.
Proof.
  assert (Hb : forall i r, 0 <= i < 100 -> r = RID_min \/ r = RID_max -> int_dom (i, r)).
  { intros i r Hi Hr. unfold int_dom, half_int32, valid_rid, INT_MAX. destruct Hr as [-> | ->]; simpl; unfold INT_MAX; lia. }
  assert (Hl : bound_dom int_dom (low_bound (Some (3, 4)) false)) by (intros k [= <-]; apply Hb; [lia|by right]).
  assert (Hr : bound_dom int_dom (high_bound (Some (8, 4)) true)) by (intros k [= <-]; apply Hb; [lia|by right]).
  split; [split; [exact index6_inv|]; by split|].
  pose proof (scan_entries compare_int 0 int_dom 0 index6 _ (Some (3, 4)) false (Some (8, 4)) true 6 index6_inv
    ltac:(done) eq_refl Hl Hr ltac:(vm_compute; lia)) as H.
  destruct (scan _ _ _ _ _ _ _ _) as [rids S'|rc S'|]; [|done|done]. by destruct H as [-> _].
Defined.

Lemma get_entry_correct_witness :
  (index_inv compare_int 0 int_dom 0 index6 (int_entries [2; 4; 6; 8; 10; 12]) /\ half_int32 6 /\
   (forall k, k ∈ (int_entries [2; 4; 6; 8; 10; 12]).*1 -> k.2 <> RID_max)) /\
  match get_entry compare_int None 6 4 6 index6 with
  | Ret rids _ => rids = [mk_RID 1 6]
  | _ => False
  end.
Proof.
  assert (H6 : half_int32 6) by (unfold half_int32; lia).
  assert (Hm : forall k, k ∈ (int_entries [2; 4; 6; 8; 10; 12]).*1 -> k.2 <> RID_max).
  { intros k Hk. vm_compute in Hk. set_unfold in Hk. intros E. destruct_or!; by subst. }
  split; [split; [exact index6_inv|by split]|].
  pose proof (get_entry_correct compare_int 0 half_int32 0 index6 _ 6 4 6 index6_inv H6 Hm ltac:(vm_compute; lia)) as H.
  destruct (get_entry _ _ _ _ _ _) as [rids S'|rc S'|]; [|by destruct H|done]. by destruct H as (_ & -> & _).
Defined.

(** C36: The search for a node by its last key needs nodes of two items: in an
    index with internal nodes of four items at most, which holds thirty negative
    keys in order, deleting the seven smallest ones leaves a left-most internal
    node with one item, whose key is the zero key; the search takes the node for
    the right-most child of its parent, and its item goes to another node.
    Afterwards a key that was never deleted is not found. *)
Theorem delete_small_nodes_loses_keys :
  let index := ints_index (neg_keys (seqZ 1 30)) in
  (exists es, index_inv compare_int 0 int_dom 0 index es /\ key_entry (-9, mk_RID 1 9) ∈ es) /\
  match delete_entries compare_int (neg_keys (reverse (seqZ 24 7))) index with
  | Ret _ s' => exists s'', get_entry compare_int None (-9) 4 30 s' = Ret [] s''
  | _ => False
  end.
Proof.
  cbv zeta. split.
  - exists (key_entry <$> neg_keys (reverse (seqZ 1 30))). split.
    + apply filled_index_inv; [exact small_index_inv| |vm_compute; reflexivity].
      apply neg_keys_dom. apply list.Forall_forall. intros i [? ?]%elem_of_seqZ. lia.
    + apply list_elem_of_fmap_2. unfold neg_keys. apply (list_elem_of_fmap_2 (fun i => (- i, mk_RID 1 i)) _ 9).
      apply elem_of_reverse, elem_of_seqZ. lia.
  - assert (E : match delete_entries compare_int (neg_keys (reverse (seqZ 24 7))) (ints_index (neg_keys (seqZ 1 30))) with
                | Ret _ s' => match get_entry compare_int None (-9) 4 30 s' with Ret [] _ => true | _ => false end
                | _ => false
                end = true) by (vm_compute; reflexivity).
    destruct (delete_entries _ _ _) as [u s'|rc s'|]; [|done|done].
    destruct (get_entry _ _ _ _ _ _) as [[|r l] s''|rc s''|]; [by exists s''|done..].
Qed.
