(* ===== verification/ClogRecord.v ===== *)
(** * Log records (storage/clog/clog.{h,cpp})

    A log record in memory and its bytes in the log: [CLogRecord] with its two
    constructors, [copy_record] and the comparison.  Fresh memory has
    unspecified bytes ([uninit]); [None] is an access outside its block or the
    use of a record that a constructor left uninitialised. *)

From Stdlib Require Import ZArith Lia.
From stdpp Require Import base tactics.
From stdpp Require Import list.
From S2P Require Import Prelude.
From S2P Require Import Monad.
From S2P Require Import Bytes.
From S2P Require Import Comparator.
#[local] Open Scope Z_scope.

Inductive CLogType : Type :=
  REDO_ERROR | REDO_MTR_BEGIN | REDO_MTR_COMMIT | REDO_INSERT | REDO_UPDATE | REDO_DELETE.
#[global] Instance CLogType_eq_dec : EqDecision CLogType.
Proof. solve_decision. Defined.

Definition clog_code (t : CLogType) : Z :=
  match t with
  | REDO_ERROR => 0 | REDO_MTR_BEGIN => 1 | REDO_MTR_COMMIT => 2
  | REDO_INSERT => 3 | REDO_UPDATE => 4 | REDO_DELETE => 5
  end.
(** The cast [(CLogType)type_] of a valid value. *)
Definition clog_type (z : Z) : option CLogType :=
  head (filter (fun t => clog_code t = z) [REDO_ERROR; REDO_MTR_BEGIN; REDO_MTR_COMMIT; REDO_INSERT; REDO_UPDATE; REDO_DELETE]).

Record CLogRecordHeader : Type := mk_hdr { lsn_ : Z; trx_id_ : Z; type_ : Z; logrec_len_ : Z }.
#[global] Instance CLogRecordHeader_eq_dec : EqDecision CLogRecordHeader.
Proof. solve_decision. Defined.

(** The members of the union lie on top of each other: [table_name_] is the
    array of [TABLE_NAME_MAX_LEN] characters, [data_] the array behind the
    pointer; the records of a transaction's begin and end have the header only. *)
Record CLogRecord : Type := mk_CLogRecord {
  flag_ : CLogType;
  hdr_ : CLogRecordHeader;
  table_name_ : list Z;
  rid_ : RID;
  data_len_ : Z;
  data_ : list Z
}.

Definition TABLE_NAME_MAX_LEN : Z := 20.
Definition sizeof_CLogRecordHeader : Z := 16.
Definition CLOG_INS_REC_NODATA_SIZE : Z := 48.
Definition CLOG_UPD_REC_NODATA_SIZE : Z := 48.
Definition sizeof_CLogMTRRecord : Z := 16.
Definition sizeof_CLogDeleteRecord : Z := 44.

Definition _align8 (size : Z) : Z := cdiv size 8 * 8 + (if cmod size 8 =? 0 then 0 else 8).

(** ** C strings *)

(** The characters in front of the first zero. *)
Fixpoint c_string (bs : list Z) : option (list Z) :=
  match bs with
  | [] => None
  | b :: bs => if b =? 0 then Some [] else cons b <$> c_string bs
  end.

Definition strcpy (dest src : list Z) : option (list Z) :=
  s ← c_string src; store dest 0 (s ++ [0]).

Section record.
(** Uninitialised memory. *)
Context (uninit : Z -> list Z).

(** A record as [CLogRecord] gets it: its identifier and its data pointer. *)
Definition rec_arg : Type := option (RID * option (list Z)).

(** The constructor for a new record; [lsn] is what [get_next_lsn] returns. *)
Definition new_record (flag : CLogType) (trx_id : Z) (table_name : list Z) (data_len : Z) (rec : rec_arg) (lsn : Z) :
  option CLogRecord :=
  match flag with
  | REDO_MTR_BEGIN | REDO_MTR_COMMIT =>
      Some (mk_CLogRecord flag (mk_hdr lsn trx_id (clog_code flag) sizeof_CLogMTRRecord)
              (uninit TABLE_NAME_MAX_LEN) (mk_RID 0 0) 0 [])
  | REDO_INSERT | REDO_UPDATE =>
      match rec with
      | Some (rid, Some data) =>
          name ← strcpy (uninit TABLE_NAME_MAX_LEN) (table_name ++ [0]);
          let logrec_len := _align8 (CLOG_INS_REC_NODATA_SIZE + data_len) in
          bs ← load data 0 data_len;
          data ← store (uninit (logrec_len - CLOG_INS_REC_NODATA_SIZE)) 0 bs;
          Some (mk_CLogRecord flag (mk_hdr lsn trx_id (clog_code flag) logrec_len) name rid data_len data)
      | _ => None
      end
  | REDO_DELETE =>
      match rec with
      | Some (rid, _) =>
          name ← strcpy (uninit TABLE_NAME_MAX_LEN) (table_name ++ [0]);
          Some (mk_CLogRecord flag (mk_hdr lsn trx_id (clog_code flag) sizeof_CLogDeleteRecord) name rid 0 [])
      | None => None
      end
  | REDO_ERROR => None
  end.

(** The constructor that reads a record from the bytes of the log. *)
Definition read_record (data : list Z) : option CLogRecord :=
  lsn ← get_i32 data 0;
  trx_id ← get_i32 data 4;
  type ← get_i32 data 8;
  logrec_len ← get_i32 data 12;
  let hdr := mk_hdr lsn trx_id type logrec_len in
  flag ← clog_type type;
  match flag with
  | REDO_MTR_BEGIN | REDO_MTR_COMMIT =>
      Some (mk_CLogRecord flag hdr (uninit TABLE_NAME_MAX_LEN) (mk_RID 0 0) 0 [])
  | REDO_INSERT | REDO_UPDATE =>
      name ← strcpy (uninit TABLE_NAME_MAX_LEN) (drop 16 data);
      page ← get_i32 data 36;
      slot ← get_i32 data 40;
      data_len ← get_i32 data 44;
      bs ← load data 48 data_len;
      data ← store (uninit (logrec_len - CLOG_INS_REC_NODATA_SIZE)) 0 bs;
      Some (mk_CLogRecord flag hdr name (mk_RID page slot) data_len data)
  | REDO_DELETE =>
      name ← strcpy (uninit TABLE_NAME_MAX_LEN) (drop 16 data);
      page ← get_i32 data 36;
      slot ← get_i32 data 40;
      Some (mk_CLogRecord flag hdr name (mk_RID page slot) 0 [])
  | REDO_ERROR => None
  end.

(** The bytes of the record in front of the data pointer. *)
Definition hdr_image (h : CLogRecordHeader) : list Z :=
  le_encode 4 (lsn_ h) ++ le_encode 4 (trx_id_ h) ++ le_encode 4 (type_ h) ++ le_encode 4 (logrec_len_ h).
Definition image (r : CLogRecord) : list Z :=
  hdr_image (hdr_ r) ++ table_name_ r ++
  le_encode 4 (page_num (rid_ r)) ++ le_encode 4 (slot_num (rid_ r)) ++ le_encode 4 (data_len_ r).

(** [copy_len] bytes of the record from [start_off] on. *)
Definition copy_record (r : CLogRecord) (start_off copy_len : Z) : option (RC + list Z) :=
  if logrec_len_ (hdr_ r) <? start_off + copy_len then Some (inl GENERIC_ERROR)
  else
    match flag_ r with
    | REDO_UPDATE | REDO_INSERT =>
        if CLOG_INS_REC_NODATA_SIZE <? start_off then
          inr <$> load (data_ r) (start_off - CLOG_INS_REC_NODATA_SIZE) copy_len
        else if start_off + copy_len <=? CLOG_INS_REC_NODATA_SIZE then
          inr <$> load (image r) start_off copy_len
        else
          front ← load (image r) start_off (CLOG_INS_REC_NODATA_SIZE - start_off);
          back ← load (data_ r) 0 (copy_len - (CLOG_INS_REC_NODATA_SIZE - start_off));
          Some (inr (front ++ back))
    | _ => inr <$> load (image r) start_off copy_len
    end.

(** [operator==] of the members of the union and [cmp_eq]. *)
Definition same_name (r1 r2 : CLogRecord) : bool :=
  match c_string (table_name_ r1), c_string (table_name_ r2) with
  | Some s1, Some s2 => bool_decide (s1 = s2)
  | _, _ => false
  end.
Definition cmp_eq (r1 r2 : CLogRecord) : bool :=
  bool_decide (flag_ r1 = flag_ r2) &&
  match flag_ r1 with
  | REDO_MTR_BEGIN | REDO_MTR_COMMIT => bool_decide (hdr_ r1 = hdr_ r2)
  | REDO_INSERT | REDO_UPDATE =>
      bool_decide (hdr_ r1 = hdr_ r2) && same_name r1 r2 && bool_decide (rid_ r1 = rid_ r2) &&
      (data_len_ r1 =? data_len_ r2) &&
      bool_decide (load (data_ r1) 0 (data_len_ r1) = load (data_ r2) 0 (data_len_ r1))
  | REDO_DELETE => bool_decide (hdr_ r1 = hdr_ r2) && same_name r1 r2 && bool_decide (rid_ r1 = rid_ r2)
  | REDO_ERROR => false
  end.

(** ** The bytes of a record in the log *)

Definition has_data (t : CLogType) : bool := match t with REDO_INSERT | REDO_UPDATE => true | _ => false end.

(** What the constructors build. *)
Record record_ok (r : CLogRecord) : Prop := mk_record_ok {
  ok_type : type_ (hdr_ r) = clog_code (flag_ r) /\ flag_ r <> REDO_ERROR;
  ok_lsn : is_int32 (lsn_ (hdr_ r));
  ok_trx : is_int32 (trx_id_ (hdr_ r));
  ok_name : zlen (table_name_ r) = TABLE_NAME_MAX_LEN;
  ok_string : flag_ r <> REDO_MTR_BEGIN -> flag_ r <> REDO_MTR_COMMIT -> is_Some (c_string (table_name_ r));
  ok_rid : is_int32 (page_num (rid_ r)) /\ is_int32 (slot_num (rid_ r));
  ok_len : logrec_len_ (hdr_ r) = match flag_ r with
             | REDO_INSERT | REDO_UPDATE => _align8 (CLOG_INS_REC_NODATA_SIZE + data_len_ r)
             | REDO_DELETE => sizeof_CLogDeleteRecord
             | _ => sizeof_CLogMTRRecord
             end;
  ok_data_len : 0 <= data_len_ r /\ is_int32 (_align8 (CLOG_INS_REC_NODATA_SIZE + data_len_ r));
  ok_data : has_data (flag_ r) = true -> zlen (data_ r) = logrec_len_ (hdr_ r) - CLOG_INS_REC_NODATA_SIZE
}.

Definition record_bytes (r : CLogRecord) : list Z :=
  if has_data (flag_ r) then image r ++ data_ r else take (Z.to_nat (logrec_len_ (hdr_ r))) (image r).

Hypothesis uninit_length : forall n, 0 <= n -> zlen (uninit n) = n.

Lemma _align8_spec n : 0 <= n -> n <= _align8 n < n + 8 /\ (_align8 n) mod 8 = 0.
Proof.
  intros Hn. unfold _align8. rewrite cdiv_nonneg, cmod_nonneg by lia.
  pose proof (Z.div_mod n 8 ltac:(lia)) as Hd. pose proof (Z.mod_pos_bound n 8 ltac:(lia)).
  destruct (Z.eqb_spec (n mod 8) 0).
  - split; [lia|]. rewrite Z.add_0_r. apply Z.mod_mul. lia.
  - split; [lia|]. replace (n / 8 * 8 + 8) with ((n / 8 + 1) * 8) by lia. apply Z.mod_mul. lia.
Qed.

Lemma zlen_app {A} (l1 l2 : list A) : zlen (l1 ++ l2) = zlen l1 + zlen l2.
Proof. unfold zlen. rewrite length_app. lia. Qed.

Lemma load_app pre mid post n o :
  o = zlen pre -> n = zlen mid -> load (pre ++ mid ++ post) o n = Some mid.
Proof.
  intros -> ->. apply load_Some. rewrite !zlen_app. unfold zlen. split_and!; [lia..|].
  rewrite !Nat2Z.id. by rewrite drop_app_length, take_app_length.
Qed.

Lemma get_i32_app pre v post o : o = zlen pre -> is_int32 v -> get_i32 (pre ++ le_encode 4 v ++ post) o = Some v.
Proof.
  intros Ho Hv. unfold get_i32. rewrite (load_app _ _ _ 4) by (rewrite ?le_encode_length; done).
  change (Some (to_int32 (le_decode (le_encode 4 v))) = Some v). f_equal. rewrite le_decode_encode.
  rewrite <- (to_int32_small v Hv) at 2. unfold to_int32, swrap. change (256 ^ Z.of_nat 4) with (2 ^ 32).
  by rewrite Zplus_mod_idemp_l.
Qed.

Lemma image_length r : zlen (table_name_ r) = TABLE_NAME_MAX_LEN -> zlen (image r) = 48.
Proof. intros H. unfold image, hdr_image. rewrite !zlen_app, !le_encode_length, H. done. Qed.

Lemma record_len_pos r : record_ok r -> 16 <= logrec_len_ (hdr_ r).
Proof.
  intros H. rewrite (ok_len _ H). pose proof (ok_data_len _ H) as [H0 _].
  pose proof (_align8_spec (CLOG_INS_REC_NODATA_SIZE + data_len_ r)). unfold CLOG_INS_REC_NODATA_SIZE in *.
  destruct (flag_ r); unfold sizeof_CLogDeleteRecord, sizeof_CLogMTRRecord; lia.
Qed.

Lemma record_bytes_length r : record_ok r -> zlen (record_bytes r) = logrec_len_ (hdr_ r).
Proof.
  intros H. pose proof (image_length r (ok_name _ H)) as Hi. unfold record_bytes.
  destruct (has_data (flag_ r)) eqn:E.
  - rewrite zlen_app, Hi, (ok_data _ H E). unfold CLOG_INS_REC_NODATA_SIZE. lia.
  - pose proof (ok_len _ H) as Hl. unfold zlen in *. rewrite length_take.
    unfold sizeof_CLogDeleteRecord, sizeof_CLogMTRRecord in Hl. destruct (flag_ r); try done; lia.
Qed.

(** Every fragment that [copy_record] delivers is the part of the record's bytes
    that was asked for. *)
Lemma copy_record_slice r start n :
  record_ok r -> 0 <= start -> 0 <= n -> start + n <= logrec_len_ (hdr_ r) ->
  copy_record r start n = Some (inr (take (Z.to_nat n) (drop (Z.to_nat start) (record_bytes r)))).
Proof.
  intros H Hs Hn Hl. pose proof (image_length r (ok_name _ H)) as Hi.
  pose proof (record_bytes_length r H) as Hb. unfold copy_record. rewrite (proj2 (Z.ltb_ge _ _)) by lia.
  unfold record_bytes in *. revert Hi Hb. generalize (image r) as I. intros I Hi Hb.
  destruct (has_data (flag_ r)) eqn:E.
  - pose proof (ok_data _ H E) as Hd. rewrite zlen_app in Hb. unfold CLOG_INS_REC_NODATA_SIZE in *.
    assert (Hcase : match flag_ r with REDO_INSERT | REDO_UPDATE => true | _ => false end = true) by done.
    assert (Hgoal : (if 48 <? start then inr <$> load (data_ r) (start - 48) n
      else if start + n <=? 48 then inr <$> load I start n
      else front ← load I start (48 - start); back ← load (data_ r) 0 (n - (48 - start)); Some (inr (front ++ back))) =
      Some (inr (A := RC) (take (Z.to_nat n) (drop (Z.to_nat start) (I ++ data_ r))))).
    { destruct (Z.ltb_spec 48 start); [|destruct (Z.leb_spec (start + n) 48)].
      - unfold load. rewrite decide_True by lia. simpl. do 2 f_equal.
        rewrite drop_app, (drop_ge I) by (unfold zlen in *; lia). simpl. do 2 f_equal. unfold zlen in *. lia.
      - unfold load. rewrite decide_True by lia. simpl. do 2 f_equal.
        rewrite drop_app_le by (unfold zlen in *; lia). rewrite take_app_le; [done|]. rewrite length_drop. unfold zlen in *. lia.
      - unfold load. rewrite !decide_True by lia. simpl. do 2 f_equal.
        rewrite drop_app_le by (unfold zlen in *; lia). rewrite take_app, length_drop, drop_0.
        f_equal; [|f_equal; unfold zlen in *; lia]. rewrite !take_ge; [done|rewrite length_drop; unfold zlen in *; lia..]. }
    destruct (flag_ r); try done; exact Hgoal.
  - assert (Hlen : logrec_len_ (hdr_ r) <= 48).
    { rewrite (ok_len _ H). destruct (flag_ r); try done. }
    assert (Hgoal : inr <$> load I start n =
      Some (inr (A := RC) (take (Z.to_nat n) (drop (Z.to_nat start) (take (Z.to_nat (logrec_len_ (hdr_ r))) I))))).
    { unfold load. rewrite decide_True by lia. simpl. do 2 f_equal.
      rewrite !take_drop_commute, take_take. f_equal. replace (_ `min` _)%nat with (Z.to_nat start + Z.to_nat n)%nat by lia. done. }
    destruct (flag_ r); try done; exact Hgoal.
Qed.

(** ** Reading a record back *)

Lemma c_string_Some bs s : c_string bs = Some s <-> exists t, bs = s ++ 0 :: t /\ Forall (fun b => b <> 0) s.
Proof.
  revert s. induction bs as [|b bs IH]; intros s; simpl.
  { split; [done|]. intros (t & H & _). by destruct s. }
  destruct (Z.eqb_spec b 0) as [->|Hb].
  - split; [intros [= <-]; by exists bs|]. intros (t & H & Hs). destruct s; [done|]. inversion Hs. by simplify_list_eq.
  - rewrite fmap_Some. split.
    + intros (s' & Hs' & ->). apply IH in Hs' as (t & -> & H). exists t. split; [done|]. by constructor.
    + intros (t & H & Hs). destruct s as [|b' s]; simplify_list_eq. inversion Hs; subst. exists s. split; [|done].
      apply IH. eauto.
Qed.

(** [strcpy] needs room for the terminator only, and copies the string. *)
Lemma strcpy_string dest bs s :
  c_string bs = Some s -> zlen s < zlen dest ->
  exists d, strcpy dest bs = Some d /\ zlen d = zlen dest /\ c_string d = Some s.
Proof.
  intros Hs Hl. unfold strcpy. rewrite Hs. change (exists d, store dest 0 (s ++ [0]) = Some d /\ zlen d = zlen dest /\ c_string d = Some s).
  destruct (store_is_Some dest 0 (s ++ [0])) as [d Hd]; [lia|rewrite zlen_app; unfold zlen in *; simpl; lia|].
  exists d. split; [done|]. split; [exact (store_length _ _ _ _ Hd)|].
  unfold store in Hd. case_decide; [|done]. injection Hd as <-. apply c_string_Some in Hs as (t & _ & Hnz).
  apply c_string_Some. eexists. simpl. rewrite <- app_assoc. split; [done|done].
Qed.

Lemma c_string_app bs s rest : c_string bs = Some s -> c_string (bs ++ rest) = Some s.
Proof.
  rewrite !c_string_Some. intros (t & -> & H). exists (t ++ rest). split; [|done]. by rewrite <- app_assoc.
Qed.

Lemma c_string_length bs s : c_string bs = Some s -> zlen s < zlen bs.
Proof. rewrite c_string_Some. intros (t & -> & _). rewrite zlen_app. unfold zlen. simpl. lia. Qed.

Lemma clog_type_code t : clog_type (clog_code t) = Some t.
Proof. by destruct t. Qed.

Lemma is_int32_len r : record_ok r -> is_int32 (logrec_len_ (hdr_ r)).
Proof.
  intros H. rewrite (ok_len _ H). pose proof (ok_data_len _ H) as [_ H1]. destruct (flag_ r); done.
Qed.

Lemma hdr_image_read r rest :
  record_ok r ->
  let d := hdr_image (hdr_ r) ++ rest in
  get_i32 d 0 = Some (lsn_ (hdr_ r)) /\ get_i32 d 4 = Some (trx_id_ (hdr_ r)) /\
  get_i32 d 8 = Some (clog_code (flag_ r)) /\ get_i32 d 12 = Some (logrec_len_ (hdr_ r)).
Proof.
  intros H. pose proof (is_int32_len _ H) as Hlen. destruct H as [[Ht _] Hlsn Htrx _ _ _ _ _ _].
  destruct (hdr_ r) as [lsn trx ty len]. cbn [lsn_ trx_id_ type_ logrec_len_] in *.
  unfold hdr_image. cbn [lsn_ trx_id_ type_ logrec_len_]. rewrite <- !app_assoc. split_and!.
  - exact (get_i32_app [] _ _ 0 eq_refl Hlsn).
  - exact (get_i32_app (le_encode 4 lsn) _ _ 4 eq_refl Htrx).
  - rewrite (app_assoc (le_encode 4 lsn)), Ht. apply (get_i32_app (le_encode 4 lsn ++ le_encode 4 trx) _ _ 8 eq_refl).
    by destruct (flag_ r).
  - rewrite (app_assoc (le_encode 4 lsn)), (app_assoc (_ ++ _) (le_encode 4 ty)).
    exact (get_i32_app ((le_encode 4 lsn ++ le_encode 4 trx) ++ le_encode 4 ty) _ _ 12 eq_refl Hlen).
Qed.

(** The bytes of a record behind its header. *)
Definition body_image (r : CLogRecord) : list Z :=
  match flag_ r with
  | REDO_INSERT | REDO_UPDATE =>
      table_name_ r ++ le_encode 4 (page_num (rid_ r)) ++ le_encode 4 (slot_num (rid_ r)) ++
      le_encode 4 (data_len_ r) ++ data_ r
  | REDO_DELETE => table_name_ r ++ le_encode 4 (page_num (rid_ r)) ++ le_encode 4 (slot_num (rid_ r))
  | _ => []
  end.

Lemma record_bytes_split r : record_ok r -> record_bytes r = hdr_image (hdr_ r) ++ body_image r.
Proof.
  intros H. pose proof (ok_len _ H) as Hl. pose proof (ok_name _ H) as Hn. unfold record_bytes, body_image, image.
  assert (Hh : zlen (hdr_image (hdr_ r)) = 16) by (unfold hdr_image; rewrite !zlen_app, !le_encode_length; done).
  unfold zlen, TABLE_NAME_MAX_LEN in *.
  destruct (flag_ r) eqn:E; simpl has_data; cbv iota; rewrite ?Hl; rewrite <- ?app_assoc; try done.
  rewrite !app_assoc. rewrite take_app_le.
  - apply take_ge. unfold sizeof_CLogDeleteRecord. rewrite !length_app. simpl. lia.
  - unfold sizeof_CLogDeleteRecord. rewrite !length_app. simpl. lia.
Qed.

(** The copy of the table name does not depend on the bytes behind it. *)
Lemma name_read r :
  record_ok r -> flag_ r <> REDO_MTR_BEGIN -> flag_ r <> REDO_MTR_COMMIT ->
  exists d, (forall rest, strcpy (uninit TABLE_NAME_MAX_LEN) (table_name_ r ++ rest) = Some d) /\
    c_string (table_name_ r) = c_string d /\ is_Some (c_string d).
Proof using uninit_length.
  intros H H1 H2. destruct (ok_string _ H H1 H2) as [s Hs]. pose proof (c_string_length _ _ Hs) as Hl.
  rewrite (ok_name _ H) in Hl.
  destruct (strcpy_string (uninit TABLE_NAME_MAX_LEN) (table_name_ r) s) as (d & Hd & _ & Hc); [done|..].
  { rewrite uninit_length; unfold TABLE_NAME_MAX_LEN in *; lia. }
  exists d. split; [|by rewrite Hs, Hc]. intros rest. rewrite <- Hd. unfold strcpy. by rewrite (c_string_app _ _ rest Hs), Hs.
Qed.

Lemma hdr_image_length h : zlen (hdr_image h) = 16.
Proof. unfold hdr_image. by rewrite !zlen_app, !le_encode_length. Qed.

Lemma read_record_header r rest :
  record_ok r ->
  let d := hdr_image (hdr_ r) ++ rest in
  read_record d =
  match flag_ r with
  | REDO_MTR_BEGIN | REDO_MTR_COMMIT => Some (mk_CLogRecord (flag_ r) (hdr_ r) (uninit TABLE_NAME_MAX_LEN) (mk_RID 0 0) 0 [])
  | REDO_INSERT | REDO_UPDATE =>
      name ← strcpy (uninit TABLE_NAME_MAX_LEN) rest;
      page ← get_i32 d 36; slot ← get_i32 d 40; data_len ← get_i32 d 44;
      bs ← load d 48 data_len;
      data ← store (uninit (logrec_len_ (hdr_ r) - CLOG_INS_REC_NODATA_SIZE)) 0 bs;
      Some (mk_CLogRecord (flag_ r) (hdr_ r) name (mk_RID page slot) data_len data)
  | REDO_DELETE =>
      name ← strcpy (uninit TABLE_NAME_MAX_LEN) rest;
      page ← get_i32 d 36; slot ← get_i32 d 40;
      Some (mk_CLogRecord (flag_ r) (hdr_ r) name (mk_RID page slot) 0 [])
  | REDO_ERROR => None
  end.
Proof using Type.
  intros H d. unfold read_record. destruct (hdr_image_read r rest H) as (E1 & E2 & E3 & E4). fold d in E1, E2, E3, E4.
  rewrite E1, E2, E3, E4. cbv [mbind option_bind]. rewrite clog_type_code.
  assert (Ed : drop 16 d = rest).
  { unfold d. rewrite drop_app_ge; pose proof (hdr_image_length (hdr_ r)); unfold zlen in *; [|lia].
    replace (16 - _)%nat with 0%nat by lia. done. }
  rewrite Ed. rewrite <- (proj1 (ok_type _ H)). by destruct (flag_ r), (hdr_ r).
Qed.

Lemma fields_read r rest :
  record_ok r ->
  let d := hdr_image (hdr_ r) ++ table_name_ r ++ le_encode 4 (page_num (rid_ r)) ++ le_encode 4 (slot_num (rid_ r)) ++ rest in
  get_i32 d 36 = Some (page_num (rid_ r)) /\ get_i32 d 40 = Some (slot_num (rid_ r)).
Proof using Type.
  intros H d. pose proof (hdr_image_length (hdr_ r)) as Hh. pose proof (ok_name _ H) as Hn. destruct (ok_rid _ H) as [Hp Hs].
  unfold d, TABLE_NAME_MAX_LEN in *. split.
  - rewrite app_assoc. apply get_i32_app; [|done]. rewrite zlen_app. lia.
  - rewrite app_assoc, (app_assoc (_ ++ _)). apply get_i32_app; [|done]. rewrite !zlen_app, le_encode_length. lia.
Qed.

Lemma data_read r rest :
  record_ok r -> has_data (flag_ r) = true ->
  let d := hdr_image (hdr_ r) ++ table_name_ r ++ le_encode 4 (page_num (rid_ r)) ++ le_encode 4 (slot_num (rid_ r)) ++
           le_encode 4 (data_len_ r) ++ data_ r ++ rest in
  get_i32 d 44 = Some (data_len_ r) /\ load d 48 (data_len_ r) = load (data_ r) 0 (data_len_ r) /\
  is_Some (load (data_ r) 0 (data_len_ r)).
Proof using Type.
  intros H E d. pose proof (hdr_image_length (hdr_ r)) as Hh. pose proof (ok_name _ H) as Hn.
  pose proof (ok_data _ H E) as Hd. rewrite (ok_len _ H) in Hd. destruct (ok_data_len _ H) as [H0 H1].
  destruct (_align8_spec (CLOG_INS_REC_NODATA_SIZE + data_len_ r)) as [Ha _]; [unfold CLOG_INS_REC_NODATA_SIZE; lia|].
  assert (Hle : data_len_ r <= zlen (data_ r)).
  { unfold CLOG_INS_REC_NODATA_SIZE in *. destruct (flag_ r); simpl in E; try done; lia. }
  assert (Hi : is_int32 (data_len_ r)) by (destruct H1; split; unfold INT_MIN, INT_MAX, CLOG_INS_REC_NODATA_SIZE in *; lia).
  unfold TABLE_NAME_MAX_LEN in *.
  set (pre := hdr_image (hdr_ r) ++ table_name_ r ++ le_encode 4 (page_num (rid_ r)) ++ le_encode 4 (slot_num (rid_ r))).
  assert (Hpre : zlen pre = 44) by (unfold pre; rewrite !zlen_app, !le_encode_length; lia).
  assert (Ed : d = pre ++ le_encode 4 (data_len_ r) ++ data_ r ++ rest) by (unfold d, pre; by rewrite <- !app_assoc).
  rewrite Ed. split_and!.
  - by apply get_i32_app.
  - assert (Hr : 0 <= zlen rest) by (unfold zlen; lia).
    unfold load. rewrite !decide_True by (rewrite ?zlen_app, ?le_encode_length; lia). f_equal.
    rewrite app_assoc, drop_app_ge; rewrite length_app; pose proof (le_encode_length 4 (data_len_ r)); unfold zlen in *; [|lia].
    replace (_ - _)%nat with 0%nat by lia. rewrite !drop_0. apply take_app_le. lia.
  - apply load_is_Some; lia.
Qed.

Lemma same_name_true r r' :
  c_string (table_name_ r) = c_string (table_name_ r') -> is_Some (c_string (table_name_ r')) -> same_name r r' = true.
Proof using Type. intros E [s Hs]. unfold same_name. rewrite E, Hs. by rewrite bool_decide_true. Qed.

(** The bytes of a record, whatever follows them, read back as the record. *)
Definition reads_back (r r' : CLogRecord) : Prop :=
  (forall rest, read_record (record_bytes r ++ rest) = Some r') /\
  cmp_eq r r' = true /\ flag_ r' = flag_ r /\ hdr_ r' = hdr_ r.

Lemma read_data_record r : record_ok r -> has_data (flag_ r) = true -> exists r', reads_back r r'.
Proof using uninit_length.
  intros H E. destruct (name_read r H) as (name & Hname & Hc & Hs); [by intros F; rewrite F in E..|].
  destruct (data_read r [] H E) as (_ & _ & [bs Hbs]). pose proof (load_length _ _ _ _ Hbs) as Hlen.
  pose proof (ok_data _ H E) as Hd. destruct (proj1 (load_Some _ _ _ _) Hbs) as (_ & Hp & Hle & _).
  destruct (store_is_Some (uninit (logrec_len_ (hdr_ r) - CLOG_INS_REC_NODATA_SIZE)) 0 bs) as [data Hdata].
  { lia. } { rewrite uninit_length; unfold zlen in *; lia. }
  exists (mk_CLogRecord (flag_ r) (hdr_ r) name (rid_ r) (data_len_ r) data). split.
  - intros rest. rewrite (record_bytes_split r H), <- app_assoc, (read_record_header r _ H).
    destruct (data_read r rest H E) as (E1 & E2 & _).
    destruct (fields_read r (le_encode 4 (data_len_ r) ++ data_ r ++ rest) H) as (E3 & E4).
    unfold body_image. destruct (flag_ r); try done; rewrite <- !app_assoc, Hname, E1, E3, E4;
      cbv [mbind option_bind]; rewrite E2, Hbs, Hdata; by destruct (rid_ r).
  - split; [|done]. pose proof (load_store_eq _ _ _ _ Hdata) as Hl. rewrite Hlen in Hl.
    unfold cmp_eq. simpl. rewrite same_name_true by done. rewrite Hbs, Hl, Z.eqb_refl.
    rewrite !bool_decide_true by done. by destruct (flag_ r).
Qed.

Lemma read_delete_record r : record_ok r -> flag_ r = REDO_DELETE -> exists r', reads_back r r'.
Proof using uninit_length.
  intros H E. destruct (name_read r H) as (name & Hname & Hc & Hs); [by rewrite E..|].
  exists (mk_CLogRecord (flag_ r) (hdr_ r) name (rid_ r) 0 []). split.
  - intros rest. rewrite (record_bytes_split r H), <- app_assoc, (read_record_header r _ H).
    destruct (fields_read r rest H) as (E3 & E4).
    unfold body_image. rewrite E. rewrite <- !app_assoc, Hname, E3, E4. by destruct (rid_ r).
  - split; [|done]. unfold cmp_eq. simpl. rewrite same_name_true by done. rewrite E. by rewrite !bool_decide_true.
Qed.

Lemma record_reads_back r : record_ok r -> exists r', reads_back r r'.
Proof using uninit_length.
  intros H. destruct (has_data (flag_ r)) eqn:E; [by apply read_data_record|].
  destruct (decide (flag_ r = REDO_DELETE)) as [Ed|Ed]; [by apply read_delete_record|].
  exists (mk_CLogRecord (flag_ r) (hdr_ r) (uninit TABLE_NAME_MAX_LEN) (mk_RID 0 0) 0 []). split.
  - intros rest. rewrite (record_bytes_split r H), <- app_assoc, (read_record_header r _ H).
    pose proof (proj2 (ok_type _ H)). by destruct (flag_ r).
  - split; [|done]. pose proof (proj2 (ok_type _ H)). unfold cmp_eq.
    destruct (flag_ r); try done; by rewrite !bool_decide_true.
Qed.
End record.
