(* ===== verification/Clog.v ===== *)
(** * The redo log (storage/clog/clog.{h,cpp})

    The log buffer, the log file with its recovery, the list of records to redo
    and the log manager.  A log block is a record with its header fields and its
    data area; the buffer and the file are arrays of blocks, the first block of
    the file being its header.  [None] stands for an access outside its block,
    for the use of a record of an unknown type, and for exhausted fuel.

    The transfers to the file succeed ([PersistHandler] is a plain file). *)

From Stdlib Require Import ZArith Lia.
From stdpp Require Import base gmap tactics.
From stdpp Require Import list.
From S2P Require Import Prelude.
From S2P Require Import Monad.
From S2P Require Import Bytes.
From S2P Require Import Comparator.
From S2P Require Import ClogRecord.
#[local] Open Scope Z_scope.

Definition CLOG_BLOCK_SIZE : Z := 512.
Definition CLOG_BLOCK_HDR_SIZE : Z := 8.
Definition CLOG_BLOCK_DATA_SIZE : Z := 504.
Definition CLOG_FILE_HDR_SIZE : Z := 8.
(** In blocks. *)
Definition CLOG_REDO_BUFFER_BLOCKS : nat := 8.
Definition CLOG_REDO_BUFFER_SIZE : Z := 8 * CLOG_BLOCK_SIZE.

Record CLogBlock : Type := mk_block {
  log_block_no : Z;
  log_data_len_ : Z;
  first_rec_offset_ : Z;
  data : list Z
}.

Definition zero_block : CLogBlock := mk_block 0 0 0 (replicate (Z.to_nat CLOG_BLOCK_DATA_SIZE) 0).

Record CLogBuffer : Type := mk_CLogBuffer {
  current_block_no_ : Z;
  write_block_offset_ : Z;
  write_offset_ : Z;
  buffer_ : list CLogBlock
}.

(** The blocks of the file. *)
Definition CLogFile : Type := list CLogBlock.

Record CLogRecordBuf : Type := mk_CLogRecordBuf { rb_write_offset_ : Z; rb_buffer_ : list Z }.

Record CLogMTRManager : Type := mk_CLogMTRManager {
  log_redo_list : list CLogRecord;
  trx_commited : gmap Z bool
}.

Record CLogManager : Type := mk_CLogManager {
  log_buffer_ : CLogBuffer;
  log_file_ : CLogFile;
  log_mtr_mgr_ : CLogMTRManager;
  gloabl_lsn_ : Z
}.

(** ** Blocks of the buffer and of the file *)

(** [(CLogBlock * )&buffer_[offset]] *)
Definition block_at (bs : list CLogBlock) (offset : Z) : option CLogBlock :=
  if offset mod CLOG_BLOCK_SIZE =? 0 then zget bs (offset / CLOG_BLOCK_SIZE) else None.
Definition set_block (bs : list CLogBlock) (offset : Z) (b : CLogBlock) : option (list CLogBlock) :=
  if offset mod CLOG_BLOCK_SIZE =? 0 then zset bs (offset / CLOG_BLOCK_SIZE) b else None.

(** A copy to [&buffer_[offset]] inside the data area of a block. *)
Definition write_bytes (bs : list CLogBlock) (offset : Z) (v : list Z) : option (list CLogBlock) :=
  b ← zget bs (offset / CLOG_BLOCK_SIZE);
  d ← store (data b) (offset mod CLOG_BLOCK_SIZE - CLOG_BLOCK_HDR_SIZE) v;
  zset bs (offset / CLOG_BLOCK_SIZE) (mk_block (log_block_no b) (log_data_len_ b) (first_rec_offset_ b) d).

(** Writing behind the end of the file fills the gap with zeros. *)
Definition file_write (f : CLogFile) (offset : Z) (bs : list CLogBlock) : option CLogFile :=
  if decide (0 <= offset /\ offset mod CLOG_BLOCK_SIZE = 0) then
    let i := Z.to_nat (offset / CLOG_BLOCK_SIZE) in
    Some (take i (f ++ replicate (i - length f) zero_block) ++ bs ++ drop (i + length bs) f)
  else None.

(** Up to [n] blocks from the block with the number [i] on. *)
Definition file_read (f : CLogFile) (i n : nat) : list CLogBlock := take n (drop i f).

Section clog.
Context (uninit : Z -> list Z).
(** The number of blocks of the buffer: 8192, [CLOG_BUFFER_SIZE / CLOG_BLOCK_SIZE]. *)
Context (buffer_blocks : nat).

Definition CLOG_BUFFER_SIZE : Z := CLOG_BLOCK_SIZE * Z.of_nat buffer_blocks.

(** ** CLogBuffer *)

Definition new_buffer : CLogBuffer := mk_CLogBuffer 0 0 0 (replicate buffer_blocks zero_block).

(** A new block at [offset]: cleared, with the next number. *)
Definition start_block (b : CLogBuffer) (offset : Z) : option CLogBuffer :=
  let no := current_block_no_ b + CLOG_BLOCK_SIZE in
  bs ← set_block (buffer_ b) offset (mk_block no 0 0 (data zero_block));
  Some (mk_CLogBuffer no offset (write_offset_ b + CLOG_BLOCK_HDR_SIZE) bs).

(** The copy of [n] bytes of the record to the current block, whose fields become
    [first] and the longer length; a refused copy leaves the block's data. *)
Definition put_fragment (b : CLogBuffer) (r : CLogRecord) (start_off n first : Z) : option CLogBuffer :=
  frag ← copy_record r start_off n;
  bs ← match frag with inl _ => Some (buffer_ b) | inr v => write_bytes (buffer_ b) (write_offset_ b) v end;
  blk ← block_at bs (write_block_offset_ b);
  bs ← set_block bs (write_block_offset_ b) (mk_block (log_block_no blk) (log_data_len_ blk + n) first (data blk));
  Some (mk_CLogBuffer (current_block_no_ b) (write_block_offset_ b) (write_offset_ b + n) bs).

(** The new start offset is returned. *)
Fixpoint append_log_record (fuel : nat) (b : CLogBuffer) (r : CLogRecord) (start_off : Z) :
  option (RC * (CLogBuffer * Z)) :=
  match fuel with
  | O => None
  | S fuel =>
      if write_offset_ b =? CLOG_BUFFER_SIZE then Some (LOGBUF_FULL, (b, start_off))
      else
        let logrec_left_len := logrec_len_ (hdr_ r) - start_off in
        b ← (if (write_offset_ b =? 0) && (write_block_offset_ b =? 0) then start_block b 0 else Some b);
        blk ← block_at (buffer_ b) (write_block_offset_ b);
        if log_data_len_ blk =? CLOG_BLOCK_DATA_SIZE then
          b ← start_block b (write_block_offset_ b + CLOG_BLOCK_SIZE);
          append_log_record fuel b r start_off
        else
          let block_left_len := CLOG_BLOCK_DATA_SIZE - log_data_len_ blk in
          if logrec_left_len <=? block_left_len then
            let first :=
              if log_data_len_ blk =? 0 then
                if start_off =? 0 then CLOG_BLOCK_HDR_SIZE else CLOG_BLOCK_HDR_SIZE + logrec_left_len
              else first_rec_offset_ blk in
            b ← put_fragment b r start_off logrec_left_len first;
            Some (SUCCESS, (b, start_off + logrec_left_len))
          else
            let first := if log_data_len_ blk =? 0 then CLOG_BLOCK_SIZE else first_rec_offset_ blk in
            b ← put_fragment b r start_off block_left_len first;
            append_log_record fuel b r (start_off + block_left_len)
  end.

Definition flush_buffer (b : CLogBuffer) (f : CLogFile) : option (RC * (CLogBuffer * CLogFile)) :=
  blk0 ← block_at (buffer_ b) 0;
  if write_offset_ b =? CLOG_BUFFER_SIZE then
    f ← file_write f (log_block_no blk0) (buffer_ b);
    Some (SUCCESS, (mk_CLogBuffer (current_block_no_ b) 0 0 (replicate buffer_blocks zero_block), f))
  else
    let n := Z.to_nat ((write_block_offset_ b + CLOG_BLOCK_SIZE) / CLOG_BLOCK_SIZE) in
    f ← file_write f (log_block_no blk0) (take n (buffer_ b));
    blk ← block_at (buffer_ b) (write_block_offset_ b);
    if log_data_len_ blk =? CLOG_BLOCK_DATA_SIZE then
      Some (SUCCESS, (mk_CLogBuffer (current_block_no_ b) 0 0 (replicate buffer_blocks zero_block), f))
    else if negb (write_block_offset_ b =? 0) then
      Some (SUCCESS, (mk_CLogBuffer (current_block_no_ b) 0 (log_data_len_ blk + CLOG_BLOCK_HDR_SIZE)
                        (blk :: replicate (buffer_blocks - 1) zero_block), f))
    else Some (SUCCESS, (b, f)).

Definition block_copy (b : CLogBuffer) (offset : Z) (blk : CLogBlock) : option CLogBuffer :=
  bs ← set_block (buffer_ b) offset blk;
  Some (mk_CLogBuffer (current_block_no_ b) (write_block_offset_ b) (write_offset_ b) bs).
Definition set_current_block_no (b : CLogBuffer) (no : Z) : CLogBuffer :=
  mk_CLogBuffer no (write_block_offset_ b) (write_offset_ b) (buffer_ b).
Definition set_write_block_offset (b : CLogBuffer) (o : Z) : CLogBuffer :=
  mk_CLogBuffer (current_block_no_ b) o (write_offset_ b) (buffer_ b).
Definition set_write_offset (b : CLogBuffer) (o : Z) : CLogBuffer :=
  mk_CLogBuffer (current_block_no_ b) (write_block_offset_ b) o (buffer_ b).

(** ** CLogMTRManager *)

Definition new_mtr_manager : CLogMTRManager := mk_CLogMTRManager [] ∅.

Definition log_record_manage (m : CLogMTRManager) (r : CLogRecord) : CLogMTRManager :=
  match flag_ r with
  | REDO_MTR_COMMIT => mk_CLogMTRManager (log_redo_list m) (<[trx_id_ (hdr_ r) := true]> (trx_commited m))
  | REDO_MTR_BEGIN =>
      mk_CLogMTRManager (log_redo_list m)
        (match trx_commited m !! trx_id_ (hdr_ r) with
         | Some _ => trx_commited m
         | None => <[trx_id_ (hdr_ r) := false]> (trx_commited m)
         end)
  | _ => mk_CLogMTRManager (log_redo_list m ++ [r]) (trx_commited m)
  end.

(** ** CLogFile: recovery *)

Definition new_record_buf : CLogRecordBuf := mk_CLogRecordBuf 0 (replicate (Z.to_nat CLOG_REDO_BUFFER_SIZE) 0).

(** The bytes [v] behind the collected ones. *)
Definition collect (lrb : CLogRecordBuf) (v : list Z) : option CLogRecordBuf :=
  d ← store (rb_buffer_ lrb) (rb_write_offset_ lrb) v;
  Some (mk_CLogRecordBuf (rb_write_offset_ lrb + zlen v) d).

(** The new offset, the collected bytes and the record that was found, if any. *)
Definition block_recover (blk : CLogBlock) (offset : Z) (lrb : CLogRecordBuf) :
  option (Z * CLogRecordBuf * option CLogRecord) :=
  if (offset =? CLOG_BLOCK_HDR_SIZE) && negb (first_rec_offset_ blk =? CLOG_BLOCK_HDR_SIZE) then
    let n := first_rec_offset_ blk - CLOG_BLOCK_HDR_SIZE in
    v ← load (data blk) (offset - CLOG_BLOCK_HDR_SIZE) n;
    lrb ← collect lrb v;
    Some (offset + n, lrb, None)
  else
    let rest := CLOG_BLOCK_SIZE - offset in
    if rest <? sizeof_CLogRecordHeader then
      v ← load (data blk) (offset - CLOG_BLOCK_HDR_SIZE) rest;
      lrb ← collect lrb v;
      Some (CLOG_BLOCK_SIZE, lrb, None)
    else if negb (rb_write_offset_ lrb =? 0) then
      r ← read_record uninit (rb_buffer_ lrb);
      Some (offset, new_record_buf, Some r)
    else
      let d := drop (Z.to_nat (offset - CLOG_BLOCK_HDR_SIZE)) (data blk) in
      logrec_len ← get_i32 d 12;
      if logrec_len <=? rest then
        r ← read_record uninit d;
        Some (offset + logrec_len, lrb, Some r)
      else
        v ← load (data blk) (offset - CLOG_BLOCK_HDR_SIZE) rest;
        lrb ← collect lrb v;
        Some (CLOG_BLOCK_SIZE, lrb, None).

(** What the recovery carries along. *)
Record recovery : Type := mk_recovery { logrec_buf : CLogRecordBuf; rec_mgr : CLogMTRManager; rec_lsn : Z }.

(** The loop body: a record that was found advances the LSN and goes to the manager. *)
Definition recover_step (blk : CLogBlock) (offset : Z) (st : recovery) : option (Z * recovery) :=
  '(offset, lrb, found) ← block_recover blk offset (logrec_buf st);
  match found with
  | Some r => Some (offset, mk_recovery lrb (log_record_manage (rec_mgr st) r)
                              (to_int32 (lsn_ (hdr_ r) + logrec_len_ (hdr_ r))))
  | None => Some (offset, mk_recovery lrb (rec_mgr st) (rec_lsn st))
  end.

(** The records of one block: [while (rec_offset < CLOG_BLOCK_HDR_SIZE + log_data_len_)]. *)
Fixpoint recover_block (fuel : nat) (blk : CLogBlock) (offset : Z) (st : recovery) : option recovery :=
  match fuel with
  | O => None
  | S fuel =>
      if offset <? CLOG_BLOCK_HDR_SIZE + log_data_len_ blk then
        '(offset, st) ← recover_step blk offset st;
        recover_block fuel blk offset st
      else Some st
  end.

(** The blocks of the redo buffer; [true] when the last block of the log was met. *)
Fixpoint recover_blocks (fuel : nat) (blks : list CLogBlock) (b : CLogBuffer) (st : recovery) :
  option (bool * CLogBuffer * recovery) :=
  match blks with
  | [] => Some (false, b, st)
  | blk :: blks =>
      let b := set_current_block_no b (log_block_no blk) in
      st ← recover_block fuel blk CLOG_BLOCK_HDR_SIZE st;
      if log_data_len_ blk <? CLOG_BLOCK_DATA_SIZE then
        b ← block_copy b 0 blk;
        Some (true, set_write_offset (set_write_block_offset b 0) (log_data_len_ blk + CLOG_BLOCK_HDR_SIZE), st)
      else recover_blocks fuel blks b st
  end.

(** [while (read_size != 0)]: a short read leaves the end of the redo buffer as
    it was, and all its blocks are looked at. *)
Fixpoint recover_file (fuel : nat) (f : CLogFile) (i : nat) (redo_buffer : list CLogBlock) (b : CLogBuffer) (st : recovery) :
  option (CLogBuffer * recovery) :=
  match fuel with
  | O => None
  | S fuel' =>
      let got := file_read f i CLOG_REDO_BUFFER_BLOCKS in
      let redo_buffer := got ++ drop (length got) redo_buffer in
      if decide (got = []) then Some (b, st)
      else
        '(stop, b, st) ← recover_blocks fuel redo_buffer b st;
        if stop : bool then Some (b, st)
        else recover_file fuel' f (i + length got) redo_buffer b st
  end.

(** The record that is still collected at the end goes to the manager. *)
Definition recover_pending (st : recovery) : option recovery :=
  if negb (rb_write_offset_ (logrec_buf st) =? 0) then
    r ← read_record uninit (rb_buffer_ (logrec_buf st));
    Some (mk_recovery (logrec_buf st) (log_record_manage (rec_mgr st) r) (rec_lsn st))
  else Some st.

Definition file_recover (fuel : nat) (redo_buffer : list CLogBlock) (m : CLogManager) : option (RC * CLogManager) :=
  '(b, st) ← recover_file fuel (log_file_ m) 1 redo_buffer (log_buffer_ m)
               (mk_recovery new_record_buf (log_mtr_mgr_ m) (gloabl_lsn_ m));
  st ← recover_pending st;
  Some (SUCCESS, mk_CLogManager b (log_file_ m) (rec_mgr st) (rec_lsn st)).

(** ** CLogManager *)

(** A new file gets the header block: the real offset, the LSN 0 (in the place of
    the two 16-bit fields of a log block), and a part that is not initialised. *)
Definition file_header : CLogBlock :=
  mk_block CLOG_FILE_HDR_SIZE 0 0 (uninit (CLOG_BLOCK_SIZE - CLOG_FILE_HDR_SIZE)).
Definition open_file (f : option CLogFile) : CLogFile :=
  match f with None => [file_header] | Some f => f end.

Definition new_manager (f : option CLogFile) (lsn : Z) : CLogManager :=
  mk_CLogManager new_buffer (open_file f) new_mtr_manager lsn.

Definition get_next_lsn (lsn rec_len : Z) : Z * Z := (lsn, to_int32 (lsn + rec_len)).

(** The length field that the constructor passes to [get_next_lsn]. *)
Definition next_len (flag : CLogType) (data_len : Z) : Z :=
  match flag with
  | REDO_INSERT | REDO_UPDATE => _align8 (CLOG_INS_REC_NODATA_SIZE + data_len)
  | REDO_DELETE => sizeof_CLogDeleteRecord
  | _ => sizeof_CLogMTRRecord
  end.
Definition clog_gen_record (m : CLogManager) (flag : CLogType) (trx_id : Z) (table_name : list Z) (data_len : Z) (rec : rec_arg) :
  option (RC * (CLogManager * CLogRecord)) :=
  let '(lsn, next) := get_next_lsn (gloabl_lsn_ m) (next_len flag data_len) in
  r ← new_record uninit flag trx_id table_name data_len rec lsn;
  Some (SUCCESS, (mk_CLogManager (log_buffer_ m) (log_file_ m) (log_mtr_mgr_ m) next, r)).

Definition clog_sync (m : CLogManager) : option (RC * CLogManager) :=
  '(rc, (b, f)) ← flush_buffer (log_buffer_ m) (log_file_ m);
  Some (rc, mk_CLogManager b f (log_mtr_mgr_ m) (gloabl_lsn_ m)).

Definition clog_append_record (fuel : nat) (m : CLogManager) (r : CLogRecord) : option (RC * CLogManager) :=
  '(rc, (b, start_offset)) ← append_log_record fuel (log_buffer_ m) r 0;
  let m := mk_CLogManager b (log_file_ m) (log_mtr_mgr_ m) (gloabl_lsn_ m) in
  if bool_decide (rc = LOGBUF_FULL) || bool_decide (flag_ r = REDO_MTR_COMMIT) then
    '(_, m) ← clog_sync m;
    if negb (start_offset =? logrec_len_ (hdr_ r)) then
      '(_, (b, _)) ← append_log_record fuel (log_buffer_ m) r start_offset;
      Some (rc, mk_CLogManager b (log_file_ m) (log_mtr_mgr_ m) (gloabl_lsn_ m))
    else Some (rc, m)
  else Some (rc, m).

Definition recover (fuel : nat) (redo_buffer : list CLogBlock) (m : CLogManager) : option (RC * CLogManager) :=
  '(_, m) ← file_recover fuel redo_buffer m;
  Some (SUCCESS, m).
End clog.
