(* ===== verification/ClogSpec.v ===== *)
(** * The layout of the log, and the log buffer

    What the blocks of the log hold, as a function of the lengths of the records
    and of the stream of their bytes ([block_of]); the buffer together with the
    file represents this sequence of blocks ([buf_inv], [file_inv]), and
    appending a record and flushing keep the representation. *)

From Stdlib Require Import ZArith Lia.
From stdpp Require Import base gmap tactics.
From stdpp Require Import list.
From S2P Require Import Prelude.
From S2P Require Import Monad.
From S2P Require Import Bytes.
From S2P Require Import Comparator.
From S2P Require Import ClogRecord.
From S2P Require Import Clog.
#[local] Open Scope Z_scope.

Definition slice (a n : Z) (l : list Z) : list Z := take (Z.to_nat n) (drop (Z.to_nat a) l).
Definition pad (n : Z) (l : list Z) : list Z := l ++ replicate (Z.to_nat n - length l) 0.
Definition sum (lens : list Z) : Z := foldr Z.add 0 lens.

(** [first_rec_offset_] of the block that starts at position [p] of a stream of
    records with the lengths [lens]: the end of the record that covers the
    position, the end of the block when the record goes on behind it. *)
Fixpoint first_off (lens : list Z) (p : Z) : Z :=
  match lens with
  | [] => 0
  | l :: lens =>
      if p <? l then
        if CLOG_BLOCK_DATA_SIZE <? l - p then CLOG_BLOCK_SIZE
        else if p =? 0 then CLOG_BLOCK_HDR_SIZE else CLOG_BLOCK_HDR_SIZE + (l - p)
      else first_off lens (p - l)
  end.

(** The block number [i] (from zero) of the log with the stream [s]. *)
Definition block_of (lens : list Z) (s : list Z) (i : Z) : CLogBlock :=
  mk_block (512 * (i + 1)) (Z.min 504 (zlen s - 504 * i)) (first_off lens (504 * i)) (pad 504 (slice (504 * i) 504 s)).
Definition nblocks (s : list Z) : Z := (zlen s + 503) / 504.

(** ** Slices *)

Lemma zlen_nonneg {A} (l : list A) : 0 <= zlen l.
Proof. unfold zlen. lia. Qed.
#[local] Hint Resolve zlen_nonneg : core.

Lemma pad_length n l : 0 <= n -> zlen l <= n -> zlen (pad n l) = n.
Proof. intros. unfold pad, zlen in *. rewrite length_app, length_replicate. lia. Qed.

Lemma slice_length a n l : 0 <= a -> 0 <= n -> zlen (slice a n l) = Z.max 0 (Z.min n (zlen l - a)).
Proof. intros. unfold slice, zlen in *. rewrite length_take, length_drop. lia. Qed.

Lemma slice_app_l a n l v : 0 <= a -> 0 <= n -> a + n <= zlen l -> slice a n (l ++ v) = slice a n l.
Proof.
  intros. unfold slice, zlen in *. rewrite drop_app_le by lia. apply take_app_le. rewrite length_drop. lia.
Qed.

Lemma slice_app_cross a n l v :
  0 <= a <= zlen l -> zlen l <= a + n -> zlen l + zlen v <= a + n -> slice a n (l ++ v) = slice a n l ++ v.
Proof.
  intros. unfold slice, zlen in *. rewrite drop_app_le by lia. rewrite take_ge by (rewrite length_app, length_drop; lia).
  f_equal. symmetry. apply take_ge. rewrite length_drop. lia.
Qed.

Lemma store_pad n l v :
  0 <= n -> zlen l + zlen v <= n -> store (pad n l) (zlen l) v = Some (pad n (l ++ v)).
Proof.
  intros Hn H. pose proof (pad_length n l Hn). unfold store. rewrite decide_True by (pose proof (zlen_nonneg v); pose proof (zlen_nonneg l); lia).
  f_equal. unfold pad, zlen in *. rewrite Nat2Z.id, take_app_length, length_app, <- app_assoc. do 2 f_equal.
  rewrite drop_app_ge, drop_replicate by lia. f_equal. lia.
Qed.

Lemma store_replicate n v : 0 <= n -> zlen v <= n -> store (replicate (Z.to_nat n) 0) 0 v = Some (pad n v).
Proof.
  intros Hn H. pose proof (store_pad n [] v Hn H) as E. unfold pad at 1 in E. simpl in E. by rewrite Nat.sub_0_r in E.
Qed.

(** ** The layout *)

Lemma sum_app l1 l2 : sum (l1 ++ l2) = sum l1 + sum l2.
Proof. unfold sum. rewrite foldr_app. induction l1 as [|x l IH]; simpl; lia. Qed.

Lemma sum_nonneg lens : Forall (Z.lt 0) lens -> 0 <= sum lens.
Proof. intros H. induction H as [|l ls Hl _ IH]; unfold sum in *; simpl; lia. Qed.

Lemma first_off_app lens ls p : 0 <= p < sum lens -> first_off (lens ++ ls) p = first_off lens p.
Proof.
  revert p. induction lens as [|l lens IH]; intros p H; simpl in *; [lia|].
  destruct (Z.ltb_spec p l); [done|]. apply IH. lia.
Qed.

Lemma first_off_last lens l k :
  Forall (Z.lt 0) lens -> 0 <= k < l ->
  first_off (lens ++ [l]) (sum lens + k) =
    if 504 <? l - k then 512 else if k =? 0 then 8 else 8 + (l - k).
Proof.
  intros Hl Hk. induction Hl as [|x lens Hx Hl IH]; simpl.
  - rewrite (proj2 (Z.ltb_lt _ _)) by lia. done.
  - rewrite (proj2 (Z.ltb_ge _ _)) by (pose proof (sum_nonneg lens Hl); lia).
    replace (x + sum lens + k - x) with (sum lens + k) by lia. exact IH.
Qed.

Lemma nblocks_bounds s : 504 * (nblocks s - 1) < zlen s <= 504 * nblocks s \/ zlen s = 0 /\ nblocks s = 0.
Proof.
  unfold nblocks. pose proof (Z.div_mod (zlen s + 503) 504). pose proof (Z.mod_pos_bound (zlen s + 503) 504).
  pose proof (zlen_nonneg s). lia.
Qed.

Lemma nblocks_eq s n : 504 * (n - 1) < zlen s <= 504 * n -> nblocks s = n.
Proof. intros H. pose proof (nblocks_bounds s). pose proof (zlen_nonneg s). lia. Qed.

(** A full block is not affected by what comes behind it. *)
Lemma block_of_app lens s v i : 0 <= i -> 504 * (i + 1) <= zlen s -> block_of lens (s ++ v) i = block_of lens s i.
Proof.
  intros Hi H. unfold block_of. rewrite zlen_app, slice_app_l by lia. pose proof (zlen_nonneg v).
  f_equal. lia.
Qed.

Lemma block_of_lens lens ls s i :
  0 <= i -> 504 * i < sum lens -> block_of (lens ++ ls) s i = block_of lens s i.
Proof. intros Hi H. unfold block_of. by rewrite first_off_app by lia. Qed.

(** The data of the last block with [v] behind it. *)
Lemma data_extend s v i :
  0 <= i -> 504 * i <= zlen s -> zlen s + zlen v <= 504 * (i + 1) ->
  store (pad 504 (slice (504 * i) 504 s)) (zlen s - 504 * i) v = Some (pad 504 (slice (504 * i) 504 (s ++ v))).
Proof.
  intros Hi H Hv. pose proof (zlen_nonneg v).
  rewrite (slice_app_cross (504 * i) 504 s v) by lia.
  assert (E : zlen s - 504 * i = zlen (slice (504 * i) 504 s)) by (rewrite slice_length; lia).
  rewrite E. apply store_pad; lia.
Qed.

(** ** Access to the blocks *)

Lemma block_at_mul bs j : block_at bs (512 * j) = zget bs j.
Proof.
  unfold block_at, CLOG_BLOCK_SIZE. rewrite Z.mul_comm, Z.mod_mul, Z.div_mul by lia. done.
Qed.
Lemma set_block_mul bs j b : set_block bs (512 * j) b = zset bs j b.
Proof.
  unfold set_block, CLOG_BLOCK_SIZE. rewrite Z.mul_comm, Z.mod_mul, Z.div_mul by lia. done.
Qed.

Lemma write_bytes_at bs j o v :
  0 <= o < 504 ->
  write_bytes bs (512 * j + 8 + o) v =
    b ← zget bs j; d ← store (data b) o v;
    zset bs j (mk_block (log_block_no b) (log_data_len_ b) (first_rec_offset_ b) d).
Proof.
  intros Ho. unfold write_bytes, CLOG_BLOCK_SIZE, CLOG_BLOCK_HDR_SIZE.
  replace (512 * j + 8 + o) with ((8 + o) + j * 512) by lia.
  rewrite Z.div_add, Z.mod_add, Z.div_small, Z.mod_small by lia.
  by replace (8 + o - 8) with o by lia.
Qed.

Lemma zset_ex (bs : list CLogBlock) j b : 0 <= j < zlen bs -> exists bs', zset bs j b = Some bs' /\ zlen bs' = zlen bs /\
  zget bs' j = Some b /\ forall k, j <> k -> zget bs' k = zget bs k.
Proof.
  intros H. exists (<[Z.to_nat j := b]> bs). pose proof (zset_Some bs j b H) as E. split; [done|]. split_and!.
  - by eapply zset_length.
  - by eapply zget_zset_eq.
  - intros k Hk. by eapply zget_zset_ne.
Qed.

Section stream.
Context (s0 : list Z) (r : CLogRecord).

(** The stream with the first [k] bytes of the record behind it. *)
Definition upto (k : Z) : list Z := s0 ++ take (Z.to_nat k) (record_bytes r).

Lemma upto_length k : record_ok r -> 0 <= k <= logrec_len_ (hdr_ r) -> zlen (upto k) = zlen s0 + k.
Proof.
  intros r_ok H. unfold upto. rewrite zlen_app. pose proof (record_bytes_length r r_ok). unfold zlen in *. rewrite length_take. lia.
Qed.

Lemma upto_app k n : 0 <= k -> 0 <= n -> upto (k + n) = upto k ++ slice k n (record_bytes r).
Proof.
  intros Hk Hn. unfold upto, slice. rewrite <- app_assoc. f_equal.
  rewrite Z2Nat.inj_add by lia. symmetry. apply take_take_drop.
Qed.

End stream.

Section buffer.
Context (buffer_blocks : nat).
Hypothesis buffer_pos : (0 < buffer_blocks)%nat.

(** The buffer holds the blocks of the stream [s] from the number [base] on. *)
Record buf_inv (lens s : list Z) (base : Z) (b : CLogBuffer) : Prop := mk_buf_inv {
  bi_len : zlen (buffer_ b) = Z.of_nat buffer_blocks;
  bi_base : 0 <= base <= nblocks s;
  bi_fit : nblocks s - base <= Z.of_nat buffer_blocks;
  bi_no : current_block_no_ b = 512 * nblocks s;
  bi_blocks : forall j, 0 <= j < nblocks s - base -> zget (buffer_ b) j = Some (block_of lens s (base + j));
  bi_offsets :
    (nblocks s = base /\ zlen s = 504 * base /\ write_block_offset_ b = 0 /\ write_offset_ b = 0 /\
     zget (buffer_ b) 0 = Some zero_block) \/
    (base < nblocks s /\ write_block_offset_ b = 512 * (nblocks s - 1 - base) /\
     write_offset_ b = 512 * (nblocks s - 1 - base) + 8 + (zlen s - 504 * (nblocks s - 1)))
}.

(** The buffer with a block that has room: the block [i] of the log, at the place
    [i - base] of the buffer. *)
Record open_inv (lens s : list Z) (base i : Z) (b : CLogBuffer) : Prop := mk_open_inv {
  oi_len : zlen (buffer_ b) = Z.of_nat buffer_blocks;
  oi_base : 0 <= base <= i;
  oi_room : 504 * i <= zlen s < 504 * (i + 1);
  oi_no : current_block_no_ b = 512 * (i + 1);
  oi_blocks : forall j, 0 <= j < i - base -> zget (buffer_ b) j = Some (block_of lens s (base + j));
  oi_block : exists first, (0 < zlen s - 504 * i -> first = first_off lens (504 * i)) /\
    zget (buffer_ b) (i - base) =
      Some (mk_block (512 * (i + 1)) (zlen s - 504 * i) first (pad 504 (slice (504 * i) 504 s)));
  oi_wbo : write_block_offset_ b = 512 * (i - base);
  oi_wo : write_offset_ b = 512 * (i - base) + 8 + (zlen s - 504 * i)
}.

Lemma start_block_inv lens s base b :
  buf_inv lens s base b -> zlen s = 504 * nblocks s -> nblocks s - base < Z.of_nat buffer_blocks ->
  exists b', start_block b (512 * (nblocks s - base)) = Some b' /\ open_inv lens s base (nblocks s) b'.
Proof.
  intros H Hfull Hroom. destruct (bi_base _ _ _ _ H) as [Hb1 Hb2]. pose proof (bi_len _ _ _ _ H) as Hlen.
  set (blk := mk_block (512 * (nblocks s + 1)) 0 0 (data zero_block)).
  destruct (zset_ex (buffer_ b) (nblocks s - base) blk) as (bs & Hbs & Hl & He & Hne); [lia|].
  unfold start_block. rewrite set_block_mul, (bi_no _ _ _ _ H). unfold CLOG_BLOCK_SIZE.
  replace (512 * nblocks s + 512) with (512 * (nblocks s + 1)) by lia. fold blk. rewrite Hbs. eexists. split; [done|].
  split; simpl; try lia.
  - intros j Hj. rewrite Hne by lia. apply (bi_blocks _ _ _ _ H). lia.
  - exists 0. split; [lia|]. rewrite He. unfold blk. f_equal. rewrite <- Hfull. f_equal; [lia|].
    unfold zero_block, slice, pad. simpl. rewrite drop_ge by (unfold zlen in *; lia). rewrite take_nil. done.
  - unfold CLOG_BLOCK_HDR_SIZE. destruct (bi_offsets _ _ _ _ H) as [(? & ? & ? & -> & _)|(? & ? & ->)]; lia.
Qed.

(** The last block of the buffer when it has room. *)
Lemma open_last lens s base b :
  buf_inv lens s base b -> base < nblocks s -> zlen s < 504 * nblocks s -> open_inv lens s base (nblocks s - 1) b.
Proof.
  intros H Hb Hs. destruct (bi_base _ _ _ _ H) as [Hb1 Hb2]. pose proof (bi_len _ _ _ _ H) as Hlen.
  pose proof (nblocks_bounds s). destruct (bi_offsets _ _ _ _ H) as [(? & ?)|(_ & Hw1 & Hw2)]; [lia|].
  split; try lia.
  - rewrite (bi_no _ _ _ _ H). lia.
  - intros j Hj. apply (bi_blocks _ _ _ _ H). lia.
  - exists (first_off lens (504 * (nblocks s - 1))). split; [done|].
    rewrite (bi_blocks _ _ _ _ H) by lia. unfold block_of. f_equal.
    replace (base + (nblocks s - 1 - base)) with (nblocks s - 1) by lia. f_equal; lia.
Qed.

Lemma put_fragment_inv lens s base i b r start n first v :
  open_inv lens s base i b -> copy_record r start n = Some (inr v) -> zlen v = n ->
  0 < n -> zlen s - 504 * i + n <= 504 -> first = first_off lens (504 * i) ->
  exists b', put_fragment b r start n first = Some b' /\ buf_inv lens (s ++ v) base b'.
Proof.
  intros H Hcopy Hv Hn Hfit ->. pose proof (oi_len _ _ _ _ _ H) as Hlen. pose proof (oi_base _ _ _ _ _ H) as Hbase.
  pose proof (oi_room _ _ _ _ _ H) as Hroom. destruct (oi_block _ _ _ _ _ H) as (f0 & _ & Hblk).
  pose proof (zget_Some_bound _ _ _ Hblk) as Hbound.
  assert (Hnb : nblocks (s ++ v) = i + 1) by (apply nblocks_eq; rewrite zlen_app; lia).
  set (d := pad 504 (slice (504 * i) 504 (s ++ v))).
  destruct (zset_ex (buffer_ b) (i - base) (mk_block (512 * (i + 1)) (zlen s - 504 * i) f0 d)) as (bs1 & Hbs1 & Hl1 & He1 & Hne1); [lia|].
  set (blk := mk_block (512 * (i + 1)) (zlen s - 504 * i + n) (first_off lens (504 * i)) d).
  destruct (zset_ex bs1 (i - base) blk) as (bs2 & Hbs2 & Hl2 & He2 & Hne2); [lia|].
  unfold put_fragment. rewrite Hcopy. cbn [mbind option_bind]. rewrite (oi_wo _ _ _ _ _ H), write_bytes_at by lia.
  rewrite Hblk. cbn [mbind option_bind data log_block_no log_data_len_ first_rec_offset_]. rewrite data_extend by lia.
  cbn [mbind option_bind]. fold d. rewrite Hbs1. cbn [mbind option_bind]. rewrite (oi_wbo _ _ _ _ _ H), block_at_mul, He1.
  cbn [mbind option_bind data log_block_no log_data_len_ first_rec_offset_]. rewrite set_block_mul. fold blk. rewrite Hbs2.
  eexists. split; [done|]. split; simpl; rewrite ?Hnb, ?zlen_app; try lia.
  - rewrite (oi_no _ _ _ _ _ H). lia.
  - intros j Hj. destruct (decide (j = i - base)) as [->|Hji].
    + rewrite He2. unfold blk, block_of. rewrite zlen_app. fold d. replace (base + (i - base)) with i by lia. fold d. do 2 f_equal. lia.
    + rewrite Hne2, Hne1 by lia. rewrite (oi_blocks _ _ _ _ _ H) by lia. f_equal. symmetry. apply block_of_app; lia.
Qed.

(** ** Appending a record *)

Section append.
Context (lens s0 : list Z) (r : CLogRecord).
Hypothesis lens_pos : Forall (Z.lt 0) lens.
Hypothesis lens_sum : sum lens = zlen s0.
Hypothesis r_ok : record_ok r.
Let l : Z := logrec_len_ (hdr_ r).
Let all : list Z := lens ++ [l].

Lemma put_record base i b k n first :
  open_inv all (upto s0 r k) base i b -> 0 <= k -> k + n <= l ->
  0 < n -> zlen s0 + k - 504 * i + n <= 504 -> first = first_off all (504 * i) ->
  exists b', put_fragment b r k n first = Some b' /\ buf_inv all (upto s0 r (k + n)) base b'.
Proof using All.
  intros H Hk Hl Hn Hroom Hf. rewrite upto_app by lia. pose proof (record_bytes_length r r_ok).
  apply (put_fragment_inv all _ _ i); [done| | |lia|rewrite upto_length by (done || lia); lia|done].
  - exact (copy_record_slice r k n r_ok Hk ltac:(lia) Hl).
  - rewrite slice_length; lia.
Qed.

(** One iteration on a buffer with room in its last block. *)
Lemma append_open fuel base i b k :
  open_inv all (upto s0 r k) base i b -> 0 <= k < l ->
  let room := 504 * (i + 1) - (zlen s0 + k) in
  exists b', buf_inv all (upto s0 r (k + Z.min (l - k) room)) base b' /\
    append_log_record buffer_blocks (S fuel) b r k =
      if l - k <=? room then Some (SUCCESS, (b', l)) else append_log_record buffer_blocks fuel b' r (k + room).
Proof using All.
  intros H Hk room. pose proof (oi_room _ _ _ _ _ H) as Hroom. rewrite upto_length in Hroom by (done || (fold l; lia)).
  destruct (oi_block _ _ _ _ _ H) as (f0 & Hf0 & Hblk). pose proof (zget_Some_bound _ _ _ Hblk) as Hb.
  pose proof (oi_len _ _ _ _ _ H) as Hlen. rewrite upto_length in Hf0, Hblk by (done || (fold l; lia)).
  destruct (put_record base i b k (Z.min (l - k) room) (first_off all (504 * i))) as (b' & Hput & Hinv); try done; try (fold l; lia).
  exists b'. split; [done|].
  cbn [append_log_record]. fold l. rewrite (oi_wo _ _ _ _ _ H), upto_length by (done || (fold l; lia)).
  unfold CLOG_BUFFER_SIZE, CLOG_BLOCK_SIZE, CLOG_BLOCK_DATA_SIZE, CLOG_BLOCK_HDR_SIZE.
  set (wo := 512 * (i - base) + 8 + (zlen s0 + k - 504 * i)).
  rewrite (proj2 (Z.eqb_neq wo _)) by lia. rewrite (proj2 (Z.eqb_neq wo 0)) by lia. cbn [andb mbind option_bind].
  rewrite (oi_wbo _ _ _ _ _ H), block_at_mul, Hblk. cbn [mbind option_bind log_data_len_ first_rec_offset_].
  rewrite (proj2 (Z.eqb_neq (zlen s0 + k - 504 * i) 504)) by lia.
  replace (504 - (zlen s0 + k - 504 * i)) with room by lia.
  assert (Hfirst : first_off all (504 * i) =
    if zlen s0 + k - 504 * i =? 0 then
      if l - k <=? room then if k =? 0 then 8 else 8 + (l - k) else 512
    else f0).
  { destruct (Z.eqb_spec (zlen s0 + k - 504 * i) 0) as [E|E]; [|symmetry; apply Hf0; lia].
    unfold all. replace (504 * i) with (sum lens + k) by lia. rewrite first_off_last by done.
    destruct (Z.leb_spec (l - k) room), (Z.ltb_spec 504 (l - k)); try done; lia. }
  destruct (Z.leb_spec (l - k) room).
  - rewrite Z.min_l in Hput by lia. rewrite <- Hfirst, Hput. cbn [mbind option_bind]. do 3 f_equal. lia.
  - rewrite Z.min_r in Hput by lia. rewrite <- Hfirst, Hput. done.
Qed.

(** What [append_log_record] delivers for the rest of the record behind [k]: the
    whole record, or the part that filled the buffer. *)
Definition appended (base k : Z) (res : option (RC * (CLogBuffer * Z))) : Prop :=
  exists rc b' k', res = Some (rc, (b', k')) /\ k <= k' <= l /\ buf_inv all (upto s0 r k') base b' /\
    (rc = SUCCESS /\ k' = l \/ rc = LOGBUF_FULL /\ k' < l /\ write_offset_ b' = CLOG_BUFFER_SIZE buffer_blocks).

Lemma append_full fuel base b k :
  0 <= k < l -> buf_inv all (upto s0 r k) base b -> write_offset_ b = CLOG_BUFFER_SIZE buffer_blocks ->
  append_log_record buffer_blocks (S fuel) b r k = Some (LOGBUF_FULL, (b, k)).
Proof using Type. intros Hk H Hw. cbn [append_log_record]. rewrite Hw, Z.eqb_refl. done. Qed.

(** A full block, or an empty buffer: a new block is begun. *)
Lemma append_new_block fuel base b k :
  buf_inv all (upto s0 r k) base b -> 0 <= k < l ->
  zlen s0 + k = 504 * nblocks (upto s0 r k) -> write_offset_ b <> CLOG_BUFFER_SIZE buffer_blocks ->
  exists b', open_inv all (upto s0 r k) base (nblocks (upto s0 r k)) b' /\
    append_log_record buffer_blocks (S fuel) b r k =
      if decide (nblocks (upto s0 r k) = base) then append_log_record buffer_blocks (S fuel) b' r k
      else append_log_record buffer_blocks fuel b' r k.
Proof using All.
  intros H Hk Hfull Hw. pose proof (upto_length s0 r k r_ok ltac:(fold l; lia)) as Hlen.
  unfold CLOG_BUFFER_SIZE, CLOG_BLOCK_SIZE in Hw.
  pose proof (bi_fit _ _ _ _ H). pose proof (bi_base _ _ _ _ H).
  destruct (start_block_inv _ _ _ _ H) as (b' & Hstart & Hopen); [lia| |].
  { destruct (bi_offsets _ _ _ _ H) as [(? & _ & _ & Hwo & _)|(Hb & Hwbo & Hwo)]; [lia|]. rewrite Hlen in Hwo. lia. }
  exists b'. split; [done|]. cbn [append_log_record]. unfold CLOG_BUFFER_SIZE, CLOG_BLOCK_SIZE.
  rewrite (proj2 (Z.eqb_neq (write_offset_ b) _)) by done.
  destruct (bi_offsets _ _ _ _ H) as [(E & _ & -> & -> & _)|(Hb & Hwbo & Hwo)].
  - rewrite decide_True by done. rewrite E, Z.sub_diag in Hstart. change (512 * 0) with 0 in Hstart.
    cbn [Z.eqb andb]. rewrite Hstart. cbn [mbind option_bind].
    assert (Hwo : write_offset_ b' = 8).
    { rewrite (oi_wo _ _ _ _ _ Hopen), Hlen. lia. }
    rewrite Hwo, (proj2 (Z.eqb_neq 8 _)) by lia. cbn [Z.eqb andb mbind option_bind]. done.
  - rewrite decide_False by lia. rewrite Hlen in Hwo. rewrite Hwo.
    rewrite (proj2 (Z.eqb_neq (_ + _) 0)) by lia. cbn [andb mbind option_bind].
    rewrite Hwbo, block_at_mul, (bi_blocks _ _ _ _ H) by lia. cbn [mbind option_bind log_data_len_ block_of]. rewrite Hlen.
    unfold CLOG_BLOCK_DATA_SIZE. rewrite (proj2 (Z.eqb_eq (Z.min _ _) 504)) by lia.
    replace (512 * _ + 512) with (512 * (nblocks (upto s0 r k) - base)) by lia. by rewrite Hstart.
Qed.

Lemma append_from_open fuel : forall base i b k,
  open_inv all (upto s0 r k) base i b -> 0 <= k < l -> 2 * (l - k) + 1 <= Z.of_nat fuel ->
  appended base k (append_log_record buffer_blocks fuel b r k).
Proof using All.
  induction fuel as [fuel IH] using lt_wf_ind. intros base i b k H Hk Hf. destruct fuel as [|fuel]; [lia|].
  destruct (append_open fuel base i b k H Hk) as (b' & Hinv & ->).
  pose proof (oi_room _ _ _ _ _ H) as Hroom. rewrite upto_length in Hroom by (done || (fold l; lia)).
  set (room := 504 * (i + 1) - (zlen s0 + k)) in *. destruct (Z.leb_spec (l - k) room).
  - exists SUCCESS, b', l. rewrite Z.min_l in Hinv by lia. replace (k + (l - k)) with l in Hinv by lia.
    split_and!; try done; try lia. by left.
  - rewrite Z.min_r in Hinv by lia. destruct fuel as [|fuel]; [lia|].
    destruct (decide (write_offset_ b' = CLOG_BUFFER_SIZE buffer_blocks)) as [Hw|Hw].
    + rewrite (append_full _ base) by (done || lia). exists LOGBUF_FULL, b', (k + room). split_and!; try done; try lia.
      right. split_and!; [done|lia|done].
    + destruct (append_new_block fuel base b' (k + room) Hinv) as (b2 & Hopen & ->); [lia| |done|].
      { rewrite (nblocks_eq _ (i + 1)); [lia|]. rewrite upto_length by (done || (fold l; lia)). lia. }
      assert (Hlift : forall res, appended base (k + room) res -> appended base k res).
      { intros res (rc & b3 & k' & -> & ? & ? & ?). exists rc, b3, k'. split_and!; try done; lia. }
      apply Hlift. case_decide; eapply IH; try done; lia.
Qed.

Lemma append_record_inv fuel base b k :
  buf_inv all (upto s0 r k) base b -> 0 <= k < l -> 2 * l + 2 <= Z.of_nat fuel ->
  appended base k (append_log_record buffer_blocks fuel b r k).
Proof using All.
  intros H Hk Hf. destruct fuel as [|fuel]; [lia|].
  pose proof (upto_length s0 r k r_ok ltac:(fold l; lia)) as Hlen. pose proof (nblocks_bounds (upto s0 r k)) as Hn.
  destruct (decide (write_offset_ b = CLOG_BUFFER_SIZE buffer_blocks)) as [Hw|Hw].
  { rewrite (append_full _ base) by done. exists LOGBUF_FULL, b, k. split_and!; try done; try lia. right. split_and!; [done|lia|done]. }
  destruct (decide (zlen s0 + k = 504 * nblocks (upto s0 r k))) as [Hfull|Hpart].
  - destruct (append_new_block fuel base b k H Hk Hfull Hw) as (b' & Hopen & ->).
    case_decide; eapply append_from_open; try done; lia.
  - eapply append_from_open; [|done|lia]. apply open_last; [done| |lia].
    destruct (bi_offsets _ _ _ _ H) as [(? & ? & _)|(? & _)]; lia.
Qed.
End append.
End buffer.
