(* ===== verification/ClogLog.v ===== *)
(** * Appending to the log

    The buffer of [ClogSpec] together with the log file: flushing writes the
    blocks that the file does not hold yet, and [clog_append_record] extends the
    log by its record ([log_inv]), flushed when the record is a commit. *)

From Stdlib Require Import ZArith Lia.
From stdpp Require Import base gmap tactics.
From stdpp Require Import list.
From S2P Require Import Prelude.
From S2P Require Import Monad.
From S2P Require Import Bytes.
From S2P Require Import Comparator.
From S2P Require Import ClogRecord.
From S2P Require Import Clog.
From S2P Require Import ClogSpec.
#[local] Open Scope Z_scope.

Definition lens_of (rs : list CLogRecord) : list Z := map (fun r => logrec_len_ (hdr_ r)) rs.
Definition stream_of (rs : list CLogRecord) : list Z := concat (map record_bytes rs).
(** The first [n] blocks of a log. *)
Definition log_blocks (lens s : list Z) (n : Z) : list CLogBlock :=
  map (fun i => block_of lens s (Z.of_nat i)) (seq 0 (Z.to_nat n)).
(** The file holds exactly the blocks of the log behind its header. *)
Definition holds_log (lens s : list Z) (f : CLogFile) : Prop := tail f = log_blocks lens s (nblocks s) /\ f <> [].

Section log.
Context (buffer_blocks : nat).
(** The file holds the first [base] blocks, and perhaps an older state of the next one. *)
Record file_inv (lens s : list Z) (base : Z) (f : CLogFile) : Prop := mk_file_inv {
  fi_blocks : exists h old, f = h :: log_blocks lens s base ++ old /\ zlen old <= Z.min 1 (nblocks s - base);
  fi_base : 0 <= base <= nblocks s
}.

Lemma log_blocks_app lens s a b :
  0 <= a -> 0 <= b ->
  log_blocks lens s a ++ map (fun i => block_of lens s (Z.of_nat i)) (seq (Z.to_nat a) (Z.to_nat b)) = log_blocks lens s (a + b).
Proof.
  intros Ha Hb. unfold log_blocks. rewrite <- map_app. f_equal. rewrite Z2Nat.inj_add by lia. rewrite seq_app. done.
Qed.

Lemma log_blocks_length lens s n : 0 <= n -> zlen (log_blocks lens s n) = n.
Proof. intros. unfold zlen, log_blocks. rewrite length_map, length_seq. lia. Qed.

Lemma buffer_blocks_of lens s base b :
  buf_inv buffer_blocks lens s base b ->
  take (Z.to_nat (nblocks s - base)) (buffer_ b) =
  map (fun i => block_of lens s (Z.of_nat i)) (seq (Z.to_nat base) (Z.to_nat (nblocks s - base))).
Proof.
  intros H. pose proof (bi_base _ _ _ _ _ H). pose proof (bi_fit _ _ _ _ _ H). pose proof (bi_len _ _ _ _ _ H).
  apply list_eq. intros j. rewrite list_lookup_fmap. destruct (decide (j < Z.to_nat (nblocks s - base))%nat) as [Hj|Hj].
  - rewrite lookup_take_lt by done. rewrite lookup_seq_lt by done. simpl.
    pose proof (bi_blocks _ _ _ _ _ H (Z.of_nat j) ltac:(lia)) as E. unfold zget in E. rewrite decide_True, Nat2Z.id in E by lia.
    rewrite E. do 2 f_equal. lia.
  - rewrite lookup_take_ge by lia. rewrite lookup_seq_ge by lia. done.
Qed.

(** Writing the blocks of the buffer completes the file. *)
Lemma write_blocks lens s base b f :
  buf_inv buffer_blocks lens s base b -> file_inv lens s base f -> base < nblocks s ->
  exists h, file_write f (512 * (base + 1)) (take (Z.to_nat (nblocks s - base)) (buffer_ b)) =
    Some (h :: log_blocks lens s (nblocks s)).
Proof.
  intros H [(h & old & -> & Hold) Hbase] Hlt. exists h. pose proof (bi_fit _ _ _ _ _ H). pose proof (bi_len _ _ _ _ _ H).
  unfold file_write, CLOG_BLOCK_SIZE. rewrite decide_True by (split; [lia|]; rewrite Z.mul_comm; apply Z.mod_mul; lia).
  rewrite Z.mul_comm, Z.div_mul by lia. f_equal. pose proof (log_blocks_length lens s base ltac:(lia)) as Hl.
  transitivity (h :: log_blocks lens s (base + (nblocks s - base))); [|do 2 f_equal; lia]. rewrite <- log_blocks_app by lia.
  rewrite <- (buffer_blocks_of _ _ _ _ H). unfold zlen in *.
  replace (Z.to_nat (base + 1)) with (S (Z.to_nat base)) by lia. simpl. f_equal.
  rewrite <- app_assoc, take_app_le by lia. rewrite take_ge by lia. f_equal.
  rewrite drop_ge; [by rewrite app_nil_r|]. rewrite length_app, length_take. lia.
Qed.

Lemma file_done lens s base' h :
  0 <= base' -> nblocks s - 1 <= base' <= nblocks s ->
  file_inv lens s base' (h :: log_blocks lens s (nblocks s)) /\ holds_log lens s (h :: log_blocks lens s (nblocks s)).
Proof.
  intros H0 H. split; [|done]. split; [|lia].
  exists h, (map (fun i => block_of lens s (Z.of_nat i)) (seq (Z.to_nat base') (Z.to_nat (nblocks s - base')))).
  rewrite log_blocks_app by lia. replace (base' + (nblocks s - base')) with (nblocks s) by lia. split; [done|].
  unfold zlen. rewrite length_map, length_seq. lia.
Qed.

(** ** Logs of records *)

Lemma lens_sum rs : Forall record_ok rs -> sum (lens_of rs) = zlen (stream_of rs).
Proof.
  intros H. induction H as [|r rs Hr _ IH]; [done|]. unfold stream_of in *. simpl.
  rewrite zlen_app, record_bytes_length by done. lia.
Qed.

Lemma lens_positive rs : Forall record_ok rs -> Forall (Z.lt 0) (lens_of rs).
Proof. intros H. induction H as [|r rs Hr _ IH]; constructor; [|done]. pose proof (record_len_pos r Hr). lia. Qed.

Lemma lens_of_snoc rs r : lens_of (rs ++ [r]) = lens_of rs ++ [logrec_len_ (hdr_ r)].
Proof. unfold lens_of. by rewrite map_app. Qed.
Lemma stream_of_snoc rs r : stream_of (rs ++ [r]) = stream_of rs ++ record_bytes r.
Proof. unfold stream_of. rewrite map_app, concat_app. simpl. by rewrite app_nil_r. Qed.

Lemma buf_inv_room lens s base b : buf_inv buffer_blocks lens s base b -> 504 * base <= zlen s.
Proof.
  intros H. pose proof (nblocks_bounds s). destruct (bi_offsets _ _ _ _ _ H) as [(_ & E & _)|(E & _)]; lia.
Qed.

Lemma buf_inv_lens lens l s base b :
  sum lens = zlen s -> buf_inv buffer_blocks lens s base b -> buf_inv buffer_blocks (lens ++ [l]) s base b.
Proof.
  intros Hs [H1 H2 H3 H4 H5 H6]. split; try done. intros j Hj. rewrite H5 by done.
  pose proof (nblocks_bounds s). by rewrite block_of_lens by lia.
Qed.

Lemma file_inv_lens lens l s base f :
  sum lens = zlen s -> 504 * base <= zlen s -> file_inv lens s base f -> file_inv (lens ++ [l]) s base f.
Proof.
  intros Hs Hroom [(h & old & -> & Hold) Hbase]. split; [|done]. exists h, old. split; [|done]. do 2 f_equal.
  unfold log_blocks. apply map_ext_in. intros i Hi%in_seq. by rewrite block_of_lens by lia.
Qed.

Lemma file_inv_app lens s v base f : 504 * base <= zlen s -> file_inv lens s base f -> file_inv lens (s ++ v) base f.
Proof.
  intros Hroom [(h & old & -> & Hold) Hbase].
  pose proof (nblocks_bounds s). pose proof (nblocks_bounds (s ++ v)) as Hn. rewrite zlen_app in Hn.
  pose proof (zlen_nonneg v). pose proof (zlen_nonneg s). split; [|lia]. exists h, old. split; [|lia]. do 2 f_equal.
  unfold log_blocks. apply map_ext_in. intros i Hi%in_seq. by rewrite block_of_app by lia.
Qed.

(** ** Flushing *)

Hypothesis buffer_pos : (0 < buffer_blocks)%nat.

Lemma cleared_inv lens s b :
  zlen s = 504 * nblocks s -> current_block_no_ b = 512 * nblocks s ->
  buf_inv buffer_blocks lens s (nblocks s) (mk_CLogBuffer (current_block_no_ b) 0 0 (replicate buffer_blocks zero_block)).
Proof.
  intros Hs Hb. pose proof (nblocks_bounds s). pose proof (zlen_nonneg s).
  split; simpl; try lia; [unfold zlen; rewrite length_replicate; lia|].
  left. split_and!; try done. unfold zget. rewrite decide_True by lia. rewrite lookup_replicate_2; [done|lia].
Qed.

(** [flush_buffer] writes the whole log to the file and keeps the last block when
    it has room. *)
Definition flushed (lens s : list Z) (b : CLogBuffer) (f : CLogFile) : Prop :=
  exists b' f' base', flush_buffer buffer_blocks b f = Some (SUCCESS, (b', f')) /\
    buf_inv buffer_blocks lens s base' b' /\ file_inv lens s base' f' /\ holds_log lens s f' /\
    (write_offset_ b = CLOG_BUFFER_SIZE buffer_blocks -> base' = nblocks s).

Lemma flush_empty lens s base b f :
  buf_inv buffer_blocks lens s base b -> file_inv lens s base f -> nblocks s = base -> flushed lens s b f.
Proof.
  intros H [(h & old & Hf & Hold) Hbase] E. pose proof (bi_len _ _ _ _ _ H) as Hlen.
  destruct (bi_offsets _ _ _ _ _ H) as [(_ & Hs & Hwb & Hwo & Hz)|(? & _)]; [|lia].
  assert (old = []) as -> by (destruct old; [done|unfold zlen in *; simpl in *; lia]). rewrite app_nil_r in Hf.
  exists b, (zero_block :: log_blocks lens s base), base.
  assert (Hflush : flush_buffer buffer_blocks b f = Some (SUCCESS, (b, zero_block :: log_blocks lens s base))).
  { unfold flush_buffer. rewrite Hwb, Hwo. change (block_at (buffer_ b) 0) with (zget (buffer_ b) 0). rewrite Hz.
    cbn [mbind option_bind]. rewrite (proj2 (Z.eqb_neq 0 _)) by (unfold CLOG_BUFFER_SIZE, CLOG_BLOCK_SIZE; lia).
    change (Z.to_nat ((0 + CLOG_BLOCK_SIZE) / CLOG_BLOCK_SIZE)) with 1%nat.
    destruct (buffer_ b) as [|z bs]; [done|]. injection Hz as ->. rewrite Hf. done. }
  split; [done|]. rewrite <- E in H |- *. destruct (file_done lens s (nblocks s) zero_block) as [? ?]; [lia..|]. done.
Qed.

Lemma flush_blocks lens s base b f :
  buf_inv buffer_blocks lens s base b -> file_inv lens s base f -> base < nblocks s -> flushed lens s b f.
Proof.
  intros H Hf Hlt. pose proof (bi_len _ _ _ _ _ H) as Hlen. pose proof (bi_base _ _ _ _ _ H). pose proof (bi_fit _ _ _ _ _ H).
  destruct (write_blocks _ _ _ _ _ H Hf Hlt) as (h & Hw).
  destruct (bi_offsets _ _ _ _ _ H) as [(? & _)|(_ & Hwb & Hwo)]; [lia|]. pose proof (nblocks_bounds s) as Hs.
  pose proof (bi_blocks _ _ _ _ _ H 0 ltac:(lia)) as Hb0. rewrite Z.add_0_r in Hb0.
  pose proof (bi_blocks _ _ _ _ _ H (nblocks s - 1 - base) ltac:(lia)) as Hbl.
  replace (base + (nblocks s - 1 - base)) with (nblocks s - 1) in Hbl by lia.
  set (bs := take (Z.to_nat (nblocks s - base)) (buffer_ b)) in *.
  unfold flushed, flush_buffer. change (block_at (buffer_ b) 0) with (zget (buffer_ b) 0). rewrite Hb0. cbn [mbind option_bind].
  cbn [log_block_no block_of]. unfold CLOG_BUFFER_SIZE, CLOG_BLOCK_SIZE, CLOG_BLOCK_DATA_SIZE in *. rewrite Hwo, Hwb.
  destruct (Z.eqb_spec (512 * (nblocks s - 1 - base) + 8 + (zlen s - 504 * (nblocks s - 1))) (512 * Z.of_nat buffer_blocks)) as [E|E].
  - assert (Hall : bs = buffer_ b) by (apply take_ge; unfold zlen in *; lia). rewrite <- Hall, Hw.
    do 3 eexists. split; [done|]. split; [by apply cleared_inv; [lia|apply (bi_no _ _ _ _ _ H)]|].
    destruct (file_done lens s (nblocks s) h) as [? ?]; [lia..|]. done.
  - replace ((512 * (nblocks s - 1 - base) + 512) / 512) with (nblocks s - base) by (apply Z.div_unique with 0; lia).
    fold bs. rewrite Hw. cbn [mbind option_bind]. rewrite block_at_mul, Hbl. cbn [mbind option_bind log_data_len_ block_of].
    destruct (Z.eqb_spec (Z.min 504 (zlen s - 504 * (nblocks s - 1))) 504) as [E2|E2]; [|destruct (Z.eqb_spec (512 * (nblocks s - 1 - base)) 0) as [E3|E3]].
    + do 3 eexists. split; [done|]. split; [by apply cleared_inv; [lia|apply (bi_no _ _ _ _ _ H)]|].
      destruct (file_done lens s (nblocks s) h) as [? ?]; [lia..|]. done.
    + exists b. do 2 eexists. split; [done|]. split; [exact H|].
      destruct (file_done lens s base h) as [? ?]; [lia..|]. split_and!; [done..|]. lia.
    + do 3 eexists. split; [done|]. split; [|destruct (file_done lens s (nblocks s - 1) h) as [? ?]; [lia..|]; split_and!; [done..|lia]].
      split; simpl; try lia.
      * unfold zlen. simpl. rewrite length_replicate. lia.
      * exact (bi_no _ _ _ _ _ H).
      * intros j Hj. assert (j = 0) as -> by lia. rewrite Z.add_0_r. done.
      * right. split_and!; [lia|lia|]. unfold CLOG_BLOCK_HDR_SIZE. lia.
Qed.

Lemma flush_inv lens s base b f :
  buf_inv buffer_blocks lens s base b -> file_inv lens s base f -> flushed lens s b f.
Proof.
  intros H Hf. pose proof (bi_base _ _ _ _ _ H). destruct (decide (nblocks s = base)).
  - by eapply flush_empty.
  - eapply flush_blocks; [done..|lia].
Qed.

(** ** The log manager *)

(** The log with the records [rs]: flushed blocks in the file, the others in the buffer. *)
Definition log_inv (rs : list CLogRecord) (m : CLogManager) : Prop :=
  Forall record_ok rs /\
  exists base, buf_inv buffer_blocks (lens_of rs) (stream_of rs) base (log_buffer_ m) /\
    file_inv (lens_of rs) (stream_of rs) base (log_file_ m).

Definition log_durable (rs : list CLogRecord) (m : CLogManager) : Prop :=
  holds_log (lens_of rs) (stream_of rs) (log_file_ m).

(** The state in which a part of the record [r] is appended. *)
Lemma append_record_file rs r base b f k fuel :
  Forall record_ok rs -> record_ok r -> 0 <= k < logrec_len_ (hdr_ r) -> 2 * logrec_len_ (hdr_ r) + 2 <= Z.of_nat fuel ->
  let lens := lens_of (rs ++ [r]) in let part k := upto (stream_of rs) r k in
  buf_inv buffer_blocks lens (part k) base b -> file_inv lens (part k) base f ->
  exists rc b' k', append_log_record buffer_blocks fuel b r k = Some (rc, (b', k')) /\ k <= k' <= logrec_len_ (hdr_ r) /\
    buf_inv buffer_blocks lens (part k') base b' /\ file_inv lens (part k') base f /\
    (rc = SUCCESS /\ k' = logrec_len_ (hdr_ r) \/
     rc = LOGBUF_FULL /\ k' < logrec_len_ (hdr_ r) /\ write_offset_ b' = CLOG_BUFFER_SIZE buffer_blocks).
Proof.
  intros Hrs Hr Hk Hfuel lens part Hb Hf. unfold lens in *. rewrite lens_of_snoc in *.
  destruct (append_record_inv buffer_blocks buffer_pos (lens_of rs) (stream_of rs) r (lens_positive _ Hrs) (lens_sum _ Hrs) Hr
              fuel base b k Hb Hk Hfuel) as (rc & b' & k' & -> & Hk' & Hb' & Hrc).
  exists rc, b', k'. split_and!; try done; try lia. pose proof (buf_inv_room _ _ _ _ Hb) as Hroom.
  assert (E : part k' = part k ++ slice k (k' - k) (record_bytes r)).
  { unfold part. rewrite <- upto_app by lia. f_equal. lia. }
  rewrite E. by apply file_inv_app.
Qed.

(** A manager between two records is the manager with all of the last record. *)
Lemma log_inv_begin rs r base m :
  Forall record_ok rs ->
  buf_inv buffer_blocks (lens_of rs) (stream_of rs) base (log_buffer_ m) ->
  file_inv (lens_of rs) (stream_of rs) base (log_file_ m) ->
  let lens := lens_of (rs ++ [r]) in
  buf_inv buffer_blocks lens (upto (stream_of rs) r 0) base (log_buffer_ m) /\
  file_inv lens (upto (stream_of rs) r 0) base (log_file_ m).
Proof using Type.
  intros Hrs Hb Hf lens. unfold lens, upto. rewrite lens_of_snoc. simpl. rewrite app_nil_r.
  pose proof (lens_sum rs Hrs). pose proof (buf_inv_room _ _ _ _ Hb). split.
  - by apply buf_inv_lens.
  - by apply file_inv_lens.
Qed.

Lemma upto_all rs r : record_ok r -> upto (stream_of rs) r (logrec_len_ (hdr_ r)) = stream_of (rs ++ [r]).
Proof using Type.
  intros Hr. rewrite stream_of_snoc. unfold upto. f_equal. apply take_ge. pose proof (record_bytes_length r Hr) as E.
  unfold zlen in E. rewrite <- E. by rewrite Nat2Z.id.
Qed.

(** The rest of a record goes into an empty buffer that is large enough for it. *)
Lemma append_rest rs r base b f k fuel :
  Forall record_ok rs -> record_ok r -> 0 <= k < logrec_len_ (hdr_ r) -> 2 * logrec_len_ (hdr_ r) + 2 <= Z.of_nat fuel ->
  logrec_len_ (hdr_ r) <= 504 * Z.of_nat buffer_blocks ->
  let lens := lens_of (rs ++ [r]) in
  buf_inv buffer_blocks lens (upto (stream_of rs) r k) base b -> file_inv lens (upto (stream_of rs) r k) base f ->
  base = nblocks (upto (stream_of rs) r k) ->
  exists b', append_log_record buffer_blocks fuel b r k = Some (SUCCESS, (b', logrec_len_ (hdr_ r))) /\
    buf_inv buffer_blocks lens (stream_of (rs ++ [r])) base b' /\ file_inv lens (stream_of (rs ++ [r])) base f.
Proof.
  intros Hrs Hr Hk Hfuel Hsize lens Hb Hf Hbase.
  destruct (append_record_file rs r base b f k fuel Hrs Hr Hk Hfuel Hb Hf) as (rc & b' & k' & E & Hk' & Hb' & Hf' & Hrc).
  destruct Hrc as [[-> ->]|(-> & Hlt & Hw)].
  - exists b'. rewrite (upto_all rs r Hr) in Hb', Hf'. done.
  - exfalso. pose proof (bi_fit _ _ _ _ _ Hb'). pose proof (nblocks_bounds (upto (stream_of rs) r k)) as Hn.
    pose proof (nblocks_bounds (upto (stream_of rs) r k')) as Hn'. pose proof (buf_inv_room _ _ _ _ Hb).
    rewrite upto_length in Hn, Hn' by (done || lia). unfold CLOG_BUFFER_SIZE, CLOG_BLOCK_SIZE in Hw.
    pose proof (upto_length (stream_of rs) r k Hr ltac:(lia)).
    destruct (bi_offsets _ _ _ _ _ Hb') as [(? & _ & _ & Hwo & _)|(? & _ & Hwo)]; [lia|].
    rewrite upto_length in Hwo by (done || lia). lia.
Qed.

Definition with_log (m : CLogManager) (b : CLogBuffer) (f : CLogFile) : CLogManager :=
  mk_CLogManager b f (log_mtr_mgr_ m) (gloabl_lsn_ m).

Lemma append_log rs r m fuel :
  log_inv rs m -> record_ok r -> logrec_len_ (hdr_ r) <= 504 * Z.of_nat buffer_blocks ->
  2 * logrec_len_ (hdr_ r) + 2 <= Z.of_nat fuel ->
  exists rc b f, clog_append_record buffer_blocks fuel m r = Some (rc, with_log m b f) /\
    log_inv (rs ++ [r]) (with_log m b f) /\
    (rc = SUCCESS /\ (flag_ r = REDO_MTR_COMMIT -> log_durable (rs ++ [r]) (with_log m b f)) \/
     rc = LOGBUF_FULL /\ exists k, 0 <= k < logrec_len_ (hdr_ r) /\
       holds_log (lens_of (rs ++ [r])) (upto (stream_of rs) r k) f).
Proof.
  intros [Hrs (base & Hb & Hf)] Hr Hsize Hfuel. pose proof (record_len_pos r Hr) as Hpos.
  destruct (log_inv_begin rs r base m Hrs Hb Hf) as [Hb0 Hf0].
  destruct (append_record_file rs r base _ _ 0 fuel Hrs Hr ltac:(lia) Hfuel Hb0 Hf0) as (rc & b' & k' & E & Hk' & Hb' & Hf' & Hrc).
  assert (Hok : Forall record_ok (rs ++ [r])) by (apply Forall_app; by rewrite Forall_singleton).
  unfold clog_append_record. rewrite E. cbn [mbind option_bind].
  destruct Hrc as [[-> ->]|(-> & Hlt & Hw)].
  - rewrite upto_all in Hb', Hf' by done. rewrite (bool_decide_false (SUCCESS = LOGBUF_FULL)) by done. cbn [orb].
    case_bool_decide as Hc; [|do 3 eexists; split; [done|]; split; [split; [done|]; by exists base|]; left; split; done].
    destruct (flush_inv _ _ _ _ _ Hb' Hf') as (b2 & f2 & base2 & Hflush & Hb2 & Hf2 & Hd & _).
    unfold clog_sync. cbn [log_buffer_ log_file_ log_mtr_mgr_ gloabl_lsn_]. rewrite Hflush. cbn [mbind option_bind].
    rewrite Z.eqb_refl. do 3 eexists. split; [done|]. split; [split; [done|]; by exists base2|]. left. split; done.
  - rewrite (bool_decide_true (LOGBUF_FULL = LOGBUF_FULL)) by done. cbn [orb].
    destruct (flush_inv _ _ _ _ _ Hb' Hf') as (b2 & f2 & base2 & Hflush & Hb2 & Hf2 & Hd & Hbase2).
    unfold clog_sync. cbn [log_buffer_ log_file_ log_mtr_mgr_ gloabl_lsn_]. rewrite Hflush. cbn [mbind option_bind].
    rewrite (proj2 (Z.eqb_neq k' _)) by lia.
    destruct (append_rest rs r base2 b2 f2 k' fuel Hrs Hr ltac:(lia) Hfuel Hsize Hb2 Hf2 (Hbase2 Hw)) as (b3 & E3 & Hb3 & Hf3).
    cbn [negb log_buffer_ log_file_ log_mtr_mgr_ gloabl_lsn_]. rewrite E3. cbn [mbind option_bind].
    do 3 eexists. split; [done|]. split; [split; [done|]; by exists base2|]. right. split; [done|].
    exists k'. split; [lia|done].
Qed.
End log.
