(* ===== verification/ClogRecover.v ===== *)
(** * Recovery of the log

    [CLogFile::recover] on the blocks of a log ([ClogSpec.block_of]) finds its
    records again, in order, when the log is [safe_log]: no record that crosses a
    block boundary stands behind another such record so that [block_recover]
    collects its first part before it delivers the other.  The run through the
    blocks is a relation of single steps ([rstep]); the recursive functions of
    [Clog] follow it. *)

From Stdlib Require Import ZArith Lia.
From stdpp Require Import base gmap tactics.
From stdpp Require Import list.
From S2P Require Import Prelude.
From S2P Require Import Monad.
From S2P Require Import Bytes.
From S2P Require Import Comparator.
From S2P Require Import ClogRecord.
From S2P Require Import Clog.
From S2P Require Import ClogSpec.
From S2P Require Import ClogLog.
#[local] Open Scope Z_scope.

(** The records with the lengths [lens] from position [q] on; [pend]: the record
    before them crosses a block boundary.  At most [CLOG_REDO_BUFFER_SIZE] bytes
    of a record can be collected. *)
Fixpoint safe_from (q : Z) (pend : bool) (lens : list Z) : bool :=
  match lens with
  | [] => true
  | l :: lens =>
      let p := 504 - q mod 504 in
      let crosses := p <? l in
      negb (crosses && pend && ((p <? 16) || (p =? 504))) && (l <=? CLOG_REDO_BUFFER_SIZE) && safe_from (q + l) crosses lens
  end.
Definition safe_log (rs : list CLogRecord) : bool := safe_from 0 false (lens_of rs).

Definition rb (p : list Z) : CLogRecordBuf := mk_CLogRecordBuf (zlen p) (pad CLOG_REDO_BUFFER_SIZE p).

Lemma rb_nil : new_record_buf = rb [].
Proof. done. Qed.

Lemma collect_rb p v : zlen p + zlen v <= CLOG_REDO_BUFFER_SIZE -> collect (rb p) v = Some (rb (p ++ v)).
Proof.
  intros H. unfold collect, rb. cbn [rb_buffer_ rb_write_offset_].
  rewrite store_pad by (done || unfold CLOG_REDO_BUFFER_SIZE, CLOG_BLOCK_SIZE; lia).
  cbn [mbind option_bind]. by rewrite zlen_app.
Qed.

Section recovery.
Context (uninit : Z -> list Z).
Hypothesis uninit_length : forall n, 0 <= n -> zlen (uninit n) = n.
Context (st0 : recovery).

(** The state after the records [em] were delivered and the bytes [p] collected. *)
Definition st_after (em : list CLogRecord) (p : list Z) : recovery :=
  mk_recovery (rb p) (foldl log_record_manage (rec_mgr st0) em)
    (foldl (fun _ r => to_int32 (lsn_ (hdr_ r) + logrec_len_ (hdr_ r))) (rec_lsn st0) em).

Lemma st_after_snoc em r p :
  mk_recovery (rb p) (log_record_manage (rec_mgr (st_after em p)) r) (to_int32 (lsn_ (hdr_ r) + logrec_len_ (hdr_ r))) =
  st_after (em ++ [r]) p.
Proof. unfold st_after. cbn [rec_mgr]. by rewrite !foldl_app. Qed.

Section run.
Context (rs : list CLogRecord).
Hypothesis rs_ok : Forall record_ok rs.
Let s : list Z := stream_of rs.
Let blk (i : Z) : CLogBlock := block_of (lens_of rs) s i.

Definition cfg : Type := Z * Z * recovery.

Inductive rstep : cfg -> cfg -> Prop :=
| rstep_in i o st o' st' :
    o < 8 + log_data_len_ (blk i) -> recover_step uninit (blk i) o st = Some (o', st') -> rstep (i, o, st) (i, o', st')
| rstep_next i o st :
    8 + log_data_len_ (blk i) <= o -> log_data_len_ (blk i) = 504 -> i + 1 < nblocks s -> rstep (i, o, st) (i + 1, 8, st).

(** ** What a block holds *)

Lemma blk_load i a n :
  0 <= i -> 0 <= a -> 0 <= n -> a + n <= 504 -> 504 * i + a + n <= zlen s ->
  load (data (blk i)) a n = Some (slice (504 * i + a) n s).
Proof.
  intros. cbn [data blk block_of]. unfold load. rewrite pad_length by (try rewrite slice_length; lia).
  rewrite decide_True by lia. f_equal. unfold pad, slice, zlen in *.
  rewrite drop_app_le by (rewrite length_take, length_drop; lia).
  rewrite take_app_le by (rewrite length_drop, length_take, length_drop; lia).
  replace (Z.to_nat (504 * i + a)) with (Z.to_nat (504 * i) + Z.to_nat a)%nat by lia. rewrite <- drop_drop.
  generalize (drop (Z.to_nat (504 * i)) s). intros L. rewrite !take_drop_commute, take_take. do 2 f_equal. lia.
Qed.

(** The blocks at the boundary of two records. *)
Section at_record.
Context (rs1 rs2 : list CLogRecord) (r : CLogRecord).
Hypothesis split : rs = rs1 ++ r :: rs2.
Let q : Z := zlen (stream_of rs1).
Let l : Z := logrec_len_ (hdr_ r).

Lemma r_ok : record_ok r.
Proof. rewrite split in rs_ok. apply Forall_app in rs_ok as [_ H]. by inversion H. Qed.
Lemma rs1_ok : Forall record_ok rs1.
Proof. rewrite split in rs_ok. by apply Forall_app in rs_ok as [H _]. Qed.

Lemma stream_split : s = stream_of rs1 ++ record_bytes r ++ stream_of rs2.
Proof. unfold s. rewrite split. unfold stream_of. by rewrite map_app, concat_app. Qed.

Lemma l_pos : 16 <= l.
Proof. exact (record_len_pos r r_ok). Qed.

Lemma stream_end : q + l <= zlen s.
Proof.
  rewrite stream_split, !zlen_app. pose proof (record_bytes_length r r_ok). pose proof (zlen_nonneg (stream_of rs2)). lia.
Qed.

Lemma slice_record k n : 0 <= k -> 0 <= n -> k + n <= l -> slice (q + k) n s = slice k n (record_bytes r).
Proof.
  intros. rewrite stream_split. pose proof (record_bytes_length r r_ok) as Hl. fold l in Hl. unfold slice, q, zlen in *.
  rewrite drop_app_ge by lia. replace (Z.to_nat (_ + k) - _)%nat with (Z.to_nat k) by lia.
  rewrite drop_app_le by lia. apply take_app_le. rewrite length_drop. lia.
Qed.

Lemma record_load i a k n :
  0 <= i -> 0 <= a -> 0 <= k -> 0 <= n -> a + n <= 504 -> 504 * i + a = q + k -> k + n <= l ->
  load (data (blk i)) a n = Some (slice k n (record_bytes r)).
Proof. intros. pose proof stream_end. rewrite blk_load by lia. rewrite H4. by rewrite slice_record by lia. Qed.

Lemma record_off i k : 504 * i = q + k -> 0 <= k < l -> first_rec_offset_ (blk i) =
  if 504 <? l - k then 512 else if k =? 0 then 8 else 8 + (l - k).
Proof.
  intros E Hk. cbn [first_rec_offset_ blk block_of]. rewrite E, split.
  assert (El : lens_of (rs1 ++ r :: rs2) = (lens_of rs1 ++ [l]) ++ lens_of rs2).
  { unfold lens_of. rewrite map_app. simpl. by rewrite <- app_assoc. }
  pose proof (lens_sum rs1 rs1_ok) as Hsum. pose proof (lens_positive rs1 rs1_ok) as Hpos. rewrite El.
  rewrite first_off_app.
  - unfold q. rewrite <- Hsum. by apply first_off_last.
  - rewrite sum_app. simpl. unfold q. rewrite <- Hsum. pose proof (sum_nonneg _ Hpos). lia.
Qed.

(** The rest of the block behind [a] begins with the record, or with its header. *)
Lemma record_at i a :
  0 <= i -> 0 <= a -> 504 * i + a = q -> a + l <= 504 ->
  exists rest, drop (Z.to_nat a) (data (blk i)) = record_bytes r ++ rest.
Proof.
  intros Hi Ha E Hl. pose proof l_pos. pose proof (record_load i a 0 l Hi Ha ltac:(lia) ltac:(lia) Hl ltac:(lia) ltac:(lia)) as Hload.
  apply load_Some in Hload as (_ & _ & _ & Hload). eexists. rewrite <- (take_drop (Z.to_nat l) (drop (Z.to_nat a) (data (blk i)))) at 1.
  f_equal. rewrite <- Hload. unfold slice. change (Z.to_nat 0) with 0%nat. rewrite drop_0. apply take_ge.
  pose proof (record_bytes_length r r_ok) as Hr. fold l in Hr. unfold zlen in Hr. lia.
Qed.

Lemma header_at i a :
  0 <= i -> 0 <= a -> 504 * i + a = q -> a + 16 <= 504 -> get_i32 (drop (Z.to_nat a) (data (blk i))) 12 = Some l.
Proof.
  intros Hi Ha E Hl. pose proof l_pos. pose proof (record_load i a 0 16 Hi Ha ltac:(lia) ltac:(lia) Hl ltac:(lia) ltac:(lia)) as Hload.
  apply load_Some in Hload as (_ & _ & _ & Hload).
  rewrite <- (take_drop (Z.to_nat 16) (drop (Z.to_nat a) (data (blk i)))), <- Hload.
  rewrite (record_bytes_split r r_ok). unfold slice. change (Z.to_nat 0) with 0%nat. rewrite drop_0, take_app_le.
  - rewrite take_ge; [|pose proof (hdr_image_length (hdr_ r)); unfold zlen in *; lia].
    by apply hdr_image_read, r_ok.
  - pose proof (hdr_image_length (hdr_ r)); unfold zlen in *; lia.
Qed.

(** ** The iterations of the loop *)

Definition prefix (k : Z) : list Z := take (Z.to_nat k) (record_bytes r).

Lemma prefix_length k : 0 <= k <= l -> zlen (prefix k) = k.
Proof.
  intros H. pose proof (record_bytes_length r r_ok) as Hl. fold l in Hl. unfold prefix, zlen in *. rewrite length_take. lia.
Qed.
Lemma prefix_app k n : 0 <= k -> 0 <= n -> prefix k ++ slice k n (record_bytes r) = prefix (k + n).
Proof. intros. unfold prefix, slice. rewrite Z2Nat.inj_add by lia. apply take_take_drop. Qed.
Lemma prefix_all : prefix l = record_bytes r.
Proof.
  unfold prefix. apply take_ge. pose proof (record_bytes_length r r_ok) as Hl. fold l in Hl. unfold zlen in Hl. lia.
Qed.

(** A record inside a block is delivered. *)
Lemma step_inside i o em r' :
  0 <= i -> 8 <= o -> 504 * i + (o - 8) = q -> o + l <= 512 -> reads_back uninit r r' ->
  recover_step uninit (blk i) o (st_after em []) = Some (o + l, st_after (em ++ [r']) []).
Proof.
  intros Hi Ho E Hfit (Hread & _ & _ & Hhdr). pose proof l_pos. unfold recover_step.
  assert (Hrec : block_recover uninit (blk i) o (rb []) = Some (o + l, rb [], Some r')).
  { unfold block_recover, CLOG_BLOCK_HDR_SIZE, CLOG_BLOCK_SIZE, sizeof_CLogRecordHeader.
    assert ((o =? 8) && negb (first_rec_offset_ (blk i) =? 8) = false) as ->.
    { destruct (Z.eqb_spec o 8) as [->|]; [|done]. rewrite (record_off i 0) by lia.
      rewrite (proj2 (Z.ltb_ge _ _)) by lia. done. }
    rewrite (proj2 (Z.ltb_ge _ _)) by lia. cbn [negb Z.eqb rb rb_write_offset_ zlen length Z.of_nat].
    rewrite (header_at i (o - 8)) by lia. cbn [mbind option_bind]. rewrite (proj2 (Z.leb_le _ _)) by lia.
    destruct (record_at i (o - 8)) as [rest Hrest]; [lia..|]. by rewrite Hrest, Hread. }
  cbn [logrec_buf st_after]. rewrite Hrec. cbn [mbind option_bind]. f_equal. f_equal.
  exact (st_after_snoc em r' []).
Qed.

(** The first part of a record that crosses the end of the block is collected. *)
Lemma step_first i o em :
  0 <= i -> 8 <= o < 512 -> 504 * i + (o - 8) = q -> 512 < o + l -> l <= CLOG_REDO_BUFFER_SIZE ->
  recover_step uninit (blk i) o (st_after em []) = Some (512, st_after em (prefix (512 - o))).
Proof.
  intros Hi Ho E Hspan Hmax. unfold recover_step.
  assert (Hload : load (data (blk i)) (o - 8) (512 - o) = Some (prefix (512 - o))).
  { rewrite (record_load i (o - 8) 0) by lia. done. }
  assert (Hcol : collect (rb []) (prefix (512 - o)) = Some (rb (prefix (512 - o)))).
  { rewrite collect_rb; [done|]. rewrite prefix_length by lia. change (zlen []) with 0. lia. }
  assert (Hrec : block_recover uninit (blk i) o (rb []) = Some (512, rb (prefix (512 - o)), None)).
  { unfold block_recover, CLOG_BLOCK_HDR_SIZE, CLOG_BLOCK_SIZE, sizeof_CLogRecordHeader.
    destruct (Z.eqb_spec o 8) as [->|Ho8].
    - rewrite (record_off i 0) by lia. rewrite (proj2 (Z.ltb_lt _ _)) by lia. cbn [andb negb Z.eqb].
      change (512 - 8) with (512 - 8) in Hload. rewrite Hload. cbn [mbind option_bind]. by rewrite Hcol.
    - cbn [andb]. destruct (Z.ltb_spec (512 - o) 16).
      + rewrite Hload. cbn [mbind option_bind]. by rewrite Hcol.
      + cbn [negb Z.eqb rb rb_write_offset_ zlen length Z.of_nat]. rewrite (header_at i (o - 8)) by lia. cbn [mbind option_bind].
        rewrite (proj2 (Z.leb_gt _ _)) by lia. rewrite Hload. cbn [mbind option_bind]. fold (rb []). by rewrite Hcol. }
  cbn [logrec_buf st_after]. rewrite Hrec. done.
Qed.

(** A later part, at the beginning of a block. *)
Lemma step_later i k em :
  0 <= i -> 504 * i = q + k -> 0 < k < l -> l <= CLOG_REDO_BUFFER_SIZE ->
  let n := Z.min 504 (l - k) in
  recover_step uninit (blk i) 8 (st_after em (prefix k)) = Some (8 + n, st_after em (prefix (k + n))).
Proof.
  intros Hi E Hk Hmax n. unfold recover_step.
  assert (Hrec : block_recover uninit (blk i) 8 (rb (prefix k)) = Some (8 + n, rb (prefix (k + n)), None)).
  { unfold block_recover, CLOG_BLOCK_HDR_SIZE. rewrite (record_off i k) by lia. rewrite (proj2 (Z.eqb_neq k 0)) by lia.
    assert (Hn : (if 504 <? l - k then 512 else 8 + (l - k)) - 8 = n) by (destruct (Z.ltb_spec 504 (l - k)); lia).
    assert (Hne : ((if 504 <? l - k then 512 else 8 + (l - k)) =? 8) = false)
      by (apply Z.eqb_neq; destruct (Z.ltb_spec 504 (l - k)); lia).
    rewrite Hne, Hn. cbn [andb negb Z.eqb]. rewrite (record_load i (8 - 8) k n) by lia. cbn [mbind option_bind].
    rewrite collect_rb, prefix_app by (try rewrite prefix_length; try rewrite slice_length; try rewrite record_bytes_length; try exact r_ok; lia).
    done. }
  cbn [logrec_buf st_after]. rewrite Hrec. done.
Qed.
End at_record.

(** The collected record is delivered when the next one begins. *)
Lemma step_pending i o em x x' :
  record_ok x -> reads_back uninit x x' -> o <> 8 \/ first_rec_offset_ (blk i) = 8 -> o + 16 <= 512 ->
  recover_step uninit (blk i) o (st_after em (record_bytes x)) = Some (o, st_after (em ++ [x']) []).
Proof.
  intros Hx (Hread & _ & _ & _) Ho Hroom. unfold recover_step.
  assert (Hrec : block_recover uninit (blk i) o (rb (record_bytes x)) = Some (o, new_record_buf, Some x')).
  { unfold block_recover, CLOG_BLOCK_HDR_SIZE, CLOG_BLOCK_SIZE, sizeof_CLogRecordHeader.
    assert ((o =? 8) && negb (first_rec_offset_ (blk i) =? 8) = false) as ->.
    { destruct (Z.eqb_spec o 8) as [->|]; [|done]. destruct Ho as [|Ho]; [done|]. by rewrite Ho. }
    rewrite (proj2 (Z.ltb_ge _ _)) by lia. cbn [rb rb_write_offset_ rb_buffer_].
    pose proof (record_bytes_length x Hx). pose proof (record_len_pos x Hx).
    rewrite (proj2 (Z.eqb_neq _ 0)) by lia. cbn [negb]. unfold pad. by rewrite Hread. }
  cbn [logrec_buf st_after]. rewrite Hrec. cbn [mbind option_bind]. f_equal. f_equal. exact (st_after_snoc em x' []).
Qed.

(** ** From record to record *)

(** The block and the offset in which the first [q] bytes of the stream end. *)
Definition blk_of (q : Z) : Z := if q =? 0 then 0 else (q - 1) / 504.
Definition off_of (q : Z) : Z := q - 504 * blk_of q + 8.

Lemma blk_of_bounds q : 0 <= q -> 0 <= blk_of q /\ (q = 0 /\ blk_of q = 0 \/ 504 * blk_of q < q <= 504 * (blk_of q + 1)).
Proof.
  intros H. unfold blk_of. destruct (Z.eqb_spec q 0); [lia|].
  pose proof (Z.div_mod (q - 1) 504). pose proof (Z.mod_pos_bound (q - 1) 504). lia.
Qed.

Lemma bound_eq q i o : 0 <= q -> 0 <= i -> 504 * i + (o - 8) = q -> 8 < o <= 512 -> (i, o) = (blk_of q, off_of q).
Proof. intros Hq Hi E Ho. pose proof (blk_of_bounds q Hq). unfold off_of. f_equal; lia. Qed.

(** The records [rs1] were read; [pend]: the last of them is still collected. *)
Definition at_bound (rs1 : list CLogRecord) (pend : bool) (c : cfg) : Prop :=
  exists st, c = (blk_of (zlen (stream_of rs1)), off_of (zlen (stream_of rs1)), st) /\
  if pend then exists rs0 x em, rs1 = rs0 ++ [x] /\ Forall2 (reads_back uninit) rs0 em /\ st = st_after em (record_bytes x)
  else exists em, Forall2 (reads_back uninit) rs1 em /\ st = st_after em [].

Lemma blk_len i : log_data_len_ (blk i) = Z.min 504 (zlen s - 504 * i).
Proof. done. Qed.

(** The way to the position of the next record. *)
Lemma run_next q st :
  0 <= q -> q < zlen s ->
  exists i o, rtc rstep (blk_of q, off_of q, st) (i, o, st) /\ 0 <= i /\ 8 <= o < 512 /\ 504 * i + (o - 8) = q.
Proof.
  intros Hq Hs. pose proof (blk_of_bounds q Hq). destruct (decide (off_of q = 512)) as [E|E].
  - exists (blk_of q + 1), 8. split; [|unfold off_of in *; lia]. apply rtc_once. apply rstep_next.
    + rewrite blk_len. unfold off_of in *. lia.
    + rewrite blk_len. unfold off_of in *. lia.
    + unfold off_of in *. pose proof (nblocks_bounds s). lia.
  - exists (blk_of q), (off_of q). split; [done|]. unfold off_of in *. lia.
Qed.

Section record_run.
Context (rs1 rs2 : list CLogRecord) (r : CLogRecord).
Hypothesis split : rs = rs1 ++ r :: rs2.
Let q : Z := zlen (stream_of rs1).
Let l : Z := logrec_len_ (hdr_ r).

Lemma stream_snoc_len : zlen (stream_of (rs1 ++ [r])) = q + l.
Proof using All. rewrite stream_of_snoc, zlen_app, record_bytes_length by (eapply r_ok; done). done. Qed.

(** The parts behind the first one, each in a block of its own. *)
Lemma run_parts m : forall i k em,
  l - k <= Z.of_nat m -> 0 <= i -> 504 * (i + 1) = q + k -> 0 < k < l -> l <= CLOG_REDO_BUFFER_SIZE ->
  exists i' o', rtc rstep (i, 512, st_after em (prefix r k)) (i', o', st_after em (record_bytes r)) /\
    0 <= i' /\ 8 < o' <= 512 /\ 504 * i' + (o' - 8) = q + l.
Proof using All.
  induction m as [|m IH]; intros i k em Hm Hi E Hk Hmax; [lia|]. pose proof (stream_end _ _ _ split) as Hend. fold q l in Hend.
  pose proof (step_later rs1 rs2 r split (i + 1) k em ltac:(lia) E Hk Hmax) as Hstep. fold l in Hstep. cbv zeta in Hstep.
  assert (Hgo : rtc rstep (i, 512, st_after em (prefix r k)) (i + 1, 8 + Z.min 504 (l - k), st_after em (prefix r (k + Z.min 504 (l - k))))).
  { eapply rtc_l; [apply rstep_next; [rewrite blk_len; lia..|pose proof (nblocks_bounds s); lia]|].
    apply rtc_once. apply rstep_in; [rewrite blk_len; lia|done]. }
  destruct (decide (l - k <= 504)).
  - rewrite Z.min_r in Hgo by lia. replace (k + (l - k)) with l in Hgo by lia.
    rewrite (prefix_all rs1 rs2 r split : prefix r l = _) in Hgo. exists (i + 1), (8 + (l - k)). split; [done|]. lia.
  - rewrite Z.min_l in Hgo by lia. change (8 + 504) with 512 in Hgo.
    destruct (IH (i + 1) (k + 504) em) as (i' & o' & Hrun & Hi' & Ho' & E'); [lia..|].
    exists i', o'. split; [by etrans|]. lia.
Qed.

(** The record before is delivered if it is still collected. *)
Lemma run_pending (pend : bool) st i o :
  (if pend then exists rs0 x em, rs1 = rs0 ++ [x] /\ Forall2 (reads_back uninit) rs0 em /\ st = st_after em (record_bytes x)
   else exists em, Forall2 (reads_back uninit) rs1 em /\ st = st_after em []) ->
  0 <= i -> 8 <= o < 512 -> 504 * i + (o - 8) = q ->
  (pend = true -> o + 16 <= 512 /\ (o = 8 -> o + l <= 512)) ->
  exists em, Forall2 (reads_back uninit) rs1 em /\ rtc rstep (i, o, st) (i, o, st_after em []).
Proof using All.
  intros Hst Hi Ho E Hsafe. destruct pend; [|destruct Hst as (em & Hem & ->); by exists em].
  destruct Hst as (rs0 & x & em & Hrs1 & Hem & ->). destruct (Hsafe eq_refl) as [Hroom Hfit].
  pose proof (stream_end _ _ _ split) as Hend. fold q l in Hend. pose proof (l_pos _ _ _ split) as Hpos. fold l in Hpos.
  assert (Hx : record_ok x).
  { pose proof (rs1_ok _ _ _ split) as Hok. rewrite Hrs1 in Hok. apply Forall_app in Hok as [_ Hok]. by inversion Hok. }
  destruct (record_reads_back uninit uninit_length x Hx) as [x' Hx'].
  exists (em ++ [x']). split; [rewrite Hrs1; apply Forall2_app; [done|by constructor]|].
  apply rtc_once, rstep_in; [rewrite blk_len; lia|]. apply step_pending; try done.
  destruct (decide (o = 8)) as [->|]; [right|by left]. rewrite (record_off rs1 rs2 r split i 0); fold q l; try lia.
  rewrite (proj2 (Z.ltb_ge _ _)) by lia. done.
Qed.

Lemma run_record pend c :
  at_bound rs1 pend c ->
  let p := 504 - q mod 504 in let crosses := p <? l in
  l <= CLOG_REDO_BUFFER_SIZE -> crosses && pend && ((p <? 16) || (p =? 504)) = false ->
  exists c', rtc rstep c c' /\ at_bound (rs1 ++ [r]) crosses c'.
Proof using All.
  intros (st & -> & Hst) p crosses Hmax Hsafe. fold q. pose proof (zlen_nonneg (stream_of rs1)) as Hq. fold q in Hq.
  pose proof (stream_end _ _ _ split) as Hend. fold q l in Hend. pose proof (l_pos _ _ _ split) as Hpos. fold l in Hpos.
  destruct (run_next q st Hq ltac:(lia)) as (i & o & Hrun1 & Hi & Ho & E).
  assert (Hp : p = 512 - o).
  { unfold p. replace (q mod 504) with (o - 8); [lia|]. apply Z.mod_unique with i; lia. }
  destruct (run_pending pend st i o Hst Hi Ho E) as (em & Hem & Hrun2).
  { intros ->. unfold crosses in Hsafe. rewrite andb_true_r in Hsafe.
    destruct (Z.ltb_spec p l), (Z.ltb_spec p 16), (Z.eqb_spec p 504); simpl in Hsafe; try done; lia. }
  destruct (Z.ltb_spec p l) as [Hc|Hc]; unfold crosses.
  - pose proof (step_first rs1 rs2 r split i o em Hi Ho E ltac:(fold l; lia) Hmax) as Hstep.
    destruct (run_parts (Z.to_nat l) i (512 - o) em) as (i' & o' & Hrun3 & Hi' & Ho' & E'); [lia..|].
    exists (i', o', st_after em (record_bytes r)). split.
    + etrans; [exact Hrun1|]. etrans; [exact Hrun2|]. eapply rtc_l; [|exact Hrun3].
      apply rstep_in; [rewrite blk_len; lia|done].
    + exists (st_after em (record_bytes r)). rewrite stream_snoc_len. split.
      * by rewrite <- (bound_eq (q + l) i' o') by lia.
      * by exists rs1, r, em.
  - destruct (record_reads_back uninit uninit_length r (r_ok _ _ _ split)) as [r' Hr'].
    pose proof (step_inside rs1 rs2 r split i o em r' Hi ltac:(lia) E ltac:(fold l; lia) Hr') as Hstep. fold l in Hstep.
    exists (i, o + l, st_after (em ++ [r']) []). split.
    + etrans; [exact Hrun1|]. etrans; [exact Hrun2|]. apply rtc_once, rstep_in; [rewrite blk_len; lia|done].
    + exists (st_after (em ++ [r']) []). rewrite stream_snoc_len. split.
      * by rewrite <- (bound_eq (q + l) i (o + l)) by lia.
      * exists (em ++ [r']). split; [|done]. apply Forall2_app; [done|by constructor].
Qed.
End record_run.

Lemma run_all rs2 : forall rs1 pend c,
  rs = rs1 ++ rs2 -> at_bound rs1 pend c -> safe_from (zlen (stream_of rs1)) pend (lens_of rs2) = true ->
  exists pend' c', rtc rstep c c' /\ at_bound rs pend' c'.
Proof using All.
  induction rs2 as [|r rs2 IH]; intros rs1 pend c E Hb Hsafe.
  - rewrite app_nil_r in E. subst rs1. by exists pend, c.
  - simpl in Hsafe. apply andb_true_iff in Hsafe as [Hsafe Hrest]. apply andb_true_iff in Hsafe as [Hsafe Hmax].
    destruct (run_record rs1 rs2 r E pend c Hb) as (c1 & Hrun & Hb1); [by apply Z.leb_le|by apply negb_true_iff|].
    edestruct (IH (rs1 ++ [r])) as (pend' & c' & Hrun' & Hb'); [by rewrite <- app_assoc|exact Hb1| |].
    + rewrite stream_of_snoc, zlen_app, (record_bytes_length r (r_ok _ _ _ E)). exact Hrest.
    + exists pend', c'. split; [by etrans|done].
Qed.

(** ** The recursive functions follow the run *)

(** Enough fuel takes the recovery through the blocks from [st] to [st']. *)
Fixpoint runs (F : nat) (blks : list CLogBlock) (st st' : recovery) : Prop :=
  match blks with
  | [] => st = st'
  | b :: blks =>
      exists st1, (forall fuel, (F <= fuel)%nat -> recover_block uninit fuel b 8 st = Some st1) /\ runs F blks st1 st'
  end.

Lemma runs_mono F F' blks st st' : (F <= F')%nat -> runs F blks st st' -> runs F' blks st st'.
Proof using Type.
  revert st. induction blks as [|b blks IH]; intros st HF; [done|]. intros (st1 & Hb & Hr).
  exists st1. split; [intros fuel Hf; apply Hb; lia|by apply IH].
Qed.

Lemma runs_app F l1 l2 st st' : runs F (l1 ++ l2) st st' <-> exists st1, runs F l1 st st1 /\ runs F l2 st1 st'.
Proof using Type.
  revert st. induction l1 as [|b l1 IH]; intros st; simpl.
  - split; [by exists st|by intros (? & -> & ?)].
  - setoid_rewrite IH. naive_solver.
Qed.

Lemma runs_of_rtc c c' : rtc rstep c c' ->
  c'.1.1 = nblocks s - 1 -> 8 + log_data_len_ (blk c'.1.1) <= c'.1.2 -> 0 <= c.1.1 < nblocks s ->
  exists F st1, (forall fuel, (F <= fuel)%nat -> recover_block uninit fuel (blk c.1.1) c.1.2 c.2 = Some st1) /\
    runs F (map (fun j => blk (Z.of_nat j)) (seq (Z.to_nat (c.1.1 + 1)) (Z.to_nat (nblocks s - (c.1.1 + 1))))) st1 c'.2.
Proof using Type.
  intros Hrun Hn Hend. revert c Hrun.
  apply (rtc_ind_l (R := rstep) (fun c => 0 <= c.1.1 < nblocks s -> exists F st1,
    (forall fuel, (F <= fuel)%nat -> recover_block uninit fuel (blk c.1.1) c.1.2 c.2 = Some st1) /\
    runs F (map (fun j => blk (Z.of_nat j)) (seq (Z.to_nat (c.1.1 + 1)) (Z.to_nat (nblocks s - (c.1.1 + 1))))) st1 c'.2)).
  - destruct c' as [[i o] st]. simpl in *. intros Hi. exists 1%nat, st. split.
    + intros [|fuel] Hf; [lia|]. simpl. unfold CLOG_BLOCK_HDR_SIZE. by rewrite (proj2 (Z.ltb_ge _ _)) by lia.
    + replace (Z.to_nat (nblocks s - (i + 1))) with 0%nat by lia. done.
  - intros c c1 Hstep _ IH Hi. inversion Hstep as [i o st o' st' Ho Hs|i o st Ho Hfull Hnext]; subst; simpl in *.
    + destruct (IH Hi) as (F & st1 & Hb & Hr). exists (S F), st1. split; [|by eapply runs_mono; [|exact Hr]; lia].
      intros [|fuel] Hf; [lia|]. simpl. unfold CLOG_BLOCK_HDR_SIZE. rewrite (proj2 (Z.ltb_lt _ _)) by lia. rewrite Hs.
      apply Hb. lia.
    + destruct (IH ltac:(lia)) as (F & st1 & Hb & Hr). exists (S F), st. split.
      * intros [|fuel] Hf; [lia|]. simpl. unfold CLOG_BLOCK_HDR_SIZE. by rewrite (proj2 (Z.ltb_ge _ _)) by lia.
      * replace (Z.to_nat (nblocks s - (i + 1))) with (S (Z.to_nat (nblocks s - (i + 1 + 1)))) by lia. simpl.
        rewrite Z2Nat.id by lia. exists st1. split; [intros fuel Hf; apply Hb; lia|].
        replace (S (Z.to_nat (i + 1))) with (Z.to_nat (i + 1 + 1)) by lia. eapply runs_mono; [|exact Hr]. lia.
Qed.
End run.

(** The last block of a list that was looked at gives its number to the buffer. *)
Definition set_nos (blks : list CLogBlock) (b : CLogBuffer) : CLogBuffer :=
  foldl (fun b k => set_current_block_no b (log_block_no k)) b blks.
Definition full (b : CLogBlock) : Prop := log_data_len_ b = 504.

Lemma recover_blocks_full F fuel l1 l2 b st st' :
  (F <= fuel)%nat -> Forall full l1 -> runs F l1 st st' ->
  recover_blocks uninit fuel (l1 ++ l2) b st = recover_blocks uninit fuel l2 (set_nos l1 b) st'.
Proof using Type.
  intros HF Hfull. revert b st. induction Hfull as [|x l1 Hx _ IH]; intros b st; simpl; [by intros ->|].
  intros (st1 & Hb & Hr). unfold CLOG_BLOCK_HDR_SIZE. rewrite Hb by done. cbn [mbind option_bind].
  unfold full in Hx. rewrite Hx. cbn [Z.ltb Z.compare]. by apply IH.
Qed.

Definition last_no (blks : list CLogBlock) (no : Z) : Z := foldl (fun _ k => log_block_no k) no blks.

Lemma set_nos_eq l b : set_nos l b = set_current_block_no b (last_no l (current_block_no_ b)).
Proof using Type.
  revert b. induction l as [|x l IH]; intros b; simpl; [by destruct b|]. rewrite IH. done.
Qed.

(** The log ends with a block that has room, or with a full redo buffer. *)
Inductive log_shape (b : CLogBuffer) : list CLogBlock -> CLogBuffer -> Prop :=
| shape_full blks : Forall full blks -> (length blks mod 8)%nat = 0%nat -> log_shape b blks (set_nos blks b)
| shape_room l x bs :
    Forall full l -> log_data_len_ x < 504 -> zset (buffer_ b) 0 x = Some bs ->
    log_shape b (l ++ [x]) (mk_CLogBuffer (log_block_no x) 0 (log_data_len_ x + 8) bs).

Lemma shape_drop b blks b' :
  log_shape b blks b' -> (8 < length blks \/ Forall full blks /\ 8 <= length blks)%nat ->
  Forall full (take 8 blks) /\ log_shape (set_nos (take 8 blks) b) (drop 8 blks) b'.
Proof using Type.
  intros [bl Hfull Hmod|l x bs Hfull Hx Hbs] Hlen.
  - split; [by apply Forall_take|].
    assert (E : set_nos bl b = set_nos (drop 8 bl) (set_nos (take 8 bl) b)).
    { unfold set_nos. by rewrite <- foldl_app, take_drop. }
    rewrite E. apply shape_full; [by apply Forall_drop|]. rewrite length_drop.
    assert (8 <= length bl)%nat by (destruct Hlen; lia).
    replace (length bl) with (length bl - 8 + 1 * 8)%nat in Hmod by lia. by rewrite Nat.Div0.mod_add in Hmod.
  - assert (Hl : (8 <= length l)%nat).
    { rewrite length_app in Hlen. simpl in Hlen. destruct Hlen as [|[Hall _]]; [lia|].
      apply Forall_app in Hall as [_ Hall]. inversion Hall as [|? ? Hf _]. unfold full in Hf. lia. }
    rewrite take_app_le, drop_app_le by done. split; [by apply Forall_take|].
    apply shape_room; [by apply Forall_drop|done|]. rewrite set_nos_eq. done.
Qed.

Lemma recover_file_runs F f b' st' m : forall fuel i redo b blks st,
  (length blks <= m)%nat -> drop i f = blks -> length redo = 8%nat -> log_shape b blks b' -> runs F blks st st' ->
  (F + S m <= fuel)%nat -> recover_file uninit fuel f i redo b st = Some (b', st').
Proof using Type.
  induction m as [m IH] using lt_wf_ind. intros [|fuel] i redo b blks st Hm Hf Hredo Hshape Hruns Hfuel; [lia|].
  cbn [recover_file]. unfold file_read. rewrite Hf. fold CLOG_REDO_BUFFER_BLOCKS. unfold CLOG_REDO_BUFFER_BLOCKS.
  destruct (decide (8 < length blks \/ Forall full blks /\ 8 <= length blks)%nat) as [Hlong|Hshort].
  - destruct (shape_drop b blks b' Hshape Hlong) as [Hfull Hshape'].
    assert (Hlen : length (take 8 blks) = 8%nat) by (rewrite length_take; destruct Hlong; lia).
    rewrite decide_False by (intros E; by rewrite E in Hlen).
    rewrite <- (take_drop 8 blks) in Hruns. apply runs_app in Hruns as (st1 & Hr1 & Hr2).
    rewrite Hlen, (drop_ge redo) by lia. rewrite (recover_blocks_full F (S fuel) (take 8 blks) [] b st st1) by (done || lia).
    cbn [recover_blocks mbind option_bind]. apply (IH (m - 1)%nat) with (blks := drop 8 blks) (st := st1); [| | | |done|done|].
    + destruct Hlong; lia.
    + rewrite length_drop. lia.
    + by rewrite <- Hf, drop_drop.
    + by rewrite app_nil_r.
    + lia.
  - destruct Hshape as [bl Hfull Hmod|l x bs Hfull Hx Hbs].
    + assert (bl = []) as ->.
      { destruct bl as [|y bl]; [done|]. assert (Hlt : (length (y :: bl) < 8)%nat) by (apply not_le; intros ?; apply Hshort; right; split; [done|lia]).
        rewrite Nat.mod_small in Hmod by done. done. }
      simpl. simpl in Hruns. by subst st'.
    + assert (Hlt : (length (l ++ [x]) <= 8)%nat) by lia. rewrite take_ge by done.
      rewrite decide_False by (by destruct l). apply runs_app in Hruns as (st1 & Hr1 & st2 & Hx1 & Hr2). simpl in Hr2. subst st2.
      rewrite <- app_assoc. rewrite (recover_blocks_full F (S fuel) l _ b st st1) by (done || lia).
      cbn [app recover_blocks]. unfold CLOG_BLOCK_HDR_SIZE. rewrite Hx1 by lia. cbn [mbind option_bind].
      unfold CLOG_BLOCK_DATA_SIZE. rewrite (proj2 (Z.ltb_lt _ _)) by done. rewrite set_nos_eq.
      unfold block_copy. change (set_block (buffer_ ?b) 0 x) with (zset (buffer_ b) 0 x). cbn [buffer_ set_current_block_no]. rewrite Hbs. done.
Qed.

(** ** The whole recovery *)

Lemma st_after_nil : st0 = mk_recovery new_record_buf (rec_mgr st0) (rec_lsn st0) -> st_after [] [] = st0.
Proof using Type. by intros ->. Qed.

(** The records come out of the file that holds their log. *)
Lemma runs_log rs :
  Forall record_ok rs -> safe_log rs = true -> st0 = mk_recovery new_record_buf (rec_mgr st0) (rec_lsn st0) ->
  exists F st pend, runs F (log_blocks (lens_of rs) (stream_of rs) (nblocks (stream_of rs))) st0 st /\
    exists c, at_bound rs pend c /\ c.2 = st.
Proof using uninit_length.
  intros Hok Hsafe Hst. set (s := stream_of rs). pose proof (nblocks_bounds s) as Hn. pose proof (zlen_nonneg s) as Hs.
  assert (H0 : at_bound [] false (0, 8, st0)).
  { exists st0. split; [done|]. exists []. split; [constructor|]. by rewrite st_after_nil. }
  destruct (run_all rs Hok rs [] false _ eq_refl H0 Hsafe) as (pend & c & Hrun & Hb).
  destruct Hb as (st & -> & Hb). fold s in Hrun |- *.
  assert (Hat : exists c, at_bound rs pend c /\ c.2 = st).
  { exists (blk_of (zlen s), off_of (zlen s), st). split; [|done]. by exists st. }
  destruct (decide (nblocks s = 0)) as [E|E].
  - exists 0%nat, st, pend. split; [|done]. rewrite E. simpl.
    assert (Es : s = []) by (destruct s; [done|unfold zlen in *; simpl in *; lia]).
    destruct rs as [|r rs]; [|pose proof (record_len_pos r); inversion Hok; subst].
    + destruct pend; [destruct Hb as (? & ? & ? & Habs & _); by destruct (app_cons_not_nil _ _ _ Habs)|].
      destruct Hb as (em & Hem & ->). inversion Hem. by rewrite st_after_nil.
    + exfalso. unfold s, stream_of in Es. simpl in Es. apply app_nil in Es as [Es _].
      pose proof (record_bytes_length r). rewrite Es in *. unfold zlen in *. simpl in *. naive_solver lia.
  - pose proof (blk_of_bounds (zlen s) Hs) as Hbb. assert (Eb : blk_of (zlen s) = nblocks s - 1) by lia.
    destruct (runs_of_rtc rs _ _ Hrun) as (F & st1 & Hblk & Hr); simpl; fold s.
    + lia.
    + unfold off_of. lia.
    + lia.
    + exists F, st, pend. split; [|done]. simpl in Hblk, Hr. fold s in Hblk, Hr.
      assert (El : log_blocks (lens_of rs) s (nblocks s) = block_of (lens_of rs) s 0 ::
        map (fun j => block_of (lens_of rs) s (Z.of_nat j)) (seq (Z.to_nat (0 + 1)) (Z.to_nat (nblocks s - (0 + 1))))).
      { unfold log_blocks. replace (Z.to_nat (nblocks s)) with (S (Z.to_nat (nblocks s - (0 + 1)))) by lia. done. }
      rewrite El. exists st1. done.
Qed.
Section whole.
Context (buffer_blocks : nat).
Hypothesis buffer_pos : (0 < buffer_blocks)%nat.

(** The last block has room, or the redo buffer ends with the log. *)
Definition ends_well (s : list Z) : Prop := zlen s mod 504 <> 0 \/ nblocks s mod 8 = 0.

(** The buffer after the recovery: the last block when it has room. *)
Lemma recovered_buffer lens s :
  ends_well s ->
  exists base b, log_shape (new_buffer buffer_blocks) (log_blocks lens s (nblocks s)) b /\
    buf_inv buffer_blocks lens s base b /\ (base = nblocks s \/ base = nblocks s - 1 /\ 0 < nblocks s).
Proof using buffer_pos.
  intros Hend. pose proof (nblocks_bounds s) as Hn. pose proof (zlen_nonneg s) as Hs.
  assert (Hfull : forall k, 0 <= k -> 504 * k <= zlen s -> Forall full (log_blocks lens s k)).
  { intros k Hk Hle. apply list.Forall_forall. intros x (i & -> & Hi)%list_elem_of_fmap. apply elem_of_seq in Hi.
    unfold full. simpl. lia. }
  destruct (decide (zlen s = 504 * nblocks s)) as [E|E].
  - exists (nblocks s), (set_nos (log_blocks lens s (nblocks s)) (new_buffer buffer_blocks)). split_and!; [| |by left].
    + apply shape_full; [apply Hfull; lia|]. destruct Hend as [Hend|Hend].
      { destruct Hend. rewrite E, Z.mul_comm. apply Z.mod_mul. lia. }
      apply Nat2Z.inj. rewrite Nat2Z.inj_mod. pose proof (log_blocks_length lens s (nblocks s) ltac:(lia)) as Hl.
      unfold zlen in Hl. rewrite Hl. exact Hend.
    + rewrite set_nos_eq. change (set_current_block_no (new_buffer buffer_blocks)) with
        (fun no => mk_CLogBuffer no 0 0 (replicate buffer_blocks zero_block)). cbv beta.
      assert (Hno : last_no (log_blocks lens s (nblocks s)) (current_block_no_ (new_buffer buffer_blocks)) = 512 * nblocks s).
      { destruct (decide (nblocks s = 0)) as [E0|E0]; [rewrite E0; done|].
        replace (nblocks s) with (nblocks s - 1 + 1) at 1 by lia. rewrite <- log_blocks_app by lia.
        change (Z.to_nat 1) with 1%nat. unfold last_no. rewrite foldl_app. simpl. lia. }
      rewrite Hno. exact (cleared_inv _ buffer_pos lens s (mk_CLogBuffer (512 * nblocks s) 0 0 []) E eq_refl).
  - assert (Hlast : log_blocks lens s (nblocks s) = log_blocks lens s (nblocks s - 1) ++ [block_of lens s (nblocks s - 1)]).
    { replace (nblocks s) with (nblocks s - 1 + 1) at 1 by lia. rewrite <- log_blocks_app by lia.
      change (Z.to_nat 1) with 1%nat. simpl. by rewrite Z2Nat.id by lia. }
    destruct (zset_ex (replicate buffer_blocks zero_block) 0 (block_of lens s (nblocks s - 1))) as (bs & Hbs & Hlen & He & _).
    { unfold zlen. rewrite length_replicate. lia. }
    exists (nblocks s - 1). eexists. split_and!; [| |by right; lia].
    + rewrite Hlast. apply shape_room; [apply Hfull; lia|simpl; lia|exact Hbs].
    + unfold zlen in Hlen. rewrite length_replicate in Hlen. split; simpl; try (unfold zlen; lia).
      * intros j Hj. assert (j = 0) as -> by lia. rewrite Z.add_0_r. done.
      * right. lia.
Qed.

End whole.
End recovery.

(** ** CLogManager::recover *)

Section manager.
Context (uninit : Z -> list Z).
Hypothesis uninit_length : forall n, 0 <= n -> zlen (uninit n) = n.
(** What the recovery delivers to the manager of the redo records. *)
Definition redo_of (em : list CLogRecord) : CLogMTRManager := foldl log_record_manage new_mtr_manager em.

(** A record that is still collected at the end is the last one of the log. *)
Lemma pending_last st0 rs pend c :
  Forall record_ok rs -> at_bound uninit st0 rs pend c -> rec_mgr st0 = new_mtr_manager ->
  exists em st', Forall2 (reads_back uninit) rs em /\ recover_pending uninit c.2 = Some st' /\ rec_mgr st' = redo_of em.
Proof using uninit_length.
  intros Hok (st & -> & Hst) Hmgr. cbn [snd]. unfold recover_pending. destruct pend.
  - destruct Hst as (rs0 & x & em & -> & Hem & ->). apply Forall_app in Hok as [_ Hx0]. assert (Hx : record_ok x) by (by inversion Hx0).
    destruct (record_reads_back uninit uninit_length x Hx) as [x' Hx'].
    pose proof (record_bytes_length x Hx). pose proof (record_len_pos x Hx).
    exists (em ++ [x']). cbn [logrec_buf st_after rb rb_write_offset_ rb_buffer_]. rewrite (proj2 (Z.eqb_neq _ 0)) by lia.
    cbn [negb]. unfold pad. rewrite (proj1 Hx'). eexists. split; [apply Forall2_app; [done|by constructor]|]. split; [done|].
    cbn [rec_mgr st_after]. unfold redo_of. by rewrite foldl_app, Hmgr.
  - destruct Hst as (em & Hem & ->). exists em, (st_after st0 em []). split_and!; [done..|]. cbn [rec_mgr st_after]. by rewrite Hmgr.
Qed.

Context (buffer_blocks : nat).
Hypothesis buffer_pos : (0 < buffer_blocks)%nat.

Lemma recover_records rs f lsn redo :
  Forall record_ok rs -> holds_log (lens_of rs) (stream_of rs) f -> safe_log rs = true -> ends_well (stream_of rs) ->
  length redo = 8%nat ->
  exists F m em, (forall fuel, (F <= fuel)%nat -> recover uninit fuel redo (new_manager uninit buffer_blocks (Some f) lsn) = Some (SUCCESS, m)) /\
    Forall2 (reads_back uninit) rs em /\ log_mtr_mgr_ m = redo_of em /\ log_inv buffer_blocks rs m /\ log_file_ m = f.
Proof using All.
  intros Hok [Hf Hne] Hsafe Hend Hredo. destruct f as [|h f]; [done|]. simpl in Hf. subst f.
  set (lens := lens_of rs). set (s := stream_of rs). set (st0 := mk_recovery new_record_buf new_mtr_manager lsn).
  destruct (runs_log uninit uninit_length st0 rs Hok Hsafe eq_refl) as (F & st & pend & Hruns & c & Hc & <-). fold lens s in Hruns.
  destruct (recovered_buffer buffer_blocks buffer_pos lens s Hend) as (base & b & Hshape & Hb & Hbase).
  destruct (pending_last st0 rs pend c Hok Hc eq_refl) as (em & st' & Hem & Hpend & Hmgr).
  set (f := h :: log_blocks lens s (nblocks s)) in *.
  pose proof (nblocks_bounds s). pose proof (zlen_nonneg s).
  exists (F + S (length (log_blocks lens s (nblocks s))))%nat, (mk_CLogManager b f (rec_mgr st') (rec_lsn st')), em. split_and!.
  - intros fuel Hfuel. unfold recover, file_recover, new_manager. cbn [open_file log_file_ log_buffer_ log_mtr_mgr_ gloabl_lsn_]. fold st0.
    rewrite (recover_file_runs uninit F f b c.2 (length (log_blocks lens s (nblocks s))) fuel 1 redo
               (new_buffer buffer_blocks) (log_blocks lens s (nblocks s)) st0) by (done || lia).
    cbn [mbind option_bind]. rewrite Hpend. done.
  - done.
  - exact Hmgr.
  - split; [done|]. exists base. split; [exact Hb|]. cbn [log_file_]. apply file_done; lia.
  - done.
Qed.
End manager.
