(* ===== verification/Redo.v ===== *)
(** * What the redo log guarantees

    The properties of the log of [Clog]: the records that [clog_gen_record]
    builds, their way through [copy_record] and back, the log that
    [clog_append_record] extends, and the recovery of committed records. *)

From Stdlib Require Import ZArith Lia.
From stdpp Require Import base gmap tactics.
From stdpp Require Import list.
From S2P Require Import Prelude.
From S2P Require Import Monad.
From S2P Require Import Bytes.
From S2P Require Import Comparator.
From S2P Require Import ClogRecord.
From S2P Require Import Clog.
From S2P Require Import ClogSpec.
From S2P Require Import ClogLog.
From S2P Require Import ClogRecover.
#[local] Open Scope Z_scope.

Section new_record.
Context (uninit : Z -> list Z).
Hypothesis uninit_length : forall n, 0 <= n -> zlen (uninit n) = n.

Lemma strcpy_Some dest src d :
  strcpy dest src = Some d -> zlen d = zlen dest /\ is_Some (c_string d) /\ c_string d = c_string src.
Proof using Type.
  unfold strcpy. intros (s & Hs & Hst)%bind_Some. pose proof (store_bounds _ _ _ _ Hst) as [_ Hb].
  rewrite zlen_app in Hb. assert (Hl : zlen s < zlen dest) by (unfold zlen in *; simpl in *; lia).
  destruct (strcpy_string dest src s Hs Hl) as (d' & Hd' & Hlen & Hc). unfold strcpy in Hd'. rewrite Hs in Hd'.
  cbn [mbind option_bind] in Hd'. rewrite Hst in Hd'. injection Hd' as ->. rewrite Hc, Hs. done.
Qed.

(** The arguments of the constructor: integers of their types. *)
Definition args_ok (trx_id data_len lsn : Z) (rec : rec_arg) : Prop :=
  is_int32 trx_id /\ is_int32 lsn /\ 0 <= data_len /\ is_int32 (_align8 (CLOG_INS_REC_NODATA_SIZE + data_len)) /\
  match rec with Some (rid, _) => is_int32 (page_num rid) /\ is_int32 (slot_num rid) | None => True end.

Lemma new_record_ok flag trx_id name data_len rec lsn r :
  args_ok trx_id data_len lsn rec -> new_record uninit flag trx_id name data_len rec lsn = Some r ->
  record_ok r /\ flag_ r = flag /\ trx_id_ (hdr_ r) = trx_id /\ lsn_ (hdr_ r) = lsn /\
  logrec_len_ (hdr_ r) = next_len flag data_len.
Proof using All.
  intros (Htrx & Hlsn & Hdl & Hal & Hrec) H.
  destruct (_align8_spec (CLOG_INS_REC_NODATA_SIZE + data_len)) as [Ha _]; unfold CLOG_INS_REC_NODATA_SIZE in *; [lia|].
  assert (H0 : is_int32 (_align8 (48 + 0))) by done.
  unfold new_record in H. destruct flag; try done.
  1-2: (injection H as <-; split; [|done]; split; cbn; try done; by apply uninit_length).
  1-2: (destruct rec as [[rid [d|]]|]; try done; apply bind_Some in H as (nm & Hnm & H); apply bind_Some in H as (bs & Hbs & H);
    apply bind_Some in H as (dat & Hdat & [= <-]); apply strcpy_Some in Hnm as (Hl & Hs & _);
    pose proof (store_length _ _ _ _ Hdat) as Hd; rewrite uninit_length in Hl, Hd by (unfold CLOG_INS_REC_NODATA_SIZE, TABLE_NAME_MAX_LEN; lia);
    split; [|done]; split; cbn; done).
  destruct rec as [[rid d]|]; try done. apply bind_Some in H as (nm & Hnm & [= <-]).
  apply strcpy_Some in Hnm as (Hl & Hs & _). rewrite uninit_length in Hl by done.
  split; [|done]. split; cbn; try done.
Qed.

(** The record carries the string that was given as the table's name. *)
Lemma new_record_name flag trx_id name data_len rec lsn r :
  new_record uninit flag trx_id name data_len rec lsn = Some r -> flag <> REDO_MTR_BEGIN -> flag <> REDO_MTR_COMMIT ->
  c_string (table_name_ r) = c_string (name ++ [0]) /\ exists d, rec = Some (rid_ r, d).
Proof using Type.
  intros H Hb Hc. unfold new_record in H. destruct flag; try done.
  1-2: (destruct rec as [[rid [d|]]|]; try done; apply bind_Some in H as (nm & Hnm & H); apply bind_Some in H as (bs & Hbs & H);
    apply bind_Some in H as (dat & Hdat & [= <-]); apply strcpy_Some in Hnm as (_ & _ & Hc2); cbn; by eauto).
  destruct rec as [[rid d]|]; try done. apply bind_Some in H as (nm & Hnm & [= <-]).
  apply strcpy_Some in Hnm as (_ & _ & Hc2). cbn. by eauto.
Qed.

(** C32: [CLogManager::clog_gen_record] builds a well-formed log record from any
    arguments of their types (when the table name fits its array and the data is
    there): the fields of the header, the table's name and the record's identifier
    are the given ones, and the length is the one by which the LSN of the manager
    advances, modulo 2^32. *)
Theorem gen_record_ok m flag trx_id name data_len rec rc m' r :
  args_ok trx_id data_len (gloabl_lsn_ m) rec ->
  clog_gen_record uninit m flag trx_id name data_len rec = Some (rc, (m', r)) ->
  rc = SUCCESS /\ record_ok r /\ flag_ r = flag /\ trx_id_ (hdr_ r) = trx_id /\ lsn_ (hdr_ r) = gloabl_lsn_ m /\
  gloabl_lsn_ m' = to_int32 (gloabl_lsn_ m + logrec_len_ (hdr_ r)) /\
  log_buffer_ m' = log_buffer_ m /\ log_file_ m' = log_file_ m /\ log_mtr_mgr_ m' = log_mtr_mgr_ m /\
  (flag <> REDO_MTR_BEGIN -> flag <> REDO_MTR_COMMIT ->
   c_string (table_name_ r) = c_string (name ++ [0]) /\ exists d, rec = Some (rid_ r, d)).
Proof.
  intros Hargs H. unfold clog_gen_record, get_next_lsn in H. apply bind_Some in H as (r' & Hr & [= <- <- <-]).
  destruct (new_record_ok _ _ _ _ _ _ _ Hargs Hr) as (Hok & Hf & Ht & Hl & Hlen). cbn. rewrite Hlen.
  split_and!; try done. intros Hb Hc. exact (new_record_name _ _ _ _ _ _ _ Hr Hb Hc).
Qed.

(** C31: The way of a log record into the log and back: the bytes that
    [CLogRecord::copy_record] delivers for a well-formed record, asked for in two
    parts split anywhere (as at the end of a block), read back by the constructor
    from bytes, whatever follows them, as a record that [cmp_eq] takes for equal. *)
Theorem log_record_roundtrip r k :
  record_ok r -> 0 <= k <= logrec_len_ (hdr_ r) ->
  exists a b r', copy_record r 0 k = Some (inr a) /\ copy_record r k (logrec_len_ (hdr_ r) - k) = Some (inr b) /\
    (forall rest, read_record uninit ((a ++ b) ++ rest) = Some r') /\ cmp_eq r r' = true /\ hdr_ r' = hdr_ r.
Proof.
  intros Hr Hk. destruct (record_reads_back uninit uninit_length r Hr) as (r' & Hread & Hcmp & _ & Hhdr).
  pose proof (record_bytes_length r Hr) as Hlen. eexists _, _, r'.
  split; [apply copy_record_slice; [done|lia..]|]. split; [apply copy_record_slice; [done|lia..]|].
  split_and!; [|done..]. intros rest. rewrite <- (Hread rest). do 2 f_equal. rewrite drop_0.
  rewrite (take_ge (drop _ _)) by (rewrite length_drop; unfold zlen in Hlen; lia). apply take_drop.
Qed.
End new_record.

(** ** Witnesses: memory that happens to hold zeros *)

Definition zeros (n : Z) : list Z := replicate (Z.to_nat n) 0.
Lemma zeros_length n : 0 <= n -> zlen (zeros n) = n.
Proof. intros. unfold zlen, zeros. rewrite length_replicate. lia. Qed.

(** The table [t], and records of 5 and 12 bytes. *)
Definition table_t : list Z := [116].
Definition manager2 : CLogManager := new_manager zeros 2 None 0.
Definition insert_rec : CLogRecord :=
  mk_CLogRecord REDO_INSERT (mk_hdr 0 7 3 56) (116 :: zeros 19) (mk_RID 1 0) 5 ([1; 2; 3; 4; 5] ++ zeros 3).

Lemma insert_rec_new : new_record zeros REDO_INSERT 7 table_t 5 (Some (mk_RID 1 0, Some [1; 2; 3; 4; 5])) 0 = Some insert_rec.
Proof. reflexivity. Qed.

Lemma gen_record_ok_witness :
  exists m', clog_gen_record zeros manager2 REDO_INSERT 7 table_t 5 (Some (mk_RID 1 0, Some [1; 2; 3; 4; 5])) =
    Some (SUCCESS, (m', insert_rec)) /\ record_ok insert_rec /\ gloabl_lsn_ m' = 56.
Proof.
  eexists. split; [reflexivity|].
  pose proof (gen_record_ok zeros zeros_length manager2 REDO_INSERT 7 table_t 5
    (Some (mk_RID 1 0, Some [1; 2; 3; 4; 5])) SUCCESS _ insert_rec ltac:(by repeat split) eq_refl)
    as (_ & Hok & _ & _ & _ & Hlsn & _). split; [exact Hok|exact Hlsn].
Defined.

Lemma log_record_roundtrip_witness :
  record_ok insert_rec /\ exists a b r', copy_record insert_rec 0 50 = Some (inr a) /\ copy_record insert_rec 50 6 = Some (inr b) /\
    (forall rest, read_record zeros ((a ++ b) ++ rest) = Some r') /\ cmp_eq insert_rec r' = true /\ hdr_ r' = hdr_ insert_rec.
Proof.
  assert (H : record_ok insert_rec).
  { by apply (new_record_ok zeros zeros_length REDO_INSERT 7 table_t 5 (Some (mk_RID 1 0, Some [1; 2; 3; 4; 5])) 0). }
  split; [exact H|]. apply (log_record_roundtrip zeros zeros_length insert_rec 50 H). split; done.
Defined.

(** ** The records to redo *)

Definition is_redo (r : CLogRecord) : bool :=
  match flag_ r with REDO_MTR_BEGIN | REDO_MTR_COMMIT => false | _ => true end.
Definition has_record (t : CLogType) (trx : Z) (rs : list CLogRecord) : bool :=
  existsb (fun r => bool_decide (flag_ r = t) && (trx_id_ (hdr_ r) =? trx)) rs.

(** What a log says about a transaction: it committed, it was begun, or nothing. *)
Definition trx_status (trx : Z) (rs : list CLogRecord) : option bool :=
  if has_record REDO_MTR_COMMIT trx rs then Some true
  else if has_record REDO_MTR_BEGIN trx rs then Some false else None.

(** The manager knows the records of the log, in order, and the transactions. *)
Definition recovered (rs : list CLogRecord) (mgr : CLogMTRManager) : Prop :=
  Forall2 (fun r r' => cmp_eq r r' = true /\ hdr_ r' = hdr_ r) (filter (fun r => is_redo r = true) rs) (log_redo_list mgr) /\
  forall t, trx_commited mgr !! t = trx_status t rs.

Lemma has_record_snoc t trx rs r :
  has_record t trx (rs ++ [r]) = has_record t trx rs || (bool_decide (flag_ r = t) && (trx_id_ (hdr_ r) =? trx)).
Proof. unfold has_record. rewrite existsb_app. simpl. by rewrite orb_false_r. Qed.

Lemma redo_recovered uninit rs em : Forall2 (reads_back uninit) rs em -> recovered rs (redo_of em).
Proof.
  revert em. induction rs as [|r rs IH] using rev_ind; intros em H.
  { inversion H. split; [constructor|]. intros t. done. }
  apply Forall2_app_inv_l in H as (em0 & em1 & H0 & H1 & ->). inversion H1 as [|? r' ? ? Hr Hnil]; subst. inversion Hnil; subst.
  destruct (IH _ H0) as [Hl Ht]. destruct Hr as (_ & Hcmp & Hflag & Hhdr).
  unfold redo_of in *. rewrite foldl_app. cbn [foldl]. set (mgr := foldl log_record_manage new_mtr_manager em0) in *.
  unfold recovered, log_record_manage, trx_status, is_redo. rewrite Hflag, Hhdr, filter_app, filter_cons, filter_nil.
  split.
  - destruct (flag_ r) eqn:E; cbn [log_redo_list]; simpl; rewrite ?app_nil_r; try done; apply Forall2_app; try done; by constructor.
  - intros t. specialize (Ht t). unfold trx_status in Ht. rewrite !has_record_snoc.
    destruct (flag_ r) eqn:E; cbn [trx_commited]; rewrite ?(bool_decide_false (_ = _)), ?(bool_decide_true (_ = _)) by done;
      cbn [andb]; rewrite ?orb_false_r; try exact Ht.
    + destruct (Z.eqb_spec (trx_id_ (hdr_ r)) t) as [->|Hne]; rewrite ?orb_true_r, ?orb_false_r.
      * rewrite Ht. destruct (has_record REDO_MTR_COMMIT t rs); [by rewrite Ht|]. destruct (has_record REDO_MTR_BEGIN t rs); [by rewrite Ht|].
        by rewrite lookup_insert_eq.
      * destruct (trx_commited mgr !! trx_id_ (hdr_ r)); [done|]. by rewrite lookup_insert_ne.
    + destruct (Z.eqb_spec (trx_id_ (hdr_ r)) t) as [->|Hne]; rewrite ?orb_true_r, ?orb_false_r.
      * by rewrite lookup_insert_eq.
      * by rewrite lookup_insert_ne.
Qed.

Lemma new_manager_log uninit buffer_blocks lsn :
  (0 < buffer_blocks)%nat -> log_inv buffer_blocks [] (new_manager uninit buffer_blocks None lsn).
Proof.
  intros H. split; [constructor|]. exists 0. split.
  - exact (cleared_inv _ H [] [] (new_buffer buffer_blocks) eq_refl eq_refl).
  - split; [|done]. exists (file_header uninit), []. done.
Qed.

Section log.
Context (uninit : Z -> list Z).
Hypothesis uninit_length : forall n, 0 <= n -> zlen (uninit n) = n.
Context (buffer_blocks : nat).
Hypothesis buffer_pos : (0 < buffer_blocks)%nat.

(** C30: [CLogManager::clog_append_record] extends the log in the buffer and the
    file by exactly the record.  A commit record that is accepted leaves the whole
    log in the file; when the buffer runs full instead, [LOGBUF_FULL] is returned
    although the record has become part of the log, and the file ends inside it. *)
Theorem append_extends_log rs r m fuel :
  log_inv buffer_blocks rs m -> record_ok r -> logrec_len_ (hdr_ r) <= CLOG_BLOCK_DATA_SIZE * Z.of_nat buffer_blocks ->
  2 * logrec_len_ (hdr_ r) + 2 <= Z.of_nat fuel ->
  exists rc m', clog_append_record buffer_blocks fuel m r = Some (rc, m') /\ log_inv buffer_blocks (rs ++ [r]) m' /\
    log_mtr_mgr_ m' = log_mtr_mgr_ m /\ gloabl_lsn_ m' = gloabl_lsn_ m /\
    (rc = SUCCESS /\ (flag_ r = REDO_MTR_COMMIT -> log_durable (rs ++ [r]) m') \/
     rc = LOGBUF_FULL /\ exists k, 0 <= k < logrec_len_ (hdr_ r) /\
       holds_log (lens_of (rs ++ [r])) (upto (stream_of rs) r k) (log_file_ m')).
Proof using buffer_pos.
  intros H Hr Hsize Hfuel. destruct (append_log buffer_blocks buffer_pos rs r m fuel H Hr Hsize Hfuel) as (rc & b & f & E & Hlog & Hrc).
  by exists rc, (with_log m b f).
Qed.

(** C29: Durability.  When the log is [safe_log] and does not end with a full block
    in the middle of the redo buffer, then after a commit record was appended
    successfully nothing but the file is needed: a new manager that recovers from it
    knows every data record of the log, in order, and which transactions committed,
    whatever the redo buffer held; and it continues the same log. *)
Theorem commit_recovered rs r m fuel m' lsn redo_buffer :
  log_inv buffer_blocks rs m -> record_ok r -> flag_ r = REDO_MTR_COMMIT -> 2 * logrec_len_ (hdr_ r) + 2 <= Z.of_nat fuel ->
  clog_append_record buffer_blocks fuel m r = Some (SUCCESS, m') ->
  safe_log (rs ++ [r]) = true -> ends_well (stream_of (rs ++ [r])) -> length redo_buffer = CLOG_REDO_BUFFER_BLOCKS ->
  exists F m2, (forall fuel2, (F <= fuel2)%nat ->
      recover uninit fuel2 redo_buffer (new_manager uninit buffer_blocks (Some (log_file_ m')) lsn) = Some (SUCCESS, m2)) /\
    recovered (rs ++ [r]) (log_mtr_mgr_ m2) /\ trx_commited (log_mtr_mgr_ m2) !! trx_id_ (hdr_ r) = Some true /\
    log_inv buffer_blocks (rs ++ [r]) m2.
Proof using All.
  intros H Hr Hc Hfuel E Hsafe Hend Hredo.
  assert (Hlen : logrec_len_ (hdr_ r) = 16) by (rewrite (ok_len _ Hr), Hc; done).
  destruct (append_log buffer_blocks buffer_pos rs r m fuel H Hr ltac:(lia) Hfuel) as (rc & b & f & E' & Hlog & Hrc).
  rewrite E in E'. injection E' as <- ->. destruct Hrc as [[_ Hd]|[? _]]; [|done].
  destruct (recover_records uninit uninit_length buffer_blocks buffer_pos (rs ++ [r]) _ lsn redo_buffer (proj1 Hlog) (Hd Hc) Hsafe Hend Hredo)
    as (F & m2 & em & Hrun & Hem & Hmgr & Hlog2 & _).
  destruct (redo_recovered uninit _ _ Hem) as [Hl Ht]. rewrite <- Hmgr in Hl, Ht.
  exists F, m2. split_and!; [done..| |done]. rewrite Ht. unfold trx_status. rewrite has_record_snoc, bool_decide_true, Z.eqb_refl by done.
  cbn [andb]. by rewrite orb_true_r.
Qed.
End log.

(** ** A log with two transactions *)

Definition log_fuel : nat := 2000.
Definition mtr_rec (t : CLogType) (trx lsn : Z) : CLogRecord :=
  mk_CLogRecord t (mk_hdr lsn trx (clog_code t) 16) (zeros 20) (mk_RID 0 0) 0 [].
Definition big_rec (trx lsn len : Z) : CLogRecord :=
  mk_CLogRecord REDO_INSERT (mk_hdr lsn trx 3 (48 + len)) (116 :: zeros 19) (mk_RID 1 0) len (zeros len).

Lemma mtr_rec_ok t trx lsn :
  t = REDO_MTR_BEGIN \/ t = REDO_MTR_COMMIT -> is_int32 trx -> is_int32 lsn -> record_ok (mtr_rec t trx lsn).
Proof. intros [-> | ->] ? ?; split; cbn; done. Qed.

Lemma big_rec_ok trx lsn len :
  is_int32 trx -> is_int32 lsn -> 0 <= len <= 4096 -> len mod 8 = 0 -> record_ok (big_rec trx lsn len).
Proof.
  intros Ht Hl Hlen Hmod. assert (Ha : _align8 (CLOG_INS_REC_NODATA_SIZE + len) = 48 + len).
  { destruct (_align8_spec (CLOG_INS_REC_NODATA_SIZE + len)) as [Hb Hm]; unfold CLOG_INS_REC_NODATA_SIZE in *; [lia|].
    assert (Hm2 : (48 + len) mod 8 = 0) by (rewrite Z.add_mod, Hmod by done; done).
    pose proof (Z.div_mod (48 + len) 8). pose proof (Z.div_mod (_align8 (48 + len)) 8). lia. }
  split; cbn [flag_ hdr_ lsn_ trx_id_ type_ logrec_len_ table_name_ rid_ data_len_ data_ big_rec]; try done.
  - split; [lia|]. rewrite Ha. unfold is_int32, INT_MIN, INT_MAX. lia.
  - intros _. rewrite zeros_length by lia. unfold CLOG_INS_REC_NODATA_SIZE. lia.
Qed.

(** One that is longer than a block and committed, one that was only begun. *)
Definition log4 : list CLogRecord := [mtr_rec REDO_MTR_BEGIN 1 0; big_rec 1 16 600; mtr_rec REDO_MTR_BEGIN 2 664; big_rec 2 680 8].
Definition commit1 : CLogRecord := mtr_rec REDO_MTR_COMMIT 1 736.

Lemma log4_ok : Forall record_ok log4.
Proof.
  repeat constructor; try (apply mtr_rec_ok; [by auto|done|done]); apply big_rec_ok; done.
Qed.

Definition append_all (N fuel : nat) (m : CLogManager) (rs : list CLogRecord) : option CLogManager :=
  foldl (fun m r => m ← m; '(_, m) ← clog_append_record N fuel m r; Some m) (Some m) rs.

Lemma append_all_log N fuel rs2 rs m :
  (0 < N)%nat -> log_inv N rs m -> Forall record_ok rs2 ->
  Forall (fun r => logrec_len_ (hdr_ r) <= 504 * Z.of_nat N /\ 2 * logrec_len_ (hdr_ r) + 2 <= Z.of_nat fuel) rs2 ->
  exists m', append_all N fuel m rs2 = Some m' /\ log_inv N (rs ++ rs2) m'.
Proof.
  intros HN H Hok. revert rs m H. induction Hok as [|r rs2 Hr _ IH]; intros rs m H Hsz.
  { exists m. by rewrite app_nil_r. }
  inversion Hsz as [|? ? [Hs Hf] Hsz']; subst.
  destruct (append_log N HN rs r m fuel H Hr Hs Hf) as (rc & b & f & E & Hlog & _).
  destruct (IH _ _ Hlog Hsz') as (m' & E' & Hm'). exists m'. rewrite <- app_assoc in Hm'. split; [|done].
  unfold append_all in *. cbn [foldl mbind option_bind]. rewrite E. exact E'.
Qed.

Lemma log4_manager : exists m, append_all 4 log_fuel (new_manager zeros 4 None 0) log4 = Some m /\ log_inv 4 log4 m.
Proof.
  apply (append_all_log 4 log_fuel log4 [] _); [lia|apply new_manager_log; lia|exact log4_ok|].
  repeat constructor; done.
Qed.

Lemma append_extends_log_witness :
  exists m rc m', log_inv 4 log4 m /\ clog_append_record 4 log_fuel m commit1 = Some (rc, m') /\ log_inv 4 (log4 ++ [commit1]) m'.
Proof.
  destruct log4_manager as (m & _ & Hm).
  destruct (append_extends_log 4 ltac:(lia) log4 commit1 m log_fuel Hm (mtr_rec_ok REDO_MTR_COMMIT 1 736 (or_intror eq_refl) ltac:(done) ltac:(done)) ltac:(done) ltac:(done))
    as (rc & m' & E & Hlog & _).
  exists m, rc, m'. split; [exact Hm|]. split; [exact E|exact Hlog].
Defined.

Lemma commit_recovered_witness :
  exists m m' F m2, log_inv 4 log4 m /\ clog_append_record 4 log_fuel m commit1 = Some (SUCCESS, m') /\
    recover zeros F (replicate 8 zero_block) (new_manager zeros 4 (Some (log_file_ m')) 0) = Some (SUCCESS, m2) /\
    recovered (log4 ++ [commit1]) (log_mtr_mgr_ m2).
Proof.
  assert (Hsafe : safe_log (log4 ++ [commit1]) = true) by (vm_compute; reflexivity).
  assert (Hends : ends_well (stream_of (log4 ++ [commit1]))) by (left; vm_compute; discriminate).
  pose proof (mtr_rec_ok REDO_MTR_COMMIT 1 736 (or_intror eq_refl) ltac:(done) ltac:(done) : record_ok commit1) as Hok.
  assert (Hfuel : 2 * logrec_len_ (hdr_ commit1) + 2 <= Z.of_nat log_fuel) by (vm_compute; discriminate).
  destruct log4_manager as (m & E & Hm).
  assert (Eapp : exists m', clog_append_record 4 log_fuel m commit1 = Some (SUCCESS, m')).
  { vm_compute in E. injection E as <-. eexists. vm_compute. reflexivity. }
  clear E. destruct Eapp as [m' Eapp].
  destruct (commit_recovered zeros zeros_length 4 ltac:(lia) log4 commit1 m log_fuel m' 0 (replicate 8 zero_block) Hm
    Hok eq_refl Hfuel Eapp Hsafe Hends eq_refl) as (F & m2 & Hrun & Hrec & _).
  exists m, m', F, m2. split; [exact Hm|]. split; [exact Eapp|]. split; [apply Hrun; lia|exact Hrec].
Defined.

(** A committed transaction with two inserts: the first record crosses two block
    boundaries and ends eight bytes in front of the next one. *)
Definition lossy_log : list CLogRecord :=
  [big_rec 1 0 952; big_rec 1 1000 16; mtr_rec REDO_MTR_COMMIT 1 1064].

(** C33: Outside of the [safe_log] condition the recovery loses records.  The log of
    well-formed records [lossy_log] is appended and, after the commit, durable; a
    manager that recovers from the file knows the commit and the first insert only:
    [block_recover] collects the beginning of the second record behind the bytes of
    the first, which it has not delivered yet. *)
Theorem recovery_loses_record :
  Forall record_ok lossy_log /\ safe_log lossy_log = false /\
  exists m m2, append_all 4 log_fuel (new_manager zeros 4 None 0) lossy_log = Some m /\ log_durable lossy_log m /\
    recover zeros log_fuel (replicate 8 zero_block) (new_manager zeros 4 (Some (log_file_ m)) 0) = Some (SUCCESS, m2) /\
    trx_commited (log_mtr_mgr_ m2) !! 1 = Some true /\
    map (fun r => lsn_ (hdr_ r)) (log_redo_list (log_mtr_mgr_ m2)) = [0] /\
    map (fun r => lsn_ (hdr_ r)) (filter (fun r => is_redo r = true) lossy_log) = [0; 1000].
Proof.
  split; [repeat constructor; first [by apply big_rec_ok|apply mtr_rec_ok; [by auto|done|done]]|].
  split; [vm_compute; reflexivity|]. do 2 eexists.
  split; [vm_compute; reflexivity|]. split; [split; [vm_compute; reflexivity|discriminate]|].
  split; [vm_compute; reflexivity|]. split_and!; vm_compute; reflexivity.
Qed.
