(* ===== verification/Trx.v ===== *)
(** * Transactions (storage/trx/trx.{h,cpp})

    The identifier of a transaction in the records it writes, the visibility of
    records, and the operations a transaction remembers per table until it
    commits or rolls back.  Tables are known by their names (the code: by their
    addresses).  [Trx::commit] and [Trx::rollback] call back into the tables and
    stand in [Table]. *)

From Stdlib Require Import ZArith Lia.
From stdpp Require Import base gmap tactics.
From stdpp Require Import list.
From S2P Require Import Prelude.
From S2P Require Import Monad.
From S2P Require Import Bytes.
From S2P Require Import Comparator.
#[local] Open Scope Z_scope.

#[global] Instance RID_countable : Countable RID.
Proof.
  refine (inj_countable' (fun r => (page_num r, slot_num r)) (fun p => mk_RID p.1 p.2) _). by intros [].
Defined.

Module Operation.
Inductive Type_ : Type := INSERT | UPDATE | DELETE | UNDEFINED.
#[global] Instance Type_eq_dec : EqDecision Type_.
Proof. solve_decision. Defined.
End Operation.

(** An [OperationSet] holds at most one operation per record: the hash and the
    equality look at the record's identifier only. *)
Abbreviation OperationSet := (gmap RID Operation.Type_).
Abbreviation TableName := (list Z).

Record Trx : Type := mk_Trx { trx_id_ : Z; operations_ : gmap TableName OperationSet }.

Definition DELETED_FLAG_BIT_MASK : Z := 0x80000000.
Definition TRX_ID_BIT_MASK : Z := 0x7FFFFFFF.

(** ** Identifiers; [trx_id] is the static counter *)

Definition default_trx_id : Z := 0.
Definition next_trx_id (trx_id : Z) : Z := to_int32 (trx_id + 1).
Definition set_trx_id (id : Z) : Z := id.

Definition start_if_not_started (t : Trx) (trx_id : Z) : Trx * Z :=
  if trx_id_ t =? 0 then (mk_Trx (next_trx_id trx_id) (operations_ t), next_trx_id trx_id) else (t, trx_id).
Definition new_Trx (trx_id : Z) : Trx * Z := start_if_not_started (mk_Trx 0 ∅) trx_id.
Definition next_current_id (t : Trx) (trx_id : Z) : Trx * Z := (mk_Trx (next_trx_id trx_id) (operations_ t), next_trx_id trx_id).
Definition get_current_id (t : Trx) : Z := trx_id_ t.

(** ** The identifier in a record; [off] is the offset of the field [__trx] *)

Definition trx_field_len : Z := 4.

Definition set_record_trx_id (off : Z) (data : list Z) (trx_id : Z) (deleted : bool) : option (list Z) :=
  put_i32 data off (if deleted then to_int32 (Z.lor (uwrap 32 trx_id) DELETED_FLAG_BIT_MASK) else trx_id).

Definition get_record_trx_id (off : Z) (data : list Z) : option (Z * bool) :=
  trx ← get_i32 data off;
  Some (to_int32 (Z.land (uwrap 32 trx) TRX_ID_BIT_MASK), negb (Z.land (uwrap 32 trx) DELETED_FLAG_BIT_MASK =? 0)).

Definition is_visible (t : Trx) (off : Z) (data : list Z) : option bool :=
  '(record_trx_id, record_deleted) ← get_record_trx_id off data;
  if (0 =? record_trx_id) || (record_trx_id =? trx_id_ t) then Some (negb record_deleted) else Some record_deleted.

Definition init_trx_info (t : Trx) (off : Z) (data : list Z) : option (list Z) :=
  set_record_trx_id off data (trx_id_ t) false.

(** [Trx::commit_insert], [Trx::commit_update] and [Trx::rollback_delete]. *)
Definition clear_trx_info (off : Z) (data : list Z) : option (list Z) := set_record_trx_id off data 0 false.

(** ** The operations of a transaction *)

Definition operations_of (t : Trx) (table : TableName) : OperationSet := default ∅ (operations_ t !! table).
Definition find_operation (t : Trx) (table : TableName) (rid : RID) : option Operation.Type_ :=
  operations_of t table !! rid.
(** [emplace] does not replace an operation that is there. *)
Definition insert_operation (t : Trx) (table : TableName) (ty : Operation.Type_) (rid : RID) : Trx :=
  let ops := operations_of t table in
  mk_Trx (trx_id_ t) (<[table := match ops !! rid with Some _ => ops | None => <[rid := ty]> ops end]> (operations_ t)).
Definition delete_operation (t : Trx) (table : TableName) (rid : RID) : Trx :=
  match operations_ t !! table with
  | None => t
  | Some ops => mk_Trx (trx_id_ t) (<[table := delete rid ops]> (operations_ t))
  end.

Definition insert_record (t : Trx) (table : TableName) (rid : RID) : RC * Trx :=
  match find_operation t table rid with
  | Some Operation.DELETE => (SUCCESS, insert_operation (delete_operation t table rid) table Operation.INSERT rid)
  | Some _ => (GENERIC_ERROR, t)
  | None => (SUCCESS, insert_operation t table Operation.INSERT rid)
  end.

(** Together with the record's data, stamped when the update is accepted. *)
Definition update_record (t : Trx) (table : TableName) (off : Z) (rid : RID) (data : list Z) : option (RC * (Trx * list Z)) :=
  match find_operation t table rid with
  | Some Operation.UPDATE =>
      data ← set_record_trx_id off data (trx_id_ t) false;
      Some (SUCCESS, (insert_operation (delete_operation t table rid) table Operation.UPDATE rid, data))
  | Some Operation.INSERT | None =>
      data ← set_record_trx_id off data (trx_id_ t) false;
      Some (SUCCESS, (insert_operation t table Operation.UPDATE rid, data))
  | Some _ => Some (GENERIC_ERROR, (t, data))
  end.

Definition delete_record (t : Trx) (trx_id : Z) (table : TableName) (off : Z) (rid : RID) (data : list Z) :
  option (RC * (Trx * Z * list Z)) :=
  let '(t, trx_id) := start_if_not_started t trx_id in
  match find_operation t table rid with
  | Some Operation.INSERT => Some (SUCCESS, (delete_operation t table rid, trx_id, data))
  | Some _ => Some (GENERIC_ERROR, (t, trx_id, data))
  | None =>
      data ← set_record_trx_id off data (trx_id_ t) true;
      Some (SUCCESS, (insert_operation t table Operation.DELETE rid, trx_id, data))
  end.

(** ** The stamp of a record *)

Lemma set_record_trx_id_is_Some off data id deleted :
  0 <= off -> off + 4 <= zlen data -> is_Some (set_record_trx_id off data id deleted).
Proof. intros. by apply put_i32_is_Some. Qed.

Lemma set_record_trx_id_length off data id deleted data' :
  set_record_trx_id off data id deleted = Some data' -> zlen data' = zlen data.
Proof. apply put_i32_length. Qed.

Lemma land_bit31 x : Z.land x DELETED_FLAG_BIT_MASK = if Z.testbit x 31 then 2 ^ 31 else 0.
Proof.
  change DELETED_FLAG_BIT_MASK with (2 ^ 31). apply Z.bits_inj'. intros i Hi.
  rewrite Z.land_spec, Z.pow2_bits_eqb by lia. destruct (Z.eqb_spec 31 i) as [<-|Hne].
  - rewrite andb_true_r. destruct (Z.testbit x 31); done.
  - rewrite andb_false_r. destruct (Z.testbit x 31); [rewrite Z.pow2_bits_eqb by lia|by rewrite Z.bits_0].
    symmetry. by apply Z.eqb_neq.
Qed.

Lemma lor_bit31 x : 0 <= x <= INT_MAX -> Z.lor x DELETED_FLAG_BIT_MASK = x + 2 ^ 31.
Proof.
  intros Hx. unfold INT_MAX in Hx. assert (Hland : Z.land x (2 ^ 31) = 0).
  { change (2 ^ 31) with DELETED_FLAG_BIT_MASK. rewrite land_bit31. rewrite Z.testbit_odd, Z.shiftr_div_pow2 by lia.
    by rewrite Z.div_small by lia. }
  change DELETED_FLAG_BIT_MASK with (2 ^ 31). rewrite <- Z.lxor_lor by done. symmetry. by apply Z.add_nocarry_lxor.
Qed.

(** The value that is stored, as an unsigned number. *)
Definition stamp (id : Z) (deleted : bool) : Z := id + (if deleted then 2 ^ 31 else 0).

Lemma stamp_value id (deleted : bool) :
  0 <= id <= INT_MAX ->
  uwrap 32 (to_int32 (if deleted then to_int32 (Z.lor (uwrap 32 id) DELETED_FLAG_BIT_MASK) else id)) = stamp id deleted.
Proof.
  intros Hid. pose proof Hid as Hid2. unfold INT_MAX in Hid2. assert (E : forall x, uwrap 32 (to_int32 x) = x mod 2 ^ 32).
  { intros x. unfold uwrap, to_int32. apply swrap_mod. lia. }
  rewrite E. unfold stamp. destruct deleted.
  - change (to_int32 (Z.lor (uwrap 32 id) DELETED_FLAG_BIT_MASK) mod 2 ^ 32) with
      (uwrap 32 (to_int32 (Z.lor (uwrap 32 id) DELETED_FLAG_BIT_MASK))).
    rewrite E. unfold uwrap. rewrite (Z.mod_small id) by lia. rewrite lor_bit31 by done. apply Z.mod_small. lia.
  - rewrite Z.mod_small by lia. lia.
Qed.

Lemma stamp_read id (deleted : bool) :
  0 <= id <= INT_MAX ->
  to_int32 (Z.land (stamp id deleted) TRX_ID_BIT_MASK) = id /\
  negb (Z.land (stamp id deleted) DELETED_FLAG_BIT_MASK =? 0) = deleted.
Proof.
  intros Hid. pose proof Hid as Hid2. unfold INT_MAX in Hid2. unfold stamp. split.
  - change TRX_ID_BIT_MASK with (Z.ones 31). rewrite Z.land_ones by lia. rewrite to_int32_small.
    + destruct deleted; [|rewrite Z.add_0_r; apply Z.mod_small; lia].
      rewrite <- (Z.mul_1_l (2 ^ 31)) at 1. rewrite Z.mod_add by lia. apply Z.mod_small. lia.
    + pose proof (Z.mod_pos_bound (id + (if deleted then 2 ^ 31 else 0)) (2 ^ 31)). unfold is_int32, INT_MIN, INT_MAX. lia.
  - rewrite land_bit31. rewrite Z.testbit_odd, Z.shiftr_div_pow2 by lia. destruct deleted.
    + rewrite <- (Z.mul_1_l (2 ^ 31)) at 1. rewrite Z.div_add by lia. rewrite Z.div_small by lia. done.
    + rewrite Z.add_0_r, Z.div_small by lia. done.
Qed.

Lemma get_set_trx_id off data id deleted data' :
  0 <= id <= INT_MAX -> set_record_trx_id off data id deleted = Some data' ->
  get_record_trx_id off data' = Some (id, deleted).
Proof.
  intros Hid H. unfold get_record_trx_id. unfold set_record_trx_id in H. rewrite (get_put_i32_eq _ _ _ _ H).
  cbn [mbind option_bind]. rewrite stamp_value by done. destruct (stamp_read id deleted Hid) as [-> ->]. done.
Qed.

(** C34: The stamp of a record is read back as it was written, for every identifier
    of 31 bits and either deletion mark, and decides the visibility: a record that
    is stamped by the transaction itself or by none (0) is visible unless it is
    marked as deleted; a record with the stamp of another transaction is visible
    exactly when it is marked as deleted (its insertion is uncommitted, its
    deletion too). *)
Theorem visibility_by_stamp t off data id deleted data' :
  0 <= id <= INT_MAX -> set_record_trx_id off data id deleted = Some data' ->
  get_record_trx_id off data' = Some (id, deleted) /\
  is_visible t off data' = Some (if decide (id = 0 \/ id = trx_id_ t) then negb deleted else deleted) /\
  zlen data' = zlen data.
Proof.
  intros Hid H. pose proof (get_set_trx_id _ _ _ _ _ Hid H) as E. split_and!; [done| |by eapply put_i32_length].
  unfold is_visible. rewrite E. cbn [mbind option_bind]. case_decide as Hd; [|].
  - assert ((0 =? id) || (id =? trx_id_ t) = true) as -> by (apply orb_true_iff; rewrite !Z.eqb_eq; lia). done.
  - assert ((0 =? id) || (id =? trx_id_ t) = false) as -> by (apply orb_false_iff; rewrite !Z.eqb_neq; lia). done.
Qed.

Lemma visibility_by_stamp_witness :
  exists data', set_record_trx_id 4 [1; 2; 3; 4; 5; 6; 7; 8] 77 true = Some data' /\
    get_record_trx_id 4 data' = Some (77, true) /\ is_visible (mk_Trx 77 ∅) 4 data' = Some false /\
    is_visible (mk_Trx 78 ∅) 4 data' = Some true.
Proof.
  eexists. split; [vm_compute; reflexivity|].
  destruct (visibility_by_stamp (mk_Trx 77 ∅) 4 [1; 2; 3; 4; 5; 6; 7; 8] 77 true _ ltac:(unfold INT_MAX; lia) eq_refl) as (H1 & H2 & _).
  split; [exact H1|]. split; [exact H2|]. vm_compute. reflexivity.
Defined.
