(* ===== verification/Store.v ===== *)
(** * What a table asks of its records and of its indexes

    Interfaces: [RecordStore] are the methods of [RecordFileHandler] that
    [Table] calls, with the access through the data pointer of a record that was
    read; [IndexStore] are the methods of [Index].  [RecordStoreLaws] and
    [IndexStoreLaws] are their contracts, in terms of the records by
    identifier ([StoreView]) and of the set of entries ([IndexView]).

    Instances: a record page ([RecordPage]) fulfils the contract of the records;
    a list of entries that of an index. *)

From Stdlib Require Import ZArith Lia.
From stdpp Require Import base gmap tactics.
From stdpp Require Import list.
From S2P Require Import Prelude.
From S2P Require Import Monad.
From S2P Require Import Bytes.
From S2P Require Import Comparator.
From S2P Require Import Bitmap.
From S2P Require Import BufferPool.
From S2P Require Import RecordPage.
From S2P Require Import Trx.
#[local] Open Scope Z_scope.

Class RecordStore (S : Type) : Type := {
  store_insert : list Z -> M S RID;
  store_delete : RID -> M S unit;
  store_update : RID -> list Z -> M S unit;
  (** [get_record] with the bytes behind the record's data pointer *)
  store_get : RID -> M S (list Z);
  (** the bytes behind the data pointer of a record that is at hand, and a write there *)
  store_peek : RID -> M S (list Z);
  store_poke : RID -> list Z -> M S unit;
  store_recover_insert : RID -> list Z -> M S unit;
  (** a scan with a condition: does it find a record? *)
  store_scan : (list Z -> bool) -> M S bool
}.

(** The records of a store have [n] bytes each. *)
Definition rec_ok (n : Z) (d : list Z) : Prop := zlen d = n /\ Forall is_char d.

(** The records of a store, as a function; [upd] puts one. *)
Definition upd {A} (f : RID -> option A) (rid : RID) (v : option A) (r : RID) : option A :=
  if decide (r = rid) then v else f r.

(** What the contracts speak about: the invariant, the records by identifier, and
    the identifiers that belong to the store, whether there is a record or not. *)
Class StoreView (S : Type) : Type := {
  store_inv : S -> Prop;
  store_map : S -> RID -> option (list Z);
  store_rid : S -> RID -> Prop
}.

(** The step from [s] to [s'] keeps the invariant and the identifiers, and makes
    the records those of [f]. *)
Definition store_step {S} `{StoreView S} (s s' : S) (f : RID -> option (list Z)) : Prop :=
  store_inv s' /\ (forall r, store_map s' r = f r) /\ (forall r, store_rid s r -> store_rid s' r).

Class RecordStoreLaws (S : Type) (n : Z) `{RecordStore S, StoreView S} : Prop := {
  store_rid_int s rid : store_inv s -> store_rid s rid -> is_int32 (page_num rid) /\ is_int32 (slot_num rid);
  store_map_ok s rid d : store_inv s -> store_map s rid = Some d -> rec_ok n d /\ store_rid s rid;
  store_insert_law s d :
    store_inv s -> rec_ok n d ->
    match store_insert d s with
    | Ret rid s' => store_map s rid = None /\ store_rid s rid /\ store_step s s' (upd (store_map s) rid (Some d))
    | Err rc s' => rc <> SUCCESS /\ store_step s s' (store_map s)
    | Stuck => False
    end;
  store_delete_law s rid :
    store_inv s -> is_Some (store_map s rid) ->
    exists s', store_delete rid s = Ret tt s' /\ store_step s s' (upd (store_map s) rid None);
  store_delete_missing s rid :
    store_inv s -> store_rid s rid -> store_map s rid = None -> store_delete rid s = Err RECORD_RECORD_NOT_EXIST s;
  store_update_law s rid d :
    store_inv s -> rec_ok n d -> is_Some (store_map s rid) ->
    exists s', store_update rid d s = Ret tt s' /\ store_step s s' (upd (store_map s) rid (Some d));
  store_update_missing s rid d :
    store_inv s -> rec_ok n d -> store_rid s rid -> store_map s rid = None -> store_update rid d s = Err RECORD_RECORD_NOT_EXIST s;
  store_get_law s rid d : store_inv s -> store_map s rid = Some d -> store_get rid s = Ret d s;
  store_get_missing s rid :
    store_inv s -> store_rid s rid -> store_map s rid = None -> store_get rid s = Err RECORD_RECORD_NOT_EXIST s;
  store_peek_law s rid d : store_inv s -> store_map s rid = Some d -> store_peek rid s = Ret d s;
  store_poke_law s rid d :
    store_inv s -> rec_ok n d -> store_rid s rid ->
    exists s', store_poke rid d s = Ret tt s' /\
      store_step s s' (upd (store_map s) rid (match store_map s rid with Some _ => Some d | None => None end));
  store_recover_law s rid d :
    store_inv s -> rec_ok n d -> store_rid s rid -> store_map s rid = None ->
    exists s', store_recover_insert rid d s = Ret tt s' /\ store_step s s' (upd (store_map s) rid (Some d));
  store_scan_law s f :
    store_inv s -> exists b, store_scan f s = Ret b s /\ (b = true <-> exists rid d, store_map s rid = Some d /\ f d = true)
}.

(** An entry of an index: the key of a record and its identifier. *)
Class IndexStore (I : Type) : Type := {
  index_insert : list Z -> RID -> M I unit;
  index_delete : list Z -> RID -> M I unit
}.

Class IndexView (I : Type) : Type := {
  index_inv : I -> Prop;
  index_key : I -> list Z -> list Z;
  index_set : I -> gset (list Z * RID)
}.

(** The step keeps the invariant and the key of the index, and makes its entries [X]. *)
Definition index_step {I} `{IndexView I} (i i' : I) (X : gset (list Z * RID)) : Prop :=
  index_inv i' /\ index_key i' = index_key i /\ index_set i' = X.

Class IndexStoreLaws (I : Type) `{IndexStore I, IndexView I} : Prop := {
  index_insert_law i d rid :
    index_inv i ->
    match index_insert d rid i with
    | Ret _ i' => ((index_key i d, rid) ∉ index_set i) /\ index_step i i' ({[(index_key i d, rid)]} ∪ index_set i)
    | Err rc i' => rc <> SUCCESS /\ index_step i i' (index_set i)
    | Stuck => False
    end;
  index_delete_law i d rid :
    index_inv i -> (index_key i d, rid) ∈ index_set i ->
    exists i', index_delete d rid i = Ret tt i' /\ index_step i i' (index_set i ∖ {[(index_key i d, rid)]});
  index_delete_missing i d rid :
    index_inv i -> (index_key i d, rid) ∉ index_set i -> index_delete d rid i = Err RECORD_RECORD_NOT_EXIST i
}.

(** ** A record page as a store *)

(** The bytes of the slot a record's data pointer points at. *)
Definition page_peek (rid : RID) : M Frame (list Z) :=
  off ← get_record_data (slot_num rid); n ← record_real_size; d ← frame_data; of_option (load d off n).
Definition page_get (rid : RID) : M Frame (list Z) :=
  off ← get_record rid; n ← record_real_size; d ← frame_data; of_option (load d off n).
Definition page_poke (rid : RID) (rec : list Z) : M Frame unit :=
  off ← get_record_data (slot_num rid); RecordPage.copy_record off rec.

(** [while (has_next()) next()] with the records it delivers. *)
Definition page_scan (f : list Z -> bool) : M Frame bool :=
  it ← iter_init; l ← iter_all it (S (Z.to_nat BP_PAGE_DATA_SIZE));
  page_num ← gets (fun f => page_no (page_ f));
  found ← fold_right (fun slot rest => d ← page_peek (mk_RID page_num slot); b ← rest; mret (f d || b)) (mret false) l;
  mret found.

#[global] Instance page_store : RecordStore Frame := {
  store_insert := RecordPage.insert_record;
  store_delete rid := _ ← RecordPage.delete_record rid; mret tt;
  store_update := RecordPage.update_record;
  store_get := page_get;
  store_peek := page_peek;
  store_poke := page_poke;
  store_recover_insert rid rec := RecordPage.recover_insert_record rec rid;
  store_scan := page_scan
}.

Section page.
Context (real : Z) (Hfits : fits real).
#[local] Abbreviation cap := (slot_count real).

#[global] Instance page_view : StoreView Frame := {
  store_inv f := page_ok real (data (page_ f)) /\ is_int32 (page_no (page_ f));
  store_map f rid := if decide (page_num rid = page_no (page_ f)) then slots real (data (page_ f)) (slot_num rid) else None;
  store_rid f rid := page_num rid = page_no (page_ f) /\ 0 <= slot_num rid < cap
}.

Lemma slots_Some d i r : slots real d i = Some r -> 0 <= i < cap /\ load d (slot_offset real i) real = Some r.
Proof using Type.
  unfold slots. case_bool_decide; [|done]. destruct (bit _ _); [|done]. done.
Qed.

(** A page with new contents in which slot [rid] holds [v]. *)
Lemma page_step f d' rid v :
  is_int32 (page_no (page_ f)) -> page_ok real d' -> page_num rid = page_no (page_ f) ->
  (forall j, slots real d' j = if j =? slot_num rid then v else slots real (data (page_ f)) j) ->
  store_step f (mark_dirty (set_data d' f)) (upd (store_map f) rid v).
Proof using Type.
  intros Hpg Hok Hp Hs. split; [exact (conj Hok Hpg)|]. split; [|done]. intros r. cbn [store_map page_view].
  change (page_no (page_ (mark_dirty (set_data d' f)))) with (page_no (page_ f)).
  change (data (page_ (mark_dirty (set_data d' f)))) with d'. unfold upd.
  destruct (decide (r = rid)) as [->|Hne].
  - rewrite decide_True by done. rewrite Hs, Z.eqb_refl. done.
  - case_decide as Hr; [|done]. rewrite Hs, (proj2 (Z.eqb_neq _ _)); [done|].
    intros E. apply Hne. destruct r, rid. simpl in *. by subst.
Qed.

Lemma peek_run f rid d :
  page_ok real (data (page_ f)) -> slots real (data (page_ f)) (slot_num rid) = Some d ->
  page_peek rid f = Ret d f.
Proof using Type.
  intros [Hd _] Hs. apply slots_Some in Hs as [_ Hl]. unfold page_peek. rewrite (bind_Ret _ _ _ _ _ (record_data_run real f _ Hd)).
  unfold record_real_size. rewrite (bind_Ret _ _ _ _ _ (field_run 8 _ _ (ok_real _ _ Hd))).
  unfold frame_data. rewrite bind_gets. unfold of_option. by rewrite Hl.
Qed.

Lemma get_run f rid d :
  page_ok real (data (page_ f)) -> slots real (data (page_ f)) (slot_num rid) = Some d -> page_get rid f = Ret d f.
Proof using Hfits.
  intros Hok Hs. destruct (slots_Some _ _ _ Hs) as [Hi _]. pose proof (get_record_spec real Hfits f rid Hok ltac:(lia)) as H.
  cbv zeta in H. rewrite (proj2 (Z.leb_gt _ _)), Hs in H by lia. destruct H as (off & E & Hl). destruct Hok as [Hd _].
  unfold page_get. rewrite (bind_Ret _ _ _ _ _ E).
  unfold record_real_size. rewrite (bind_Ret _ _ _ _ _ (field_run 8 _ _ (ok_real _ _ Hd))).
  unfold frame_data. rewrite bind_gets. unfold of_option. by rewrite Hl.
Qed.

Lemma take_rec n d : rec_ok n d -> take (Z.to_nat n) d = d.
Proof using Type. intros [Hl _]. apply take_ge. unfold zlen in Hl. lia. Qed.

Lemma scan_run f (g : list Z -> bool) l p :
  page_ok real (data (page_ f)) -> Forall (fun i => is_Some (slots real (data (page_ f)) i)) l ->
  exists b, fold_right (fun slot rest => d ← page_peek (mk_RID p slot); b ← rest; mret (g d || b)) (mret false) l f = Ret b f /\
    (b = true <-> exists i d, i ∈ l /\ slots real (data (page_ f)) i = Some d /\ g d = true).
Proof using Type.
  intros Hok H. induction H as [|i l [d Hi] _ (b & E & Hb)].
  - exists false. split; [done|]. split; [done|]. intros (i & d & Hi & _). by apply elem_of_nil in Hi.
  - exists (g d || b). cbn [fold_right]. rewrite (bind_Ret _ _ _ _ _ (peek_run f (mk_RID p i) d Hok Hi)). rewrite (bind_Ret _ _ _ _ _ E).
    split; [done|]. rewrite orb_true_iff, Hb. setoid_rewrite elem_of_cons. naive_solver.
Qed.

Lemma page_map_Some f rid d :
  store_map f rid = Some d <-> page_num rid = page_no (page_ f) /\ slots real (data (page_ f)) (slot_num rid) = Some d.
Proof using Type. cbn [store_map page_view]. case_decide; naive_solver. Qed.

Lemma page_rid_slot f rid : store_rid f rid -> store_map f rid = slots real (data (page_ f)) (slot_num rid).
Proof using Type. intros [Hp _]. cbn [store_map page_view]. by rewrite decide_True. Qed.

(** The contract, from the theorems on pages. *)
Lemma page_laws : RecordStoreLaws Frame real.
Proof using Hfits.
  split.
  - intros f rid [_ Hpg] [Hp Hi]. rewrite Hp. split; [done|]. destruct Hfits as [H1 H2]. pose proof (slots_start_bound real Hfits).
    pose proof (real_le_size real Hfits). assert (cap <= BP_PAGE_DATA_SIZE) by nia.
    unfold is_int32, INT_MIN, INT_MAX, BP_PAGE_DATA_SIZE, BP_PAGE_SIZE in *. lia.
  - intros f rid d [Hok Hpg] [Hp Hs]%page_map_Some. destruct (slots_Some _ _ _ Hs) as [Hi Hl]. split; [|done].
    apply load_Some in Hl as Hl'. destruct Hl' as (_ & _ & Hle & ->). destruct Hok as [Hd _]. split.
    + exact (load_length _ _ _ _ Hl).
    + by apply Forall_take, Forall_drop, ok_char with real.
  - intros f d [Hok Hpg] [Hl Hc]. pose proof (insert_record_spec real Hfits f d Hok ltac:(lia) Hc) as H. cbv zeta in H.
    cbn [store_insert page_store]. destruct (_ =? _); [rewrite H; split; [done|]; split; [done|]; split; done|].
    destruct H as (i & d' & E & Hi & Hfree & Hok' & Hs). rewrite E. split; [cbn [store_map page_view]; by rewrite decide_True|].
    split; [done|]. apply page_step; [done|done|done|]. intros j. rewrite Hs. cbn [slot_num]. by rewrite (take_rec _ _ (conj Hl Hc)).
  - intros f rid [Hok Hpg] [d Hd]. apply page_map_Some in Hd as [Hp Hs]. destruct (slots_Some _ _ _ Hs) as [Hi _].
    pose proof (delete_record_spec real Hfits f rid Hok ltac:(lia)) as H. cbv zeta in H.
    rewrite (proj2 (Z.leb_gt _ _)), Hs in H by lia. destruct H as (d' & E & Hok' & Hs').
    eexists. cbn [store_delete page_store]. split; [by rewrite (bind_Ret _ _ _ _ _ E)|]. by apply page_step.
  - intros f rid [Hok Hpg] Hr Hm. rewrite page_rid_slot in Hm by done. destruct Hr as [_ Hi].
    pose proof (delete_record_spec real Hfits f rid Hok ltac:(lia)) as H. cbv zeta in H.
    rewrite (proj2 (Z.leb_gt _ _)), Hm in H by lia. cbn [store_delete page_store]. by rewrite (bind_Err _ _ _ _ _ H).
  - intros f rid d [Hok Hpg] [Hl Hc] [d0 Hd]. apply page_map_Some in Hd as [Hp Hs]. destruct (slots_Some _ _ _ Hs) as [Hi _].
    pose proof (update_record_spec real Hfits f rid d Hok ltac:(lia) ltac:(lia) Hc) as H. cbv zeta in H.
    rewrite (proj2 (Z.leb_gt _ _)), Hs in H by lia. destruct H as (d' & E & Hok' & Hs').
    eexists. split; [exact E|]. apply page_step; [done|done|done|]. by rewrite <- (take_rec _ _ (conj Hl Hc)).
  - intros f rid d [Hok Hpg] [Hl Hc] Hr Hm. rewrite page_rid_slot in Hm by done. destruct Hr as [_ Hi].
    pose proof (update_record_spec real Hfits f rid d Hok ltac:(lia) ltac:(lia) Hc) as H. cbv zeta in H.
    by rewrite (proj2 (Z.leb_gt _ _)), Hm in H by lia.
  - intros f rid d [Hok Hpg] [Hp Hs]%page_map_Some. by apply get_run.
  - intros f rid [Hok Hpg] Hr Hm. rewrite page_rid_slot in Hm by done. destruct Hr as [_ Hi].
    pose proof (get_record_spec real Hfits f rid Hok ltac:(lia)) as H. cbv zeta in H.
    rewrite (proj2 (Z.leb_gt _ _)), Hm in H by lia. cbn [store_get page_store]. unfold page_get. by rewrite (bind_Err _ _ _ _ _ H).
  - intros f rid d [Hok Hpg] [Hp Hs]%page_map_Some. by eapply peek_run.
  - intros f rid d [[Hd Hn] Hpg] [Hl Hc] [Hp Hi].
    destruct (copy_record_run real Hfits f (slot_num rid) d Hd Hi ltac:(lia) Hc) as (d' & E & S & N & B & L).
    exists (set_data d' f). split.
    { cbn [store_poke page_store]. unfold page_poke. by rewrite (bind_Ret _ _ _ _ _ (record_data_run real f _ Hd)). }
    assert (Hok' : page_ok real d').
    { split; [done|]. rewrite N, Hn. f_equal. symmetry. apply count_ext. intros j Hj%elem_of_slots. by apply B. }
    split; [exact (conj Hok' Hpg)|]. split; [|done]. intros r. cbn [store_map page_view].
    change (page_no (page_ (set_data d' f))) with (page_no (page_ f)). change (data (page_ (set_data d' f))) with d'. unfold upd.
    rewrite (decide_True (P := page_num rid = _)) by done.
    destruct (decide (r = rid)) as [->|Hne].
    + rewrite decide_True by done. rewrite !slots_eq by done. rewrite !decide_True, B, L, Z.eqb_refl by done.
      rewrite (take_rec _ _ (conj Hl Hc)). destruct (bit (bitmap_of (data (page_ f))) (slot_num rid)) eqn:Eb; [|done].
      destruct (slots_occupied real Hfits _ _ Hd Hi Eb) as [x Hx]. apply slots_Some in Hx as [_ Hx]. by rewrite Hx.
    + case_decide as Hr; [|done]. rewrite !slots_eq. case_decide as Hj; [|done]. rewrite B, L by done.
      rewrite (proj2 (Z.eqb_neq _ _)); [done|]. intros Ee. apply Hne. destruct r, rid. simpl in *. by subst.
  - intros f rid d [[Hd Hn] Hpg] [Hl Hc] [Hp Hi] Hm. rewrite page_rid_slot in Hm by done.
    assert (Hb : bit (bitmap_of (data (page_ f))) (slot_num rid) = false).
    { rewrite (bit_slots real Hfits _ _ Hd Hi), Hm. by apply bool_decide_false; intros [? ?]. }
    assert (Hroom : count_set (bitmap_of (data (page_ f))) cap <> cap).
    { intros Efull. rewrite count_set_full in Efull by apply (slot_count_nonneg real Hfits). by rewrite Efull in Hb. }
    destruct (recover_insert_run real Hfits f d rid Hd ltac:(lia) Hc Hi _ Hn Hroom (proj1 (count_int32 real Hfits _))) as (d' & E & S & N & B & L).
    eexists. split; [exact E|]. apply page_step; [done| |done|].
    + split; [done|]. rewrite N. f_equal. symmetry. apply count_set_flip with (slot_num rid); [done|done|by rewrite B, Z.eqb_refl by done|].
      intros j Hj Hji. rewrite B by done. by rewrite (proj2 (Z.eqb_neq j _)).
    + intros j. rewrite !slots_eq by done. case_decide as Hj; [|by rewrite (proj2 (Z.eqb_neq j _)) by (intros ->; done)].
      rewrite B, L by done. rewrite (take_rec _ _ (conj Hl Hc)). by destruct (Z.eqb_spec j (slot_num rid)).
  - intros f g [Hok Hpg]. cbn [store_scan page_store]. unfold page_scan.
    destruct (page_iteration_complete real Hfits f Hok) as (it & E & Hall). rewrite (bind_Ret _ _ _ _ _ E).
    assert (Hcap : (Z.to_nat cap < S (Z.to_nat BP_PAGE_DATA_SIZE))%nat).
    { destruct Hfits as [H1 H2]. pose proof (slots_start_bound real Hfits). pose proof (real_le_size real Hfits).
      pose proof (slot_count_nonneg real Hfits). assert (cap <= BP_PAGE_DATA_SIZE) by nia. lia. }
    rewrite (bind_Ret _ _ _ _ _ (Hall _ Hcap)), bind_gets.
    set (l := filter (fun i => is_Some (slots real (data (page_ f)) i)) (seqZ 0 cap)).
    destruct (scan_run f g l (page_no (page_ f)) Hok) as (b & Eb & Hb).
    { apply list.Forall_forall. intros i Hi. by apply list_elem_of_filter in Hi as [Hi _]. }
    rewrite (bind_Ret _ _ _ _ _ Eb). exists b. split; [done|]. rewrite Hb. split.
    + intros (i & d & _ & Hi & Hg). exists (mk_RID (page_no (page_ f)) i), d. split; [|done]. by apply page_map_Some.
    + intros (rid & d & [Hp Hs]%page_map_Some & Hg). exists (slot_num rid), d. split; [|done].
      apply list_elem_of_filter. split; [by eauto|]. apply elem_of_slots. by apply slots_Some in Hs as [? _].
Qed.

(** C17: A record page keeps the contract that a table expects of its records: the
    page is a map from the slots to records of the page's record size.  Insertion
    takes a free slot or fails without a change, deletion, update and replay
    change exactly the given slot, reading and writing through the data pointer
    reach that slot, missing records are refused, and a scan with a condition
    finds a record exactly when there is one. *)
Theorem page_is_record_store : RecordStoreLaws Frame real.
Proof. exact page_laws. Qed.
End page.

Lemma one_record_page : is_int32 (page_no (page_ one_record)).
Proof. split; vm_compute; discriminate. Qed.

Lemma page_is_record_store_witness : fits 16 /\ @RecordStoreLaws Frame 16 page_store (page_view 16) /\ @store_inv _ (page_view 16) one_record.
Proof. split; [exact fits_16|]. split; [exact (page_is_record_store 16 fits_16)|exact (conj one_record_ok one_record_page)]. Defined.

(** ** A set of entries as an index on the bytes [off .. off + len) of the records *)

Record SetIndex : Type := mk_SetIndex { si_off : Z; si_len : Z; si_entries : gset (list Z * RID) }.

Definition si_key (i : SetIndex) (d : list Z) : list Z := default [] (load d (si_off i) (si_len i)).

#[global] Instance set_index : IndexStore SetIndex := {
  index_insert d rid i :=
    if decide ((si_key i d, rid) ∈ si_entries i) then Err RECORD_DUPLICATE_KEY i
    else Ret tt (mk_SetIndex (si_off i) (si_len i) ({[(si_key i d, rid)]} ∪ si_entries i));
  index_delete d rid i :=
    if decide ((si_key i d, rid) ∈ si_entries i)
    then Ret tt (mk_SetIndex (si_off i) (si_len i) (si_entries i ∖ {[(si_key i d, rid)]}))
    else Err RECORD_RECORD_NOT_EXIST i
}.
#[global] Instance set_index_view : IndexView SetIndex := {
  index_inv _ := True; index_key := si_key; index_set := si_entries
}.
#[global] Instance set_index_laws : IndexStoreLaws SetIndex.
Proof.
  split; intros i d rid _; cbn; case_decide; try done.
  intros _. eexists. split; [done|]. by repeat split.
Qed.
