(* ===== verification/Table.v ===== *)
(** * Tables and transactions (storage/common/table.{h,cpp}, db.cpp, trx.cpp)

    The operations of [Table] on records and indexes, over the interfaces of
    [Store], with the transaction ([Trx]) and the redo log ([Clog]); the commit
    and rollback of a transaction; the recovery of a database from its log.

    A record that comes from a scan points into its page, so that the operations
    on it ([update_record], [delete_record]) read and write the store.  Messages
    to the log file are left out. *)

From Stdlib Require Import ZArith Lia.
From stdpp Require Import base gmap tactics.
From stdpp Require Import list.
From S2P Require Import Prelude.
From S2P Require Import Monad.
From S2P Require Import Bytes.
From S2P Require Import Comparator.
From S2P Require Import ClogRecord.
From S2P Require Import Clog.
From S2P Require Import Trx.
From S2P Require Import Store.
#[local] Open Scope Z_scope.

Section table.
Context {S I : Type} `{RecordStore S, IndexStore I}.
(** Of the log: unspecified memory, the size of the buffer, and fuel. *)
Context (uninit : Z -> list Z) (buffer_blocks fuel : nat).

(** The parts of the meta data the operations use: the size of a record, the
    offset of the field [__trx], and for each unique index the condition that a
    record agrees with another one in the indexed fields. *)
Record TableMeta : Type := mk_TableMeta {
  record_size : Z;
  trx_offset : Z;
  unique_keys : list (list Z -> list Z -> bool)
}.

Record Table : Type := mk_Table { table_meta_ : TableMeta; record_handler_ : S; indexes_ : list I }.

(** The database, with the transaction of the session at work and the static
    counter of transaction identifiers. *)
Record Db : Type := mk_Db {
  opened_tables_ : gmap TableName Table;
  current_trx : Trx;
  trx_counter : Z;
  clog_manager_ : CLogManager
}.

Definition put_table (name : TableName) (t : Table) (db : Db) : Db :=
  mk_Db (<[name := t]> (opened_tables_ db)) (current_trx db) (trx_counter db) (clog_manager_ db).
Definition put_trx (t : Trx) (db : Db) : Db := mk_Db (opened_tables_ db) t (trx_counter db) (clog_manager_ db).
Definition put_counter (n : Z) (db : Db) : Db := mk_Db (opened_tables_ db) (current_trx db) n (clog_manager_ db).
Definition put_clog (m : CLogManager) (db : Db) : Db := mk_Db (opened_tables_ db) (current_trx db) (trx_counter db) m.

Definition find_table (name : TableName) : M Db Table := fun db => of_option (opened_tables_ db !! name) db.
Definition meta (name : TableName) : M Db TableMeta := t ← find_table name; mret (table_meta_ t).

(** A method of the table's record handler. *)
Definition with_store {A} (name : TableName) (m : M S A) : M Db A := fun db =>
  match opened_tables_ db !! name with
  | None => Stuck
  | Some t =>
      let put s := put_table name (mk_Table (table_meta_ t) s (indexes_ t)) db in
      match m (record_handler_ t) with
      | Ret a s => Ret a (put s)
      | Err rc s => Err rc (put s)
      | Stuck => Stuck
      end
  end.

(** ** The indexes *)

(** [insert_entry_of_indexes] on the list of the indexes: the return code and the list. *)
Fixpoint insert_entries (l : list I) (rec : list Z) (rid : RID) : option (RC * list I) :=
  match l with
  | [] => Some (SUCCESS, [])
  | i :: l =>
      match index_insert rec rid i with
      | Ret _ i => '(rc, l) ← insert_entries l rec rid; Some (rc, i :: l)
      | Err rc i => Some (rc, i :: l)
      | Stuck => None
      end
  end.

(** [rc]: the value of the variable, which a tolerated failure leaves behind. *)
Fixpoint delete_entries (l : list I) (rec : list Z) (rid : RID) (error_on_not_exists : bool) (rc : RC) : option (RC * list I) :=
  match l with
  | [] => Some (rc, [])
  | i :: l =>
      match index_delete rec rid i with
      | Ret _ i => '(rc, l) ← delete_entries l rec rid error_on_not_exists SUCCESS; Some (rc, i :: l)
      | Err rc i =>
          if negb (bool_decide (rc = RECORD_INVALID_KEY)) || negb error_on_not_exists then Some (rc, i :: l)
          else '(rc, l) ← delete_entries l rec rid error_on_not_exists rc; Some (rc, i :: l)
      | Stuck => None
      end
  end.

Definition on_indexes (name : TableName) (f : list I -> option (RC * list I)) : M Db RC := fun db =>
  match opened_tables_ db !! name with
  | None => Stuck
  | Some t =>
      match f (indexes_ t) with
      | None => Stuck
      | Some (rc, l) => Ret rc (put_table name (mk_Table (table_meta_ t) (record_handler_ t) l) db)
      end
  end.
Definition insert_entry_of_indexes (name : TableName) (rec : list Z) (rid : RID) : M Db RC :=
  on_indexes name (fun l => insert_entries l rec rid).
Definition delete_entry_of_indexes (name : TableName) (rec : list Z) (rid : RID) (error_on_not_exists : bool) : M Db RC :=
  on_indexes name (fun l => delete_entries l rec rid error_on_not_exists SUCCESS).

(** ** The log *)

Definition log_record (flag : CLogType) (name : TableName) (data_len : Z) (rec : rec_arg) : M Db unit := fun db =>
  match clog_gen_record uninit (clog_manager_ db) flag (trx_id_ (current_trx db)) name data_len rec with
  | None => Stuck
  | Some (_, (m, r)) =>
      match clog_append_record buffer_blocks fuel m r with
      | None => Stuck
      | Some (rc, m) => if decide (rc = SUCCESS) then Ret tt (put_clog m db) else Err rc (put_clog m db)
      end
  end.

(** ** Table *)

(** [use_trx]: the transaction is not a null pointer. *)
Definition is_unique_key (name : TableName) (rec : list Z) : M Db bool :=
  tm ← meta name;
  (fix go (l : list (list Z -> list Z -> bool)) : M Db bool :=
     match l with
     | [] => mret true
     | f :: l => found ← with_store name (store_scan (f rec)); if found : bool then mret false else go l
     end) (unique_keys tm).

Definition insert_record (use_trx : bool) (name : TableName) (rec : list Z) : M Db RID :=
  tm ← meta name;
  trx ← gets current_trx;
  rec ← (if use_trx then of_option (init_trx_info trx (trx_offset tm) rec) else mret rec);
  unique ← is_unique_key name rec;
  if negb unique then throw RECORD_DUPLICATE_KEY
  else
    rid ← with_store name (store_insert rec);
    (if use_trx then
       let '(rc, trx) := Trx.insert_record trx name rid in
       modify (put_trx trx);;
       if decide (rc = SUCCESS) then mret tt
       else rc_of (with_store name (store_delete rid));; throw rc
     else mret tt);;
    rc ← insert_entry_of_indexes name rec rid;
    if decide (rc = SUCCESS) then
      (if use_trx then log_record REDO_INSERT name (record_size tm) (Some (rid, Some rec)) else mret tt);;
      mret rid
    else
      delete_entry_of_indexes name rec rid true;;
      rc_of (with_store name (store_delete rid));;
      throw rc.

Definition recover_insert_record (name : TableName) (rid : RID) (rec : list Z) : M Db unit :=
  with_store name (store_recover_insert rid rec).

(** The record stands in its page.  The results of the indexes are overwritten. *)
Definition update_record (use_trx : bool) (name : TableName) (rid : RID) : M Db unit :=
  tm ← meta name;
  trx ← gets current_trx;
  (if use_trx then
     rec ← with_store name (store_peek rid);
     rec ← of_option (init_trx_info trx (trx_offset tm) rec);
     with_store name (store_poke rid rec)
   else mret tt);;
  rec ← with_store name (store_peek rid);
  delete_entry_of_indexes name rec rid false;;
  with_store name (store_update rid rec);;
  (if use_trx then
     '(rc, (trx, rec)) ← of_option (Trx.update_record trx name (trx_offset tm) rid rec);
     modify (put_trx trx);;
     with_store name (store_poke rid rec);;
     if decide (rc = SUCCESS) then mret tt else throw rc
   else mret tt);;
  rec ← with_store name (store_peek rid);
  rc ← insert_entry_of_indexes name rec rid;
  if use_trx then log_record REDO_UPDATE name (record_size tm) (Some (rid, Some rec))
  else return_rc rc.

(** The body of [UpdateOperator::open] for one record: the new values are written
    into the page first. *)
Definition update_in_place (use_trx : bool) (name : TableName) (rid : RID) (change : list Z -> list Z) : M Db unit :=
  rec ← with_store name (store_peek rid);
  unique ← is_unique_key name (change rec);
  if negb unique then throw RECORD_DUPLICATE_KEY
  else with_store name (store_poke rid (change rec));; update_record use_trx name rid.

Definition recover_update_record (name : TableName) (rid : RID) (rec : list Z) : M Db unit :=
  with_store name (store_update rid rec).

(** The record's memory is still written when its slot has been freed. *)
Definition delete_record (use_trx : bool) (name : TableName) (rid : RID) : M Db unit :=
  tm ← meta name;
  rec ← with_store name (store_peek rid);
  rc ← delete_entry_of_indexes name rec rid false;
  return_rc rc;;
  with_store name (store_delete rid);;
  if use_trx then
    trx ← gets current_trx; counter ← gets trx_counter;
    '(_, (trx, counter, rec)) ← of_option (Trx.delete_record trx counter name (trx_offset tm) rid rec);
    modify (put_trx trx);; modify (put_counter counter);;
    with_store name (store_poke rid rec);;
    log_record REDO_DELETE name 0 (Some (rid, Some rec))
  else mret tt.

Definition recover_delete_record (name : TableName) (rid : RID) : M Db unit := with_store name (store_delete rid).

Definition commit_insert (name : TableName) (rid : RID) : M Db unit :=
  tm ← meta name;
  rec ← with_store name (store_get rid);
  rec ← of_option (clear_trx_info (trx_offset tm) rec);
  with_store name (store_poke rid rec).
Definition commit_update : TableName -> RID -> M Db unit := commit_insert.

Definition commit_delete (name : TableName) (rid : RID) : M Db unit :=
  rec ← with_store name (store_get rid);
  delete_entry_of_indexes name rec rid false;;
  with_store name (store_delete rid).

Definition rollback_insert (name : TableName) (rid : RID) : M Db unit :=
  rec ← with_store name (store_get rid);
  rc ← delete_entry_of_indexes name rec rid false;
  return_rc rc;;
  with_store name (store_delete rid).
Definition rollback_update (name : TableName) (rid : RID) : M Db unit := with_store name (store_get rid);; mret tt.
Definition rollback_delete : TableName -> RID -> M Db unit := commit_insert.

(** ** Trx::commit and Trx::rollback *)

(** The operations in some order; the table is called for each, and the result is
    that of the last call. *)
Definition trx_list (t : Trx) : list (TableName * RID * Operation.Type_) :=
  '(name, ops) ← map_to_list (operations_ t); '(rid, ty) ← map_to_list ops; [(name, rid, ty)].

Fixpoint for_operations (f : TableName -> RID -> Operation.Type_ -> M Db unit) (l : list (TableName * RID * Operation.Type_))
  (rc : RC) : M Db RC :=
  match l with
  | [] => mret rc
  | (name, rid, ty) :: l => rc ← rc_of (f name rid ty); for_operations f l rc
  end.

Definition commit_operation (name : TableName) (rid : RID) (ty : Operation.Type_) : M Db unit :=
  match ty with
  | Operation.INSERT => commit_insert name rid
  | Operation.UPDATE => commit_update name rid
  | Operation.DELETE => commit_delete name rid
  | Operation.UNDEFINED => mret tt
  end.
Definition rollback_operation (name : TableName) (rid : RID) (ty : Operation.Type_) : M Db unit :=
  match ty with
  | Operation.INSERT => rollback_insert name rid
  | Operation.UPDATE => rollback_update name rid
  | Operation.DELETE => rollback_delete name rid
  | Operation.UNDEFINED => mret tt
  end.

Definition end_trx (f : TableName -> RID -> Operation.Type_ -> M Db unit) : M Db unit :=
  trx ← gets current_trx;
  rc ← for_operations f (trx_list trx) SUCCESS;
  modify (put_trx (mk_Trx 0 ∅));;
  return_rc rc.
Definition commit : M Db unit := end_trx commit_operation.
Definition rollback : M Db unit := end_trx rollback_operation.

(** ** Db::recover *)

(** The redo of one record of a committed transaction. *)
Definition redo (r : CLogRecord) : M Db unit :=
  name ← of_option (c_string (table_name_ r));
  db ← get_state;
  match opened_tables_ db !! name with
  | None => mret tt
  | Some _ =>
      match flag_ r with
      | REDO_INSERT => rec ← of_option (load (data_ r) 0 (data_len_ r)); recover_insert_record name (rid_ r) rec
      | REDO_UPDATE => rec ← of_option (load (data_ r) 0 (data_len_ r)); recover_update_record name (rid_ r) rec
      | REDO_DELETE => recover_delete_record name (rid_ r)
      | _ => mret tt
      end
  end.

(** The list of the records to redo; the result is [max_trx_id], which is unsigned.  A record of a
    table that is not there does not count for it. *)
Fixpoint redo_all (commited : gmap Z bool) (l : list CLogRecord) (max_trx_id : Z) : M Db Z :=
  match l with
  | [] => mret max_trx_id
  | r :: l =>
      match flag_ r with
      | REDO_INSERT | REDO_UPDATE | REDO_DELETE =>
          match commited !! ClogRecord.trx_id_ (hdr_ r) with
          | None => throw GENERIC_ERROR
          | Some false => redo_all commited l max_trx_id
          | Some true =>
              name ← of_option (c_string (table_name_ r));
              db ← get_state;
              match opened_tables_ db !! name with
              | None => redo_all commited l max_trx_id
              | Some _ =>
                  redo r;;
                  redo_all commited l (Z.max max_trx_id (to_uint32 (ClogRecord.trx_id_ (hdr_ r))))
              end
          end
      | _ => redo_all commited l max_trx_id
      end
  end.

Definition recover_db (redo_buffer : list CLogBlock) : M Db unit := fun db =>
  match Clog.recover uninit fuel redo_buffer (clog_manager_ db) with
  | None => Stuck
  | Some (_, m) =>
      (max_trx_id ← redo_all (trx_commited (log_mtr_mgr_ m)) (log_redo_list (log_mtr_mgr_ m)) 0;
       (if 0 <? max_trx_id then modify (put_counter (set_trx_id (to_int32 max_trx_id))) else mret tt)) (put_clog m db)
  end.
End table.
