(* ===== verification/TableSpec.v ===== *)
(** * What the operations of a table do

    A table whose indexes hold exactly the entries of its records ([table_ok]):
    insertion, and its rollback, over any record store and any indexes that keep
    their contracts; the log records what was done. *)

From Stdlib Require Import ZArith Lia.
From stdpp Require Import base gmap tactics.
From stdpp Require Import list.
From S2P Require Import Prelude.
From S2P Require Import Monad.
From S2P Require Import Bytes.
From S2P Require Import Comparator.
From S2P Require Import ClogRecord.
From S2P Require Import Clog.
From S2P Require Import ClogSpec.
From S2P Require Import ClogLog.
From S2P Require Import Redo.
From S2P Require Import Trx.
From S2P Require Import Store.
From S2P Require Import Table.
#[local] Open Scope Z_scope.

(** ** The entries of a record in all indexes *)

Section indexes.
Context {I : Type} `{IndexStoreLaws I}.
Implicit Types (l : list I) (d : list Z).

Definition same_entries (i i' : I) : Prop := index_step i i' (index_set i).
Definition entry_added d (rid : RID) (i i' : I) : Prop := index_step i i' ({[(index_key i d, rid)]} ∪ index_set i).
Definition entry_removed d (rid : RID) (i i' : I) : Prop := index_step i i' (index_set i ∖ {[(index_key i d, rid)]}).
Definition has_entry d (rid : RID) (i : I) : Prop := (index_key i d, rid) ∈ index_set i.

Lemma same_entries_refl l : Forall index_inv l -> Forall2 same_entries l l.
Proof. intros Hl. induction Hl; constructor; [by repeat split|done]. Qed.

(** All indexes take the entry, or the entries that were made can be taken back. *)
Lemma insert_entries_run l d rid :
  Forall index_inv l -> Forall (fun i => ~ has_entry d rid i) l ->
  exists rc l', insert_entries l d rid = Some (rc, l') /\
    (rc = SUCCESS /\ Forall2 (entry_added d rid) l l' \/
     rc <> SUCCESS /\ exists rc2 l2, delete_entries l' d rid true SUCCESS = Some (rc2, l2) /\ Forall2 same_entries l l2).
Proof.
  intros Hl. induction Hl as [|i l Hi Hl IH]; intros Hno.
  { exists SUCCESS, []. split; [done|]. left. done. }
  inversion Hno as [|? ? Hn Hno']; subst. simpl. pose proof (index_insert_law i d rid Hi) as Hins.
  destruct (index_insert d rid i) as [[] i'|rc i'|]; [| |done].
  - destruct Hins as (_ & Hi' & Hk & Hset). destruct (IH Hno') as (rc & l' & -> & Hcase).
    cbn [mbind option_bind]. exists rc, (i' :: l'). split; [done|]. destruct Hcase as [[-> Hadd]|(Hrc & rc2 & l2 & Hdel & Hsame)].
    + left. split; [done|]. constructor; [by repeat split|done].
    + right. split; [done|]. simpl.
      assert (Hin : (index_key i' d, rid) ∈ index_set i') by (rewrite Hset, Hk; set_solver).
      destruct (index_delete_law i' d rid Hi' Hin) as (i2 & E & Hi2 & Hk2 & Hset2). rewrite E, Hdel. cbn [mbind option_bind].
      eexists _, _. split; [done|]. constructor; [|done]. split; [done|]. split; [congruence|].
      rewrite Hset2, Hk, Hset. unfold has_entry in Hn. set_solver.
  - destruct Hins as (Hrc & Hi' & Hk & Hset). exists rc, (i' :: l). split; [done|]. right. split; [done|]. simpl.
    assert (Hout : (index_key i' d, rid) ∉ index_set i') by (rewrite Hset, Hk; exact Hn).
    rewrite (index_delete_missing i' d rid Hi' Hout). simpl. eexists _, _. split; [done|].
    constructor; [done|]. by apply same_entries_refl.
Qed.

Lemma delete_entries_run l d rid b :
  Forall index_inv l -> Forall (has_entry d rid) l ->
  exists l', delete_entries l d rid b SUCCESS = Some (SUCCESS, l') /\ Forall2 (entry_removed d rid) l l'.
Proof.
  intros Hl. induction Hl as [|i l Hi Hl IH]; intros Hin; [by exists []|].
  inversion Hin as [|? ? Hn Hin']; subst. simpl.
  destruct (index_delete_law i d rid Hi Hn) as (i' & -> & Hstep). destruct (IH Hin') as (l' & -> & Hall).
  cbn [mbind option_bind]. eexists. split; [done|]. by constructor.
Qed.
End indexes.

(** ** A table *)

Section table.
Context {S I : Type} (n : Z) `{RecordStoreLaws S n, IndexStoreLaws I}.
Context (uninit : Z -> list Z).
Hypothesis uninit_length : forall k, 0 <= k -> zlen (uninit k) = k.
Context (buffer_blocks fuel : nat).
#[local] Abbreviation Table := (Table (S := S) (I := I)).
#[local] Abbreviation Db := (Db (S := S) (I := I)).

Definition records (t : Table) : RID -> option (list Z) := store_map (record_handler_ t).

(** The records and the indexes keep their invariants, every index holds exactly
    the entries of the records, and no key contains the transaction's stamp. *)
Record table_ok (t : Table) : Prop := mk_table_ok {
  t_store : store_inv (record_handler_ t);
  t_indexes : Forall index_inv (indexes_ t);
  t_size : record_size (table_meta_ t) = n;
  t_offset : 0 <= trx_offset (table_meta_ t) /\ trx_offset (table_meta_ t) + 4 <= n;
  t_entries : forall i k rid, i ∈ indexes_ t -> (k, rid) ∈ index_set i <-> exists d, records t rid = Some d /\ k = index_key i d;
  t_keys : forall i d id del d', i ∈ indexes_ t ->
    set_record_trx_id (trx_offset (table_meta_ t)) d id del = Some d' -> index_key i d' = index_key i d
}.

Lemma no_entry t rid d : table_ok t -> records t rid = None -> Forall (fun i => ~ has_entry d rid i) (indexes_ t).
Proof using Type.
  intros Ht Hn. apply list.Forall_forall. intros i Hi Hin. apply (t_entries t Ht i _ rid Hi) in Hin as (d' & Hd & _). congruence.
Qed.

Lemma all_entries t rid d : table_ok t -> records t rid = Some d -> Forall (has_entry d rid) (indexes_ t).
Proof using Type. intros Ht Hd. apply list.Forall_forall. intros i Hi. apply (t_entries t Ht i _ rid Hi). by exists d. Qed.

Lemma Forall2_in {A B} (P : A -> B -> Prop) l l' y : Forall2 P l l' -> y ∈ l' -> exists x, x ∈ l /\ P x y.
Proof using Type.
  intros H' Hy. apply list_elem_of_lookup in Hy as [k Hk]. destruct (Forall2_lookup_r _ _ _ _ _ H' Hk) as (x & Hx & HP).
  exists x. split; [by eapply list_elem_of_lookup_2|done].
Qed.

(** The table with new records and indexes. *)
Definition with_parts (t : Table) (s : S) (l : list I) : Table := mk_Table (table_meta_ t) s l.

Lemma table_ok_add t s rid d l :
  table_ok t -> records t rid = None -> store_step (record_handler_ t) s (upd (records t) rid (Some d)) ->
  Forall2 (entry_added d rid) (indexes_ t) l -> table_ok (with_parts t s l).
Proof using Type.
  intros Ht Hnone (Hs & Hmap & _) Hl. split; simpl; try apply Ht; [done| | |].
  - apply list.Forall_forall. intros i Hi. destruct (Forall2_in _ _ _ _ Hl Hi) as (i0 & _ & Hi' & _). done.
  - intros i k r Hi. destruct (Forall2_in _ _ _ _ Hl Hi) as (i0 & Hi0 & _ & Hk & Hset).
    rewrite Hset, elem_of_union, elem_of_singleton, Hk, (t_entries t Ht i0 k r Hi0). unfold records in *. simpl. rewrite Hmap. unfold upd.
    destruct (decide (r = rid)) as [->|Hne]; [|naive_solver]. rewrite Hnone. naive_solver.
  - intros i d1 id del d2 Hi Hset'. destruct (Forall2_in _ _ _ _ Hl Hi) as (i0 & Hi0 & _ & Hk & _). rewrite Hk.
    by eapply (t_keys t Ht).
Qed.

Lemma table_ok_same t s l :
  table_ok t -> store_step (record_handler_ t) s (records t) -> Forall2 same_entries (indexes_ t) l -> table_ok (with_parts t s l).
Proof using Type.
  intros Ht (Hs & Hmap & _) Hl. split; simpl; try apply Ht; [done| | |].
  - apply list.Forall_forall. intros i Hi. destruct (Forall2_in _ _ _ _ Hl Hi) as (i0 & _ & Hi' & _). done.
  - intros i k r Hi. destruct (Forall2_in _ _ _ _ Hl Hi) as (i0 & Hi0 & _ & Hk & Hset).
    rewrite Hset, Hk, (t_entries t Ht i0 k r Hi0). unfold records. simpl. by setoid_rewrite Hmap.
  - intros i d1 id del d2 Hi Hset'. destruct (Forall2_in _ _ _ _ Hl Hi) as (i0 & Hi0 & _ & Hk & _). rewrite Hk.
    by eapply (t_keys t Ht).
Qed.

Lemma table_ok_remove t s rid d l :
  table_ok t -> records t rid = Some d -> store_step (record_handler_ t) s (upd (records t) rid None) ->
  Forall2 (entry_removed d rid) (indexes_ t) l -> table_ok (with_parts t s l).
Proof using Type.
  intros Ht Hsome (Hs & Hmap & _) Hl. split; simpl; try apply Ht; [done| | |].
  - apply list.Forall_forall. intros i Hi. destruct (Forall2_in _ _ _ _ Hl Hi) as (i0 & _ & Hi' & _). done.
  - intros i k r Hi. destruct (Forall2_in _ _ _ _ Hl Hi) as (i0 & Hi0 & _ & Hk & Hset).
    rewrite Hset, elem_of_difference, elem_of_singleton, Hk, (t_entries t Ht i0 k r Hi0). unfold records in *. simpl. rewrite Hmap. unfold upd.
    destruct (decide (r = rid)) as [->|Hne]; [|naive_solver]. rewrite Hsome. naive_solver.
  - intros i d1 id del d2 Hi Hset'. destruct (Forall2_in _ _ _ _ Hl Hi) as (i0 & Hi0 & _ & Hk & _). rewrite Hk.
    by eapply (t_keys t Ht).
Qed.

(** ** The log of the operations *)

(** The record of the log says what was done to the record [rid] of the table. *)
Definition logged (flag : CLogType) (trx : Z) (name : TableName) (rid : RID) (rec : list Z) (r : CLogRecord) : Prop :=
  record_ok r /\ flag_ r = flag /\ ClogRecord.trx_id_ (hdr_ r) = trx /\ c_string (table_name_ r) = Some name /\
  rid_ r = rid /\ (has_data flag = true -> load (data_ r) 0 (data_len_ r) = Some rec).

(** Records of the table fit into the log, and there is fuel to append them. *)
Definition log_fits : Prop :=
  0 <= n /\ is_int32 (_align8 (CLOG_INS_REC_NODATA_SIZE + n)) /\
  _align8 (CLOG_INS_REC_NODATA_SIZE + n) <= 504 * Z.of_nat buffer_blocks /\
  2 * _align8 (CLOG_INS_REC_NODATA_SIZE + n) + 2 <= Z.of_nat fuel.
Definition name_ok (name : TableName) : Prop := Forall (fun c => c <> 0) name /\ zlen name < TABLE_NAME_MAX_LEN.
(** The log with the records [rs], and an LSN in its range. *)
Definition log_ready (rs : list CLogRecord) (db : Db) : Prop :=
  log_inv buffer_blocks rs (clog_manager_ db) /\ is_int32 (gloabl_lsn_ (clog_manager_ db)).

Lemma strcpy_name name : name_ok name -> exists d, strcpy (uninit TABLE_NAME_MAX_LEN) (name ++ [0]) = Some d /\ c_string d = Some name.
Proof using uninit_length.
  intros [Hnz Hl]. destruct (strcpy_string (uninit TABLE_NAME_MAX_LEN) (name ++ [0]) name) as (d & E & _ & Hc).
  - apply c_string_Some. by exists [].
  - rewrite uninit_length; [done|]. unfold TABLE_NAME_MAX_LEN. lia.
  - by exists d.
Qed.

Definition table_flag (flag : CLogType) : Prop := flag = REDO_INSERT \/ flag = REDO_UPDATE \/ flag = REDO_DELETE.
Definition logged_len (flag : CLogType) : Z := if has_data flag then n else 0.

Lemma new_record_total flag trx name rid rec lsn :
  table_flag flag -> name_ok name -> log_fits -> zlen rec = n ->
  exists r, new_record uninit flag trx name (logged_len flag) (Some (rid, Some rec)) lsn = Some r /\
    (has_data flag = true -> load (data_ r) 0 (data_len_ r) = Some rec) /\
    c_string (table_name_ r) = Some name /\ rid_ r = rid.
Proof using uninit_length.
  intros Hf Hname (Hn & Hal & _) Hrec. destruct (strcpy_name name Hname) as (d & Hd & Hc).
  destruct (_align8_spec (CLOG_INS_REC_NODATA_SIZE + n)) as [Ha _]; [unfold CLOG_INS_REC_NODATA_SIZE; lia|].
  assert (Hload : load rec 0 n = Some rec).
  { apply load_Some. split_and!; try lia. rewrite drop_0, take_ge; [done|]. unfold zlen in Hrec. lia. }
  destruct (store_is_Some (uninit (_align8 (CLOG_INS_REC_NODATA_SIZE + n) - CLOG_INS_REC_NODATA_SIZE)) 0 rec) as [dat Hdat].
  { lia. } { rewrite uninit_length; lia. }
  pose proof (load_store_eq _ _ _ _ Hdat) as Hback. rewrite Hrec in Hback.
  destruct Hf as [-> | [-> | ->]]; unfold new_record, logged_len; simpl has_data; cbv iota; rewrite Hd; cbn [mbind option_bind];
    rewrite ?Hload; cbn [mbind option_bind]; rewrite ?Hdat; cbn [mbind option_bind]; eexists; split; done.
Qed.

(** ** Running the steps *)

(** The database with the table [t], the transaction and the log in their places. *)
Definition db_with (db : Db) (name : TableName) (t : Table) (trx : Trx) (m : CLogManager) : Db :=
  mk_Db (<[name := t]> (opened_tables_ db)) trx (trx_counter db) m.

Lemma db_with_id db name t : opened_tables_ db !! name = Some t -> db_with db name t (current_trx db) (clog_manager_ db) = db.
Proof using Type. intros E. unfold db_with. rewrite insert_id by done. by destruct db. Qed.

Section run.
Context (db : Db) (name : TableName) (t : Table) (trx : Trx) (m : CLogManager).
#[local] Abbreviation here := (db_with db name t trx m).

Lemma with_store_run {A} (f : M S A) :
  with_store name f here =
  match f (record_handler_ t) with
  | Ret a s => Ret a (db_with db name (with_parts t s (indexes_ t)) trx m)
  | Err rc s => Err rc (db_with db name (with_parts t s (indexes_ t)) trx m)
  | Stuck => Stuck
  end.
Proof using Type.
  unfold with_store, db_with at 1. cbn [opened_tables_]. rewrite lookup_insert_eq.
  unfold put_table, db_with, with_parts. cbn [opened_tables_ current_trx trx_counter clog_manager_].
  destruct (f (record_handler_ t)); by rewrite ?insert_insert_eq.
Qed.

Lemma on_indexes_run f rc l :
  f (indexes_ t) = Some (rc, l) -> on_indexes name f here = Ret rc (db_with db name (with_parts t (record_handler_ t) l) trx m).
Proof using Type.
  intros E. unfold on_indexes, db_with at 1. cbn [opened_tables_]. rewrite lookup_insert_eq, E.
  unfold put_table, db_with, with_parts. cbn [opened_tables_ current_trx trx_counter clog_manager_]. by rewrite insert_insert_eq.
Qed.

Lemma meta_run : meta name here = Ret (table_meta_ t) here.
Proof using Type. unfold meta, find_table, of_option, mbind, M_bind, db_with. cbn [opened_tables_]. by rewrite lookup_insert_eq. Qed.

Lemma parts_id : with_parts t (record_handler_ t) (indexes_ t) = t.
Proof using Type. by destruct t. Qed.
End run.

(** Another record agrees with [rec] in the fields of a unique index. *)
Definition violates_unique (t : Table) (rec : list Z) : Prop :=
  exists f rid d, f ∈ unique_keys (table_meta_ t) /\ records t rid = Some d /\ f rec d = true.

Lemma unique_run db name t trx m rec :
  store_inv (record_handler_ t) ->
  exists b, is_unique_key name rec (db_with db name t trx m) = Ret b (db_with db name t trx m) /\
    (b = false <-> violates_unique t rec).
Proof using H1.
  intros Hs. unfold is_unique_key, violates_unique. rewrite (bind_Ret _ _ _ _ _ (meta_run db name t trx m)).
  induction (unique_keys (table_meta_ t)) as [|f l (b & E & Hb)].
  - exists true. split; [done|]. split; [done|]. intros (f & _ & _ & Hf & _). by apply elem_of_nil in Hf.
  - destruct (store_scan_law _ (f rec) Hs) as (found & Ef & Hf).
    assert (Es : with_store name (store_scan (f rec)) (db_with db name t trx m) = Ret found (db_with db name t trx m)).
    { rewrite with_store_run, Ef. by rewrite parts_id. }
    rewrite (bind_Ret _ _ _ _ _ Es). destruct found.
    + exists false. split; [done|]. split; [intros _|done]. destruct (proj1 Hf eq_refl) as (rid & d & Hd & Hm).
      exists f, rid, d. split; [left|done].
    + exists b. split; [exact E|]. rewrite Hb. setoid_rewrite elem_of_cons. split; [naive_solver|].
      intros (g & rid & d & [->|Hg] & Hd & Hm); [|naive_solver]. exfalso.
      assert (false = true) by (apply Hf; by exists rid, d). done.
Qed.

Lemma stamp_rec (t : Table) rec id del :
  table_ok t -> rec_ok n rec -> exists rec', set_record_trx_id (trx_offset (table_meta_ t)) rec id del = Some rec' /\ rec_ok n rec'.
Proof using Type.
  intros Ht [Hl Hc]. pose proof (t_offset t Ht). 
  destruct (set_record_trx_id_is_Some (trx_offset (table_meta_ t)) rec id del) as [rec' E]; [lia..|].
  exists rec'. split; [done|]. split; [by rewrite (set_record_trx_id_length _ _ _ _ _ E)|].
  unfold set_record_trx_id, put_i32 in E. eapply store_is_char; [exact Hc| |exact E]. apply le_encode_is_char.
Qed.
Hypothesis buffer_pos : (0 < buffer_blocks)%nat.

Lemma log_record_run flag name rid rec rs db :
  table_flag flag -> name_ok name -> log_fits -> zlen rec = n ->
  is_int32 (page_num rid) /\ is_int32 (slot_num rid) -> is_int32 (trx_id_ (current_trx db)) -> log_ready rs db ->
  exists m r rc, log_record uninit buffer_blocks fuel flag name (logged_len flag) (Some (rid, Some rec)) db =
      (if decide (rc = SUCCESS) then Ret tt (put_clog m db) else Err rc (put_clog m db)) /\
    (rc = SUCCESS \/ rc = LOGBUF_FULL) /\
    logged flag (trx_id_ (current_trx db)) name rid rec r /\ log_ready (rs ++ [r]) (put_clog m db).
Proof using All.
  intros Hf Hname Hfits Hrec Hrid Htrx [Hlog Hlsn]. pose proof Hfits as (Hn & Hal & Hsize & Hfuel).
  destruct (new_record_total flag (trx_id_ (current_trx db)) name rid rec (gloabl_lsn_ (clog_manager_ db)) Hf Hname Hfits Hrec)
    as (r & Hr & Hdata & Hnm & Hrid').
  assert (Hargs : args_ok (trx_id_ (current_trx db)) (logged_len flag) (gloabl_lsn_ (clog_manager_ db)) (Some (rid, Some rec))).
  { split; [done|]. split; [done|]. unfold logged_len. by destruct Hf as [-> | [-> | ->]]; simpl has_data; cbv iota. }
  destruct (new_record_ok uninit uninit_length _ _ _ _ _ _ r Hargs Hr) as (Hok & Hfl & Ht & _ & Hlen).
  assert (Hlen' : logrec_len_ (hdr_ r) <= _align8 (CLOG_INS_REC_NODATA_SIZE + n)).
  { rewrite Hlen. destruct (_align8_spec (CLOG_INS_REC_NODATA_SIZE + n)) as [Ha _]; [unfold CLOG_INS_REC_NODATA_SIZE; lia|].
    unfold logged_len, next_len, sizeof_CLogDeleteRecord. destruct Hf as [-> | [-> | ->]]; simpl has_data; cbv iota; try lia.
    unfold CLOG_INS_REC_NODATA_SIZE in *. lia. }
  set (m1 := mk_CLogManager (log_buffer_ (clog_manager_ db)) (log_file_ (clog_manager_ db)) (log_mtr_mgr_ (clog_manager_ db))
               (to_int32 (gloabl_lsn_ (clog_manager_ db) + next_len flag (logged_len flag)))).
  destruct (append_log buffer_blocks buffer_pos rs r m1 fuel Hlog Hok ltac:(lia) ltac:(lia)) as (rc & b & f & E & Hlog' & Hrc).
  exists (with_log m1 b f), r, rc. split_and!.
  - unfold log_record, clog_gen_record, get_next_lsn. rewrite Hr. cbn [mbind option_bind]. fold m1. by rewrite E.
  - destruct Hrc as [[-> _]|[-> _]]; auto.
  - exact (conj Hok (conj Hfl (conj Ht (conj Hnm (conj Hrid' Hdata))))).
  - split; [done|]. apply to_int32_range.
Qed.

(** ** Insertion *)

(** The outcome of a successful insertion: the record is there with the stamp of
    the transaction, which remembers it, and so is the record of the log. *)
Definition inserted (db : Db) (name : TableName) (t : Table) (rs : list CLogRecord) (rec : list Z) (rid : RID) (db' : Db) : Prop :=
  exists s l m r, db' = db_with db name (with_parts t s l) (Trx.insert_record (current_trx db) name rid).2 m /\
    table_ok (with_parts t s l) /\ records t rid = None /\
    (forall x, records (with_parts t s l) x = upd (records t) rid (Some rec) x) /\
    (forall x, store_rid (record_handler_ t) x -> store_rid s x) /\
    logged REDO_INSERT (trx_id_ (current_trx db)) name rid rec r /\ log_ready (rs ++ [r]) db'.

(** Nothing but the operations of the transaction has changed. *)
Definition untouched (db : Db) (name : TableName) (t : Table) (db' : Db) : Prop :=
  exists s l trx, db' = db_with db name (with_parts t s l) trx (clog_manager_ db) /\
    table_ok (with_parts t s l) /\ (forall x, records (with_parts t s l) x = records t x).

(** The transaction does not remember the insertion or update of a record that is
    not there. *)
Definition ops_fresh (db : Db) (name : TableName) (t : Table) : Prop :=
  forall rid, records t rid = None ->
    find_operation (current_trx db) name rid = None \/ find_operation (current_trx db) name rid = Some Operation.DELETE.

Lemma trx_insert_fresh (db : Db) name t rid :
  ops_fresh db name t -> records t rid = None ->
  Trx.insert_record (current_trx db) name rid = (SUCCESS, (Trx.insert_record (current_trx db) name rid).2) /\
  trx_id_ (Trx.insert_record (current_trx db) name rid).2 = trx_id_ (current_trx db).
Proof using Type.
  intros Hf Hn. unfold Trx.insert_record. destruct (Hf rid Hn) as [-> | ->]; [done|]. split; [done|].
  unfold delete_operation, insert_operation. by destruct (operations_ _ !! name).
Qed.

(** The part of [insert_record] behind the insertion into the store. *)
Lemma insert_rest db name t rs rec rid s :
  table_ok t -> rec_ok n rec -> 0 <= trx_id_ (current_trx db) <= INT_MAX -> name_ok name -> log_fits -> log_ready rs db ->
  records t rid = None -> store_rid (record_handler_ t) rid -> store_step (record_handler_ t) s (upd (records t) rid (Some rec)) ->
  ops_fresh db name t ->
  let trx := (Trx.insert_record (current_trx db) name rid).2 in
  let run := (rc ← insert_entry_of_indexes name rec rid;
    if decide (rc = SUCCESS) then
      log_record uninit buffer_blocks fuel REDO_INSERT name (record_size (table_meta_ t)) (Some (rid, Some rec));; mret rid
    else
      delete_entry_of_indexes name rec rid true;; rc_of (with_store name (store_delete rid));; throw rc)
    (db_with db name (with_parts t s (indexes_ t)) trx (clog_manager_ db)) in
  (exists rid' db', run = Ret rid' db' /\ inserted db name t rs rec rid' db') \/
  (exists rc db', run = Err rc db' /\ (rc = LOGBUF_FULL /\ inserted db name t rs rec rid db' \/ rc <> SUCCESS /\ untouched db name t db')).
Proof using All.
  intros Ht Hrec Htrx Hname Hfits Hready Hnone Hrid Hs Hops trx run.
  destruct (trx_insert_fresh db name t rid Hops Hnone) as [_ Htid]. fold trx in Htid.
  destruct (insert_entries_run (indexes_ t) rec rid (t_indexes t Ht) (no_entry t rid rec Ht Hnone)) as (rc & l & Hins & Hcase).
  unfold run, insert_entry_of_indexes.
  rewrite (bind_Ret _ _ _ _ _ (on_indexes_run db name (with_parts t s (indexes_ t)) trx (clog_manager_ db) (fun l => insert_entries l rec rid) rc l Hins)).
  cbn [with_parts record_handler_ table_meta_ indexes_].
  destruct Hcase as [[-> Hadd]|(Hrc & rc2 & l2 & Hdel & Hsame)].
  - rewrite decide_True by done. rewrite (t_size t Ht).
    set (db1 := db_with db name (mk_Table (table_meta_ t) s l) trx (clog_manager_ db)).
    pose proof (store_rid_int _ _ (t_store t Ht) Hrid) as Hint.
    destruct (log_record_run REDO_INSERT name rid rec rs db1 (or_introl eq_refl) Hname Hfits (proj1 Hrec) Hint) as (m & r & rc & E & Hrc & Hr & Hready').
    { cbn. rewrite Htid. unfold is_int32, INT_MIN, INT_MAX in *. lia. }
    { exact Hready. }
    assert (Hin : inserted db name t rs rec rid (put_clog m db1)).
    { exists s, l, m, r. split; [done|]. split; [by eapply table_ok_add|]. split; [done|]. split; [apply Hs|]. split; [apply Hs|].
      cbn [db1 db_with current_trx] in Hr. rewrite Htid in Hr. done. }
    change (logged_len REDO_INSERT) with n in E.
    destruct (decide (rc = SUCCESS)) as [->|Hne]; [rewrite (bind_Ret _ _ _ _ _ E)|rewrite (bind_Err _ _ _ _ _ E)].
    + left. by eexists _, _.
    + right. eexists _, _. split; [done|]. left. split; [by destruct Hrc|done].
  - rewrite decide_False by done. unfold delete_entry_of_indexes.
    rewrite (bind_Ret _ _ _ _ _ (on_indexes_run db name (mk_Table (table_meta_ t) s l) trx (clog_manager_ db) (fun l => delete_entries l rec rid true SUCCESS) rc2 l2 Hdel)).
    cbn [with_parts record_handler_ table_meta_ indexes_].
    destruct Hs as (Hinv & Hmap & Hids).
    destruct (store_delete_law s rid Hinv) as (s2 & E & Hinv2 & Hmap2 & Hids2).
    { rewrite Hmap. unfold upd. rewrite decide_True by done. eauto. }
    right. exists rc, (db_with db name (with_parts t s2 l2) trx (clog_manager_ db)). split.
    { unfold rc_of, mbind, M_bind. rewrite with_store_run. cbn [record_handler_ with_parts]. by rewrite E. }
    right. split; [done|].
    assert (Hback : forall x, store_map s2 x = records t x).
    { intros x. rewrite Hmap2. unfold upd. case_decide as Hx; [by subst|]. rewrite Hmap. unfold upd. by rewrite decide_False. }
    exists s2, l2, trx. split; [done|]. split; [|exact Hback].
    apply table_ok_same; [done| |done]. split; [done|]. split; [exact Hback|]. intros x Hx. by apply Hids2, Hids.
Qed.

Lemma insert_run db name t rs rec :
  opened_tables_ db !! name = Some t -> table_ok t -> rec_ok n rec -> 0 <= trx_id_ (current_trx db) <= INT_MAX ->
  name_ok name -> log_fits -> log_ready rs db -> ops_fresh db name t ->
  exists rec', init_trx_info (current_trx db) (trx_offset (table_meta_ t)) rec = Some rec' /\ rec_ok n rec' /\
    (violates_unique t rec' -> Table.insert_record uninit buffer_blocks fuel true name rec db = Err RECORD_DUPLICATE_KEY db) /\
    (~ violates_unique t rec' ->
     match Table.insert_record uninit buffer_blocks fuel true name rec db with
     | Ret rid db' => inserted db name t rs rec' rid db'
     | Err rc db' => rc = LOGBUF_FULL /\ (exists rid, inserted db name t rs rec' rid db') \/ rc <> SUCCESS /\ untouched db name t db'
     | Stuck => False
     end).
Proof using All.
  intros Hdb Ht Hrec Htrx Hname Hfits Hready Hops.
  destruct (stamp_rec t rec (trx_id_ (current_trx db)) false Ht Hrec) as (rec' & Erec & Hrec'). exists rec'. split; [done|]. split; [done|].
  pose proof (db_with_id db name t Hdb) as Hid.
  destruct (unique_run db name t (current_trx db) (clog_manager_ db) rec' (t_store t Ht)) as (b & Eb & Hb). rewrite Hid in Eb.
  pose proof (meta_run db name t (current_trx db) (clog_manager_ db)) as Hmeta. rewrite Hid in Hmeta.
  assert (Hfront : Table.insert_record uninit buffer_blocks fuel true name rec db =
    (if negb b then throw RECORD_DUPLICATE_KEY
     else
       rid ← with_store name (store_insert rec');
       (let '(rc, trx) := Trx.insert_record (current_trx db) name rid in
        modify (put_trx trx);;
        if decide (rc = SUCCESS) then mret tt
        else rc_of (with_store name (store_delete rid));; throw rc);;
       rc ← insert_entry_of_indexes name rec' rid;
       if decide (rc = SUCCESS) then
         log_record uninit buffer_blocks fuel REDO_INSERT name (record_size (table_meta_ t)) (Some (rid, Some rec'));; mret rid
       else delete_entry_of_indexes name rec' rid true;; rc_of (with_store name (store_delete rid));; throw rc) db).
  { unfold Table.insert_record. rewrite (bind_Ret _ _ _ _ _ Hmeta), bind_gets.
    rewrite (bind_Ret (of_option _) _ db rec' db) by (unfold of_option, init_trx_info; by rewrite Erec).
    by rewrite (bind_Ret _ _ _ _ _ Eb). }
  rewrite Hfront. split; intros Hv.
  - rewrite (proj2 Hb Hv). done.
  - destruct b; [|by destruct Hv; apply Hb]. cbn [negb].
    pose proof (store_insert_law (record_handler_ t) rec' (t_store t Ht) Hrec') as Hins.
    assert (Ews : with_store name (store_insert rec') db = with_store name (store_insert rec') (db_with db name t (current_trx db) (clog_manager_ db)))
      by (by rewrite Hid). rewrite with_store_run in Ews.
    destruct (store_insert rec' (record_handler_ t)) as [rid s|rc s|]; [| |done].
    + destruct Hins as (Hnone & Hrid & Hs). rewrite (bind_Ret _ _ _ _ _ Ews).
      destruct (trx_insert_fresh db name t rid Hops Hnone) as [Etrx _]. rewrite Etrx.
      pose proof (insert_rest db name t rs rec' rid s Ht Hrec' Htrx Hname Hfits Hready Hnone Hrid Hs Hops) as Hrest. cbv zeta in Hrest.
      rewrite (bind_Ret (_ ;; _) _ _ tt (db_with db name (with_parts t s (indexes_ t)) (Trx.insert_record (current_trx db) name rid).2 (clog_manager_ db))).
      2:{ rewrite bind_modify. by rewrite decide_True. }
      destruct Hrest as [(rid' & db' & -> & Hin)|(rc & db' & -> & [[-> Hin]|Hun])]; [done| |by right].
      left. split; [done|]. by exists rid.
    + destruct Hins as (Hrc & Hs). rewrite (bind_Err _ _ _ _ _ Ews). right. split; [done|].
      exists s, (indexes_ t), (current_trx db). split; [done|]. split; [|apply Hs].
      apply table_ok_same; [done|done|]. apply same_entries_refl, t_indexes, Ht.
Qed.

(** ** Deletion *)

(** The outcome of a deletion: the record and its entries are gone, and the log
    says so. *)
Definition deleted (db : Db) (name : TableName) (t : Table) (rs : list CLogRecord) (rid : RID) (d : list Z) (db' : Db) : Prop :=
  exists s l trx m r, db' = db_with db name (with_parts t s l) trx m /\ trx_id_ trx = trx_id_ (current_trx db) /\
    table_ok (with_parts t s l) /\ (forall x, records (with_parts t s l) x = upd (records t) rid None x) /\
    Forall2 (entry_removed d rid) (indexes_ t) l /\
    logged REDO_DELETE (trx_id_ (current_trx db)) name rid d r /\ log_ready (rs ++ [r]) db'.

(** What the transaction makes of a deletion; its refusal is not looked at. *)
Lemma trx_delete_run (t : Table) trx counter name rid d :
  table_ok t -> rec_ok n d -> trx_id_ trx <> 0 ->
  exists rc trx' d', Trx.delete_record trx counter name (trx_offset (table_meta_ t)) rid d = Some (rc, (trx', counter, d')) /\
    trx_id_ trx' = trx_id_ trx /\ rec_ok n d'.
Proof using Type.
  intros Ht Hd Hid. unfold Trx.delete_record, start_if_not_started. rewrite (proj2 (Z.eqb_neq _ _) Hid).
  destruct (stamp_rec t d (trx_id_ trx) true Ht Hd) as (d' & E & Hd').
  destruct (find_operation trx name rid) as [[]|]; try (by eexists _, _, _).
  - eexists _, _, _. split; [done|]. split; [|done]. unfold delete_operation. by destruct (operations_ trx !! name).
  - eexists _, _, _. rewrite E. by split_and!.
Qed.

Lemma delete_run db name t rs rid d :
  opened_tables_ db !! name = Some t -> table_ok t -> records t rid = Some d -> 0 < trx_id_ (current_trx db) <= INT_MAX ->
  name_ok name -> log_fits -> log_ready rs db ->
  match Table.delete_record uninit buffer_blocks fuel true name rid db with
  | Ret _ db' => deleted db name t rs rid d db'
  | Err rc db' => rc = LOGBUF_FULL /\ deleted db name t rs rid d db'
  | Stuck => False
  end.
Proof using All.
  intros Hdb Ht Hd Htrx Hname Hfits Hready. pose proof (db_with_id db name t Hdb) as Hid.
  destruct (store_map_ok _ _ _ (t_store t Ht) Hd) as [Hrec Hrid].
  destruct (delete_entries_run (indexes_ t) d rid false (t_indexes t Ht) (all_entries t rid d Ht Hd)) as (l & Hdel & Hl).
  destruct (store_delete_law (record_handler_ t) rid (t_store t Ht) ltac:(by eexists)) as (s & Es & Hs).
  destruct (trx_delete_run t (current_trx db) (trx_counter db) name rid d Ht Hrec ltac:(lia)) as (rc & trx' & d' & Etrx & Hid' & Hd').
  destruct Hs as (Hsinv & Hsmap & Hsid).
  destruct (store_poke_law s rid d' Hsinv Hd' (Hsid _ Hrid)) as (s2 & Es2 & Hs2).
  assert (Hstep : store_step (record_handler_ t) s2 (upd (records t) rid None)).
  { destruct Hs2 as (Hinv2 & Hmap2 & Hid2). split; [done|]. split; [|auto]. intros x. rewrite Hmap2. unfold upd at 1.
    case_decide as Hx; [|by rewrite Hsmap]. rewrite Hsmap. unfold upd. by rewrite !decide_True. }
  set (m := clog_manager_ db). set (t2 := with_parts t s2 l). set (db2 := db_with db name t2 trx' m).
  assert (Hfront : Table.delete_record uninit buffer_blocks fuel true name rid db =
    log_record uninit buffer_blocks fuel REDO_DELETE name 0 (Some (rid, Some d')) db2).
  { unfold Table.delete_record. rewrite <- Hid at 1. fold m. rewrite (bind_Ret _ _ _ _ _ (meta_run db name t (current_trx db) m)).
    assert (E1 : with_store name (store_peek rid) (db_with db name t (current_trx db) m) = Ret d (db_with db name t (current_trx db) m)).
    { rewrite with_store_run, (store_peek_law _ _ _ (t_store t Ht) Hd). by rewrite parts_id. }
    rewrite (bind_Ret _ _ _ _ _ E1). unfold delete_entry_of_indexes.
    rewrite (bind_Ret _ _ _ _ _ (on_indexes_run db name t (current_trx db) m (fun l => delete_entries l d rid false SUCCESS) SUCCESS l Hdel)).
    unfold return_rc. rewrite decide_True by done. rewrite (bind_Ret (mret tt) _ _ tt _ eq_refl).
    assert (E2 : with_store name (store_delete rid) (db_with db name (with_parts t (record_handler_ t) l) (current_trx db) m) =
      Ret tt (db_with db name (with_parts t s l) (current_trx db) m)) by (rewrite with_store_run; cbn [record_handler_ with_parts]; by rewrite Es).
    rewrite (bind_Ret _ _ _ _ _ E2), !bind_gets. unfold db_with at 1 2. cbn [current_trx trx_counter]. rewrite Etrx.
    rewrite (bind_Ret (of_option (Some _)) _ _ _ _ eq_refl). cbn beta iota. rewrite !bind_modify.
    assert (E3 : with_store name (store_poke rid d') (db_with db name (with_parts t s l) trx' m) = Ret tt db2)
      by (rewrite with_store_run; cbn [record_handler_ with_parts]; by rewrite Es2).
    change (put_counter (trx_counter db) (put_trx trx' (db_with db name (with_parts t s l) (current_trx db) m)))
      with (db_with db name (with_parts t s l) trx' m).
    by rewrite (bind_Ret _ _ _ _ _ E3). }
  rewrite Hfront. pose proof (store_rid_int _ _ (t_store t Ht) Hrid) as Hint.
  destruct (log_record_run REDO_DELETE name rid d' rs db2) as (m2 & r & rc2 & E & Hrc & Hr & Hready'); try done.
  { by right; right. } { by destruct Hd'. } { cbn. rewrite Hid'. unfold is_int32, INT_MIN, INT_MAX in *. lia. }
  change (logged_len REDO_DELETE) with 0 in E. rewrite E.
  assert (Hout : deleted db name t rs rid d (put_clog m2 db2)).
  { exists s2, l, trx', m2, r. split; [done|]. split; [done|]. split; [by eapply table_ok_remove|]. split; [apply Hstep|]. split; [done|].
    cbn [db2 db_with current_trx] in Hr. rewrite Hid' in Hr. split; [|done].
    destruct Hr as (? & ? & ? & ? & ? & _). split_and!; try done. }
  case_decide as Hc; [done|]. split; [by destruct Hrc|done].
Qed.

(** ** Rolling back insertions *)

Lemma rollback_insert_run db name t trx m rid d :
  table_ok t -> records t rid = Some d ->
  exists t', rollback_insert name rid (db_with db name t trx m) = Ret tt (db_with db name t' trx m) /\
    table_ok t' /\ forall x, records t' x = upd (records t) rid None x.
Proof.
  intros Ht Hd.
  destruct (delete_entries_run (indexes_ t) d rid false (t_indexes t Ht) (all_entries t rid d Ht Hd)) as (l & Hdel & Hl).
  destruct (store_delete_law (record_handler_ t) rid (t_store t Ht) ltac:(by eexists)) as (s & Es & Hs).
  exists (with_parts t s l). split; [|split; [by eapply table_ok_remove|apply Hs]].
  unfold rollback_insert. pose proof (store_get_law _ _ _ (t_store t Ht) Hd) as Hget.
  assert (E1 : with_store name (store_get rid) (db_with db name t trx m) = Ret d (db_with db name t trx m)).
  { rewrite with_store_run, Hget. by rewrite parts_id. }
  rewrite (bind_Ret _ _ _ _ _ E1). unfold delete_entry_of_indexes.
  rewrite (bind_Ret _ _ _ _ _ (on_indexes_run db name t trx m (fun l => delete_entries l d rid false SUCCESS) SUCCESS l Hdel)).
  unfold return_rc. rewrite decide_True by done. rewrite (bind_Ret (mret tt) _ _ tt _ eq_refl).
  rewrite with_store_run. cbn [record_handler_ with_parts]. by rewrite Es.
Qed.

Lemma rollback_inserts_run db name trx m (l : list (RID * Operation.Type_)) : forall t rc,
  table_ok t -> NoDup l.*1 -> Forall (fun o => o.2 = Operation.INSERT /\ is_Some (records t o.1)) l ->
  exists t', for_operations rollback_operation (map (fun o => (name, o.1, o.2)) l) rc (db_with db name t trx m) =
      Ret (match l with [] => rc | _ => SUCCESS end) (db_with db name t' trx m) /\
    table_ok t' /\ forall x, records t' x = if decide (x ∈ l.*1) then None else records t x.
Proof.
  induction l as [|[rid ty] l IH]; intros t rc Ht Hnd Hl.
  { exists t. split; [done|]. split; [done|]. intros x. by rewrite decide_False by (by intros ?%elem_of_nil). }
  inversion Hl as [|? ? [Hty [d Hd]] Hl']; subst. simpl in Hty, Hd. subst ty. simpl in Hnd. apply NoDup_cons in Hnd as [Hnin Hnd].
  destruct (rollback_insert_run db name t trx m rid d Ht Hd) as (t1 & E1 & Ht1 & Hr1).
  destruct (IH t1 SUCCESS Ht1 Hnd) as (t' & E & Ht' & Hr').
  { apply list.Forall_forall. intros [rid' ty'] Ho. apply (proj1 (list.Forall_forall _ _) Hl') in Ho as Ho'. split; [apply Ho'|].
    simpl. rewrite Hr1. unfold upd. rewrite decide_False; [apply Ho'|]. intros ->. apply Hnin.
    apply list_elem_of_fmap. by exists (rid, ty'). }
  exists t'. split; [|split; [done|]].
  - cbn [map for_operations fst snd]. unfold rc_of at 1. unfold mbind at 1, M_bind at 1. cbn [rollback_operation]. rewrite E1.
    rewrite E. by destruct l.
  - intros x. rewrite Hr', Hr1. unfold upd. simpl. destruct (decide (x ∈ l.*1)) as [Hx|Hx].
    + by rewrite decide_True by (by right).
    + destruct (decide (x = rid)) as [->|Hne]; [by rewrite decide_True by left|].
      rewrite decide_False; [done|]. by rewrite elem_of_cons; intros [|].
Qed.

(** What the transaction remembers after an insertion. *)
Lemma find_inserted trx name rid x :
  find_operation trx name rid = None ->
  find_operation (insert_operation trx name Operation.INSERT rid) name x =
    if decide (x = rid) then Some Operation.INSERT else find_operation trx name x.
Proof.
  intros Hf. unfold find_operation, insert_operation, operations_of in *. cbn [operations_]. rewrite lookup_insert_eq, Hf.
  cbn [default from_option id]. case_decide as Hx; [subst x; by rewrite lookup_insert_eq|]. by rewrite lookup_insert_ne.
Qed.

Lemma find_deleted trx name rid x :
  find_operation (delete_operation trx name rid) name x = if decide (x = rid) then None else find_operation trx name x.
Proof.
  unfold find_operation, delete_operation, operations_of. destruct (operations_ trx !! name) as [ops|] eqn:E; cbn [operations_].
  - rewrite lookup_insert_eq. cbn [default from_option id]. case_decide as Hx; [subst x; by rewrite lookup_delete_eq|].
    by rewrite lookup_delete_ne.
  - rewrite E. cbn [default from_option id]. case_decide; by rewrite !lookup_empty.
Qed.

Lemma find_after_insert trx name rid :
  find_operation trx name rid = None \/ find_operation trx name rid = Some Operation.DELETE ->
  forall x, find_operation (Trx.insert_record trx name rid).2 name x =
    if decide (x = rid) then Some Operation.INSERT else find_operation trx name x.
Proof.
  intros Hf x. unfold Trx.insert_record. destruct Hf as [Hf|Hf]; rewrite Hf; cbn [snd]; [by apply find_inserted|].
  rewrite find_inserted by (by rewrite find_deleted, decide_True). case_decide as Hx; [done|]. by rewrite find_deleted, decide_False.
Qed.

(** The transaction has inserted exactly the records that [t] has more than [t0]. *)
Definition only_inserts (name : TableName) (t0 t : Table) (trx : Trx) : Prop :=
  (forall name', name' <> name -> operations_ trx !! name' = None) /\
  forall rid, match find_operation trx name rid with
    | Some Operation.INSERT => is_Some (records t rid) /\ records t0 rid = None
    | Some _ => False
    | None => records t rid = records t0 rid
    end.

Lemma only_inserts_fresh db name t0 t : only_inserts name t0 t (current_trx db) -> ops_fresh db name t.
Proof.
  intros [_ H'] rid Hn. specialize (H' rid). destruct (find_operation _ _ _) as [[]|]; try done; [|by left].
  destruct H' as [[d Hd] _]. congruence.
Qed.

Lemma only_inserts_insert name t0 t t' trx rid d :
  only_inserts name t0 t trx -> records t rid = None -> (forall x, records t' x = upd (records t) rid (Some d) x) ->
  only_inserts name t0 t' (Trx.insert_record trx name rid).2.
Proof.
  intros [Hn Hops] Hnone Hr. pose proof (Hops rid) as Hrid. unfold Trx.insert_record.
  assert (Hf : find_operation trx name rid = None).
  { destruct (find_operation trx name rid) as [[]|] eqn:Ef; try done. destruct Hrid as [[? ?] _]. congruence. }
  pose proof (find_after_insert trx name rid (or_introl Hf)) as Efind. unfold Trx.insert_record in *. rewrite Hf in *.
  cbn [snd]. split.
  - intros name' Hne. unfold insert_operation. cbn [operations_]. rewrite lookup_insert_ne by done. by apply Hn.
  - intros x. rewrite Efind, Hr. unfold upd. case_decide as Hx; [subst x|apply Hops]. split; [by eexists|]. congruence.
Qed.

(** The whole rollback. *)
Lemma rollback_run db name t0 t :
  opened_tables_ db !! name = Some t -> table_ok t -> only_inserts name t0 t (current_trx db) ->
  exists t', rollback db = Ret tt (db_with db name t' (mk_Trx 0 ∅) (clog_manager_ db)) /\
    table_ok t' /\ forall x, records t' x = records t0 x.
Proof.
  intros Hdb Ht [Hn Hops]. unfold rollback, end_trx. rewrite bind_gets.
  set (trx := current_trx db) in *. set (ops := operations_of trx name).
  assert (Hlist : trx_list trx = map (fun o => (name, o.1, o.2)) (map_to_list ops)).
  { assert (Hflat : forall l : list (RID * Operation.Type_), (l ≫= fun '(rid, ty) => [(name, rid, ty)]) = map (fun o => (name, o.1, o.2)) l).
    { intros l. induction l as [|[] l IH]; [done|]. simpl. by rewrite <- IH. }
    unfold trx_list, ops, operations_of. destruct (operations_ trx !! name) as [o|] eqn:Eo.
    - assert (operations_ trx = {[name := o]}) as ->.
      { apply map_eq. intros name'. destruct (decide (name' = name)) as [->|Hne]; [by rewrite Eo, lookup_singleton_eq|].
        rewrite lookup_singleton_ne by done. by apply Hn. }
      rewrite map_to_list_singleton. simpl. rewrite app_nil_r. apply Hflat.
    - assert (operations_ trx = ∅) as ->.
      { apply map_eq. intros name'. rewrite lookup_empty. destruct (decide (name' = name)) as [->|Hne]; [done|]. by apply Hn. }
      by rewrite !map_to_list_empty. }
  rewrite Hlist.
  destruct (rollback_inserts_run db name trx (clog_manager_ db) (map_to_list ops) t SUCCESS Ht) as (t' & E & Ht' & Hr).
  { apply NoDup_fst_map_to_list. }
  { apply list.Forall_forall. intros [rid ty] Ho. apply elem_of_map_to_list in Ho. specialize (Hops rid).
    assert (E : find_operation trx name rid = Some ty) by exact Ho. rewrite E in Hops. destruct ty; [split; [done|apply Hops]|done..]. }
  unfold trx in E. rewrite (db_with_id db name t Hdb) in E.
  rewrite (bind_Ret _ _ _ _ _ E). rewrite bind_modify. exists t'. split; [|split; [done|]].
  - unfold return_rc. rewrite decide_True by (by destruct (map_to_list ops)). done.
  - intros x. rewrite Hr. specialize (Hops x). destruct (find_operation trx name x) as [ty|] eqn:Ex.
    + rewrite decide_True; [|apply list_elem_of_fmap; exists (x, ty); split; [done|by apply elem_of_map_to_list]].
      destruct ty; try done. by destruct Hops as [_ ->].
    + rewrite decide_False; [done|]. intros ([x' ty] & -> & Hin)%list_elem_of_fmap. apply elem_of_map_to_list in Hin.
      assert (E' : find_operation trx name x' = Some ty) by exact Hin. simpl in Ex. congruence.
Qed.
End table.
