(* ===== verification/TableRecover.v ===== *)
(** * Recovery of a database from its log

    [replay] is what the records of a log say about the records of the tables;
    [Db::recover] ([Table.recover_db]) does the same to the stores.  [replay] is a
    function on finite maps that stops ([None]) where a record of the log cannot be
    redone: its transaction is unknown, or its record is there (an insertion) or
    is missing (an update or deletion). *)

From Stdlib Require Import ZArith Lia.
From stdpp Require Import base gmap tactics.
From stdpp Require Import list.
From S2P Require Import Prelude.
From S2P Require Import Monad.
From S2P Require Import Bytes.
From S2P Require Import Comparator.
From S2P Require Import ClogRecord.
From S2P Require Import Clog.
From S2P Require Import ClogSpec.
From S2P Require Import ClogLog.
From S2P Require Import ClogRecover.
From S2P Require Import Redo.
From S2P Require Import Trx.
From S2P Require Import Store.
From S2P Require Import Table.
From S2P Require Import TableSpec.
#[local] Open Scope Z_scope.

(** ** The reference *)

(** The records of a table and of all tables. *)
Abbreviation Records := (gmap RID (list Z)).
Abbreviation DbRecords := (gmap TableName Records).

#[global] Instance is_char_dec c : Decision (is_char c).
Proof. unfold is_char. apply _. Defined.
#[global] Instance rec_ok_dec n d : Decision (rec_ok n d).
Proof. unfold rec_ok. apply _. Defined.

Section replay.
(** The size of the records. *)
Context (n : Z).

Definition redo_effect (r : CLogRecord) (g : Records) : option Records :=
  match flag_ r with
  | REDO_INSERT =>
      d ← load (data_ r) 0 (data_len_ r);
      if decide (rec_ok n d /\ g !! rid_ r = None) then Some (<[rid_ r := d]> g) else None
  | REDO_UPDATE =>
      d ← load (data_ r) 0 (data_len_ r);
      if decide (rec_ok n d /\ is_Some (g !! rid_ r)) then Some (<[rid_ r := d]> g) else None
  | REDO_DELETE => if decide (is_Some (g !! rid_ r)) then Some (delete (rid_ r) g) else None
  | _ => None
  end.

Fixpoint replay (status : Z -> option bool) (l : list CLogRecord) (G : DbRecords) : option DbRecords :=
  match l with
  | [] => Some G
  | r :: l =>
      if is_redo r then
        committed ← status (ClogRecord.trx_id_ (hdr_ r));
        if committed : bool then
          name ← c_string (table_name_ r);
          match G !! name with
          | None => replay status l G
          | Some g => g ← redo_effect r g; replay status l (<[name := g]> G)
          end
        else replay status l G
      else replay status l G
  end.

(** The greatest identifier of a committed transaction that wrote to a table at hand. *)
Fixpoint last_trx (status : Z -> option bool) (l : list CLogRecord) (G : DbRecords) (m : Z) : Z :=
  match l with
  | [] => m
  | r :: l =>
      let here := match c_string (table_name_ r) with Some name => bool_decide (is_Some (G !! name)) | None => false end in
      last_trx status l G
        (if is_redo r && bool_decide (status (ClogRecord.trx_id_ (hdr_ r)) = Some true) && here
         then Z.max m (to_uint32 (ClogRecord.trx_id_ (hdr_ r))) else m)
  end.

Lemma replay_app status l1 l2 G : replay status (l1 ++ l2) G = (G' ← replay status l1 G; replay status l2 G').
Proof.
  revert G. induction l1 as [|r l1 IH]; intros G; [done|]. simpl. destruct (is_redo r); [|apply IH].
  destruct (status _) as [[]|]; [|apply IH|done]. cbn [mbind option_bind]. destruct (c_string _) as [name|]; [|done].
  cbn [mbind option_bind]. destruct (G !! name) as [g|]; [|apply IH]. destruct (redo_effect r g); [|done].
  cbn [mbind option_bind]. apply IH.
Qed.

(** Only the names of the tables matter for the last transaction. *)
Lemma last_trx_dom status l G name g m : is_Some (G !! name) -> last_trx status l (<[name := g]> G) m = last_trx status l G m.
Proof.
  intros Hn. revert m. induction l as [|r l IH]; intros m; [done|]. simpl. rewrite IH.
  assert (E : forall name', bool_decide (is_Some (<[name := g]> G !! name')) = bool_decide (is_Some (G !! name'))).
  { intros name'. apply bool_decide_ext. destruct (decide (name' = name)) as [->|Hne].
    - rewrite lookup_insert_eq. split; [done|by eexists].
    - by rewrite lookup_insert_ne. }
  destruct (c_string _) as [name'|]; [|done]. by rewrite E.
Qed.

(** Only the data records count, and the status of their transactions. *)
Lemma replay_filter status l G : replay status (filter (fun r => is_redo r = true) l) G = replay status l G.
Proof.
  revert G. induction l as [|r l IH]; intros G; [done|]. rewrite filter_cons. case_decide as E; simpl; [rewrite E|].
  - destruct (status _) as [[]|]; [|apply IH|done]. cbn [mbind option_bind]. destruct (c_string _) as [name|]; [|done].
    cbn [mbind option_bind]. destruct (G !! name) as [g|]; [|apply IH]. destruct (redo_effect r g); [|done].
    cbn [mbind option_bind]. apply IH.
  - apply not_true_is_false in E. rewrite E. apply IH.
Qed.

Lemma last_trx_filter status l G m : last_trx status (filter (fun r => is_redo r = true) l) G m = last_trx status l G m.
Proof.
  revert m. induction l as [|r l IH]; intros m; [done|]. rewrite filter_cons. case_decide as E; simpl; [apply IH|].
  apply not_true_is_false in E. rewrite E. apply IH.
Qed.

Lemma replay_status status status' l G :
  Forall (fun r => is_redo r = true -> status (ClogRecord.trx_id_ (hdr_ r)) = status' (ClogRecord.trx_id_ (hdr_ r))) l ->
  replay status l G = replay status' l G.
Proof.
  intros H. revert G. induction H as [|r l Hr _ IH]; intros G; [done|]. simpl. destruct (is_redo r); [|apply IH].
  rewrite Hr by done. destruct (status' _) as [[]|]; [|apply IH|done]. cbn [mbind option_bind].
  destruct (c_string _) as [name|]; [|done]. cbn [mbind option_bind]. destruct (G !! name) as [g|]; [|apply IH].
  destruct (redo_effect r g); [|done]. cbn [mbind option_bind]. apply IH.
Qed.

(** Records that [cmp_eq] takes for equal have the same effect. *)
Lemma cmp_eq_fields r r' :
  cmp_eq r r' = true -> is_redo r = true ->
  flag_ r' = flag_ r /\ c_string (table_name_ r') = c_string (table_name_ r) /\ rid_ r' = rid_ r /\
  (has_data (flag_ r) = true -> load (data_ r') 0 (data_len_ r') = load (data_ r) 0 (data_len_ r)).
Proof.
  unfold cmp_eq, is_redo, same_name. intros [Hf H]%andb_true_iff Hr. apply bool_decide_eq_true in Hf. rewrite <- Hf. split; [done|].
  assert (Hn : forall o1 o2 : option (list Z), match o1, o2 with Some s1, Some s2 => bool_decide (s1 = s2) | _, _ => false end = true -> o2 = o1).
  { intros [] []; try done. by intros ->%bool_decide_eq_true. }
  destruct (flag_ r); try done.
  1-2: (rewrite !andb_true_iff, !bool_decide_eq_true, Z.eqb_eq in H; destruct H as ((((_ & H1) & H2) & H3) & H4);
        split; [by apply Hn|]; split; [done|]; intros _; by rewrite <- H3).
  rewrite !andb_true_iff, !bool_decide_eq_true in H. destruct H as ((_ & H1) & H2). split; [by apply Hn|]. done.
Qed.

Lemma redo_effect_eq r r' g :
  cmp_eq r r' = true -> is_redo r = true -> redo_effect r' g = redo_effect r g.
Proof.
  intros H Hr. destruct (cmp_eq_fields r r' H Hr) as (Ef & _ & Erid & Hd). unfold redo_effect. rewrite Ef, Erid.
  destruct (flag_ r); try done; by rewrite Hd.
Qed.

Lemma is_redo_eq r r' : cmp_eq r r' = true -> is_redo r = true -> is_redo r' = true.
Proof. intros H Hr. destruct (cmp_eq_fields r r' H Hr) as (Ef & _). unfold is_redo in *. by rewrite Ef. Qed.

Lemma replay_eq status l l' G :
  Forall (fun r => is_redo r = true) l -> Forall2 (fun r r' => cmp_eq r r' = true /\ hdr_ r' = hdr_ r) l l' ->
  replay status l' G = replay status l G /\ forall m, last_trx status l' G m = last_trx status l G m.
Proof.
  intros Hl H. revert Hl. revert G. induction H as [|r r' l l' [Hc Hh] _ IH]; intros G Hl; [done|]. inversion Hl as [|? ? Hr Hl']; subst.
  destruct (cmp_eq_fields r r' Hc Hr) as (Ef & En & _ & _). simpl. rewrite (is_redo_eq r r' Hc Hr), Hr, Hh, En. split.
  - destruct (status _) as [[]|]; [|by apply (proj1 (IH _ Hl'))|done]. cbn [mbind option_bind]. destruct (c_string (table_name_ r)) as [name|]; [|done].
    cbn [mbind option_bind]. destruct (G !! name) as [g|]; [|by apply (proj1 (IH _ Hl'))]. rewrite (redo_effect_eq r r') by done.
    destruct (redo_effect r g); [|done]. cbn [mbind option_bind]. by apply (proj1 (IH _ Hl')).
  - intros m. by apply (proj2 (IH _ Hl')).
Qed.
End replay.

(** ** The stores follow the reference *)

Lemma upd_insert {A} (f : RID -> option A) (g : gmap RID A) rid d x :
  (forall y, f y = g !! y) -> upd f rid (Some d) x = <[rid := d]> g !! x.
Proof. intros H. unfold upd. case_decide as Hx; [subst x; by rewrite lookup_insert_eq|]. by rewrite lookup_insert_ne. Qed.
Lemma upd_delete {A} (f : RID -> option A) (g : gmap RID A) rid x :
  (forall y, f y = g !! y) -> upd f rid None x = delete rid g !! x.
Proof. intros H. unfold upd. case_decide as Hx; [subst x; by rewrite lookup_delete_eq|]. by rewrite lookup_delete_ne. Qed.

Section recover.
Context {S I : Type} (n : Z) `{RecordStoreLaws S n, IndexStore I}.
#[local] Abbreviation Table := (Table (S := S) (I := I)).
#[local] Abbreviation Db := (Db (S := S) (I := I)).

(** The stores hold the records of [G]. *)
Definition holds (t : Table) (g : Records) : Prop := store_inv (record_handler_ t) /\ forall x, records t x = g !! x.
Definition agrees (db : Db) (G : DbRecords) : Prop :=
  forall name : TableName, match opened_tables_ db !! name, G !! name with
    | Some t, Some g => holds t g
    | None, None => True
    | _, _ => False
    end.

(** The identifiers in the log belong to the stores. *)
Definition known (db : Db) (l : list CLogRecord) : Prop :=
  forall r (name : TableName) t, r ∈ l -> is_redo r = true -> c_string (table_name_ r) = Some name -> opened_tables_ db !! name = Some t ->
    store_rid (record_handler_ t) (rid_ r).

(** Another database of the same tables, which differ in the records only. *)
Definition same_but_records (db db' : Db) : Prop :=
  current_trx db' = current_trx db /\ trx_counter db' = trx_counter db /\ clog_manager_ db' = clog_manager_ db /\
  forall name : TableName, match opened_tables_ db !! name, opened_tables_ db' !! name with
    | Some t, Some t' => table_meta_ t' = table_meta_ t /\ indexes_ t' = indexes_ t /\
                         forall x, store_rid (record_handler_ t) x -> store_rid (record_handler_ t') x
    | None, None => True
    | _, _ => False
    end.

#[local] Instance same_but_records_preorder : PreOrder same_but_records.
Proof using Type.
  split.
  - intros db. repeat split. intros name. by destruct (opened_tables_ db !! name).
  - intros a b c (A1 & A2 & A3 & A4) (B1 & B2 & B3 & B4). split_and!; [congruence..|]. intros name. specialize (A4 name). specialize (B4 name).
    destruct (opened_tables_ a !! name), (opened_tables_ b !! name), (opened_tables_ c !! name); try done.
    destruct A4 as (? & ? & ?), B4 as (? & ? & ?). split_and!; [congruence..|auto].
Qed.

Lemma known_step db db' r l : same_but_records db db' -> known db (r :: l) -> known db' l.
Proof using Type.
  intros (_ & _ & _ & Ht) Hk r' name t' Hr Hredo Hn Ht'. specialize (Ht name). rewrite Ht' in Ht.
  destruct (opened_tables_ db !! name) as [t|] eqn:E; [|done]. apply Ht. eapply Hk; [by right|done..].
Qed.

Lemma put_store_step db name t s f :
  opened_tables_ db !! name = Some t -> store_step (record_handler_ t) s f ->
  same_but_records db (put_table name (mk_Table (table_meta_ t) s (indexes_ t)) db).
Proof using Type.
  intros Ht (_ & _ & Hs). repeat split. intros name'. unfold put_table. cbn [opened_tables_].
  destruct (decide (name' = name)) as [->|Hne].
  - by rewrite Ht, lookup_insert_eq.
  - rewrite lookup_insert_ne by done. by destruct (opened_tables_ db !! name').
Qed.

Lemma put_store_agrees db name t s G g :
  agrees db G -> opened_tables_ db !! name = Some t -> store_step (record_handler_ t) s (fun x => g !! x) ->
  agrees (put_table name (mk_Table (table_meta_ t) s (indexes_ t)) db) (<[name := g]> G).
Proof using Type.
  intros HG Ht (Hs & Hm & _) name'. unfold put_table. cbn [opened_tables_]. destruct (decide (name' = name)) as [->|Hne].
  - by rewrite !lookup_insert_eq.
  - rewrite !lookup_insert_ne by done. apply HG.
Qed.

Lemma redo_run db name t g g' r :
  c_string (table_name_ r) = Some name -> opened_tables_ db !! name = Some t -> holds t g ->
  store_rid (record_handler_ t) (rid_ r) -> redo_effect n r g = Some g' ->
  exists s, redo r db = Ret tt (put_table name (mk_Table (table_meta_ t) s (indexes_ t)) db) /\
    store_step (record_handler_ t) s (fun x => g' !! x).
Proof using H1.
  intros Hn Ht [Hs Hg] Hrid He. unfold records in Hg.
  assert (Hstep : forall s f (g' : Records), store_step (record_handler_ t) s f -> (forall x, f x = g' !! x) ->
    store_step (record_handler_ t) s (fun x => g' !! x)).
  { intros s f g2 (A & B & C) E. split; [done|]. split; [|done]. intros x. by rewrite B, E. }
  assert (Hfront : redo r db =
    match flag_ r with
    | REDO_INSERT => (rec ← of_option (load (data_ r) 0 (data_len_ r)); recover_insert_record name (rid_ r) rec) db
    | REDO_UPDATE => (rec ← of_option (load (data_ r) 0 (data_len_ r)); recover_update_record name (rid_ r) rec) db
    | REDO_DELETE => recover_delete_record name (rid_ r) db
    | _ => Ret tt db
    end).
  { unfold redo. rewrite Hn. rewrite (bind_Ret (of_option (Some name)) _ db name db eq_refl). rewrite (bind_Ret get_state _ db db db eq_refl).
    rewrite Ht. by destruct (flag_ r). }
  rewrite Hfront. unfold redo_effect in He. destruct (flag_ r); try done.
  - destruct (load _ _ _) as [d|]; [|done]. cbn [mbind option_bind] in He. case_decide as Hd; [|done]. injection He as <-.
    destruct Hd as [Hd Hnone]. rewrite <- Hg in Hnone. destruct (store_recover_law _ (rid_ r) d Hs Hd Hrid Hnone) as (s & E & Hst).
    exists s. split; [|eapply Hstep; [exact Hst|intros x; by apply upd_insert]].
    rewrite (bind_Ret (of_option (Some d)) _ db d db eq_refl). unfold recover_insert_record, with_store. by rewrite Ht, E.
  - destruct (load _ _ _) as [d|]; [|done]. cbn [mbind option_bind] in He. case_decide as Hd; [|done]. injection He as <-.
    destruct Hd as [Hd Hsome]. rewrite <- Hg in Hsome. destruct (store_update_law _ (rid_ r) d Hs Hd Hsome) as (s & E & Hst).
    exists s. split; [|eapply Hstep; [exact Hst|intros x; by apply upd_insert]].
    rewrite (bind_Ret (of_option (Some d)) _ db d db eq_refl). unfold recover_update_record, with_store. by rewrite Ht, E.
  - case_decide as Hsome; [|done]. injection He as <-. rewrite <- Hg in Hsome.
    destruct (store_delete_law _ (rid_ r) Hs Hsome) as (s & E & Hst).
    exists s. split; [|eapply Hstep; [exact Hst|intros x; by apply upd_delete]].
    unfold recover_delete_record, with_store. by rewrite Ht, E.
Qed.

(** The whole list. *)
Lemma redo_all_run status (commited : gmap Z bool) l : (forall trx, commited !! trx = status trx) ->
  forall db G G' m, agrees db G -> known db l -> replay n status l G = Some G' ->
  exists db', redo_all commited l m db = Ret (last_trx status l G m) db' /\ agrees db' G' /\ same_but_records db db'.
Proof using H1.
  intros Hst. induction l as [|r l IH]; intros db G G' m HG Hk Hr.
  { injection Hr as <-. by exists db. }
  simpl in Hr. cbn [redo_all last_trx]. unfold is_redo in *.
  assert (Hskip : forall m', replay n status l G = Some G' ->
    exists db', redo_all commited l m' db = Ret (last_trx status l G m') db' /\ agrees db' G' /\ same_but_records db db').
  { intros m' Hr'. eapply IH; [done| |done]. by apply (known_step db db r). }
  pose proof (Hk r) as Hkr. unfold is_redo in Hkr.
  assert (Hredo : forall (Hflag : match flag_ r with REDO_MTR_BEGIN | REDO_MTR_COMMIT => False | _ => True end),
    (committed ← status (ClogRecord.trx_id_ (hdr_ r));
     if committed : bool then
       name ← c_string (table_name_ r);
       match G !! name with None => replay n status l G | Some g => g ← redo_effect n r g; replay n status l (<[name := g]> G) end
     else replay n status l G) = Some G' ->
    exists db',
      match commited !! ClogRecord.trx_id_ (hdr_ r) with
      | None => throw GENERIC_ERROR
      | Some false => redo_all commited l m
      | Some true =>
          name ← of_option (c_string (table_name_ r));
          db ← get_state;
          match opened_tables_ db !! name with
          | None => redo_all commited l m
          | Some _ => redo r;; redo_all commited l (Z.max m (to_uint32 (ClogRecord.trx_id_ (hdr_ r))))
          end
      end db =
      Ret (last_trx status l G
        (if bool_decide (status (ClogRecord.trx_id_ (hdr_ r)) = Some true) &&
            match c_string (table_name_ r) with Some name => bool_decide (is_Some (G !! name)) | None => false end
         then Z.max m (to_uint32 (ClogRecord.trx_id_ (hdr_ r))) else m)) db' /\
      agrees db' G' /\ same_but_records db db').
  { intros Hflag Hr'. rewrite Hst. destruct (status _) as [[]|]; [| |done]; cbn [mbind option_bind] in Hr'.
    2:{ rewrite bool_decide_false by done. by apply Hskip. }
    rewrite bool_decide_true by done. destruct (c_string (table_name_ r)) as [name|] eqn:En; [|done].
    cbn [mbind option_bind andb] in Hr' |- *. rewrite (bind_Ret (of_option (Some name)) _ db name db eq_refl).
    rewrite (bind_Ret get_state _ db db db eq_refl). pose proof (HG name) as HGn.
    destruct (opened_tables_ db !! name) as [t|] eqn:Et, (G !! name) as [g|] eqn:Eg; try done.
    2:{ rewrite bool_decide_false by (by intros [? ?]). by apply Hskip. }
    rewrite bool_decide_true by done.
    destruct (redo_effect n r g) as [g'|] eqn:Ee; [|done]. cbn [mbind option_bind] in Hr'.
    destruct (redo_run db name t g g' r En Et HGn) as (s & E & Hs); [|done|].
    { eapply Hkr; [left| |reflexivity|done]. by destruct (flag_ r). }
    rewrite (bind_Ret _ _ _ _ _ E). pose proof (put_store_step db name t s _ Et Hs) as Hsame.
    destruct (IH _ (<[name := g']> G) G' (Z.max m (to_uint32 (ClogRecord.trx_id_ (hdr_ r)))) (put_store_agrees db name t s G g' HG Et Hs)
      (known_step _ _ _ _ Hsame Hk) Hr') as (db' & E' & HG' & Hsame').
    exists db'. split; [|split; [done|by etransitivity]]. rewrite E'. f_equal. by apply last_trx_dom; exists g. }
  clear Hkr. assert (Herr : forall g, flag_ r = REDO_ERROR -> redo_effect n r g = None) by (intros g E; unfold redo_effect; by rewrite E).
  destruct (flag_ r); cbn [andb]; try (apply Hskip; exact Hr); try (apply Hredo; [done|exact Hr]).
  destruct (status _) as [[]|]; [| |done]; cbn [mbind option_bind] in Hr.
  - destruct (c_string (table_name_ r)) as [name|]; [|done]. cbn [mbind option_bind] in Hr.
    destruct (G !! name) eqn:Eg; [by rewrite Herr in Hr|]. rewrite (bool_decide_false (is_Some None)) by (by intros [? ?]).
    rewrite andb_false_r. by apply Hskip.
  - rewrite bool_decide_false by done. by apply Hskip.
Qed.
End recover.
