(* ===== verification/Session.v ===== *)
(** * Statements of a session (sql/executor/execute_stage.cpp, session/session.cpp)

    What [ExecuteStage::handle_request] does for the statements that change data or
    end transactions, in the session's two modes: outside of BEGIN each statement
    that changes data commits by itself.  The records of an INSERT are those that
    [Table::make_record] builds; those of an UPDATE or DELETE are the ones that the
    child of the operator delivers, by their identifiers.  The client is answered
    SUCCESS exactly when the handler returns so. *)

From Stdlib Require Import ZArith Lia.
From stdpp Require Import base gmap tactics.
From stdpp Require Import list.
From S2P Require Import Prelude.
From S2P Require Import Monad.
From S2P Require Import Bytes.
From S2P Require Import Comparator.
From S2P Require Import ClogRecord.
From S2P Require Import Clog.
From S2P Require Import Trx.
From S2P Require Import Store.
From S2P Require Import Table.
#[local] Open Scope Z_scope.

Section session.
Context {S I : Type} `{RecordStore S, IndexStore I}.
Context (uninit : Z -> list Z) (buffer_blocks fuel : nat).
#[local] Abbreviation Db := (Db (S := S) (I := I)).

(** The session, with its database, which holds its transaction. *)
Record Session : Type := mk_Session { trx_multi_operation_mode_ : bool; db_ : Db }.

Definition on_db {A} (m : M Db A) : M Session A :=
  zoom db_ (fun db s => mk_Session (trx_multi_operation_mode_ s) db) m.
Definition set_trx_multi_operation_mode (b : bool) : M Session unit := modify (fun s => mk_Session b (db_ s)).
Definition is_trx_multi_operation_mode : M Session bool := gets trx_multi_operation_mode_.

(** [clog_gen_record] and [clog_append_record] for the begin or the commit. *)
Definition log_mtr (flag : CLogType) : M Db unit := log_record uninit buffer_blocks fuel flag [] 0 None.

Definition next_id : M Db unit :=
  trx ← gets current_trx; counter ← gets trx_counter;
  let '(trx, counter) := next_current_id trx counter in
  modify (put_trx trx);; modify (put_counter counter).

(** The end of a statement that changes data: it commits outside of BEGIN. *)
Definition end_statement : M Session unit :=
  multi ← is_trx_multi_operation_mode;
  if multi : bool then mret tt else on_db (log_mtr REDO_MTR_COMMIT;; next_id).

(** [Table::insert_record] for the rows of a statement: up to the first failure. *)
Fixpoint insert_records (name : TableName) (recs : list (list Z)) : M Db unit :=
  match recs with
  | [] => mret tt
  | rec :: recs => insert_record uninit buffer_blocks fuel true name rec;; insert_records name recs
  end.

(** [DeleteOperator::open] and [UpdateOperator::open]. *)
Fixpoint delete_records (name : TableName) (rids : list RID) : M Db unit :=
  match rids with
  | [] => mret tt
  | rid :: rids => delete_record uninit buffer_blocks fuel true name rid;; delete_records name rids
  end.
Fixpoint update_records (name : TableName) (change : list Z -> list Z) (rids : list RID) : M Db unit :=
  match rids with
  | [] => mret tt
  | rid :: rids => update_in_place uninit buffer_blocks fuel true name rid change;; update_records name change rids
  end.

Definition do_insert (name : TableName) (recs : list (list Z)) : M Session unit := on_db (insert_records name recs);; end_statement.
Definition do_delete (name : TableName) (rids : list RID) : M Session unit := on_db (delete_records name rids);; end_statement.
Definition do_update (name : TableName) (change : list Z -> list Z) (rids : list RID) : M Session unit :=
  on_db (update_records name change rids);; end_statement.

Definition do_begin : M Session unit := set_trx_multi_operation_mode true;; on_db (log_mtr REDO_MTR_BEGIN).
(** The transaction gets its next identifier whether the commit was logged or not. *)
Definition do_commit : M Session unit :=
  set_trx_multi_operation_mode false;;
  rc ← on_db (rc_of (log_mtr REDO_MTR_COMMIT));
  on_db next_id;;
  return_rc rc.
Definition do_clog_sync : M Session unit := on_db (fun db =>
  match clog_sync buffer_blocks (clog_manager_ db) with
  | None => Stuck
  | Some (rc, m) => if decide (rc = SUCCESS) then Ret tt (put_clog m db) else Err rc (put_clog m db)
  end).
Definition do_rollback : M Session unit :=
  rc ← on_db (rc_of rollback);
  set_trx_multi_operation_mode false;;
  return_rc rc.

Inductive Statement : Type :=
| SCF_BEGIN | SCF_COMMIT | SCF_CLOG_SYNC | SCF_ROLLBACK
| INSERT (name : TableName) (recs : list (list Z))
| UPDATE (name : TableName) (change : list Z -> list Z) (rids : list RID)
| DELETE (name : TableName) (rids : list RID).

(** The code that is answered.  The case of SCF_CLOG_SYNC has no break and runs into
    that of SCF_ROLLBACK. *)
Definition handle_request (s : Statement) : M Session RC :=
  match s with
  | SCF_BEGIN => rc_of do_begin
  | SCF_COMMIT => rc_of do_commit
  | SCF_CLOG_SYNC => rc_of do_clog_sync;; rc_of do_rollback
  | SCF_ROLLBACK => rc_of do_rollback
  | INSERT name recs => rc_of (do_insert name recs)
  | UPDATE name change rids => rc_of (do_update name change rids)
  | DELETE name rids => rc_of (do_delete name rids)
  end.

(** A script, with the answers. *)
Fixpoint run_script (l : list Statement) : M Session (list RC) :=
  match l with
  | [] => mret []
  | s :: l => rc ← handle_request s; rcs ← run_script l; mret (rc :: rcs)
  end.
End session.
