(* ===== verification/SessionSpec.v ===== *)
(** * Committed insertions are durable

    From the insertion into the tables over the log to the recovery: a session that
    inserts rows outside of BEGIN ([do_insert]), and the database that [Db::recover]
    makes of its log and of the pages as they were before. *)

From Stdlib Require Import ZArith Lia.
From stdpp Require Import base gmap tactics.
From stdpp Require Import list.
From S2P Require Import Prelude.
From S2P Require Import Monad.
From S2P Require Import Bytes.
From S2P Require Import Comparator.
From S2P Require Import ClogRecord.
From S2P Require Import Clog.
From S2P Require Import ClogSpec.
From S2P Require Import ClogLog.
From S2P Require Import ClogRecover.
From S2P Require Import Redo.
From S2P Require Import Trx.
From S2P Require Import Store.
From S2P Require Import Table.
From S2P Require Import TableSpec.
From S2P Require Import TableRecover.
From S2P Require Import Session.
#[local] Open Scope Z_scope.

Section session.
Context {S I : Type} (n : Z) `{RecordStoreLaws S n, IndexStoreLaws I}.
Context (uninit : Z -> list Z).
Hypothesis uninit_length : forall k, 0 <= k -> zlen (uninit k) = k.
Context (buffer_blocks fuel : nat).
Hypothesis buffer_pos : (0 < buffer_blocks)%nat.
#[local] Abbreviation Table := (Table (S := S) (I := I)).
#[local] Abbreviation Db := (Db (S := S) (I := I)).

(** ** Begin and commit in the log *)

Lemma log_mtr_run flag rs (db : Db) :
  flag = REDO_MTR_BEGIN \/ flag = REDO_MTR_COMMIT -> log_fits n buffer_blocks fuel -> is_int32 (trx_id_ (current_trx db)) ->
  log_ready buffer_blocks rs db ->
  exists m r rc, log_mtr uninit buffer_blocks fuel flag db =
      (if decide (rc = SUCCESS) then Ret tt (put_clog m db) else Err rc (put_clog m db)) /\
    flag_ r = flag /\ ClogRecord.trx_id_ (hdr_ r) = trx_id_ (current_trx db) /\ log_ready buffer_blocks (rs ++ [r]) (put_clog m db) /\
    (rc = SUCCESS -> flag = REDO_MTR_COMMIT -> log_durable (rs ++ [r]) m).
Proof using uninit_length buffer_pos.
  intros Hf (Hn & Hal & Hsize & Hfuel) Htrx [Hlog Hlsn].
  destruct (_align8_spec (CLOG_INS_REC_NODATA_SIZE + n)) as [Ha _]; [unfold CLOG_INS_REC_NODATA_SIZE; lia|].
  unfold CLOG_INS_REC_NODATA_SIZE in *.
  set (m0 := clog_manager_ db). set (id := trx_id_ (current_trx db)).
  assert (Hr : exists r, new_record uninit flag id [] 0 None (gloabl_lsn_ m0) = Some r) by (destruct Hf as [-> | ->]; by eexists).
  destruct Hr as [r Hr].
  destruct (new_record_ok uninit uninit_length flag id [] 0 None (gloabl_lsn_ m0) r) as (Hok & Hfl & Ht & _ & Hlen); [done|exact Hr|].
  assert (Hlen' : logrec_len_ (hdr_ r) = 16) by (rewrite Hlen; by destruct Hf as [-> | ->]).
  set (m1 := mk_CLogManager (log_buffer_ m0) (log_file_ m0) (log_mtr_mgr_ m0) (to_int32 (gloabl_lsn_ m0 + next_len flag 0))).
  destruct (append_log buffer_blocks buffer_pos rs r m1 fuel Hlog Hok ltac:(lia) ltac:(lia)) as (rc & b & f & E & Hlog' & Hrc).
  exists (with_log m1 b f), r, rc. split_and!.
  - unfold log_mtr, log_record, clog_gen_record, get_next_lsn. fold m0 id. rewrite Hr. cbn [mbind option_bind]. fold m1. by rewrite E.
  - exact Hfl.
  - exact Ht.
  - split; [exact Hlog'|apply to_int32_range].
  - intros Hs Hc. destruct Hrc as [[_ Hd]|[? _]]; [|congruence]. apply Hd. congruence.
Qed.

(** ** The rows of a statement *)

(** A record of the log that tells the insertion of one of the table's records. *)
Definition is_insert (trx : Z) (name : TableName) (r : CLogRecord) : Prop :=
  flag_ r = REDO_INSERT /\ ClogRecord.trx_id_ (hdr_ r) = trx /\ c_string (table_name_ r) = Some name.

(** What [new] adds to the log tells the way from the records of [t] to those of [t']. *)
Definition tells (name : TableName) (t : Table) (new : list CLogRecord) (t' : Table) : Prop :=
  Forall (fun r => store_rid (record_handler_ t') (rid_ r)) new /\
  (forall x, store_rid (record_handler_ t) x -> store_rid (record_handler_ t') x) /\
  forall g, (forall x, records t x = g !! x) ->
    exists g', replay n (fun _ => Some true) new {[name := g]} = Some {[name := g']} /\ forall x, records t' x = g' !! x.

Lemma inserted_fresh (db : Db) name (t : Table) rs rec rid (db' : Db) (t' : Table) :
  ops_fresh db name t -> records t rid = None -> inserted n buffer_blocks db name t rs rec rid db' ->
  opened_tables_ db' !! name = Some t' -> ops_fresh db' name t'.
Proof using Type.
  intros Hops Hnone (s & l & m & r & -> & _ & _ & Hr & _) Ht' x Hx. unfold db_with in *. cbn [opened_tables_ current_trx] in *.
  rewrite lookup_insert_eq in Ht'. injection Ht' as <-. rewrite Hr in Hx. unfold upd in Hx. case_decide as Hxr; [done|].
  rewrite find_after_insert by (by apply Hops). rewrite decide_False by done. by apply Hops.
Qed.

Lemma tells_insert name (t t' : Table) trx rid rec r new t2 :
  (forall x, records t' x = upd (records t) rid (Some rec) x) -> records t rid = None ->
  (forall x, store_rid (record_handler_ t) x -> store_rid (record_handler_ t') x) ->
  store_inv (record_handler_ t') -> logged REDO_INSERT trx name rid rec r -> tells name t' new t2 -> tells name t (r :: new) t2.
Proof using H1.
  intros Hr Hnone Hup Hinv (Hok & Hf & Ht & Hnm & Hrid & Hd) (Hnew & Hup2 & Htell).
  assert (Hin : store_map (record_handler_ t') rid = Some rec).
  { change (records t' rid = Some rec). rewrite Hr. unfold upd. by rewrite decide_True. }
  destruct (store_map_ok _ _ _ Hinv Hin) as [Hrec Hr']. split; [|split].
  - constructor; [|done]. rewrite Hrid. by apply Hup2.
  - intros x Hx. by apply Hup2, Hup.
  - intros g Hg. destruct (Htell (<[rid := rec]> g)) as (g' & Hg' & Hrec').
    { intros x. rewrite Hr. by apply upd_insert. }
    exists g'. split; [|done]. cbn [replay]. unfold is_redo. rewrite Hf. cbn [mbind option_bind]. rewrite Hnm. cbn [mbind option_bind].
    rewrite lookup_singleton_eq. unfold redo_effect. rewrite Hf, (Hd eq_refl). cbn [mbind option_bind].
    rewrite decide_True by (rewrite Hrid, <- Hg; done). cbn [mbind option_bind]. rewrite insert_singleton_eq, Hrid. exact Hg'.
Qed.

Lemma insert_records_run name recs : forall (db : Db) (t : Table) rs,
  opened_tables_ db !! name = Some t -> table_ok n t -> Forall (rec_ok n) recs -> 0 <= trx_id_ (current_trx db) <= INT_MAX ->
  name_ok name -> log_fits n buffer_blocks fuel -> log_ready buffer_blocks rs db -> ops_fresh db name t ->
  match insert_records uninit buffer_blocks fuel name recs db with
  | Ret _ db' => exists t' new trx m, db' = db_with db name t' trx m /\ trx_id_ trx = trx_id_ (current_trx db) /\
      table_ok n t' /\ log_ready buffer_blocks (rs ++ new) db' /\ ops_fresh db' name t' /\
      Forall (is_insert (trx_id_ (current_trx db)) name) new /\ tells name t new t' /\ length new = length recs /\
      (forall t0, only_inserts name t0 t (current_trx db) -> only_inserts name t0 t' trx)
  | Err _ _ => True
  | Stuck => False
  end.
Proof using All.
  induction recs as [|rec recs IH]; intros db t rs Hdb Ht Hrecs Htrx Hname Hfits Hready Hops.
  { exists t, [], (current_trx db), (clog_manager_ db). split; [by rewrite db_with_id|]. rewrite app_nil_r.
    split_and!; try done. split; [by constructor|]. split; [done|]. intros g Hg. by exists g. }
  inversion Hrecs as [|? ? Hrec Hrecs']; subst. cbn [insert_records].
  destruct (insert_run n uninit uninit_length buffer_blocks fuel buffer_pos db name t rs rec Hdb Ht Hrec Htrx Hname Hfits Hready Hops)
    as (rec' & _ & _ & Hdup & Hrun).
  assert (Hcase : match Table.insert_record uninit buffer_blocks fuel true name rec db with
    | Ret rid db' => inserted n buffer_blocks db name t rs rec' rid db' | Err _ _ => True | Stuck => False end).
  { destruct (unique_run n db name t (current_trx db) (clog_manager_ db) rec' (t_store n t Ht)) as (b & _ & Hb).
    destruct b; [|by rewrite (Hdup (proj1 Hb eq_refl))]. assert (Hv : ~ violates_unique t rec') by (intros Hv; by apply Hb in Hv).
    specialize (Hrun Hv). by destruct (Table.insert_record _ _ _ _ _ _ _). }
  clear Hdup Hrun. destruct (Table.insert_record _ _ _ _ _ _ _) as [rid db1|rc db1|] eqn:E; [|by rewrite (bind_Err _ _ _ _ _ E)|done].
  rewrite (bind_Ret _ _ _ _ _ E). pose proof Hcase as Hins. destruct Hcase as (s & l & m & r & Edb & Ht1 & Hnone & Hr & Hup & Hlogd & Hready1).
  assert (Hdb1 : opened_tables_ db1 !! name = Some (with_parts t s l)) by (rewrite Edb; apply lookup_insert_eq).
  pose proof (inserted_fresh _ _ _ _ _ _ _ _ Hops Hnone Hins Hdb1) as Hops1.
  assert (Hid : trx_id_ (current_trx db1) = trx_id_ (current_trx db)).
  { rewrite Edb. by destruct (trx_insert_fresh db name t rid Hops Hnone) as [_ ?]. }
  specialize (IH db1 _ (rs ++ [r]) Hdb1 Ht1 Hrecs' ltac:(by rewrite Hid) Hname Hfits Hready1 Hops1).
  destruct (insert_records uninit buffer_blocks fuel name recs db1) as [u db2|rc db2|]; [|done|done].
  destruct IH as (t' & new & trx & m2 & -> & Hid2 & Ht' & Hready2 & Hops2 & Hnew & Htell & Hlen & Honly).
  exists t', (r :: new), trx, m2. split.
  { rewrite Edb. unfold db_with. cbn [opened_tables_ trx_counter]. by rewrite insert_insert_eq. }
  rewrite <- app_assoc in Hready2. split; [congruence|]. split; [done|]. split; [exact Hready2|]. split; [exact Hops2|]. split.
  - constructor; [|by rewrite <- Hid]. destruct Hlogd as (_ & ? & ? & ? & _). done.
  - split; [eapply tells_insert; [exact Hr|done|exact Hup|apply Ht1|done|done]|].
    split; [cbn; by rewrite Hlen|]. intros t0 H0'. apply Honly. rewrite Edb. by eapply only_inserts_insert.
Qed.

(** ** A statement that commits by itself *)

(** The log tells the way from the records [disk] to those of the table, and the
    identifier of the session's transaction is not in it. *)
Record durable_state (name : TableName) (disk : Records) (db : Db) (t : Table) (rs : list CLogRecord) : Prop := mk_durable_state {
  d_table : opened_tables_ db !! name = Some t;
  d_ok : table_ok n t;
  d_ops : ops_fresh db name t;
  d_log : log_ready buffer_blocks rs db;
  d_id : 0 < trx_id_ (current_trx db) <= trx_counter db /\ trx_counter db <= INT_MAX;
  d_old : Forall (fun r => 0 <= ClogRecord.trx_id_ (hdr_ r) < trx_id_ (current_trx db)) rs;
  d_known : Forall (fun r => is_redo r = true -> c_string (table_name_ r) = Some name -> store_rid (record_handler_ t) (rid_ r)) rs;
  d_replay : exists g, replay n (fun x => trx_status x rs) rs {[name := disk]} = Some {[name := g]} /\ forall x, records t x = g !! x
}.

Lemma has_record_other f x l : Forall (fun r => ClogRecord.trx_id_ (hdr_ r) <> x) l -> has_record f x l = false.
Proof using Type.
  induction 1 as [|r l Hr _ IH]; [done|]. unfold has_record in *. cbn [existsb]. rewrite IH.
  by rewrite (proj2 (Z.eqb_neq _ _)), andb_false_r.
Qed.

Lemma has_record_app f x l1 l2 : has_record f x (l1 ++ l2) = has_record f x l1 || has_record f x l2.
Proof using Type. apply existsb_app. Qed.

Lemma trx_status_other x rs l : Forall (fun r => ClogRecord.trx_id_ (hdr_ r) <> x) l -> trx_status x (rs ++ l) = trx_status x rs.
Proof using Type. intros Hl. unfold trx_status. rewrite !has_record_app. by rewrite !(has_record_other _ _ l Hl), !orb_false_r. Qed.

Lemma trx_status_commit rs c :
  flag_ c = REDO_MTR_COMMIT -> trx_status (ClogRecord.trx_id_ (hdr_ c)) (rs ++ [c]) = Some true.
Proof using Type.
  intros Hc. unfold trx_status. by rewrite has_record_snoc, bool_decide_true, Z.eqb_refl, orb_true_r by done.
Qed.

(** The committed transaction is redone behind those of the log before it. *)
Lemma replay_commit name t t' disk g rs new c :
  replay n (fun x => trx_status x rs) rs {[name := disk]} = Some {[name := g]} -> (forall x, records t x = g !! x) ->
  Forall (fun r => ClogRecord.trx_id_ (hdr_ r) < ClogRecord.trx_id_ (hdr_ c)) rs -> flag_ c = REDO_MTR_COMMIT ->
  Forall (is_insert (ClogRecord.trx_id_ (hdr_ c)) name) new -> tells name t new t' ->
  exists g', replay n (fun x => trx_status x (rs ++ new ++ [c])) (rs ++ new ++ [c]) {[name := disk]} = Some {[name := g']} /\
    forall x, records t' x = g' !! x.
Proof using Type.
  clear buffer_pos. intros Hrs Hg Hold Hc Hnew (_ & _ & Htell). destruct (Htell g Hg) as (g' & Hg' & Hr'). exists g'. split; [|done].
  set (st := fun x => trx_status x (rs ++ new ++ [c])).
  rewrite replay_app, (replay_status n st (fun x => trx_status x rs) rs), Hrs.
  - cbn [mbind option_bind]. rewrite replay_app, (replay_status n st (fun _ => Some true) new), Hg'.
    + cbn [mbind option_bind replay]. unfold is_redo. by rewrite Hc.
    + apply list.Forall_forall. intros r Hr _. apply (proj1 (list.Forall_forall _ _) Hnew) in Hr as (_ & -> & _).
      unfold st. rewrite app_assoc. by apply trx_status_commit.
  - apply list.Forall_forall. intros r Hr _. apply (proj1 (list.Forall_forall _ _) Hold) in Hr.
    apply trx_status_other. apply Forall_app. split; [|constructor; [|done]; lia].
    apply list.Forall_forall. intros r' Hr'2. apply (proj1 (list.Forall_forall _ _) Hnew) in Hr'2 as (_ & -> & _). lia.
Qed.

Lemma on_db_Ret {A} (m : M Db A) a db db' multi :
  m db = Ret a db' -> on_db m (mk_Session multi db) = Ret a (mk_Session multi db').
Proof using Type. intros E. unfold on_db, zoom. cbn [db_ trx_multi_operation_mode_]. by rewrite E. Qed.
Lemma on_db_Err {A} (m : M Db A) rc db db' multi :
  m db = Err rc db' -> on_db m (mk_Session multi db) = Err rc (mk_Session multi db').
Proof using Type. intros E. unfold on_db, zoom. cbn [db_ trx_multi_operation_mode_]. by rewrite E. Qed.

Definition next_db (db : Db) : Db :=
  put_counter (next_trx_id (trx_counter db)) (put_trx (mk_Trx (next_trx_id (trx_counter db)) (operations_ (current_trx db))) db).
Lemma next_id_run (db : Db) : next_id db = Ret tt (next_db db).
Proof using Type. reflexivity. Qed.

Lemma do_insert_run name disk db t rs recs :
  durable_state name disk db t rs -> name_ok name -> log_fits n buffer_blocks fuel -> Forall (rec_ok n) recs ->
  trx_counter db < INT_MAX ->
  match do_insert uninit buffer_blocks fuel name recs (mk_Session false db) with
  | Ret _ s => exists db' t' rs', s = mk_Session false db' /\ durable_state name disk db' t' rs' /\
      trx_counter db' = trx_counter db + 1 /\ log_durable rs' (clog_manager_ db')
  | Err _ _ => True
  | Stuck => False
  end.
Proof using All.
  intros Hd Hname Hfits Hrecs Hcount. destruct (d_id _ _ _ _ _ Hd) as [[Hpos Hle] _].
  set (id := trx_id_ (current_trx db)) in *. unfold do_insert.
  pose proof (insert_records_run name recs db t rs (d_table _ _ _ _ _ Hd) (d_ok _ _ _ _ _ Hd) Hrecs ltac:(fold id; lia) Hname Hfits
    (d_log _ _ _ _ _ Hd) (d_ops _ _ _ _ _ Hd)) as Hrun.
  destruct (insert_records uninit buffer_blocks fuel name recs db) as [[] db1|rc db1|] eqn:E;
    [|by rewrite (bind_Err _ _ _ _ _ (on_db_Err _ _ _ _ _ E))|done].
  rewrite (bind_Ret _ _ _ _ _ (on_db_Ret _ _ _ _ _ E)). destruct Hrun as (t' & new & trx & m & Edb & Hid & Ht' & Hready & Hops & Hnew & Htell & _ & _).
  unfold end_statement, is_trx_multi_operation_mode. rewrite bind_gets. cbn [trx_multi_operation_mode_].
  assert (Hid1 : trx_id_ (current_trx db1) = id) by (by rewrite Edb).
  destruct (log_mtr_run REDO_MTR_COMMIT (rs ++ new) db1) as (m2 & c & rc & Ec & Hfc & Htc & Hready2 & Hdur);
    [by right|done|rewrite Hid1; unfold is_int32, INT_MIN, INT_MAX in *; lia|done|].
  case_decide as Hrc; [subst rc|by rewrite (on_db_Err _ rc db1 (put_clog m2 db1)) by (by rewrite (bind_Err _ _ _ _ _ Ec))].
  rewrite (on_db_Ret _ tt db1 (next_db (put_clog m2 db1))) by (by rewrite (bind_Ret _ _ _ _ _ Ec)).
  assert (Hnext : next_trx_id (trx_counter db) = trx_counter db + 1).
  { unfold next_trx_id. apply to_int32_small. unfold is_int32, INT_MIN, INT_MAX in *. lia. }
  rewrite Hid1 in Htc. destruct (d_replay _ _ _ _ _ Hd) as (g & Hg & Hgt).
  exists (next_db (put_clog m2 db1)), t', (rs ++ new ++ [c]). rewrite <- app_assoc in Hready2, Hdur. split; [done|].
  assert (Hc1 : trx_counter db1 = trx_counter db) by (by rewrite Edb).
  unfold next_db. cbn [trx_counter put_counter put_trx put_clog clog_manager_]. rewrite Hc1, Hnext.
  split; [|split; [done|by apply Hdur]]. split; cbn [opened_tables_ current_trx trx_counter clog_manager_ put_counter put_trx put_clog trx_id_].
  - rewrite Edb. apply lookup_insert_eq.
  - done.
  - intros x Hx. destruct (Hops x Hx); [by left|by right].
  - exact Hready2.
  - lia.
  - apply Forall_app. split; [|apply Forall_app; split].
    + eapply Forall_impl; [exact (d_old _ _ _ _ _ Hd)|]. cbn. intros r. fold id. lia.
    + eapply Forall_impl; [exact Hnew|]. cbn. intros r (_ & -> & _). fold id. lia.
    + constructor; [|done]. rewrite Htc. lia.
  - destruct Htell as (Hrids & Hup & _). apply Forall_app. split; [|apply Forall_app; split].
    + eapply Forall_impl; [exact (d_known _ _ _ _ _ Hd)|]. cbn. auto.
    + eapply Forall_impl; [exact Hrids|]. cbn. auto.
    + constructor; [|done]. unfold is_redo. by rewrite Hfc.
  - destruct (replay_commit name t t' disk g rs new c Hg Hgt) as (g' & Hg' & Hgt').
    + rewrite Htc. eapply Forall_impl; [exact (d_old _ _ _ _ _ Hd)|]. cbn. intros r. fold id. lia.
    + done.
    + by rewrite Htc.
    + done.
    + by exists g'.
Qed.
End session.
