(* ===== verification/Sample.v ===== *)
(** * A small database

    One table on one page, with rows of 16 bytes (the transaction's stamp, the null
    bits, two integers) and an index on the first integer; processes and sessions on
    it, with memory that happens to hold zeros. *)

From Stdlib Require Import ZArith Lia.
From stdpp Require Import base gmap tactics.
From stdpp Require Import list.
From S2P Require Import Prelude.
From S2P Require Import Monad.
From S2P Require Import Bytes.
From S2P Require Import Comparator.
From S2P Require Import BufferPool.
From S2P Require Import RecordPage.
From S2P Require Import ClogRecord.
From S2P Require Import Clog.
From S2P Require Import ClogSpec.
From S2P Require Import ClogLog.
From S2P Require Import Redo.
From S2P Require Import Trx.
From S2P Require Import Store.
From S2P Require Import Table.
From S2P Require Import TableSpec.
From S2P Require Import TableRecover.
From S2P Require Import Session.
From S2P Require Import SessionSpec.
#[local] Open Scope Z_scope.

Abbreviation PageTable := (Table (S := Frame) (I := SetIndex)).
Abbreviation PageDb := (Db (S := Frame) (I := SetIndex)).
Abbreviation PageSession := (Session (S := Frame) (I := SetIndex)).

(** The page holds records of 16 bytes. *)
#[global] Instance view_16 : StoreView Frame := page_view 16.
#[global] Instance laws_16 : RecordStoreLaws Frame 16 := page_laws 16 fits_16.

Definition row (a b : Z) : list Z := [0; 0; 0; 0; 0; 0; 0; 0; a; 0; 0; 0; b; 0; 0; 0].
(** With the stamp of the transaction [id]. *)
Definition stamped_row (id a b : Z) : list Z := [id; 0; 0; 0; 0; 0; 0; 0; a; 0; 0; 0; b; 0; 0; 0].
(** [b]: are the rows unique in the first integer? *)
Definition table_0 (b : bool) : PageTable :=
  mk_Table (mk_TableMeta 16 0 (if b then [fun r1 r2 => bool_decide (load r1 8 4 = load r2 8 4)] else []))
    empty_page [mk_SetIndex 8 4 ∅].

(** A database in a new process: on the pages as they were, and on the file [f]. *)
Definition disk_db (b : bool) (f : option CLogFile) : PageDb :=
  mk_Db {[table_t := table_0 b]} (mk_Trx 0 ∅) 0 (new_manager zeros 4 f 0).
Definition redo_blocks : list CLogBlock := replicate 8 zero_block.
Definition db_fuel : nat := 3000.

(** The session gets its transaction when it first asks for it. *)
Definition new_session (db : PageDb) : PageSession :=
  let '(trx, counter) := new_Trx (trx_counter db) in mk_Session false (put_trx trx (put_counter counter db)).

(** A process that recovers and runs a script: the answers and the file of the log. *)
Definition run_process (b : bool) (f : option CLogFile) (l : list (Statement)) : option (list RC * PageSession) :=
  match recover_db zeros db_fuel redo_blocks (disk_db b f) with
  | Ret _ db =>
      match run_script zeros 4 db_fuel l (new_session db) with
      | Ret rcs s => Some (rcs, s)
      | _ => None
      end
  | _ => None
  end.
Definition log_of (s : PageSession) : option CLogFile := Some (log_file_ (clog_manager_ (db_ s))).

(** The first four slots of the table's page, by the two integers, and the entries
    of its index. *)
Definition cells (s : PageSession) : list (option (Z * Z)) :=
  match opened_tables_ (db_ s) !! table_t with
  | Some t => map (fun i => d ← slots 16 (BufferPool.data (page_ (record_handler_ t))) i; a ← get_i32 d 8; b ← get_i32 d 12; Some (a, b)) [0; 1; 2; 3]
  | None => []
  end.
Definition entries (s : PageSession) : list (Z * RID) :=
  match opened_tables_ (db_ s) !! table_t with
  | Some t => i ← indexes_ t; '(k, rid) ← elements (si_entries i); [(le_decode k, rid)]
  | None => []
  end.

(** The value a computation returns, without its final state. *)
Lemma ret_check {S A} `{EqDecision A} (o : outcome S A) a :
  match o with Ret b _ => bool_decide (b = a) | _ => false end = true -> exists s, o = Ret a s.
Proof. destruct o as [b s| |]; [|done..]. intros ->%bool_decide_eq_true. by exists s. Qed.

(** ** It is in order *)

Lemma empty_slots i : slots 16 (BufferPool.data (page_ empty_page)) i = None.
Proof.
  destruct (format_page_spec 16 fits_16 new_Frame zero_page_len zero_page_char) as (d' & E & Hok & Hs); [vm_compute; congruence|].
  assert (Hd : BufferPool.data (page_ empty_page) = d') by (unfold empty_page, final_or; by rewrite E). by rewrite Hd, Hs.
Qed.

Lemma table_0_empty b x : records (table_0 b) x = None.
Proof. unfold records. cbn. case_decide; [apply empty_slots|done]. Qed.

Lemma row_key_stamp i d id del d' :
  si_off i = 8 -> set_record_trx_id 0 d id del = Some d' -> si_key i d' = si_key i d.
Proof.
  intros Hi H. unfold si_key. rewrite Hi. unfold set_record_trx_id, put_i32 in H.
  rewrite (load_store_disjoint _ _ _ _ 8 (si_len i) H); [done|]. rewrite le_encode_length. lia.
Qed.

Lemma table_0_ok b : table_ok 16 (table_0 b).
Proof.
  split.
  - split; [exact empty_page_ok|]. split; vm_compute; discriminate.
  - by repeat constructor.
  - done.
  - by cbn.
  - intros i k rid Hi. apply list_elem_of_singleton in Hi as ->. split; [intros Hin; exfalso; revert Hin; cbn; set_solver|].
    intros (d & Hd & _). by rewrite table_0_empty in Hd.
  - intros i d id del d' Hi. apply list_elem_of_singleton in Hi as ->. by apply row_key_stamp.
Qed.

Lemma table_t_ok : name_ok table_t.
Proof. split; [by repeat constructor|done]. Qed.
Lemma log_fits_16 : log_fits 16 4 db_fuel.
Proof. repeat split; vm_compute; discriminate. Qed.

Lemma row_ok a b : is_char a -> is_char b -> rec_ok 16 (row a b).
Proof. intros Ha Hb. split; [done|]. unfold row. repeat (constructor; [first [exact Ha|exact Hb|by split]|]). constructor. Qed.

Lemma disk_log_ready b : log_ready 4 [] (disk_db b None).
Proof. split; [apply new_manager_log; lia|]. split; vm_compute; discriminate. Qed.

Definition session_db (b : bool) : PageDb := put_trx (mk_Trx 1 ∅) (put_counter 1 (disk_db b None)).
Lemma session_start b : durable_state 16 4 table_t ∅ (session_db b) (table_0 b) [].
Proof.
  split.
  - apply lookup_singleton_eq.
  - apply table_0_ok.
  - intros rid _. by left.
  - apply disk_log_ready.
  - split_and!; vm_compute; congruence.
  - constructor.
  - constructor.
  - exists ∅. split; [done|]. intros x. rewrite lookup_empty. apply table_0_empty.
Qed.
