(* ===== verification/TableTheorems.v ===== *)
(** * The operations of a table, inside a transaction

    Insertion, deletion, and the rollback of insertions, on every table that is in
    order ([TableSpec.table_ok]). *)

From Stdlib Require Import ZArith Lia.
From stdpp Require Import base gmap tactics.
From stdpp Require Import list.
From S2P Require Import Prelude.
From S2P Require Import Monad.
From S2P Require Import Bytes.
From S2P Require Import Comparator.
From S2P Require Import BufferPool.
From S2P Require Import ClogRecord.
From S2P Require Import Clog.
From S2P Require Import Redo.
From S2P Require Import Trx.
From S2P Require Import Store.
From S2P Require Import Table.
From S2P Require Import TableSpec.
From S2P Require Import Session.
From S2P Require Import SessionSpec.
From S2P Require Import Sample.
#[local] Open Scope Z_scope.

Section table.
Context {S I : Type} (n : Z) `{RecordStoreLaws S n, IndexStoreLaws I}.
Context (uninit : Z -> list Z).
Hypothesis uninit_length : forall k, 0 <= k -> zlen (uninit k) = k.
Context (buffer_blocks fuel : nat).
Hypothesis buffer_pos : (0 < buffer_blocks)%nat.
#[local] Abbreviation Table := (Table (S := S) (I := I)).
#[local] Abbreviation Db := (Db (S := S) (I := I)).

(** C9: [Table::insert_record] in a transaction.  The row gets the transaction's stamp.
    If it agrees with another row in the fields of a unique index, it is refused
    and nothing changes at all.  Otherwise, on success, the row is in a slot that
    was free, each index has its entry, the transaction remembers the insertion,
    and the log has exactly one more record, which tells it; [LOGBUF_FULL] means the
    same; on every other failure the rows and the entries are those from before.
    The table stays in order, and the operation never runs into undefined
    behaviour. *)
Theorem insert_record_correct (db : Db) name (t : Table) rs rec :
  opened_tables_ db !! name = Some t -> table_ok n t -> rec_ok n rec -> 0 <= trx_id_ (current_trx db) <= INT_MAX ->
  name_ok name -> log_fits n buffer_blocks fuel -> log_ready buffer_blocks rs db -> ops_fresh db name t ->
  exists rec', init_trx_info (current_trx db) (trx_offset (table_meta_ t)) rec = Some rec' /\ rec_ok n rec' /\
    (violates_unique t rec' -> Table.insert_record uninit buffer_blocks fuel true name rec db = Err RECORD_DUPLICATE_KEY db) /\
    (~ violates_unique t rec' ->
     match Table.insert_record uninit buffer_blocks fuel true name rec db with
     | Ret rid db' => inserted n buffer_blocks db name t rs rec' rid db'
     | Err rc db' => rc = LOGBUF_FULL /\ (exists rid, inserted n buffer_blocks db name t rs rec' rid db') \/
                     rc <> SUCCESS /\ untouched n db name t db'
     | Stuck => False
     end).
Proof using All. by apply insert_run. Qed.


End table.

(** ** On the sample *)

Lemma session_0 b : opened_tables_ (session_db b) !! table_t = Some (table_0 b).
Proof. apply (d_table _ _ _ _ _ _ _ (session_start b)). Qed.

Lemma insert_record_correct_witness :
  let rec := row 5 1 in let db := session_db true in
  ~ violates_unique (table_0 true) (stamped_row 1 5 1) /\
  exists db', Table.insert_record zeros 4 db_fuel true table_t rec db = Ret (mk_RID 0 0) db' /\
    inserted 16 4 db table_t (table_0 true) [] (stamped_row 1 5 1) (mk_RID 0 0) db'.
Proof.
  cbv zeta. assert (Hv : ~ violates_unique (table_0 true) (stamped_row 1 5 1)).
  { intros (f & rid & d & _ & Hd & _). by rewrite table_0_empty in Hd. }
  split; [exact Hv|].
  destruct (insert_record_correct 16 zeros zeros_length 4 db_fuel ltac:(lia) (session_db true) table_t (table_0 true) [] (row 5 1))
    as (rec' & Hrec' & _ & _ & Hrun).
  - apply session_0.
  - apply table_0_ok.
  - apply row_ok; done.
  - done.
  - exact table_t_ok.
  - exact log_fits_16.
  - apply (d_log _ _ _ _ _ _ _ (session_start true)).
  - intros rid _. by left.
  - assert (E : rec' = stamped_row 1 5 1) by (vm_compute in Hrec'; by injection Hrec' as <-). subst rec'. specialize (Hrun Hv).
    assert (E : exists db', Table.insert_record zeros 4 db_fuel true table_t (row 5 1) (session_db true) = Ret (mk_RID 0 0) db')
      by (apply ret_check; vm_compute; reflexivity).
    destruct E as [db' E]. rewrite E in Hrun. exists db'. split; [exact E|exact Hrun].
Defined.


