(* ===== verification/Durability.v ===== *)
(** * What survives a crash

    [Db::recover] on the file of a log ([recover_db_replays]), the insertions that
    a session has committed ([committed_inserts_survive]), and histories in which
    transactions are not atomic or not durable. *)

From Stdlib Require Import ZArith Lia.
From stdpp Require Import base gmap tactics.
From stdpp Require Import list.
From S2P Require Import Prelude.
From S2P Require Import Monad.
From S2P Require Import Bytes.
From S2P Require Import Comparator.
From S2P Require Import RecordPage.
From S2P Require Import ClogRecord.
From S2P Require Import Clog.
From S2P Require Import ClogSpec.
From S2P Require Import ClogLog.
From S2P Require Import ClogRecover.
From S2P Require Import Redo.
From S2P Require Import Trx.
From S2P Require Import Store.
From S2P Require Import Table.
From S2P Require Import TableSpec.
From S2P Require Import TableRecover.
From S2P Require Import Session.
From S2P Require Import SessionSpec.
From S2P Require Import Sample.
#[local] Open Scope Z_scope.

Section recover.
Context {S I : Type} (n : Z) `{RecordStoreLaws S n, IndexStore I}.
Context (uninit : Z -> list Z).
Hypothesis uninit_length : forall k, 0 <= k -> zlen (uninit k) = k.
Context (buffer_blocks : nat).
Hypothesis buffer_pos : (0 < buffer_blocks)%nat.
#[local] Abbreviation Db := (Db (S := S) (I := I)).

(** A new process: a log manager on the file [f], nothing recovered yet. *)
Definition restarted (f : CLogFile) (lsn : Z) (db : Db) : Prop :=
  clog_manager_ db = new_manager uninit buffer_blocks (Some f) lsn.

(** The counter of the transactions behind the recovery. *)
Definition recovered_counter (rs : list CLogRecord) (G : DbRecords) (counter : Z) : Z :=
  let m := last_trx (fun x => trx_status x rs) rs G 0 in
  if 0 <? m then set_trx_id (to_int32 m) else counter.

Lemma known_redo_list (db : Db) rs l :
  known db rs -> Forall2 (fun r r' => cmp_eq r r' = true /\ hdr_ r' = hdr_ r) (filter (fun r => is_redo r = true) rs) l -> known db l.
Proof using Type.
  intros Hk H' r' name t Hr' Hredo Hn Ht. apply list_elem_of_lookup in Hr' as [i Hi].
  destruct (Forall2_lookup_r _ _ _ _ _ H' Hi) as (r & Hr & Hc & _). apply list_elem_of_lookup_2, list_elem_of_filter in Hr as [Hrr Hr].
  destruct (cmp_eq_fields r r' Hc Hrr) as (_ & En & Erid & _). rewrite Erid. by apply (Hk r name t); [|done|rewrite <- En|].
Qed.

Lemma recover_run rs f lsn redo_buffer G G' (db : Db) :
  Forall record_ok rs -> holds_log (lens_of rs) (stream_of rs) f -> safe_log rs = true -> ends_well (stream_of rs) ->
  length redo_buffer = CLOG_REDO_BUFFER_BLOCKS -> restarted f lsn db -> agrees db G -> known db rs ->
  replay n (fun x => trx_status x rs) rs G = Some G' ->
  exists F db', (forall fuel, (F <= fuel)%nat -> recover_db uninit fuel redo_buffer db = Ret tt db') /\
    agrees db' G' /\ log_inv buffer_blocks rs (clog_manager_ db') /\ trx_counter db' = recovered_counter rs G (trx_counter db) /\
    forall name t t', opened_tables_ db !! name = Some t -> opened_tables_ db' !! name = Some t' -> indexes_ t' = indexes_ t.
Proof using uninit_length buffer_pos H1.
  intros Hok Hf Hsafe Hend Hlen Hm HG Hk Hr.
  destruct (recover_records uninit uninit_length buffer_blocks buffer_pos rs f lsn redo_buffer Hok Hf Hsafe Hend Hlen)
    as (F & m & em & Hrun & Hem & Hmgr & Hlog & _).
  destruct (redo_recovered uninit _ _ Hem) as [Hl Ht]. rewrite <- Hmgr in Hl, Ht.
  assert (Hfilt : Forall (fun r => is_redo r = true) (filter (fun r => is_redo r = true) rs)).
  { apply list.Forall_forall. intros r Hr'. by apply list_elem_of_filter in Hr' as [? _]. }
  destruct (replay_eq n (fun x => trx_status x rs) _ _ G Hfilt Hl) as [Hrep Hlast].
  rewrite replay_filter, Hr in Hrep.
  destruct (redo_all_run n (fun x => trx_status x rs) (trx_commited (log_mtr_mgr_ m)) (log_redo_list (log_mtr_mgr_ m)) Ht (put_clog m db) G G' 0)
    as (db1 & E & HG1 & (Htrx & Hcnt & Hclog & Hsame)); [exact HG|exact (known_redo_list db rs _ Hk Hl)|exact Hrep|].
  rewrite Hlast, last_trx_filter in E. set (mx := last_trx (fun x => trx_status x rs) rs G 0) in *.
  exists F, (if 0 <? mx then put_counter (set_trx_id (to_int32 mx)) db1 else db1). split.
  { intros fuel Hfuel. unfold recover_db. rewrite Hm, (Hrun fuel Hfuel), (bind_Ret _ _ _ _ _ E). by destruct (0 <? mx). }
  assert (Hpart : opened_tables_ (if 0 <? mx then put_counter (set_trx_id (to_int32 mx)) db1 else db1) = opened_tables_ db1 /\
    clog_manager_ (if 0 <? mx then put_counter (set_trx_id (to_int32 mx)) db1 else db1) = m).
  { by destruct (0 <? mx). }
  destruct Hpart as [Et Em]. split_and!.
  - intros name. rewrite Et. apply HG1.
  - by rewrite Em.
  - unfold recovered_counter. fold mx. destruct (0 <? mx); [done|exact Hcnt].
  - intros name t t' Ht0 Ht1. rewrite Et in Ht1. specialize (Hsame name). unfold put_clog in Hsame. cbn [opened_tables_] in Hsame.
    rewrite Ht0, Ht1 in Hsame. apply Hsame.
Qed.

(** C8: [Db::recover] implements [replay].  On the file of a (safe) log of well-formed
    records, with the stores as the log's records are relative to and every record
    of the log in the range of its store, the recovery succeeds: the records of
    every table become those of the reference, in which exactly the operations of
    the committed transactions are done in the order of the log; the log can be
    continued; the counter of transactions is set to the last committed one that
    was redone; and the indexes are left as they were. *)
Theorem recover_db_replays rs f lsn redo_buffer G G' (db : Db) :
  Forall record_ok rs -> holds_log (lens_of rs) (stream_of rs) f -> safe_log rs = true -> ends_well (stream_of rs) ->
  length redo_buffer = CLOG_REDO_BUFFER_BLOCKS -> restarted f lsn db -> agrees db G -> known db rs ->
  replay n (fun x => trx_status x rs) rs G = Some G' ->
  exists F db', (forall fuel, (F <= fuel)%nat -> recover_db uninit fuel redo_buffer db = Ret tt db') /\
    agrees db' G' /\ log_inv buffer_blocks rs (clog_manager_ db') /\ trx_counter db' = recovered_counter rs G (trx_counter db) /\
    forall name t t', opened_tables_ db !! name = Some t -> opened_tables_ db' !! name = Some t' -> indexes_ t' = indexes_ t.
Proof using uninit_length buffer_pos H1. apply recover_run. Qed.
End recover.

(** ** Insertions that commit by themselves *)

Section durable.
Context {S I : Type} (n : Z) `{RecordStoreLaws S n, IndexStoreLaws I}.
Context (uninit : Z -> list Z).
Hypothesis uninit_length : forall k, 0 <= k -> zlen (uninit k) = k.
Context (buffer_blocks fuel : nat).
Hypothesis buffer_pos : (0 < buffer_blocks)%nat.
#[local] Abbreviation Db := (Db (S := S) (I := I)).
#[local] Abbreviation Table := (Table (S := S) (I := I)).

(** A client that sends INSERT statements until one fails. *)
Fixpoint do_inserts (name : TableName) (stmts : list (list (list Z))) : M (Session (S := S) (I := I)) unit :=
  match stmts with
  | [] => mret tt
  | recs :: stmts => do_insert uninit buffer_blocks fuel name recs;; do_inserts name stmts
  end.

Lemma do_inserts_run name disk stmts : forall (db : Db) (t : Table) rs,
  durable_state n buffer_blocks name disk db t rs -> name_ok name -> log_fits n buffer_blocks fuel ->
  Forall (Forall (rec_ok n)) stmts -> trx_counter db + Z.of_nat (length stmts) <= INT_MAX ->
  match do_inserts name stmts (mk_Session false db) with
  | Ret _ s => exists db' t' rs', s = mk_Session false db' /\ durable_state n buffer_blocks name disk db' t' rs' /\
      (stmts <> [] \/ log_durable rs (clog_manager_ db) -> log_durable rs' (clog_manager_ db'))
  | Err _ _ => True
  | Stuck => False
  end.
Proof using All.
  induction stmts as [|recs stmts IH]; intros db t rs Hd Hname Hfits Hrecs Hcount.
  { exists db, t, rs. split; [done|]. split; [done|]. by intros [?|?]. }
  inversion Hrecs as [|? ? Hrec Hrecs']; subst. cbn [do_inserts length] in *.
  pose proof (do_insert_run n uninit uninit_length buffer_blocks fuel buffer_pos name disk db t rs recs Hd Hname Hfits Hrec ltac:(lia)) as Hrun.
  destruct (do_insert _ _ _ _ _ _) as [[] s1|rc s1|] eqn:E; [|by rewrite (bind_Err _ _ _ _ _ E)|done].
  rewrite (bind_Ret _ _ _ _ _ E). destruct Hrun as (db1 & t1 & rs1 & -> & Hd1 & Hc1 & Hdur).
  specialize (IH db1 t1 rs1 Hd1 Hname Hfits Hrecs' ltac:(lia)). destruct (do_inserts name stmts _); [|done|done].
  destruct IH as (db2 & t2 & rs2 & -> & Hd2 & Hdur2). exists db2, t2, rs2. split; [done|]. split; [done|]. intros _. apply Hdur2. by right.
Qed.

(** C7: Durability from end to end.  A session inserts rows outside of BEGIN, and every
    statement is answered SUCCESS.  Then the file of the log alone is enough: a new
    process that opens it, on the table as it was on the disk when the log began,
    recovers a table with exactly the rows of the session's table, whichever of the
    session's pages were lost (none is written here), provided that the log is a
    [safe_log] that does not end with a full block inside the redo buffer, and that
    the pages of the file hold the rows' slots.  The session itself never runs into
    undefined behaviour. *)
Theorem committed_inserts_survive name disk stmts (db : Db) (t : Table) rs :
  durable_state n buffer_blocks name disk db t rs -> name_ok name -> log_fits n buffer_blocks fuel ->
  Forall (Forall (rec_ok n)) stmts -> trx_counter db + Z.of_nat (length stmts) <= INT_MAX -> stmts <> [] ->
  match do_inserts name stmts (mk_Session false db) with
  | Ret _ s =>
      exists t' rs', opened_tables_ (db_ s) !! name = Some t' /\ table_ok n t' /\ log_ready buffer_blocks rs' (db_ s) /\
      (safe_log rs' = true -> ends_well (stream_of rs') ->
       forall lsn redo_buffer (tdisk : Table) (db0 : Db), length redo_buffer = CLOG_REDO_BUFFER_BLOCKS ->
         restarted uninit buffer_blocks (log_file_ (clog_manager_ (db_ s))) lsn db0 ->
         opened_tables_ db0 = {[name := tdisk]} -> holds tdisk disk ->
         (forall rid, store_rid (record_handler_ t') rid -> store_rid (record_handler_ tdisk) rid) ->
         exists F db2 t2, (forall fuel, (F <= fuel)%nat -> recover_db uninit fuel redo_buffer db0 = Ret tt db2) /\
           opened_tables_ db2 !! name = Some t2 /\ forall x, records t2 x = records t' x)
  | Err _ _ => True
  | Stuck => False
  end.
Proof using All.
  intros Hd Hname Hfits Hrecs Hcount Hne.
  pose proof (do_inserts_run name disk stmts db t rs Hd Hname Hfits Hrecs Hcount) as Hrun.
  destruct (do_inserts _ _ _) as [u s|rc s|]; [|done|done]. destruct Hrun as (db' & t' & rs' & -> & Hd' & Hdur).
  cbn [db_]. exists t', rs'. split; [apply Hd'|]. split; [apply Hd'|]. split; [apply Hd'|].
  intros Hsafe Hend lsn redo_buffer tdisk db0 Hlen Hre Htabs Hdisk Hrids. destruct (d_replay _ _ _ _ _ _ _ Hd') as (g & Hg & Hgt).
  destruct (recover_run n uninit uninit_length buffer_blocks buffer_pos rs' _ lsn redo_buffer {[name := disk]} {[name := g]} db0
    (proj1 (proj1 (d_log _ _ _ _ _ _ _ Hd'))) (Hdur (or_introl Hne)) Hsafe Hend Hlen Hre) as (F & db2 & Hrun & Hag & _).
  - intros name'. rewrite Htabs. destruct (decide (name' = name)) as [->|Hnn]; [by rewrite !lookup_singleton_eq|].
    by rewrite !lookup_singleton_ne.
  - intros r name' t0 Hr Hredo Hn Ht0. rewrite Htabs in Ht0. apply lookup_singleton_Some in Ht0 as [<- <-]. apply Hrids.
    by apply (proj1 (list.Forall_forall _ _) (d_known _ _ _ _ _ _ _ Hd') r Hr).
  - done.
  - specialize (Hag name). rewrite lookup_singleton_eq in Hag. destruct (opened_tables_ db2 !! name) as [t2|] eqn:Et2; [|done].
    exists F, db2, t2. split; [exact Hrun|]. split; [done|]. intros x. destruct Hag as [_ Hag]. by rewrite Hag, Hgt.
Qed.
End durable.

(** ** On the sample *)

(** A committed insertion of one row. *)
Definition row_rec : CLogRecord :=
  mk_CLogRecord REDO_INSERT (mk_hdr 0 1 3 64) (116 :: zeros 19) (mk_RID 0 2) 16 (stamped_row 1 5 1).
Definition row_commit : CLogRecord := mtr_rec REDO_MTR_COMMIT 1 64.

Lemma row_rec_ok : record_ok row_rec.
Proof. split; cbn; try done. Qed.
Lemma row_commit_ok : record_ok row_commit.
Proof. apply mtr_rec_ok; [by right|done|done]. Qed.

Lemma row_log : exists m, log_inv 4 [row_rec; row_commit] m /\ log_durable [row_rec; row_commit] m.
Proof.
  destruct (append_all_log 4 log_fuel [row_rec] [] (new_manager zeros 4 None 0)) as (m & Em & Hm);
    [lia|apply new_manager_log; lia|by repeat constructor; apply row_rec_ok|repeat constructor; done|].
  assert (Eapp : exists m', clog_append_record 4 log_fuel m row_commit = Some (SUCCESS, m')).
  { vm_compute in Em. injection Em as <-. eexists. vm_compute. reflexivity. }
  clear Em. destruct Eapp as [m' Eapp].
  destruct (append_log 4 ltac:(lia) [row_rec] row_commit m log_fuel Hm row_commit_ok ltac:(done) ltac:(done)) as (rc & b & f & E & Hlog & Hrc).
  rewrite Eapp in E. injection E as <- ->. exists (with_log m b f). split; [exact Hlog|]. destruct Hrc as [[_ Hd]|[Hf _]]; [by apply Hd|discriminate Hf].
Qed.

Lemma recover_db_replays_witness :
  exists f F db', holds_log (lens_of [row_rec; row_commit]) (stream_of [row_rec; row_commit]) f /\
    recover_db zeros F redo_blocks (disk_db false (Some f)) = Ret tt db' /\
    agrees db' {[table_t := {[mk_RID 0 2 := stamped_row 1 5 1]}]} /\ trx_counter db' = 1.
Proof.
  destruct row_log as (m & _ & Hd). set (f := log_file_ m) in *.
  destruct (recover_db_replays 16 zeros zeros_length 4 ltac:(lia) [row_rec; row_commit] f 0 redo_blocks
    {[table_t := ∅]} {[table_t := {[mk_RID 0 2 := stamped_row 1 5 1]}]} (disk_db false (Some f))) as (F & db' & Hrun & Hag & _ & Hc & _).
  - constructor; [exact row_rec_ok|]. constructor; [exact row_commit_ok|constructor].
  - exact Hd.
  - vm_compute. reflexivity.
  - left. vm_compute. discriminate.
  - reflexivity.
  - reflexivity.
  - intros name. unfold disk_db. cbn [opened_tables_]. destruct (decide (name = table_t)) as [->|Hne].
    + rewrite !lookup_singleton_eq. split; [apply (t_store _ _ (table_0_ok false))|]. intros x. rewrite lookup_empty. apply table_0_empty.
    + by rewrite !lookup_singleton_ne.
  - intros r name t Hr Hredo Hn Ht. unfold disk_db in Ht. cbn [opened_tables_] in Ht. apply lookup_singleton_Some in Ht as [<- <-].
    apply elem_of_cons in Hr as [->|Hr]; [by vm_compute|]. apply list_elem_of_singleton in Hr as ->. discriminate Hredo.
  - vm_compute. reflexivity.
  - exists f, F, db'. split; [exact Hd|]. split; [by apply Hrun|]. split; [exact Hag|]. rewrite Hc. vm_compute. reflexivity.
Defined.

Lemma committed_inserts_survive_witness :
  durable_state 16 4 table_t ∅ (session_db false) (table_0 false) [] /\
  exists s t' rs', do_inserts zeros 4 db_fuel table_t [[row 5 1; row 6 2]; [row 7 3]] (mk_Session false (session_db false)) = Ret tt s /\
    opened_tables_ (db_ s) !! table_t = Some t' /\ table_ok 16 t' /\ log_ready 4 rs' (db_ s).
Proof.
  split; [apply session_start|].
  assert (Hrecs : Forall (Forall (rec_ok 16)) [[row 5 1; row 6 2]; [row 7 3]]).
  { repeat apply Forall_cons_2; try apply Forall_nil_2; apply row_ok; done. }
  pose proof (committed_inserts_survive 16 zeros zeros_length 4 db_fuel ltac:(lia) table_t ∅ [[row 5 1; row 6 2]; [row 7 3]]
    (session_db false) (table_0 false) [] (session_start false) table_t_ok log_fits_16 Hrecs ltac:(vm_compute; congruence) ltac:(discriminate)) as H.
  assert (E : exists s, do_inserts zeros 4 db_fuel table_t [[row 5 1; row 6 2]; [row 7 3]] (mk_Session false (session_db false)) = Ret tt s)
    by (apply ret_check; vm_compute; reflexivity).
  destruct E as [s E]. rewrite E in H. destruct H as (t' & rs' & H1 & H2 & H3 & _).
  exists s, t', rs'. split; [exact E|]. split; [exact H1|]. split; [exact H2|exact H3].
Defined.
