(* ===== verification/Histories.v ===== *)
(** * Histories that lose or revive rows

    Scripts of a session on the database of [Sample], with the answers, the rows and
    the entries of the index they lead to, and what a restarted process recovers. *)

From Stdlib Require Import ZArith Lia.
From stdpp Require Import base gmap tactics.
From stdpp Require Import list.
From S2P Require Import Prelude.
From S2P Require Import Monad.
From S2P Require Import Bytes.
From S2P Require Import Comparator.
From S2P Require Import ClogRecord.
From S2P Require Import Clog.
From S2P Require Import Redo.
From S2P Require Import Trx.
From S2P Require Import Store.
From S2P Require Import Table.
From S2P Require Import Session.
From S2P Require Import Sample.
#[local] Open Scope Z_scope.





