(* ===== verification/Float.v ===== *)
(** * Floating point numbers

    [float] is the IEEE 754 format of 32 bits and [double] the one of 64 bits, as
    the Standard Library specifies their operations, rounding to nearest.  The
    conversions of the C library that the query engine uses are here, too:
    [char2double] (util/util.cpp) and the text of a [FloatItem]
    (sql/expr/relation/Item.h). *)

From Stdlib Require Import ZArith Lia SpecFloat String Ascii DecimalString.
From stdpp Require Import base list strings.
From S2P Require Import Prelude.
#[local] Open Scope Z_scope.

(** ** Characters *)

(** A C string without its terminator, as signed characters. *)
Definition chars (s : string) : list Z := (fun c => to_char (Z.of_nat (nat_of_ascii c))) <$> list_ascii_of_string s.

(** [std::to_string(int)] *)
Definition int_to_string (v : Z) : list Z := chars (NilEmpty.string_of_int (Z.to_int v)).

Definition is_digit (c : Z) : bool := (48 <=? c) && (c <=? 57).

(** The digits at the front, as a number and their count, and what follows. *)
Fixpoint take_digits (s : list Z) (acc : Z) (n : Z) : Z * Z * list Z :=
  match s with
  | c :: s' => if is_digit c then take_digits s' (acc * 10 + (c - 48)) (n + 1) else (acc, n, s)
  | [] => (acc, n, s)
  end.

(** [strcmp]: the sign is that of the first difference, as unsigned characters. *)
Fixpoint strcmp (a b : list Z) : Z :=
  match a, b with
  | [], [] => 0
  | [], _ :: _ => -1
  | _ :: _, [] => 1
  | x :: a, y :: b => if x =? y then strcmp a b else uwrap 8 x - uwrap 8 y
  end.

(** ** Arithmetic *)

Definition float := spec_float.
Definition double := spec_float.

Definition float_of_int (v : Z) : float := binary_normalize 24 128 v 0 false.
Definition float_add (a b : float) : float := SFadd 24 128 a b.
Definition float_sub (a b : float) : float := SFsub 24 128 a b.
Definition float_mul (a b : float) : float := SFmul 24 128 a b.
Definition float_div (a b : float) : float := SFdiv 24 128 a b.
Definition float_opp (a : float) : float := SFopp a.
Definition float_abs (a : float) : float := SFabs a.

(** Rounding a number to another format. *)
Definition convert (prec emax : Z) (f : spec_float) : spec_float :=
  match f with
  | S754_finite s m e => binary_normalize prec emax (if s then Z.neg m else Z.pos m) e s
  | _ => f
  end.
Definition double_of_float (f : float) : double := convert 53 1024 f.
Definition float_of_double (f : double) : float := convert 24 128 f.

(** The double next to [n / d]. *)
Definition ratio_double (n d : Z) : double :=
  match n, d with
  | Z.pos n, Z.pos d =>
      let '(m, e, l) := SFdiv_core_binary 53 1024 (Z.pos n) 0 (Z.pos d) 0 in binary_round_aux 53 1024 false m e l
  | _, _ => S754_zero false
  end.

(** The constant [1E-6] of the comparisons. *)
Definition epsilon : double := ratio_double 1 1000000.

(** [atof] of digits with at most one point in them, which is all that
    [char2double] passes to it; [char2double] reads 255 characters at most. *)
Definition char2double (s : list Z) : double :=
  let '(a, _, s') := take_digits (take 255 s) 0 0 in
  match s' with
  | c :: s' => if c =? 46 then let '(b, k, _) := take_digits s' a 0 in ratio_double b (10 ^ k) else ratio_double a 1
  | [] => ratio_double a 1
  end.

(** [atof] of a literal: white space does not occur, an exponent neither. *)
Definition atof (s : list Z) : double :=
  let read s :=
    let '(a, _, s') := take_digits s 0 0 in
    match s' with
    | c :: s' => if c =? 46 then let '(b, k, _) := take_digits s' a 0 in ratio_double b (10 ^ k) else ratio_double a 1
    | [] => ratio_double a 1
    end in
  match s with
  | c :: s' => if c =? 45 then SFopp (read s') else if c =? 43 then read s' else read s
  | [] => read []
  end.

(** [atoi] of a literal; a number that does not fit is cut, as on the usual platforms. *)
Definition atoi (s : list Z) : Z :=
  match s with
  | c :: s' =>
      if c =? 45 then to_int32 (- (take_digits s' 0 0).1.1)
      else if c =? 43 then to_int32 (take_digits s' 0 0).1.1 else to_int32 (take_digits s 0 0).1.1
  | [] => 0
  end.

(** ** The text of a number *)

(** The integer next to [m * 2 ^ e], a half away from zero ([std::round]) or to even. *)
Definition round_away (m e : Z) : Z :=
  if 0 <=? e then m * 2 ^ e else let d := 2 ^ (- e) in (2 * m + d) / (2 * d).
Definition round_even (m e : Z) : Z :=
  if 0 <=? e then m * 2 ^ e
  else
    let d := 2 ^ (- e) in let q := m / d in let r := m mod d in
    if 2 * r <? d then q else if d <? 2 * r then q + 1 else if Z.even q then q else q + 1.

(** [FloatItem::round] *)
Definition float_round (v : float) : float :=
  match float_mul v (float_of_int 100) with
  | S754_finite s m e =>
      float_div (binary_normalize 24 128 ((if s then -1 else 1) * round_away (Z.pos m) e) 0 s) (float_of_int 100)
  | f => float_div f (float_of_int 100)
  end.

Definition two_digits (v : Z) : list Z := if v <? 10 then 48 :: int_to_string v else int_to_string v.

(** [sprintf("%.2f")]; the buffer of 30 characters holds the text of numbers below [10 ^ 26]. *)
Definition sprintf_2f (v : float) : list Z :=
  match v with
  | S754_zero s => chars (if s then "-0.00" else "0.00")
  | S754_infinity s => chars (if s then "-inf" else "inf")
  | S754_nan => chars "nan"
  | S754_finite s m e =>
      let n := round_even (100 * Z.pos m) e in
      (if s then [45] else []) ++ int_to_string (n / 100) ++ [46] ++ two_digits (n mod 100)
  end.

(** Up to [n] zeros and points go from the end of the text, given in reverse. *)
Fixpoint drop_zeros (n : nat) (s : list Z) : list Z :=
  match n, s with
  | S n, c :: s' => if (c =? 48) || (c =? 46) then drop_zeros n s' else s
  | _, _ => s
  end.
Definition float_to_string (v : float) : list Z := reverse (drop_zeros 3 (reverse (sprintf_2f (float_round v)))).

(** [date2string] *)
Definition date_to_string (v : Z) : list Z :=
  let part p := let s := int_to_string p in if zlen s =? 1 then 48 :: s else s in
  int_to_string (Z.quot v 10000) ++ [45] ++ part (Z.quot (Z.rem v 10000) 100) ++ [45] ++ part (Z.rem v 100).

(** ** Lemmas *)

Lemma strcmp_refl s : strcmp s s = 0.
Proof. induction s as [|c s IH]; simpl; [done|]. by rewrite Z.eqb_refl. Qed.

Lemma strcmp_eq a b : Forall is_char a -> Forall is_char b -> strcmp a b = 0 -> a = b.
Proof.
  intros Ha. revert b. induction Ha as [|x a Hx Ha IH]; intros b Hb; destruct Hb as [|y b Hy Hb]; simpl; try done.
  destruct (Z.eqb_spec x y) as [->|Hne]; [intros E; f_equal; by apply IH|].
  unfold uwrap, is_char in *. intros E. exfalso. apply Hne.
  destruct (Z.ltb_spec x 0), (Z.ltb_spec y 0); change (2 ^ 8) with 256 in *.
  - rewrite <- (Z.mod_add x 1 256), <- (Z.mod_add y 1 256), !Z.mod_small in E by lia. lia.
  - rewrite <- (Z.mod_add x 1 256), !Z.mod_small in E by lia. lia.
  - rewrite <- (Z.mod_add y 1 256), !Z.mod_small in E by lia. lia.
  - rewrite !Z.mod_small in E by lia. lia.
Qed.

Example float_text : float_to_string (float_of_double (atof (chars "2.50"))) = chars "2.5" /\
  float_to_string (float_of_int 100) = chars "100" /\ float_to_string (float_of_double (atof (chars "-0.125"))) = chars "-0.13" /\
  date_to_string 20221017 = chars "2022-10-17" /\ epsilon = S754_finite false 4722366482869645 (-72).
Proof. vm_compute. done. Qed.
