(* ===== verification/Item.v ===== *)
(** * Items, rows and relations

    What the operators of a query hand to each other: sql/expr/relation/Item.h,
    Row.cpp and Relation.cpp, and the way from a record to a row ([RowTuple] of
    sql/expr/tuple.h, [Row::tupleToRow]).  A relation knows of the expression of a
    column only its text ([toString]) and its type, which is all that the code asks
    its schema for. *)

From Stdlib Require Import ZArith Lia SpecFloat String.
From stdpp Require Import base list strings.
From S2P Require Import Prelude.
From S2P Require Import Monad.
From S2P Require Import Bytes.
From S2P Require Import Comparator.
From S2P Require Import Float.
#[local] Open Scope Z_scope.

(** ** Items *)

(** The value and [isNull_]. *)
Inductive Item : Type :=
| NullItem
| IntItem (value : Z) (isNull_ : bool)
| DateItem (value : Z) (isNull_ : bool)
| FloatItem (value : float) (isNull_ : bool)
| BoolItem (value : bool) (isNull_ : bool)
| CharItem (value : Z) (isNull_ : bool)
| TextItem (value_ : list Z) (isNull_ : bool).

Definition isNull (i : Item) : bool :=
  match i with
  | NullItem => true
  | IntItem _ n => n | DateItem _ n => n | FloatItem _ n => n | BoolItem _ n => n | CharItem _ n => n | TextItem _ n => n
  end.

(** [None] is the exception [not_support]. *)
Definition getInt (i : Item) : option Z := match i with IntItem v _ => Some v | DateItem v _ => Some v | _ => None end.
Definition getFloat (i : Item) : option float := match i with FloatItem v _ => Some v | _ => None end.
Definition getText (i : Item) : option (list Z) := match i with TextItem v _ => Some v | _ => None end.

Definition NULL_text : list Z := chars "NULL".
Definition item_to_string (i : Item) : list Z :=
  if isNull i then NULL_text
  else match i with
       | NullItem => NULL_text
       | IntItem v _ => int_to_string v
       | DateItem v _ => date_to_string v
       | FloatItem v _ => float_to_string v
       | BoolItem v _ => chars (if v then "true" else "false")
       | CharItem v _ => int_to_string v
       | TextItem v _ => v
       end.

(** ** Rows and relations *)

Definition Row : Type := list Item.

Record Schema : Type := mk_Schema { sc_text : string; attrType : AttrType }.

Record Relation : Type := mk_Relation { schemas_ : list Schema; rows_ : list Row }.

Definition getWidth (r : Relation) : Z := zlen (schemas_ r).
Definition getLength (r : Relation) : Z := zlen (rows_ r).
Definition new_Relation (schemas : list Schema) : Relation := mk_Relation schemas [].

(** A row of another width is refused. *)
Definition insertRow (row : Row) : M Relation unit := fun r =>
  if zlen row =? getWidth r then Ret tt (mk_Relation (schemas_ r) (rows_ r ++ [row])) else Err GENERIC_ERROR r.

(** The first column with the text of the expression; -1 without one. *)
Fixpoint find_column (text : string) (schemas : list Schema) (i : Z) : Z :=
  match schemas with
  | [] => -1
  | s :: schemas => if bool_decide (text = sc_text s) then i else find_column text schemas (i + 1)
  end.
Definition findExpressionColumn (r : Relation) (text : string) : Z := find_column text (schemas_ r) 0.

(** ** From a record to a row *)

Record FieldMeta : Type := mk_FieldMeta { fm_name : string; fm_type : AttrType; fm_offset : Z; fm_len : Z }.

(** The four bytes of a [float]. *)
Definition float_of_bits (b : Z) : float :=
  let sign := Z.testbit b 31 in
  let ex := Z.land (Z.shiftr b 23) 255 in
  let m := Z.land b (2 ^ 23 - 1) in
  if ex =? 255 then (if m =? 0 then S754_infinity sign else S754_nan)
  else let m := if ex =? 0 then m else m + 2 ^ 23 in
       match m with
       | Z.pos p => S754_finite sign p ((if ex =? 0 then 1 else ex) - 150)
       | _ => S754_zero sign
       end.

(** The C string that begins at an offset, which [strdup] reads up to the first
    NUL, whatever the length of the field; undefined behind the record. *)
Fixpoint c_string (d : list Z) : option (list Z) :=
  match d with
  | [] => None
  | c :: d => if c =? 0 then Some [] else cons c <$> c_string d
  end.

(** The bit of the null map that [RowTuple::cell_at] looks at; the shift is
    undefined from the 35th field on. *)
Definition cell_is_null (null_offset : Z) (data : list Z) (index : Z) : option bool :=
  null_map ← get_i32 data null_offset;
  if index <=? 33 then Some (Z.testbit null_map (33 - index)) else None.

(** The item that [Row::tupleToRow] makes of a cell; a field of another type adds none. *)
Definition cell_item (null_offset : Z) (data : list Z) (index : Z) (f : FieldMeta) : option (list Item) :=
  n ← cell_is_null null_offset data index;
  match fm_type f with
  | INTS => v ← get_i32 data (fm_offset f); Some [IntItem v n]
  | DATES => v ← get_i32 data (fm_offset f); Some [DateItem v n]
  | FLOATS => v ← get_i32 data (fm_offset f); Some [FloatItem (float_of_bits (uwrap 32 v)) n]
  | CHARS => v ← (if (0 <=? fm_offset f) then c_string (drop (Z.to_nat (fm_offset f)) data) else None); Some [TextItem v n]
  | _ => Some []
  end.

Fixpoint cells (null_offset : Z) (data : list Z) (index : Z) (fields : list FieldMeta) : option Row :=
  match fields with
  | [] => Some []
  | f :: fields =>
      item ← cell_item null_offset data index f;
      rest ← cells null_offset data (index + 1) fields;
      Some (item ++ rest)
  end.

(** The fields of the system, the stamp of the transaction and the null map, are left out. *)
Definition tupleToRow (fields : list FieldMeta) (null_offset : Z) (data : list Z) : option Row :=
  cells null_offset data 2 (drop 2 fields).

(** ** Lemmas *)

Lemma find_column_range text schemas i :
  let c := find_column text schemas i in c = -1 \/ exists s, zget schemas (c - i) = Some s /\ sc_text s = text /\ i <= c.
Proof.
  cbv zeta. revert i. induction schemas as [|s schemas IH]; intros i; simpl; [by left|].
  destruct (bool_decide_reflect (text = sc_text s)) as [->|Hne].
  - right. exists s. rewrite Z.sub_diag. split; [done|]. split; [done|lia].
  - destruct (IH (i + 1)) as [->|(s' & E & Et & Hle)]; [by left|]. right. exists s'. split; [|split; [done|lia]].
    unfold zget in *. rewrite decide_True in E by lia. rewrite decide_True by lia.
    replace (Z.to_nat (find_column text schemas (i + 1) - i)) with (S (Z.to_nat (find_column text schemas (i + 1) - (i + 1)))) by lia.
    exact E.
Qed.

Lemma find_column_width r text :
  findExpressionColumn r text = -1 \/ 0 <= findExpressionColumn r text < getWidth r.
Proof.
  unfold findExpressionColumn. destruct (find_column_range text (schemas_ r) 0) as [->|(s & E & _ & H)]; [by left|right].
  split; [done|]. unfold zget in E. rewrite decide_True in E by lia. apply lookup_lt_Some in E. unfold getWidth, zlen. lia.
Qed.

(** Rows of the right width are appended. *)
Lemma insertRow_ok row r : zlen row = getWidth r -> insertRow row r = Ret tt (mk_Relation (schemas_ r) (rows_ r ++ [row])).
Proof. intros E. unfold insertRow. by rewrite E, Z.eqb_refl. Qed.
