(* ===== verification/Expr.v ===== *)
(** * Expressions

    sql/expr/expresions: constants, columns, negation, arithmetic, aggregates and
    lists of values.  An expression is an object that remembers the column it was
    mapped to and the value it was last calculated to; [mapToRelation] and
    [calculate] change that state.  The relation of a list or of a sub-query is the
    one [update] leaves. *)

From Stdlib Require Import ZArith Lia SpecFloat String.
From stdpp Require Import base list strings.
From S2P Require Import Prelude.
From S2P Require Import Monad.
From S2P Require Import Comparator.
From S2P Require Import Float.
From S2P Require Import Item.
#[local] Open Scope Z_scope.

Inductive ExprOp : Type := OP_ADD | OP_SUB | OP_MUL | OP_DIV | OP_MOD.
Inductive AggregateKind : Type := Identity | Max | Min | Avg | Sum | Count | CountStar.
#[global] Instance AggregateKind_eq_dec : EqDecision AggregateKind.
Proof. solve_decision. Defined.

(** The members of [BaseExpression] that hold the current value; a value of
    another type than the one of the expression is never used. *)
Record Current : Type := mk_Current { isNull_ : bool; intValue : Z; floatValue : float; textValue : list Z }.
Definition no_value : Current := mk_Current false 0 (S754_zero false) [].
Definition set_null (n : bool) (c : Current) : Current := mk_Current n (intValue c) (floatValue c) (textValue c).
Definition set_int (v : Z) (c : Current) : Current := mk_Current (isNull_ c) v (floatValue c) (textValue c).
Definition set_float (v : float) (c : Current) : Current := mk_Current (isNull_ c) (intValue c) v (textValue c).
Definition set_text (v : list Z) (c : Current) : Current := mk_Current (isNull_ c) (intValue c) (floatValue c) v.

(** [column] is -1 before the expression is mapped; [isInput_] says that the whole
    expression is a column of the relation. *)
Inductive Expr : Type :=
| ConstExpression (literal_ : string) (attr : AttrType)
| IdentifierExpression (tableName fieldName : string) (attr : AttrType) (column : Z) (cur : Current)
| NegativeExpression (expression : Expr) (type_ : AttrType) (isInput_ : bool) (column : Z) (cur : Current)
| BinaryExpression (left right : Expr) (op : ExprOp) (type_ : AttrType) (isInput_ : bool) (column : Z) (cur : Current)
| AggregateFunction (kind : AggregateKind) (subExpression_ : Expr) (type_ : AttrType) (column : Z) (cur : Current)
| RelationExpression (needRecalculate_ : bool) (relation_ : Relation).

(** [BaseExpression::type] *)
Definition type (e : Expr) : AttrType :=
  match e with
  | ConstExpression _ t => t
  | IdentifierExpression _ _ t _ _ => t
  | NegativeExpression _ t _ _ _ => t
  | BinaryExpression _ _ _ t _ _ _ => t
  | AggregateFunction k _ t _ _ => match k with Avg => FLOATS | _ => t end
  | RelationExpression _ _ => RELATIONS
  end.

(** ** Construction *)

Definition isDigital (t : AttrType) : bool := match t with INTS | FLOATS => true | _ => false end.

Definition binary_type (l r : AttrType) (op : ExprOp) : AttrType :=
  match l, r with
  | INTS, INTS => match op with OP_DIV => FLOATS | _ => INTS end
  | _, _ => if isDigital l && isDigital r then FLOATS else UNDEFINED
  end.
Definition negative_type (t : AttrType) : AttrType := match t with INTS => INTS | FLOATS => FLOATS | _ => UNDEFINED end.

Definition new_Identifier (tableName fieldName : string) (t : AttrType) : Expr :=
  IdentifierExpression tableName fieldName t (-1) no_value.
Definition new_Negative (e : Expr) : Expr := NegativeExpression e (negative_type (type e)) false (-1) no_value.
Definition new_Binary (l r : Expr) (op : ExprOp) : Expr :=
  BinaryExpression l r op (binary_type (type l) (type r) op) false (-1) no_value.
Definition new_Aggregate (k : AggregateKind) (e : Expr) : Expr :=
  match k with
  | CountStar => AggregateFunction CountStar (ConstExpression "1" INTS) INTS (-1) no_value
  | _ => AggregateFunction k e (match k with Avg => FLOATS | Count => INTS | _ => type e end) (-1) no_value
  end.

(** [ConstExpression::parse]: the return code and the current value. *)
Definition parse (literal_ : string) (t : AttrType) : RC * Current :=
  match t with
  | INTS | DATES => (SUCCESS, set_int (atoi (chars literal_)) no_value)
  | FLOATS => (SUCCESS, set_float (float_of_double (atof (chars literal_))) no_value)
  | CHARS => (SUCCESS, set_text (chars literal_) no_value)
  | NULLS => (SUCCESS, set_null true no_value)
  | _ => (CONST_PARSE_ERROR, no_value)
  end.

(** [isCurrentNull], [currentInt], [currentFloat] and [currentText]. *)
Definition current (e : Expr) : Current :=
  match e with
  | ConstExpression l t => (parse l t).2
  | IdentifierExpression _ _ _ _ c => c
  | NegativeExpression _ _ _ _ c => c
  | BinaryExpression _ _ _ _ _ _ c => c
  | AggregateFunction _ _ _ _ c => c
  | RelationExpression _ _ => no_value
  end.
Definition isCurrentNull (e : Expr) : bool := isNull_ (current e).

(** ** [toString] *)

Definition opToString (op : ExprOp) : string :=
  match op with OP_ADD => "+" | OP_SUB => "-" | OP_MUL => "*" | OP_DIV => "/" | OP_MOD => "%" end.
Definition isId (e : Expr) : bool := match e with IdentifierExpression _ _ _ _ _ => true | _ => false end.
Fixpoint isConst (e : Expr) : bool :=
  match e with
  | ConstExpression _ _ => true
  | IdentifierExpression _ _ _ _ _ => false
  | NegativeExpression e _ _ _ _ => isConst e
  | BinaryExpression l r _ _ _ _ _ => isConst l && isConst r
  | AggregateFunction k e _ _ _ => match k with Identity | Max | Min | Sum => isConst e | _ => false end
  | RelationExpression _ _ => true
  end.

Definition aggregate_name (k : AggregateKind) : string :=
  match k with Identity => "" | Max => "MAX" | Min => "MIN" | Avg => "AVG" | Sum => "SUM" | Count => "COUNT" | CountStar => "COUNT" end.

Fixpoint toString (e : Expr) : string :=
  match e with
  | ConstExpression l _ => l
  | IdentifierExpression t f _ _ _ => t +:+ "." +:+ f
  | NegativeExpression e _ _ _ _ => if isConst e || isId e then "-(" +:+ toString e +:+ ")" else "-" +:+ toString e
  | BinaryExpression l r op _ _ _ _ =>
      (if isId l || isConst l then toString l else "(" +:+ toString l +:+ ")") +:+ opToString op +:+
      (if isId r || isConst r then toString r else "(" +:+ toString r +:+ ")")
  | AggregateFunction k e _ _ _ =>
      match k with
      | Identity => toString e
      | CountStar => "COUNT(*)"
      | _ => aggregate_name k +:+ "(" +:+ toString e +:+ ")"
      end
  | RelationExpression _ _ => ""
  end.

Definition new_Schema (e : Expr) : Schema := mk_Schema (toString e) (type e).

(** ** [mapToRelation] *)

Fixpoint mapToRelation (r : Relation) (e : Expr) : outcome unit Expr :=
  match e with
  | ConstExpression _ _ => Ret e tt
  | RelationExpression _ _ => Ret e tt
  | IdentifierExpression t f a _ c =>
      let column := findExpressionColumn r (toString e) in
      if column =? -1 then Err GENERIC_ERROR tt else Ret (IdentifierExpression t f a column c) tt
  | NegativeExpression s a _ _ c =>
      let column := findExpressionColumn r (toString e) in
      if column =? -1 then
        match mapToRelation r s with
        | Ret s _ => Ret (NegativeExpression s a false column c) tt
        | Err rc _ => Err rc tt
        | Stuck => Stuck
        end
      else Ret (NegativeExpression s a true column c) tt
  | BinaryExpression l r' op a _ _ c =>
      let column := findExpressionColumn r (toString e) in
      if column =? -1 then
        match mapToRelation r l with
        | Ret l _ =>
            match mapToRelation r r' with
            | Ret r' _ => Ret (BinaryExpression l r' op a false column c) tt
            | Err rc _ => Err rc tt
            | Stuck => Stuck
            end
        | Err rc _ => Err rc tt
        | Stuck => Stuck
        end
      else Ret (BinaryExpression l r' op a true column c) tt
  | AggregateFunction k s a _ c =>
      let column := findExpressionColumn r (toString e) in
      if column =? -1 then
        match mapToRelation r s with
        | Ret s _ => Ret (AggregateFunction k s a column c) tt
        | Err rc _ => Err rc tt
        | Stuck => Stuck
        end
      else Ret (AggregateFunction k s a column c) tt
  end.

(** ** [calculate] *)

Definition evaluate_int (left right : Z) (op : ExprOp) : option Z :=
  match op with
  | OP_ADD => Some (to_int32 (left + right))
  | OP_SUB => Some (to_int32 (left - right))
  | OP_MUL => Some (to_int32 (left * right))
  | OP_MOD => if (right =? 0) || ((left =? INT_MIN) && (right =? -1)) then None else Some (Z.rem left right)
  | OP_DIV => Some (-1)
  end.
Definition evaluate_float (left right : float) (op : ExprOp) : float :=
  match op with
  | OP_ADD => float_add left right
  | OP_SUB => float_sub left right
  | OP_MUL => float_mul left right
  | OP_DIV => float_div left right
  | OP_MOD => float_of_int (-1)
  end.

(** [abs(v) < 1e-6] *)
Definition near_zero (v : float) : bool := SFltb (double_of_float (float_abs v)) epsilon.

(** The current value of an arithmetic expression from those of its operands. *)
Definition binary_value (lt rt : AttrType) (op : ExprOp) (l r : Current) (c : Current) : option Current :=
  if isNull_ l || isNull_ r then Some (set_null true c)
  else
    match lt, rt with
    | INTS, INTS =>
        match op with
        | OP_DIV =>
            if intValue r =? 0 then Some (set_null true c)
            else Some (set_float (evaluate_float (float_of_int (intValue l)) (float_of_int (intValue r)) op) c)
        | _ => v ← evaluate_int (intValue l) (intValue r) op; Some (set_int v c)
        end
    | INTS, FLOATS =>
        if match op with OP_DIV => near_zero (floatValue r) | _ => false end then Some (set_null true c)
        else Some (set_float (evaluate_float (float_of_int (intValue l)) (floatValue r) op) c)
    | FLOATS, FLOATS =>
        if match op with OP_DIV => near_zero (floatValue r) | _ => false end then Some (set_null true c)
        else Some (set_float (evaluate_float (floatValue l) (floatValue r) op) c)
    | FLOATS, INTS =>
        if match op with OP_DIV => intValue r =? 0 | _ => false end then Some (set_null true c)
        else Some (set_float (evaluate_float (floatValue l) (float_of_int (intValue r)) op) c)
    | _, _ => Some c
    end.

(** The value of a column, for the types that a kind of expression knows; [Stuck]
    behind the row and for the exception of an item of another type. *)
Definition column_value (row : Row) (column : Z) (t : AttrType) (c : Current) : outcome unit Current :=
  match zget row column with
  | None => Stuck
  | Some item =>
      if isNull item then Ret (set_null true c) tt
      else match t with
           | INTS | DATES => match getInt item with Some v => Ret (set_int v c) tt | None => Stuck end
           | FLOATS => match getFloat item with Some v => Ret (set_float v c) tt | None => Stuck end
           | CHARS => match getText item with Some v => Ret (set_text v c) tt | None => Stuck end
           | NULLS => Ret (set_null true c) tt
           | _ => Err GENERIC_ERROR tt
           end
  end.

Definition map_outcome {B C} (f : B -> C) (o : outcome unit B) : outcome unit C :=
  match o with Ret b _ => Ret (f b) tt | Err rc _ => Err rc tt | Stuck => Stuck end.

(** The value of a negation that is a column of the relation. *)
Definition negative_input (row : Row) (column : Z) (t : AttrType) (c : Current) : outcome unit Current :=
  match t with
  | INTS | FLOATS => column_value row column t c
  | _ => match zget row column with
         | None => Stuck
         | Some item => if isNull item then Ret (set_null true c) tt else Err GENERIC_ERROR tt
         end
  end.
(** The value of a negation from that of its expression. *)
Definition negative_value (t : AttrType) (v c : Current) : outcome unit Current :=
  if isNull_ v then Ret (set_null true c) tt
  else match t with
       | INTS => Ret (set_int (to_int32 (- intValue v)) c) tt
       | FLOATS => Ret (set_float (float_opp (floatValue v)) c) tt
       | _ => Err GENERIC_ERROR tt
       end.
(** The value of arithmetic that is a column of the relation; the case of [FLOATS] has no [break]. *)
Definition binary_input (row : Row) (column : Z) (t : AttrType) (c : Current) : outcome unit Current :=
  match t with
  | INTS => column_value row column t c
  | _ => match zget row column with
         | None => Stuck
         | Some item =>
             if isNull item then Ret (set_null true c) tt
             else match t, getFloat item with FLOATS, None => Stuck | _, _ => Err GENERIC_ERROR tt end
         end
  end.
(** The value of an aggregate that is a column of the relation; [isNull_] is set but never reset. *)
Definition aggregate_value (row : Row) (column : Z) (t : AttrType) (c : Current) : outcome unit Current :=
  if column =? -1 then Err SHOULD_NOT_BE_CALLED tt
  else match t with
       | NULLS | UNDEFINED | RELATIONS =>
           match zget row column with
           | None => Stuck
           | Some item => if isNull item then Ret (set_null true c) tt else Err UNKNOWN_TYPE tt
           end
       | _ => column_value row column t c
       end.

Fixpoint calculate (row : Row) (e : Expr) : outcome unit Expr :=
  match e with
  | ConstExpression l t => if decide ((parse l t).1 = SUCCESS) then Ret e tt else Err (parse l t).1 tt
  | RelationExpression _ _ => Ret e tt
  | IdentifierExpression t f a column c =>
      map_outcome (IdentifierExpression t f a column) (column_value row column a (set_null false c))
  | NegativeExpression s a true column c =>
      map_outcome (NegativeExpression s a true column) (negative_input row column a (set_null false c))
  | NegativeExpression s a false column c =>
      match calculate row s with
      | Ret s _ => map_outcome (NegativeExpression s a false column) (negative_value a (current s) (set_null false c))
      | Err rc _ => Err rc tt
      | Stuck => Stuck
      end
  | BinaryExpression l r op a true column c =>
      map_outcome (BinaryExpression l r op a true column) (binary_input row column a (set_null false c))
  | BinaryExpression l r op a false column c =>
      match calculate row l with
      | Ret l _ =>
          match calculate row r with
          | Ret r _ =>
              match binary_value (type l) (type r) op (current l) (current r) (set_null false c) with
              | Some c => Ret (BinaryExpression l r op a false column c) tt
              | None => Stuck
              end
          | Err _ _ => Err GENERIC_ERROR tt
          | Stuck => Stuck
          end
      | Err _ _ => Err GENERIC_ERROR tt
      | Stuck => Stuck
      end
  | AggregateFunction k s a column c => map_outcome (AggregateFunction k s a column) (aggregate_value row column a c)
  end.

(** [toItem]; [None] is a null pointer. *)
Definition toItem (e : Expr) : option Item :=
  if isCurrentNull e then Some NullItem
  else match type e with
       | INTS => Some (IntItem (intValue (current e)) false)
       | DATES => Some (DateItem (intValue (current e)) false)
       | FLOATS => Some (FloatItem (floatValue (current e)) false)
       | CHARS => Some (TextItem (textValue (current e)) false)
       | _ => None
       end.
