(* ===== verification/Filter.v ===== *)
(** * Comparisons and filters

    [BaseExpression::compare] (sql/expr/expresions/BaseExpression.cpp) and the
    filters of a statement (sql/stmt/filter_stmt.cpp): a list of units that must all
    hold, or, in [or_mode_], a tree of units in an array whose last one is the root. *)

From Stdlib Require Import ZArith Lia SpecFloat String.
From stdpp Require Import base list strings.
From S2P Require Import Prelude.
From S2P Require Import Monad.
From S2P Require Import Comparator.
From S2P Require Import Float.
From S2P Require Import Item.
From S2P Require Import Expr.
#[local] Open Scope Z_scope.

(** ** Comparing values *)

Definition checkTypeMatch (left right : AttrType) : bool :=
  if bool_decide (left = UNDEFINED) || bool_decide (right = UNDEFINED) then false
  else if bool_decide (left = NULLS) || bool_decide (right = NULLS) then true
  else if bool_decide (left = DATES) && negb (bool_decide (right = DATES)) then false
  else if negb (bool_decide (left = DATES)) && bool_decide (right = DATES) then false
  else true.

Definition textComp (a b : list Z) (op : CompOp) : bool :=
  match op with
  | EQUAL_TO => strcmp a b =? 0
  | LESS_EQUAL => strcmp a b <=? 0
  | NOT_EQUAL => negb (strcmp a b =? 0)
  | LESS_THAN => strcmp a b <? 0
  | GREAT_EQUAL => 0 <=? strcmp a b
  | GREAT_THAN => 0 <? strcmp a b
  | LIKE => compare_like a b
  | NOT_LIKE => negb (compare_like a b)
  | _ => false
  end.

Definition numberComp (a b : Z) (op : CompOp) : bool :=
  match op with
  | EQUAL_TO => a =? b
  | LESS_EQUAL => a <=? b
  | NOT_EQUAL => negb (a =? b)
  | LESS_THAN => a <? b
  | GREAT_EQUAL => b <=? a
  | GREAT_THAN => b <? a
  | _ => false
  end.

Definition floatComp (a b : float) (op : CompOp) : bool :=
  let d := double_of_float (float_sub a b) in
  let neg_epsilon := SFopp epsilon in
  match op with
  | EQUAL_TO => SFltb neg_epsilon d && SFltb d epsilon
  | LESS_EQUAL => SFleb d epsilon
  | NOT_EQUAL => SFltb d neg_epsilon || SFltb epsilon d
  | LESS_THAN => SFltb d neg_epsilon
  | GREAT_EQUAL => SFleb neg_epsilon d
  | GREAT_THAN => SFltb epsilon d
  | _ => false
  end.

(** The comparison of two nulls, or of a null and a value. *)
Definition nullComp (t1 t2 : AttrType) (op : CompOp) : bool :=
  if bool_decide (t1 = NULLS) && bool_decide (t2 = NULLS) then bool_decide (op = IS) else bool_decide (op = IS_NOT).

(** [itemComp]; [None]: an item of another type is asked for its value, or there is no item. *)
Definition itemComp (t1 t2 : AttrType) (i1 i2 : option Item) (op : CompOp) : option bool :=
  let float_of_text t := float_of_double (char2double t) in
  if bool_decide (op = IS) || bool_decide (op = IS_NOT) || bool_decide (t1 = NULLS) || bool_decide (t2 = NULLS) then
    Some (nullComp t1 t2 op)
  else
    match t1, t2 with
    | CHARS, CHARS => a ← i1 ≫= getText; b ← i2 ≫= getText; Some (textComp a b op)
    | CHARS, INTS => a ← i1 ≫= getText; b ← i2 ≫= getInt; Some (floatComp (float_of_text a) (float_of_int b) op)
    | CHARS, FLOATS => a ← i1 ≫= getText; b ← i2 ≫= getFloat; Some (floatComp (float_of_text a) b op)
    | INTS, CHARS => a ← i1 ≫= getInt; b ← i2 ≫= getText; Some (floatComp (float_of_int a) (float_of_text b) op)
    | FLOATS, CHARS => a ← i1 ≫= getFloat; b ← i2 ≫= getText; Some (floatComp a (float_of_text b) op)
    | INTS, INTS | DATES, DATES => a ← i1 ≫= getInt; b ← i2 ≫= getInt; Some (numberComp a b op)
    | INTS, FLOATS => a ← i1 ≫= getInt; b ← i2 ≫= getFloat; Some (floatComp (float_of_int a) b op)
    | FLOATS, INTS => a ← i1 ≫= getFloat; b ← i2 ≫= getInt; Some (floatComp a (float_of_int b) op)
    | FLOATS, FLOATS => a ← i1 ≫= getFloat; b ← i2 ≫= getFloat; Some (floatComp a b op)
    | _, _ => Some false
    end.

Definition is_IN (op : CompOp) : bool := bool_decide (op = IN).

(** The loop of [inComp] over items; [sticky]: the type of the column becomes
    [NULLS] at the first null and stays so. *)
Fixpoint in_items (sticky : bool) (typeL : AttrType) (left : option Item) (op : CompOp) (typeR : AttrType)
  (items : list (AttrType * Item)) : outcome unit bool :=
  match items with
  | [] => Ret (negb (is_IN op)) tt
  | (t, r0) :: items =>
      let typeR := if sticky then typeR else t in
      let typeR := if isNull r0 then NULLS else typeR in
      match itemComp typeL typeR left (Some r0) (if is_IN op then EQUAL_TO else NOT_EQUAL) with
      | None => Stuck
      | Some result =>
          if Bool.eqb result (is_IN op) then Ret (is_IN op) tt else in_items sticky typeL left op typeR items
      end
  end.

(** The items of the first column, and those of the first row with their types. *)
Definition first_column (r : Relation) (t : AttrType) : option (list (AttrType * Item)) :=
  mapM (fun row => i ← zget row 0; Some (t, i)) (rows_ r).
Fixpoint typed_row (schemas : list Schema) (row : Row) : option (list (AttrType * Item)) :=
  match schemas, row with
  | [], _ => Some []
  | s :: schemas, i :: row => rest ← typed_row schemas row; Some ((attrType s, i) :: rest)
  | _, [] => None
  end.

Definition inComp (left : option Item) (typeL : AttrType) (r : Relation) (op : CompOp) (isColumn : bool) : outcome unit bool :=
  if isColumn then
    if 1 <? getWidth r then Err MISMATCH tt
    else match schemas_ r with
         | [] => Ret (negb (is_IN op)) tt
         | s :: _ =>
             match first_column r (attrType s) with
             | Some items => in_items true typeL left op (attrType s) items
             | None => Stuck
             end
         end
  else if 1 <? getLength r then Err MISMATCH tt
  else match rows_ r with
       | [] => Ret (negb (is_IN op)) tt
       | row :: _ =>
           match typed_row (schemas_ r) row with
           | Some items => in_items false typeL left op UNDEFINED items
           | None => Stuck
           end
       end.

(** [relation2item]: a relation of one item at most. *)
Definition relation2item (r : Relation) : option (option Item * AttrType) :=
  if (1 <? getLength r) || ((getLength r =? 1) && (1 <? getWidth r)) then None
  else match rows_ r, schemas_ r with
       | (i :: _) :: _, s :: _ => Some (Some i, if isNull i then NULLS else attrType s)
       | _, _ => Some (None, NULLS)
       end.

(** ** [BaseExpression::compare] *)

(** The current types and values of two calculated expressions; [None] is a null pointer. *)
Definition current_type (e : option Expr) : AttrType :=
  match e with None => RELATIONS | Some e => if isCurrentNull e then NULLS else type e end.

(** The operand as an item and its type, for the operators that need one value. *)
Definition single_item (e : option Expr) (t : AttrType) : outcome unit (option Item * AttrType) :=
  match e with
  | Some (RelationExpression _ r) => match relation2item r with Some x => Ret x tt | None => Err ERROR_INPUT_TYPE tt end
  | Some e => Ret (toItem e, t) tt
  | None => Stuck
  end.

(** The branch with a relation on one side. *)
Definition compare_relations (left : option Expr) (right : Expr) (typeL typeR : AttrType) (op : CompOp) : outcome unit bool :=
  match op with
  | EXISTS | NOT_EXISTS =>
      match right with
      | RelationExpression _ r =>
          let empty := (getLength r =? 0) || (getWidth r =? 0) in
          Ret (if empty then negb (bool_decide (op = EXISTS)) else bool_decide (op = EXISTS)) tt
      | _ => Err ERROR_INPUT_TYPE tt
      end
  | IN | NOT_IN =>
      match right with
      | RelationExpression col r =>
          match single_item left typeL with
          | Ret (i, t) _ => inComp i t r op col
          | Err rc _ => Err rc tt
          | Stuck => Stuck
          end
      | _ => Err ERROR_INPUT_TYPE tt
      end
  | _ =>
      match single_item left typeL with
      | Ret (i1, t1) _ =>
          match single_item (Some right) typeR with
          | Ret (i2, t2) _ => match itemComp t1 t2 i1 i2 op with Some b => Ret b tt | None => Stuck end
          | Err rc _ => Err rc tt
          | Stuck => Stuck
          end
      | Err rc _ => Err rc tt
      | Stuck => Stuck
      end
  end.

(** What [compare] returns once both sides are calculated. *)
Definition compare_current (left : option Expr) (right : Expr) (op : CompOp) : outcome unit bool :=
  let typeL := current_type left in
  let typeR := current_type (Some right) in
  let l := match left with Some e => current e | None => no_value end in
  let r := current right in
  let float_of_text t := float_of_double (char2double t) in
  if negb (checkTypeMatch typeL typeR) then Err MISMATCH tt
  else
    match typeL, typeR with
    | NULLS, _ | _, NULLS => Ret (nullComp typeL typeR op) tt
    | CHARS, CHARS => Ret (textComp (textValue l) (textValue r) op) tt
    | CHARS, INTS => Ret (floatComp (float_of_text (textValue l)) (float_of_int (intValue r)) op) tt
    | CHARS, FLOATS => Ret (floatComp (float_of_text (textValue l)) (floatValue r) op) tt
    | INTS, CHARS => Ret (floatComp (float_of_int (intValue l)) (float_of_text (textValue r)) op) tt
    | FLOATS, CHARS => Ret (floatComp (floatValue l) (float_of_text (textValue r)) op) tt
    | INTS, INTS | DATES, DATES => Ret (numberComp (intValue l) (intValue r) op) tt
    | INTS, FLOATS => Ret (floatComp (float_of_int (intValue l)) (floatValue r) op) tt
    | FLOATS, INTS => Ret (floatComp (floatValue l) (float_of_int (intValue r)) op) tt
    | FLOATS, FLOATS => Ret (floatComp (floatValue l) (floatValue r) op) tt
    | RELATIONS, _ | _, RELATIONS => compare_relations left right typeL typeR op
    | _, _ => Err UNKNOWN_TYPE tt
    end.

(** ** Units *)

Record FilterUnit : Type := mk_FilterUnit {
  comp_ : CompOp; left_ : option Expr; right_ : option Expr; leftChild_ : Z; rightChild_ : Z
}.
Definition set_exprs (l r : option Expr) (u : FilterUnit) : FilterUnit :=
  mk_FilterUnit (comp_ u) l r (leftChild_ u) (rightChild_ u).

Definition calculate_left (row : Row) (e : option Expr) : outcome unit (option Expr) :=
  match e with None => Ret None tt | Some e => map_outcome Some (calculate row e) end.

(** [FilterUnit::compare]: the unit with its calculated expressions, and the result. *)
Definition unit_compare (row : Row) (u : FilterUnit) : outcome unit (FilterUnit * bool) :=
  match calculate_left row (left_ u) with
  | Ret l _ =>
      match right_ u with
      | None => Stuck
      | Some r =>
          match calculate row r with
          | Ret r _ => map_outcome (fun b => (set_exprs l (Some r) u, b)) (compare_current l r (comp_ u))
          | Err rc _ => Err rc tt
          | Stuck => Stuck
          end
      end
  | Err rc _ => Err rc tt
  | Stuck => Stuck
  end.

(** [FilterUnit::mapToRelation] *)
Definition map_option (r : Relation) (e : option Expr) : outcome unit (option Expr) :=
  match e with None => Ret None tt | Some e => map_outcome Some (mapToRelation r e) end.
Definition unit_map (r : Relation) (u : FilterUnit) : outcome unit FilterUnit :=
  match map_option r (left_ u) with
  | Ret l _ => map_outcome (fun r => set_exprs l r u) (map_option r (right_ u))
  | Err rc _ => Err rc tt
  | Stuck => Stuck
  end.

(** ** The filter of a statement *)

Record FilterStmt : Type := mk_FilterStmt { filter_units_ : list FilterUnit; or_mode_ : bool }.

(** [FilterStmt::mapToRelation] *)
Fixpoint units_map (r : Relation) (us : list FilterUnit) : outcome unit (list FilterUnit) :=
  match us with
  | [] => Ret [] tt
  | u :: us =>
      match unit_map r u with
      | Ret u _ => map_outcome (cons u) (units_map r us)
      | Err rc _ => Err rc tt
      | Stuck => Stuck
      end
  end.

(** The units one after the other, up to the first that does not hold. *)
Fixpoint filter_all (row : Row) (us : list FilterUnit) : outcome unit (list FilterUnit * bool) :=
  match us with
  | [] => Ret ([], true) tt
  | u :: us =>
      match unit_compare row u with
      | Ret (u, true) _ => map_outcome (fun x => (u :: x.1, x.2)) (filter_all row us)
      | Ret (u, false) _ => Ret (u :: us, false) tt
      | Err rc _ => Err rc tt
      | Stuck => Stuck
      end
  end.

(** [filter_row_tree]; the fuel bounds the depth. *)
Fixpoint filter_row_tree (fuel : nat) (cur : Z) (row : Row) (us : list FilterUnit) : outcome unit (list FilterUnit * bool) :=
  match fuel, zget us cur with
  | S fuel, Some u =>
      let inner stop :=
        match filter_row_tree fuel (leftChild_ u) row us with
        | Ret (us, flag) _ => if Bool.eqb flag stop then Ret (us, flag) tt else filter_row_tree fuel (rightChild_ u) row us
        | Err rc _ => Err rc tt
        | Stuck => Stuck
        end in
      match comp_ u with
      | AND_OP => inner false
      | OR_OP => inner true
      | _ =>
          match unit_compare row u with
          | Ret (u, flag) _ => match zset us cur u with Some us => Ret (us, flag) tt | None => Stuck end
          | Err rc _ => Err rc tt
          | Stuck => Stuck
          end
      end
  | _, _ => Stuck
  end.

(** Whether a row passes; without units every row does. *)
Definition filter_row (row : Row) (f : FilterStmt) : outcome unit (FilterStmt * bool) :=
  map_outcome (fun x => (mk_FilterStmt x.1 (or_mode_ f), x.2))
    (match filter_units_ f with
     | [] => Ret ([], true) tt
     | us => if or_mode_ f then filter_row_tree (length us) (zlen us - 1) row us else filter_all row us
     end).

(** ** Creating a filter *)

Section create.
Context {P : Type} (constructExpression : P -> option Expr).

Record Condition : Type := mk_Condition { leftExpr : P; comp : CompOp; rightExpr : P; leftChild : Z; rightChild : Z }.

(** [create_filter_unit], which is also what the tree does at a leaf. *)
Definition create_filter_unit (c : Condition) : outcome unit FilterUnit :=
  if bool_decide (comp c = NO_OP) then Err INVALID_ARGUMENT tt
  else
    let l := match comp c with EXISTS | NOT_EXISTS => Some None | _ => Some <$> constructExpression (leftExpr c) end in
    match l with
    | None => Err EXPR_PARSE_ERROR tt
    | Some l =>
        match constructExpression (rightExpr c) with
        | None => Err EXPR_PARSE_ERROR tt
        | Some r => Ret (mk_FilterUnit (comp c) l (Some r) (-1) (-1)) tt
        end
    end.

(** [FilterStmt::create] *)
Fixpoint create_units (cs : list Condition) : outcome unit (list FilterUnit) :=
  match cs with
  | [] => Ret [] tt
  | c :: cs =>
      match create_filter_unit c with
      | Ret u _ => map_outcome (cons u) (create_units cs)
      | Err rc _ => Err rc tt
      | Stuck => Stuck
      end
  end.
Definition create (cs : list Condition) : outcome unit FilterStmt :=
  map_outcome (fun us => mk_FilterStmt us false) (create_units cs).

(** [create_filter_unit_tree]: the state is the statement's units and [idx]. *)
Fixpoint create_filter_unit_tree (fuel : nat) (cs : list Condition) (cur : Z) : M (list FilterUnit * Z) FilterUnit :=
  match fuel, zget cs cur with
  | S fuel, Some c =>
      match comp c with
      | AND_OP | OR_OP =>
          l ← create_filter_unit_tree fuel cs (leftChild c);
          left_child ← gets snd;
          modify (fun s => (s.1 ++ [l], s.2 + 1));;
          r ← create_filter_unit_tree fuel cs (rightChild c);
          right_child ← gets snd;
          modify (fun s => (s.1 ++ [r], s.2 + 1));;
          mret (mk_FilterUnit (comp c) None None left_child right_child)
      | _ => fun s => match create_filter_unit c with Ret u _ => Ret u s | Err rc _ => Err rc s | Stuck => Stuck end
      end
  | _, _ => fun _ => Stuck
  end.

(** [FilterStmt::create_tree] *)
Definition create_tree (cs : list Condition) : outcome unit FilterStmt :=
  match cs with
  | [] => Ret (mk_FilterStmt [] false) tt
  | _ =>
      match create_filter_unit_tree (length cs) cs (zlen cs - 1) ([], 0) with
      | Ret u s => Ret (mk_FilterStmt (s.1 ++ [u]) true) tt
      | Err rc _ => Err rc tt
      | Stuck => Stuck
      end
  end.
End create.
