(* ===== verification/ExprSpec.v ===== *)
(** * Expressions without a history

    An expression object keeps the value of the last row, but what it shows after
    [calculate] depends on the row alone, as long as no aggregate is in it: [fresh]
    forgets the kept values, and a calculation from the fresh object shows the same
    item.  So the objects that several operators of a plan share do not disturb
    each other. *)

From Stdlib Require Import ZArith Lia SpecFloat String.
From stdpp Require Import base list strings.
From S2P Require Import Prelude.
From S2P Require Import Monad.
From S2P Require Import Comparator.
From S2P Require Import Float.
From S2P Require Import Item.
From S2P Require Import Expr.
#[local] Open Scope Z_scope.

Fixpoint fresh (e : Expr) : Expr :=
  match e with
  | ConstExpression _ _ => e
  | RelationExpression _ _ => e
  | IdentifierExpression t f a col _ => IdentifierExpression t f a col no_value
  | NegativeExpression s a i col _ => NegativeExpression (fresh s) a i col no_value
  | BinaryExpression l r op a i col _ => BinaryExpression (fresh l) (fresh r) op a i col no_value
  | AggregateFunction k s a col _ => AggregateFunction k (fresh s) a col no_value
  end.

(** The types are the inferred ones, and there is no aggregate. *)
Fixpoint plain (e : Expr) : Prop :=
  match e with
  | ConstExpression _ _ => True
  | RelationExpression _ _ => True
  | IdentifierExpression _ _ _ _ _ => True
  | NegativeExpression s a _ _ _ => a = negative_type (type s) /\ plain s
  | BinaryExpression l r op a _ _ _ => a = binary_type (type l) (type r) op /\ plain l /\ plain r
  | AggregateFunction _ _ _ _ _ => False
  end.

Lemma fresh_idemp e : fresh (fresh e) = fresh e.
Proof. induction e; simpl; congruence. Qed.
Lemma type_fresh e : type (fresh e) = type e.
Proof. by destruct e. Qed.
Lemma plain_fresh e : plain (fresh e) <-> plain e.
Proof. induction e; simpl; rewrite ?type_fresh; tauto. Qed.
Lemma same_type e1 e2 : fresh e1 = fresh e2 -> type e1 = type e2.
Proof. intros E. by rewrite <- (type_fresh e1), E, type_fresh. Qed.
Lemma same_plain e1 e2 : fresh e1 = fresh e2 -> plain e1 -> plain e2.
Proof. intros E H. apply plain_fresh. rewrite <- E. by apply plain_fresh. Qed.

(** Two expressions that only differ in what they keep, and show the same item. *)
Definition same_expr (e1 e2 : Expr) : Prop := fresh e1 = fresh e2 /\ toItem e1 = toItem e2.

Lemma same_expr_null e1 e2 : same_expr e1 e2 -> isCurrentNull e1 = isCurrentNull e2.
Proof.
  intros [E%same_type Ei]. unfold toItem in Ei. rewrite E in Ei.
  destruct (isCurrentNull e1), (isCurrentNull e2); try done; by destruct (type e2).
Qed.

(** What the parts of a current value have to agree on. *)
Definition same_value (t : AttrType) (c1 c2 : Current) : Prop :=
  isNull_ c1 = isNull_ c2 /\
  (isNull_ c1 = false ->
   match t with
   | INTS | DATES => intValue c1 = intValue c2
   | FLOATS => floatValue c1 = floatValue c2
   | CHARS => textValue c1 = textValue c2
   | _ => True
   end).

Lemma same_value_null t c1 c2 : same_value t (set_null true c1) (set_null true c2).
Proof. done. Qed.

Lemma same_expr_value e1 e2 : same_expr e1 e2 <-> fresh e1 = fresh e2 /\ same_value (type e1) (current e1) (current e2).
Proof.
  split; intros H.
  - split; [apply H|]. pose proof (same_expr_null _ _ H) as En. destruct H as [E%same_type Ei]. split; [done|].
    intros Hn. unfold toItem in Ei. rewrite <- En in Ei. unfold isCurrentNull in Ei. rewrite Hn, <- E in Ei.
    by destruct (type e1); simplify_eq.
  - destruct H as [E [En Ev]]. split; [done|]. apply same_type in E. unfold toItem, isCurrentNull. rewrite <- En, <- E.
    destruct (isNull_ (current e1)); [done|]. specialize (Ev eq_refl). destruct (type e1); congruence.
Qed.

Definition same_outcome (o1 o2 : outcome unit Expr) (e : Expr) : Prop :=
  match o1, o2 with
  | Ret e1 _, Ret e2 _ => same_expr e1 e2 /\ fresh e1 = fresh e
  | Err r1 _, Err r2 _ => r1 = r2
  | Stuck, Stuck => True
  | _, _ => False
  end.

Definition same_current (t : AttrType) (o1 o2 : outcome unit Current) : Prop :=
  match o1, o2 with
  | Ret v1 _, Ret v2 _ => same_value t v1 v2
  | Err r1 _, Err r2 _ => r1 = r2
  | Stuck, Stuck => True
  | _, _ => False
  end.

Lemma map_outcome_same t o1 o2 f1 f2 e :
  same_current t o1 o2 ->
  (forall v, fresh (f1 v) = fresh e /\ fresh (f2 v) = fresh e /\ type (f1 v) = t /\ current (f1 v) = v /\ current (f2 v) = v) ->
  same_outcome (map_outcome f1 o1) (map_outcome f2 o2) e.
Proof.
  intros H Hf. destruct o1 as [v1 []|rc1 []|], o2 as [v2 []|rc2 []|]; try done. simpl in *.
  destruct (Hf v1) as (E1 & _ & Et & Ec & _), (Hf v2) as (_ & E2 & _ & _ & Ec2).
  split; [|done]. apply same_expr_value. rewrite Et, Ec, Ec2. split; [congruence|done].
Qed.

Lemma column_value_same row col t c1 c2 :
  same_current t (column_value row col t (set_null false c1)) (column_value row col t (set_null false c2)).
Proof.
  unfold column_value. destruct (zget row col) as [i|]; [|done]. destruct (isNull i); [done|].
  destruct t; try done; simpl; by destruct i.
Qed.

(** The value of an arithmetic expression is that of its operands. *)
Lemma binary_value_same op lt rt l1 l2 r1 r2 c1 c2 :
  same_value lt l1 l2 -> same_value rt r1 r2 ->
  match binary_value lt rt op l1 r1 (set_null false c1), binary_value lt rt op l2 r2 (set_null false c2) with
  | Some v1, Some v2 => same_value (binary_type lt rt op) v1 v2
  | None, None => True
  | _, _ => False
  end.
Proof.
  intros [Hl Hlv] [Hr Hrv]. unfold binary_value. rewrite <- Hl, <- Hr.
  destruct (isNull_ l1), (isNull_ r1); simpl; try apply same_value_null. specialize (Hlv eq_refl). specialize (Hrv eq_refl).
  destruct lt; try (by destruct rt); destruct rt; simpl in *; rewrite ?Hlv, ?Hrv; try done.
  all: destruct op; try done; simpl; by match goal with |- context [if ?b then _ else _] => destruct b end.
Qed.

Lemma negative_value_same t v1 v2 c1 c2 :
  same_value t v1 v2 ->
  same_current (negative_type t) (negative_value (negative_type t) v1 (set_null false c1)) (negative_value (negative_type t) v2 (set_null false c2)).
Proof.
  intros [Hn Hv]. unfold negative_value. rewrite <- Hn. destruct (isNull_ v1); [done|]. specialize (Hv eq_refl).
  destruct t; simpl in *; try done; by rewrite Hv.
Qed.

(** [calculate] depends on the row alone. *)
Lemma calculate_same row e1 e2 : plain e1 -> fresh e1 = fresh e2 -> same_outcome (calculate row e1) (calculate row e2) e1.
Proof.
  revert e2. induction e1 as [l t|t f a col c|s IH a i col c|l IHl r IHr op a i col c|k s IH a col c|b r]; intros e2 Hp E.
  - destruct e2; simpl in E; try done. injection E as <- <-. simpl. by case_decide.
  - destruct e2 as [|t' f' a' col' c'| | | |]; simpl in E; try done. injection E as <- <- <- <-. simpl.
    by apply (map_outcome_same a); [apply column_value_same|].
  - destruct e2 as [| |s' a' i' col' c'| | |]; simpl in E; try done. injection E as E <- <- <-. destruct Hp as [-> Hs]. simpl.
    destruct i.
    + apply (map_outcome_same (negative_type (type s))).
      * unfold negative_input. destruct (negative_type (type s)); try apply column_value_same.
        all: destruct (zget row col) as [i|]; [|done]; by destruct (isNull i).
      * intros v. simpl. by rewrite E.
    + specialize (IH _ Hs E). destruct (calculate row s) as [s1 []|rc []|], (calculate row s') as [s2 []|rc' []|]; try done.
      destruct IH as [IH E1]. pose proof (proj1 IH) as Es. apply same_expr_value in IH as [_ IH].
      rewrite (same_type _ _ E1) in IH. apply (map_outcome_same (negative_type (type s))); [by apply negative_value_same|].
      intros v. simpl. by rewrite <- Es, E1.
  - destruct e2 as [| | |l' r' op' a' i' col' c'| |]; simpl in E; try done. injection E as El Er <- <- <- <-.
    destruct Hp as (-> & Hl & Hr). simpl. destruct i.
    + apply (map_outcome_same (binary_type (type l) (type r) op)).
      * unfold binary_input. destruct (binary_type (type l) (type r) op); try apply column_value_same.
        all: destruct (zget row col) as [i|]; [|done]; destruct (isNull i); [done|]; by destruct (getFloat i).
      * intros v. simpl. by rewrite El, Er.
    + specialize (IHl _ Hl El). destruct (calculate row l) as [l1 []|rc []|], (calculate row l') as [l2 []|rc' []|]; try done.
      specialize (IHr _ Hr Er). destruct (calculate row r) as [r1 []|rc []|], (calculate row r') as [r2 []|rc' []|]; try done.
      destruct IHl as [[Sl Sli] E1], IHr as [[Sr Sri] E2]. rewrite <- (same_type _ _ Sl), <- (same_type _ _ Sr).
      pose proof (binary_value_same op (type l1) (type r1) (current l1) (current l2) (current r1) (current r2) c c') as H.
      specialize (H (proj2 (proj1 (same_expr_value _ _) (conj Sl Sli))) (proj2 (proj1 (same_expr_value _ _) (conj Sr Sri)))).
      rewrite (same_type _ _ E1), (same_type _ _ E2) in *.
      destruct (binary_value _ _ _ _ _ (set_null false c)), (binary_value _ _ _ _ _ (set_null false c')); try done.
      split; [|simpl; by rewrite E1, E2]. apply same_expr_value. simpl. by rewrite Sl, Sr.
  - done.
  - by destruct e2; simpl in E; try done; injection E as <- <-.
Qed.

(** An expression shows the same item for a row, whatever it was calculated on before. *)
Definition shows (row : Row) (e : Expr) : outcome unit (option Item) := map_outcome toItem (calculate row e).

Lemma shows_fresh row e : plain e -> shows row e = shows row (fresh e).
Proof.
  intros Hp. pose proof (calculate_same row e (fresh e) Hp (eq_sym (fresh_idemp e))) as H. unfold shows.
  destruct (calculate row e) as [e1 []|rc []|], (calculate row (fresh e)) as [e2 []|rc' []|]; simpl in *; try done;
    [by destruct H as [[_ ->] _]|by subst].
Qed.

Lemma calculate_keeps row e e' u : plain e -> calculate row e = Ret e' u -> fresh e' = fresh e.
Proof.
  intros Hp E. pose proof (calculate_same row e e Hp eq_refl) as H. rewrite E in H. apply H.
Qed.

(** Mapping changes only the columns, so the types stay as inferred. *)
Lemma map_type r e e' u : mapToRelation r e = Ret e' u -> type e' = type e.
Proof.
  destruct e; simpl; intros E; repeat case_match; simplify_eq; done.
Qed.
Lemma map_plain r e e' u : plain e -> mapToRelation r e = Ret e' u -> plain e'.
Proof.
  revert e' u. induction e as [l t|t f a col c|s IH a i col c|l IHl rr IHr op a i col c|k s IH a col c|b rr];
    intros e' u Hp; simpl; intros E; simplify_eq; try done.
  - by case_match; simplify_eq.
  - destruct Hp as [Ha Hs]. case_match; [|by simplify_eq].
    destruct (mapToRelation r s) as [s' []|rc []|] eqn:Em; simplify_eq. simpl. rewrite (map_type _ _ _ _ Em). eauto.
  - destruct Hp as (Ha & Hl & Hr). case_match; [|by simplify_eq].
    destruct (mapToRelation r l) as [l' []|rc []|] eqn:El; simplify_eq.
    destruct (mapToRelation r rr) as [r' []|rc []|] eqn:Er; simplify_eq. simpl.
    rewrite (map_type _ _ _ _ El), (map_type _ _ _ _ Er). eauto.
Qed.
