(* ===== verification/FilterSpec.v ===== *)
(** * The meaning of a filter

    A condition is a tree of comparisons under AND and OR.  [create_tree] lays it
    out in an array, children before their parent, and [filter_row_tree] walks the
    array; here both are related to the tree itself, and the result for a row to
    that row alone. *)

From Stdlib Require Import ZArith Lia SpecFloat String.
From stdpp Require Import base list strings.
From S2P Require Import Prelude.
From S2P Require Import Monad.
From S2P Require Import Comparator.
From S2P Require Import Float.
From S2P Require Import Item.
From S2P Require Import Expr.
From S2P Require Import Filter.
From S2P Require Import ExprSpec.
#[local] Open Scope Z_scope.

(** ** Units *)

Definition fresh_unit (u : FilterUnit) : FilterUnit := set_exprs (fresh <$> left_ u) (fresh <$> right_ u) u.
Definition plain_opt (e : option Expr) : Prop := match e with Some e => plain e | None => True end.
Definition plain_unit (u : FilterUnit) : Prop := plain_opt (left_ u) /\ plain_opt (right_ u).

Lemma fresh_unit_plain u1 u2 : fresh_unit u1 = fresh_unit u2 -> plain_unit u1 -> plain_unit u2.
Proof.
  destruct u1 as [c1 l1 r1 a1 b1], u2 as [c2 l2 r2 a2 b2]. unfold fresh_unit, set_exprs. simpl.
  intros [= -> El Er -> ->] [Hl Hr]. split; simpl in *.
  - destruct l1, l2; simplify_eq/=; [by eapply same_plain|done].
  - destruct r1, r2; simplify_eq/=; [by eapply same_plain|done].
Qed.

Lemma same_relation e1 e2 b r : same_expr e1 e2 -> e1 = RelationExpression b r -> e2 = RelationExpression b r.
Proof. intros [E _] ->. by destruct e2; simplify_eq/=. Qed.

(** The result of a comparison follows from what its sides show. *)
Lemma current_type_same e1 e2 : same_expr e1 e2 -> current_type (Some e1) = current_type (Some e2).
Proof. intros H. simpl. rewrite (same_expr_null _ _ H). by rewrite (same_type _ _ (proj1 H)). Qed.

Lemma single_item_same e1 e2 t : same_expr e1 e2 -> single_item (Some e1) t = single_item (Some e2) t.
Proof.
  intros [E Ei]. destruct e1, e2; simplify_eq/=; try done; unfold single_item; by rewrite Ei.
Qed.

Definition value_of (e : option Expr) : Current := match e with Some e => current e | None => no_value end.

Lemma value_of_same e1 e2 : same_expr e1 e2 -> same_value (current_type (Some e1)) (current e1) (current e2).
Proof.
  intros H. apply same_expr_value in H as [_ H]. simpl. unfold isCurrentNull.
  destruct (isNull_ (current e1)) eqn:En; [|done]. by split; [apply H|].
Qed.

Lemma type_not_null e : current_type (Some e) <> NULLS -> isNull_ (current e) = false.
Proof. simpl. unfold isCurrentNull. by destruct (isNull_ (current e)). Qed.

#[local] Arguments current_type : simpl never.

Lemma compare_relations_same l1 l2 r1 r2 tl tr op :
  option_Forall2 same_expr l1 l2 -> same_expr r1 r2 -> compare_relations l1 r1 tl tr op = compare_relations l2 r2 tl tr op.
Proof.
  intros Hl Hr. unfold compare_relations. rewrite <- (single_item_same _ _ tr Hr).
  assert (single_item l1 tl = single_item l2 tl) as <- by (destruct Hl; [by apply single_item_same|done]).
  destruct r1, r2; try (by destruct Hr as [[=] _]); try done. by destruct Hr as [[= -> ->] _].
Qed.

Lemma compare_current_same l1 l2 r1 r2 op :
  option_Forall2 same_expr l1 l2 -> same_expr r1 r2 -> compare_current l1 r1 op = compare_current l2 r2 op.
Proof.
  intros Hl Hr. unfold compare_current.
  assert (current_type l1 = current_type l2) as <- by (destruct Hl; [by apply current_type_same|done]).
  rewrite <- (current_type_same _ _ Hr). destruct (checkTypeMatch _ _); [simpl|done].
  rewrite <- (compare_relations_same l1 l2 r1 r2 _ _ op Hl Hr).
  pose proof (value_of_same _ _ Hr) as [_ Vr]. pose proof (type_not_null r1) as Nr.
  set (tr := current_type (Some r1)) in *. clearbody tr.
  destruct Hl as [e1 e2 Hl|]; [|by destruct tr].
  pose proof (value_of_same _ _ Hl) as [_ Vl]. pose proof (type_not_null e1) as Nl.
  set (tl := current_type (Some e1)) in *. clearbody tl.
  destruct tl; try done; (specialize (Vl (Nl ltac:(done))); destruct tr; try done; specialize (Vr (Nr ltac:(done))); congruence).
Qed.

Definition same_opt (o1 o2 : outcome unit (FilterUnit * bool)) (u : FilterUnit) : Prop :=
  match o1, o2 with
  | Ret (u1, b1) _, Ret (u2, b2) _ => b1 = b2 /\ fresh_unit u1 = fresh_unit u /\ fresh_unit u2 = fresh_unit u
  | Err r1 _, Err r2 _ => r1 = r2
  | Stuck, Stuck => True
  | _, _ => False
  end.

Lemma unit_compare_same row u1 u2 :
  plain_unit u1 -> fresh_unit u1 = fresh_unit u2 -> same_opt (unit_compare row u1) (unit_compare row u2) u1.
Proof.
  destruct u1 as [c1 l1 r1 a1 b1], u2 as [c2 l2 r2 a2 b2]. unfold fresh_unit, set_exprs, unit_compare. simpl.
  intros [Hl Hr] [= <- El Er <- <-]. simpl in *.
  assert (calc_l : match calculate_left row l1, calculate_left row l2 with
                   | Ret x _, Ret y _ => option_Forall2 same_expr x y /\ fresh <$> x = fresh <$> l1 /\ fresh <$> y = fresh <$> l1
                   | Err x _, Err y _ => x = y
                   | Stuck, Stuck => True
                   | _, _ => False
                   end).
  { destruct l1 as [l1|], l2 as [l2|]; simplify_eq/=; [|done || (split; [constructor|done])].
    pose proof (calculate_same row l1 l2 Hl El) as H.
    destruct (calculate row l1) as [x []|rc []|], (calculate row l2) as [y []|rc' []|]; try done. simpl in *.
    destruct H as [Hs E]. split; [by constructor|]. rewrite E. split; [done|]. by rewrite <- (proj1 Hs), E. }
  destruct (calculate_left row l1) as [x []|rc []|], (calculate_left row l2) as [y []|rc' []|]; try done.
  destruct calc_l as (Hxy & Ex & Ey).
  destruct r1 as [r1|], r2 as [r2|]; simplify_eq/=; [|done].
  pose proof (calculate_same row r1 r2 Hr Er) as H.
  destruct (calculate row r1) as [v []|rc []|], (calculate row r2) as [w []|rc' []|]; try done. simpl in *.
  destruct H as [Hs E]. rewrite <- (compare_current_same _ _ _ _ c1 Hxy Hs).
  destruct (compare_current x v c1) as [b []|rc []|]; try done. simpl. split; [done|].
  unfold fresh_unit, set_exprs. simpl. rewrite Ex, Ey, E. split; [done|]. by rewrite <- (proj1 Hs), E.
Qed.

Lemma cons_eq {A} (x y : A) l k : x :: l = y :: k -> x = y /\ l = k.
Proof. by intros [= -> ->]. Qed.
Lemma fresh_comp u1 u2 : fresh_unit u1 = fresh_unit u2 -> comp_ u1 = comp_ u2.
Proof. by intros [=]. Qed.

(** Whether a unit holds for a row. *)
Definition unit_holds (row : Row) (u : FilterUnit) : outcome unit bool := map_outcome snd (unit_compare row u).

Lemma unit_holds_same row u1 u2 : plain_unit u1 -> fresh_unit u1 = fresh_unit u2 -> unit_holds row u1 = unit_holds row u2.
Proof.
  intros Hp E. pose proof (unit_compare_same row u1 u2 Hp E) as H. unfold unit_holds, same_opt in *.
  destruct (unit_compare row u1) as [[x b] []|rc []|], (unit_compare row u2) as [[y b'] []|rc' []|]; try done; simpl.
  - by destruct H as [-> _].
  - by subst.
Qed.

Lemma unit_compare_keeps row u u' b v : plain_unit u -> unit_compare row u = Ret (u', b) v -> fresh_unit u' = fresh_unit u.
Proof. intros Hp E. pose proof (unit_compare_same row u u Hp eq_refl) as H. rewrite E in H. apply H. Qed.

(** ** Filters as a whole *)

(** What the operators of a plan rely on: a filter decides every row by a function
    of the row, however many rows it has decided before. *)
Definition implements (f : FilterStmt) (P : Row -> outcome unit bool) : Prop :=
  exists Inv : FilterStmt -> Prop, Inv f /\
  forall f row, Inv f ->
    match filter_row row f, P row with
    | Ret (f', b) _, Ret b' _ => b = b' /\ Inv f'
    | Err rc _, Err rc' _ => rc = rc'
    | Stuck, Stuck => True
    | _, _ => False
    end.

(** ** Units that must all hold *)

Fixpoint all_hold (row : Row) (us : list FilterUnit) : outcome unit bool :=
  match us with
  | [] => Ret true tt
  | u :: us =>
      match unit_holds row u with
      | Ret true _ => all_hold row us
      | o => o
      end
  end.

Lemma filter_all_spec row us1 us2 :
  Forall plain_unit us1 -> fresh_unit <$> us1 = fresh_unit <$> us2 ->
  match filter_all row us1, all_hold row us2 with
  | Ret (us', b) _, Ret b' _ => b = b' /\ fresh_unit <$> us' = fresh_unit <$> us1
  | Err rc _, Err rc' _ => rc = rc'
  | Stuck, Stuck => True
  | _, _ => False
  end.
Proof.
  intros Hp. revert us2. induction Hp as [|u us1 Hu Hus IH]; intros [|u2 us2]; simpl; try done.
  intros [Eu Eus]%cons_eq. rewrite <- (unit_holds_same row u u2 Hu Eu). unfold unit_holds.
  pose proof (unit_compare_keeps row u) as Hk. destruct (unit_compare row u) as [[u' b] []|rc []|]; try done; simpl.
  specialize (Hk _ _ _ Hu eq_refl). destruct b; [|split; [done|]; simpl; by rewrite Hk].
  specialize (IH _ Eus). destruct (filter_all row us1) as [[us' b] []|rc []|], (all_hold row us2) as [b' []|rc' []|]; try done.
  csimpl in *. destruct IH as [-> E]. by rewrite Hk, E.
Qed.

Lemma all_implements us : Forall plain_unit us -> implements (mk_FilterStmt us false) (fun row => all_hold row us).
Proof.
  intros Hp. exists (fun f => or_mode_ f = false /\ fresh_unit <$> filter_units_ f = fresh_unit <$> us). split; [done|].
  intros [us' m] row [Em E]; simpl in *. subst m.
  assert (Hp' : Forall plain_unit us').
  { clear -Hp E. revert us Hp E. induction us' as [|u' us' IH]; intros [|u us] Hp E; simpl in E; try done.
    apply cons_eq in E as [Eu E]. apply Forall_cons in Hp as [Hu Hus]. constructor; [by apply (fresh_unit_plain u)|by eapply IH]. }
  unfold filter_row. cbn [filter_units_ or_mode_]. pose proof (filter_all_spec row us' us Hp' E) as H.
  destruct us' as [|u' us']; [by destruct us|].
  destruct (filter_all row (u' :: us')) as [[us2 b] []|rc []|], (all_hold row us) as [b' []|rc' []|]; try done.
  destruct H as [-> H]. split; [done|]. split; [done|]. by rewrite <- E.
Qed.


(** ** Trees of units *)

Inductive FTree : Type :=
| Leaf (u : FilterUnit)
| Node (op : CompOp) (l r : FTree).

Definition inner (op : CompOp) : bool := match op with AND_OP | OR_OP => true | _ => false end.

Fixpoint size (t : FTree) : Z := match t with Leaf _ => 1 | Node _ l r => size l + size r + 1 end.
Fixpoint depth (t : FTree) : nat := match t with Leaf _ => 1 | Node _ l r => S (depth l `max` depth r) end.

Lemma Leaf_eq u1 u2 : Leaf u1 = Leaf u2 -> u1 = u2.
Proof. by intros [= ->]. Qed.

(** The array of a tree that begins at [base]: children first, the root last. *)
Definition root (base : Z) (t : FTree) : FilterUnit :=
  match t with
  | Leaf u => u
  | Node op l r => mk_FilterUnit op None None (base + size l - 1) (base + size l + size r - 1)
  end.
Fixpoint layout (base : Z) (t : FTree) : list FilterUnit :=
  match t with Leaf _ => [] | Node _ l r => layout base l ++ layout (base + size l) r end ++ [root base t].

Fixpoint fresh_tree (t : FTree) : FTree :=
  match t with Leaf u => Leaf (fresh_unit u) | Node op l r => Node op (fresh_tree l) (fresh_tree r) end.
Fixpoint plain_tree (t : FTree) : Prop :=
  match t with
  | Leaf u => inner (comp_ u) = false /\ plain_unit u
  | Node op l r => inner op = true /\ plain_tree l /\ plain_tree r
  end.

(** The value of a tree: AND stops at the first condition that fails, OR at the first that holds. *)
Fixpoint tree_holds (row : Row) (t : FTree) : outcome unit bool :=
  match t with
  | Leaf u => unit_holds row u
  | Node op l r =>
      match tree_holds row l with
      | Ret b _ => if Bool.eqb b (bool_decide (op = OR_OP)) then Ret b tt else tree_holds row r
      | o => o
      end
  end.

Lemma size_pos t : 0 < size t.
Proof. induction t; simpl; lia. Qed.
Lemma depth_size t : Z.of_nat (depth t) <= size t.
Proof.
  induction t as [|op l IHl r IHr]; simpl; [done|]. pose proof (size_pos l). pose proof (size_pos r). lia.
Qed.
Lemma layout_length base t : zlen (layout base t) = size t.
Proof.
  revert base. induction t as [u|op l IHl r IHr]; intros base; simpl; [done|].
  unfold zlen in *. rewrite !length_app, !Nat2Z.inj_add, IHl, IHr. simpl. lia.
Qed.
Lemma fresh_tree_size t : size (fresh_tree t) = size t.
Proof. induction t; simpl; lia. Qed.
Lemma fresh_tree_depth t : depth (fresh_tree t) = depth t.
Proof. induction t; simpl; lia. Qed.
Lemma same_tree_size t1 t2 : fresh_tree t1 = fresh_tree t2 -> size t1 = size t2.
Proof. intros E. by rewrite <- (fresh_tree_size t1), E, fresh_tree_size. Qed.

Lemma same_tree_plain t1 t2 : fresh_tree t1 = fresh_tree t2 -> plain_tree t1 -> plain_tree t2.
Proof.
  revert t2. induction t1 as [u|op l IHl r IHr]; intros [u2|op2 l2 r2]; simpl; try done.
  - intros E%Leaf_eq [Hi Hp]. split; [by rewrite <- (fresh_comp _ _ E)|by eapply fresh_unit_plain].
  - intros [= <- El Er] (Hi & Hl & Hr). eauto.
Qed.

Lemma tree_holds_same row t1 t2 : plain_tree t1 -> fresh_tree t1 = fresh_tree t2 -> tree_holds row t1 = tree_holds row t2.
Proof.
  revert t2. induction t1 as [u|op l IHl r IHr]; intros [u2|op2 l2 r2]; simpl; try done.
  - intros [_ Hp] E%Leaf_eq. by apply unit_holds_same.
  - intros (_ & Hl & Hr) [= <- El Er]. by rewrite (IHl _ Hl El), (IHr _ Hr Er).
Qed.

(** A position at the end of a part of an array. *)
Lemma zget_mid {A} (pre post : list A) x : zget (pre ++ x :: post) (zlen pre) = Some x.
Proof. unfold zget, zlen. rewrite decide_True by lia. rewrite Nat2Z.id. by apply list_lookup_middle. Qed.
Lemma zset_mid {A} (pre post : list A) x y : zset (pre ++ x :: post) (zlen pre) y = Some (pre ++ y :: post).
Proof.
  rewrite zset_Some by (unfold zlen; rewrite length_app; simpl; lia). unfold zlen. rewrite Nat2Z.id.
  by rewrite insert_app_r_alt, Nat.sub_diag by lia.
Qed.

(** The leaves decide: one step of the walk at a leaf and at an inner node. *)
Lemma walk_leaf fuel pre post u row :
  inner (comp_ u) = false ->
  filter_row_tree (S fuel) (zlen pre) row (pre ++ u :: post) =
  match unit_compare row u with
  | Ret (u, flag) _ => Ret (pre ++ u :: post, flag) tt
  | Err rc _ => Err rc tt
  | Stuck => Stuck
  end.
Proof.
  intros Hi. cbn [filter_row_tree]. rewrite zget_mid.
  destruct (comp_ u); try done; (destruct (unit_compare row u) as [[u' b] []|rc []|]; [|done|done]; by rewrite zset_mid).
Qed.

Lemma walk_node fuel us cur u row :
  zget us cur = Some u -> inner (comp_ u) = true ->
  filter_row_tree (S fuel) cur row us =
  match filter_row_tree fuel (leftChild_ u) row us with
  | Ret (us, flag) _ =>
      if Bool.eqb flag (bool_decide (comp_ u = OR_OP)) then Ret (us, flag) tt
      else filter_row_tree fuel (rightChild_ u) row us
  | Err rc _ => Err rc tt
  | Stuck => Stuck
  end.
Proof. intros E Hi. cbn [filter_row_tree]. rewrite E. by destruct (comp_ u). Qed.

Lemma zlen_layout {pre : list FilterUnit} {base t} : zlen (pre ++ layout base t) = zlen pre + size t.
Proof. rewrite <- (layout_length base t). unfold zlen. rewrite length_app. lia. Qed.

(** [filter_row_tree] on the array of a tree computes the value of the tree. *)
Lemma filter_row_tree_spec t : forall fuel pre post row,
  plain_tree t -> (depth t <= fuel)%nat ->
  match filter_row_tree fuel (zlen pre + size t - 1) row (pre ++ layout (zlen pre) t ++ post), tree_holds row t with
  | Ret (us, b) _, Ret b' _ => b = b' /\ exists t', fresh_tree t' = fresh_tree t /\ us = pre ++ layout (zlen pre) t' ++ post
  | Err rc _, Err rc' _ => rc = rc'
  | Stuck, Stuck => True
  | _, _ => False
  end.
Proof.
  induction t as [u|op l IHl r IHr]; intros fuel pre post row Hp Hd; (destruct fuel as [|fuel]; [simpl in Hd; lia|]).
  - destruct Hp as [Hi Hp]. cbn [size]. replace (zlen pre + 1 - 1) with (zlen pre) by lia. cbn [layout root app tree_holds].
    rewrite walk_leaf by done. unfold unit_holds. pose proof (unit_compare_keeps row u) as Hk.
    destruct (unit_compare row u) as [[u' b] []|rc []|]; try done. simpl. split; [done|].
    exists (Leaf u'). split; [|done]. simpl. by rewrite (Hk _ _ _ Hp eq_refl).
  - destruct Hp as (Hi & Hl & Hr). cbn [size depth tree_holds] in *. set (base := zlen pre).
    assert (E : forall l' r', size l' = size l -> size r' = size r ->
      zget (pre ++ layout base (Node op l' r') ++ post) (base + (size l + size r + 1) - 1) = Some (root base (Node op l' r'))).
    { intros l' r' El Er. cbn [layout]. rewrite <- !app_assoc.
      replace (base + (size l + size r + 1) - 1) with (zlen ((pre ++ layout base l') ++ layout (base + size l') r'))
        by (rewrite !zlen_layout; lia).
      rewrite !app_assoc, <- !app_assoc. simpl. rewrite !app_assoc. apply zget_mid. }
    rewrite (walk_node _ _ _ _ _ (E l r eq_refl eq_refl)) by done. cbn [root leftChild_ rightChild_ comp_].
    pose proof (IHl fuel pre (layout (base + size l) r ++ root base (Node op l r) :: post) row Hl ltac:(lia)) as Sl. fold base in Sl.
    cbn [layout]. rewrite <- !app_assoc. cbn [app].
    destruct (filter_row_tree fuel (base + size l - 1) row _) as [[us b] []|rc []|],
      (tree_holds row l) as [b' []|rc' []|]; try done.
    destruct Sl as [<- (l' & El & ->)]. pose proof (same_tree_size _ _ El) as Zl.
    destruct (Bool.eqb b _).
    { split; [done|]. exists (Node op l' r). split; [simpl; by rewrite El|]. cbn [layout root]. rewrite Zl, <- !app_assoc. done. }
    pose proof (IHr fuel (pre ++ layout base l') (root base (Node op l r) :: post) row Hr ltac:(lia)) as Sr.
    rewrite zlen_layout, Zl in Sr. fold base in Sr. rewrite <- !app_assoc in Sr.
    destruct (filter_row_tree fuel (base + size l + size r - 1) row _) as [[us b'] []|rc []|],
      (tree_holds row r) as [b'' []|rc' []|]; try done.
    destruct Sr as [<- (r' & Er & ->)]. pose proof (same_tree_size _ _ Er) as Zr. split; [done|].
    exists (Node op l' r'). split; [simpl; by rewrite El, Er|]. cbn [layout root]. by rewrite Zl, Zr, <- !app_assoc.
Qed.

Lemma tree_implements t : plain_tree t -> implements (mk_FilterStmt (layout 0 t) true) (fun row => tree_holds row t).
Proof.
  intros Hp. exists (fun f => exists t', f = mk_FilterStmt (layout 0 t') true /\ fresh_tree t = fresh_tree t').
  split; [by exists t|]. intros f row (t' & -> & E). rewrite (tree_holds_same row t t' Hp E).
  unfold filter_row. cbn [filter_units_ or_mode_]. destruct (layout 0 t') as [|u us] eqn:El.
  { pose proof (layout_length 0 t') as Hl. rewrite El in Hl. pose proof (size_pos t'). unfold zlen in Hl. simpl in Hl. lia. }
  rewrite <- El, layout_length. clear El.
  pose proof (filter_row_tree_spec t' (length (layout 0 t')) [] [] row (same_tree_plain _ _ E Hp)) as H.
  change (zlen (@nil FilterUnit)) with 0 in H. rewrite Z.add_0_l, app_nil_r in H. cbn [app] in H.
  specialize (H ltac:(pose proof (depth_size t'); pose proof (layout_length 0 t'); unfold zlen in *; lia)).
  destruct (filter_row_tree _ _ _ _) as [[us' b] []|rc []|], (tree_holds row t') as [b' []|rc' []|]; try done.
  destruct H as [-> (t2 & E2 & ->)]. split; [done|]. exists t2. rewrite app_nil_r. split; [done|congruence].
Qed.

(** ** Creating the array *)

Section create.
Context {P : Type} (constructExpression : P -> option Expr).

(** The tree of a condition in the array that the parser builds, where children precede their parents. *)
Inductive CondTree : Type :=
| CondLeaf (c : Condition (P := P))
| CondNode (op : CompOp) (l r : CondTree).
Inductive stored (cs : list (Condition (P := P))) : Z -> CondTree -> Prop :=
| stored_leaf cur c : zget cs cur = Some c -> inner (comp c) = false -> stored cs cur (CondLeaf c)
| stored_node cur c l r :
    zget cs cur = Some c -> inner (comp c) = true -> leftChild c < cur -> rightChild c < cur ->
    stored cs (leftChild c) l -> stored cs (rightChild c) r -> stored cs cur (CondNode (comp c) l r).

(** The units of the leaves, from left to right; the first error ends it. *)
Fixpoint build (t : CondTree) : outcome unit FTree :=
  match t with
  | CondLeaf c => map_outcome Leaf (create_filter_unit constructExpression c)
  | CondNode op l r =>
      match build l with
      | Ret l _ => map_outcome (Node op l) (build r)
      | o => o
      end
  end.

Lemma stored_bound cs cur t : stored cs cur t -> 0 <= cur < zlen cs.
Proof. destruct 1; by eapply zget_Some_bound. Qed.

Lemma layout_root base t : layout base t = match t with Leaf _ => [] | Node _ l r => layout base l ++ layout (base + size l) r end ++ [root base t].
Proof. by destruct t. Qed.

(** The root of the part is returned, the rest of its array is pushed. *)
Lemma create_filter_unit_tree_spec cs cur t :
  stored cs cur t -> forall fuel us, cur < Z.of_nat fuel ->
  match create_filter_unit_tree constructExpression fuel cs cur (us, zlen us), build t with
  | Ret u s, Ret ft _ =>
      s.1 ++ [u] = us ++ layout (zlen us) ft /\ s.2 = zlen us + size ft - 1
  | Err rc _, Err rc' _ => rc = rc'
  | Stuck, Stuck => True
  | _, _ => False
  end.
Proof.
  induction 1 as [cur c Ec Hi|cur c l r Ec Hi Hl Hr _ IHl _ IHr]; intros fuel us Hf;
    (destruct fuel as [|fuel]; [apply zget_Some_bound in Ec; lia|]); cbn [create_filter_unit_tree build]; rewrite Ec.
  - replace (match comp c with AND_OP | OR_OP => _ | _ => _ end) with
      (fun s : list FilterUnit * Z => match create_filter_unit constructExpression c with Ret u _ => Ret u s | Err rc _ => Err rc s | Stuck => Stuck end)
      by (by destruct (comp c)).
    destruct (create_filter_unit constructExpression c) as [u []|rc []|]; try done. simpl. split; [done|lia].
  - specialize (IHl fuel us ltac:(lia)).
    assert (Hc : forall (X : M (list FilterUnit * Z) FilterUnit) Y, (match comp c with AND_OP | OR_OP => X | _ => Y end) = X)
      by (intros; by destruct (comp c)).
    rewrite Hc. clear Hc. mrun.
    destruct (create_filter_unit_tree constructExpression fuel cs (leftChild c) (us, zlen us)) as [lu [us1 i1]|rc s|],
      (build l) as [fl []|rc' []|]; try done. simpl in IHl. destruct IHl as [Eus ->]. cbn [fst snd].
    rewrite Eus. replace (zlen us + size fl - 1 + 1) with (zlen (us ++ layout (zlen us) fl)) by (rewrite zlen_layout; lia).
    specialize (IHr fuel (us ++ layout (zlen us) fl) ltac:(lia)).
    destruct (create_filter_unit_tree constructExpression fuel cs (rightChild c) _) as [ru [us2 i2]|rc s|],
      (build r) as [fr []|rc' []|]; try done. simpl in IHr. destruct IHr as [Eus2 ->]. cbn [fst snd map_outcome].
    rewrite Eus2, zlen_layout. cbn [layout root size]. rewrite <- !app_assoc. split; [done|lia].
Qed.

(** [create_tree] lays out the tree of the condition, or returns the error of its first bad leaf. *)
Lemma create_tree_spec cs t :
  stored cs (zlen cs - 1) t ->
  match create_tree constructExpression cs, build t with
  | Ret f _, Ret ft _ => f = mk_FilterStmt (layout 0 ft) true
  | Err rc _, Err rc' _ => rc = rc'
  | Stuck, Stuck => True
  | _, _ => False
  end.
Proof.
  intros Hs. pose proof (create_filter_unit_tree_spec _ _ _ Hs (length cs) [] ltac:(unfold zlen; lia)) as H.
  unfold create_tree. destruct cs as [|c cs]; [by apply stored_bound in Hs; unfold zlen in Hs; simpl in Hs; lia|].
  change (zlen (@nil FilterUnit)) with 0 in H.
  destruct (create_filter_unit_tree _ _ _ _ _) as [u [us i]|rc s|], (build t) as [ft []|rc' []|]; try done.
  simpl in *. by destruct H as [-> _].
Qed.
End create.

(** ** Mapping *)

(** The units of a tree are mapped one by one; an inner node has nothing to map. *)
Fixpoint map_tree (r : Relation) (t : FTree) : outcome unit FTree :=
  match t with
  | Leaf u => map_outcome Leaf (unit_map r u)
  | Node op l r' =>
      match map_tree r l with
      | Ret l _ => map_outcome (Node op l) (map_tree r r')
      | o => o
      end
  end.

Lemma units_map_app r us1 us2 :
  units_map r (us1 ++ us2) =
  match units_map r us1 with
  | Ret us1 _ => map_outcome (app us1) (units_map r us2)
  | Err rc _ => Err rc tt
  | Stuck => Stuck
  end.
Proof.
  induction us1 as [|u us1 IH]; simpl; [by destruct (units_map r us2) as [? []|? []|]|].
  destruct (unit_map r u) as [u' []|rc []|]; [|done|done]. rewrite IH.
  destruct (units_map r us1) as [us1' []|rc []|]; [|done|done]. simpl. by destruct (units_map r us2) as [? []|? []|].
Qed.

Lemma map_tree_size r t t' u : map_tree r t = Ret t' u -> size t' = size t.
Proof.
  revert t' u. induction t as [w|op l IHl rr IHr]; intros t' u; simpl.
  - destruct (unit_map r w); simpl; by intros [= <-].
  - destruct (map_tree r l) as [l' []|rc []|]; [|done|done]. destruct (map_tree r rr) as [r' []|rc []|]; simpl; [|done|done].
    intros [= <-]. simpl. by rewrite (IHl _ _ eq_refl), (IHr _ _ eq_refl).
Qed.

Lemma units_map_layout r t base :
  units_map r (layout base t) =
  match map_tree r t with Ret t' _ => Ret (layout base t') tt | Err rc _ => Err rc tt | Stuck => Stuck end.
Proof.
  revert base. induction t as [u|op l IHl rr IHr]; intros base; cbn [layout map_tree].
  - simpl. by destruct (unit_map r u) as [? []|? []|].
  - rewrite !units_map_app, IHl. destruct (map_tree r l) as [l' []|rc []|] eqn:El; [|done|done].
    rewrite IHr. destruct (map_tree r rr) as [r' []|rc []|] eqn:Er; [|done|done].
    cbn [map_outcome root]. simpl. unfold set_exprs. simpl.
    by rewrite (map_tree_size _ _ _ _ El), (map_tree_size _ _ _ _ Er).
Qed.

Lemma unit_map_plain r u u' v : plain_unit u -> unit_map r u = Ret u' v -> comp_ u' = comp_ u /\ plain_unit u'.
Proof.
  intros [Hl Hr]. unfold unit_map, map_option.
  destruct (left_ u) as [l|], (right_ u) as [rr|]; simpl in *;
    try destruct (mapToRelation r l) as [l' []|rc []|] eqn:El; try destruct (mapToRelation r rr) as [r' []|rc []|] eqn:Er;
    simpl; intros [= <-]; unfold plain_unit; simpl; eauto 6 using map_plain.
Qed.

Lemma map_tree_plain r t t' v : plain_tree t -> map_tree r t = Ret t' v -> plain_tree t'.
Proof.
  revert t' v. induction t as [u|op l IHl rr IHr]; intros t' v Hp; simpl.
  - destruct Hp as [Hi Hp]. destruct (unit_map r u) as [u' []|rc []|] eqn:Eu; simpl; intros [= <-].
    destruct (unit_map_plain _ _ _ _ Hp Eu) as [Ec Hp']. simpl. by rewrite Ec.
  - destruct Hp as (Hi & Hl & Hr). destruct (map_tree r l) as [l' []|rc []|]; [|done|done].
    destruct (map_tree r rr) as [r' []|rc []|]; simpl; intros [= <-]. simpl. eauto.
Qed.
