(* ===== verification/Select.v ===== *)
(** * Query operators

    sql/operator/select: each operator evaluates the ones below it and hands up one
    relation.  [evaluate] of an operator is a definition on the outcomes of its
    operands; [QueryOperator] puts them together the way
    [SelectStmt::generateOperatorFlow] does for a query without aggregates.  The
    objects a plan shares are expressions, whose results do not depend on what they
    were used for before (ExprSpec.v), so every operator has its own copy here.
    The filter of a join has [or_mode_] unset, as [FilterStmt::create] leaves it. *)

From Stdlib Require Import ZArith Lia SpecFloat String.
From stdpp Require Import base list strings.
From S2P Require Import Prelude.
From S2P Require Import Monad.
From S2P Require Import Comparator.
From S2P Require Import Float.
From S2P Require Import Item.
From S2P Require Import Expr.
From S2P Require Import Filter.
#[local] Open Scope Z_scope.

(** [insertRow] where the code drops its return code. *)
Definition insert_row (row : Row) (r : Relation) : Relation :=
  match insertRow row r with Ret _ r => r | Err _ r => r | Stuck => r end.

(** ** [ScanOperator] *)

(** What the scan of a table delivers: the code of [open] and the records of
    [next], with the fields of their table; [relation_] is kept after the first evaluation. *)
Record ScanOperator : Type := mk_ScanOperator {
  open_rc : RC; records : list (list Z); fields : list FieldMeta; null_offset : Z;
  schema_ : list Schema; relation_ : option Relation
}.

Fixpoint scan_rows (fields : list FieldMeta) (null_offset : Z) (records : list (list Z)) (r : Relation) : option Relation :=
  match records with
  | [] => Some r
  | d :: records => row ← tupleToRow fields null_offset d; scan_rows fields null_offset records (insert_row row r)
  end.

Definition scan_evaluate : M ScanOperator Relation := fun s =>
  match relation_ s with
  | Some r => Ret r s
  | None =>
      if decide (open_rc s = SUCCESS) then
        match scan_rows (fields s) (null_offset s) (records s) (new_Relation (schema_ s)) with
        | Some r => Ret r (mk_ScanOperator (open_rc s) (records s) (fields s) (null_offset s) (schema_ s) (Some r))
        | None => Stuck
        end
      else Err (open_rc s) s
  end.

(** ** [JoinOperator] *)

Record JoinOperator : Type := mk_JoinOperator {
  relations : list (option Relation); indexes : list Z; relLengths : list Z; flag : bool
}.
Definition new_JoinOperator : JoinOperator := mk_JoinOperator [] [] [] false.
Definition set_flag (b : bool) (s : JoinOperator) : JoinOperator := mk_JoinOperator (relations s) (indexes s) (relLengths s) b.
Definition set_indexes (ids : list Z) (s : JoinOperator) : JoinOperator := mk_JoinOperator (relations s) ids (relLengths s) (flag s).

Section join.
Context (relNum : nat).

Definition hasNext : M JoinOperator bool :=
  s ← get_state;
  if existsb (fun i => negb (i =? 0)) (take relNum (indexes s)) then mret true
  else if flag s then modify (set_flag false);; mret true
  else mret false.

(** The rows at the indexes, one behind the other. *)
Fixpoint rows_at (n : nat) (rs : list (option Relation)) (ids : list Z) : option Row :=
  match n, rs, ids with
  | O, _, _ => Some []
  | S n, Some r :: rs, i :: ids => row ← zget (rows_ r) i; rest ← rows_at n rs ids; Some (row ++ rest)
  | _, _, _ => None
  end.

(** The loop from the last index down; the increment of the last one is the push
    into it.  A length of 0 is divided by. *)
Fixpoint push_indexes (n : nat) (ids lens : list Z) : option (list Z * Z) :=
  match n, ids, lens with
  | O, _, _ => Some (ids, 1)
  | S n, i :: ids, l :: lens =>
      x ← push_indexes n ids lens;
      if l =? 0 then None else Some (Z.rem (i + x.2) l :: x.1, Z.quot (i + x.2) l)
  | _, _, _ => None
  end.

Definition nextRow : M JoinOperator Row :=
  s ← get_state;
  check (0 <? Z.of_nat relNum);;
  row ← of_option (rows_at relNum (relations s) (indexes s));
  x ← of_option (push_indexes relNum (indexes s) (relLengths s));
  modify (set_indexes x.1);;
  mret row.

(** The loop of [evaluate]; the fuel bounds the rows. *)
Fixpoint join_loop (fuel : nat) (us : list FilterUnit) (r : Relation) : M JoinOperator Relation :=
  match fuel with
  | O => fun _ => Stuck
  | S fuel =>
      more ← hasNext;
      if (more : bool) then
        row ← nextRow;
        match us with
        | [] => match insertRow row r with
                | Ret _ r => join_loop fuel us r
                | Err rc _ => throw rc
                | Stuck => fun _ => Stuck
                end
        | _ =>
            match filter_all row us with
            | Ret (us, satisfy) _ =>
                if (satisfy : bool) then
                  match insertRow row r with
                  | Ret _ r => join_loop fuel us r
                  | Err rc _ => throw rc
                  | Stuck => fun _ => Stuck
                  end
                else join_loop fuel us r
            | Err rc _ => throw rc
            | Stuck => fun _ => Stuck
            end
        end
      else mret r
  end.
End join.

(** The operands are evaluated in turn into the slots from [i] on; the schemas are collected. *)
Fixpoint join_operands (subs : list (outcome unit Relation)) (i : Z) (schemas : list Schema) : M JoinOperator (list Schema) :=
  match subs with
  | [] => mret schemas
  | Ret r _ :: subs =>
      s ← get_state;
      rs ← of_option (zset (relations s) i (Some r));
      ls ← of_option (zset (relLengths s) i (getLength r));
      modify (fun s => mk_JoinOperator rs (indexes s) ls (if flag s then negb (getLength r =? 0) else flag s));;
      join_operands subs (i + 1) (schemas ++ schemas_ r)
  | Err rc _ :: _ => throw rc
  | Stuck :: _ => fun _ => Stuck
  end.

Definition product_length (ls : list Z) : nat := Z.to_nat (foldr Z.mul 1 ls).

(** [JoinOperator::evaluate]; the slots are appended at every evaluation, and a
    slot without a relation is dereferenced at the end. *)
Definition join_evaluate (subs : list (outcome unit Relation)) (us : list FilterUnit) : M JoinOperator Relation :=
  let relNum := length subs in
  modify (fun s => mk_JoinOperator (relations s ++ replicate relNum None) (indexes s ++ replicate relNum 0)
                     (relLengths s ++ replicate relNum 0) true);;
  schemas ← join_operands subs 0 [];
  match units_map (new_Relation schemas) us with
  | Ret us _ =>
      s ← get_state;
      r ← join_loop relNum (S (product_length (take relNum (relLengths s)))) us (new_Relation schemas);
      s ← get_state;
      check (forallb (fun x => bool_decide (is_Some x)) (relations s));;
      mret r
  | Err rc _ => throw rc
  | Stuck => fun _ => Stuck
  end.

(** ** [PredicateOperator1] *)

Section father.
Context (schemaOfFather_ : list Schema) (rowFromFather_ : Row).

Fixpoint predicate_rows (rows : list Row) (f : FilterStmt) (ret : Relation) : outcome unit Relation :=
  match rows with
  | [] => Ret ret tt
  | row :: rows =>
      match filter_row (row ++ rowFromFather_) f with
      | Ret (f, keep) _ => predicate_rows rows f (if keep then insert_row row ret else ret)
      | Err rc _ => Err rc tt
      | Stuck => Stuck
      end
  end.

Definition predicate_evaluate (sub : outcome unit Relation) (f : FilterStmt) : outcome unit Relation :=
  match sub with
  | Ret r _ =>
      match units_map (new_Relation (schemas_ r ++ schemaOfFather_)) (filter_units_ f) with
      | Ret us _ => predicate_rows (rows_ r) (mk_FilterStmt us (or_mode_ f)) (new_Relation (schemas_ r))
      | Err rc _ => Err rc tt
      | Stuck => Stuck
      end
  | Err rc _ => Err rc tt
  | Stuck => Stuck
  end.

(** ** [TransformerAndProjectOperator] *)

Fixpoint map_exprs (r : Relation) (es : list Expr) : outcome unit (list Expr) :=
  match es with
  | [] => Ret [] tt
  | e :: es =>
      match mapToRelation r e with
      | Ret e _ => map_outcome (cons e) (map_exprs r es)
      | Err rc _ => Err rc tt
      | Stuck => Stuck
      end
  end.

(** [constructRow]: the calculated expressions and their items. *)
Fixpoint constructRow (row : Row) (es : list Expr) : outcome unit (list Expr * Row) :=
  match es with
  | [] => Ret ([], []) tt
  | e :: es =>
      match calculate (row ++ rowFromFather_) e with
      | Ret e _ =>
          match toItem e with
          | None => Err GENERIC_ERROR tt
          | Some i => map_outcome (fun x => (e :: x.1, i :: x.2)) (constructRow row es)
          end
      | Err rc _ => Err rc tt
      | Stuck => Stuck
      end
  end.

Fixpoint project_rows (rows : list Row) (es : list Expr) (ret : Relation) : outcome unit Relation :=
  match rows with
  | [] => Ret ret tt
  | row :: rows =>
      match constructRow row es with
      | Ret (es, row) _ => project_rows rows es (insert_row row ret)
      | Err rc _ => Err rc tt
      | Stuck => Stuck
      end
  end.

Definition project_evaluate (sub : outcome unit Relation) (expressions : list Expr) : outcome unit Relation :=
  match sub with
  | Ret r _ =>
      match map_exprs (new_Relation (schemas_ r ++ schemaOfFather_)) expressions with
      | Ret es _ => project_rows (rows_ r) es (new_Relation (new_Schema <$> es))
      | Err rc _ => Err rc tt
      | Stuck => Stuck
      end
  | Err rc _ => Err rc tt
  | Stuck => Stuck
  end.
End father.

(** ** [SimpleSelect] *)

Fixpoint simple_row (es : list Expr) : outcome unit Row :=
  match es with
  | [] => Ret [] tt
  | e :: es =>
      match calculate [] e with
      | Ret e _ => match toItem e with Some i => map_outcome (cons i) (simple_row es) | None => Stuck end
      | Err rc _ => Err rc tt
      | Stuck => Stuck
      end
  end.
Definition simple_evaluate (expressions_ : list Expr) : outcome unit Relation :=
  map_outcome (fun row => insert_row row (new_Relation (new_Schema <$> expressions_))) (simple_row expressions_).

(** ** [OrderOperator] *)

Record OrderMeta : Type := mk_OrderMeta { om_idx : Z; om_type : AttrType; om_is_asc : bool }.

(** [sortRow]; [None] for an item of another type or a column behind the row. *)
Fixpoint sortRow (metas : list OrderMeta) (r1 r2 : Row) : option bool :=
  match metas with
  | [] => Some true
  | it :: metas =>
      a ← zget r1 (om_idx it);
      b ← zget r2 (om_idx it);
      if isNull a || isNull b then
        if negb (isNull a) then Some (negb (om_is_asc it))
        else if negb (isNull b) then Some (om_is_asc it)
        else sortRow metas r1 r2
      else
        match om_type it with
        | INTS | DATES =>
            x ← getInt a; y ← getInt b;
            if x =? y then sortRow metas r1 r2 else Some (if om_is_asc it then x <? y else y <? x)
        | FLOATS =>
            x ← getFloat a; y ← getFloat b;
            let d := double_of_float (float_sub x y) in
            if SFleb (SFopp epsilon) d && SFleb d epsilon then sortRow metas r1 r2
            else Some (if om_is_asc it then SFltb d (SFopp epsilon) else SFltb epsilon d)
        | _ =>
            x ← getText a; y ← getText b;
            if strcmp x y =? 0 then sortRow metas r1 r2 else Some (if om_is_asc it then strcmp x y <? 0 else 0 <? strcmp x y)
        end
  end.

(** The columns to order by; an expression that is no column is left out. *)
Fixpoint order_metas (r : Relation) (orderBy_ : list (Expr * bool)) : list OrderMeta :=
  match orderBy_ with
  | [] => []
  | (e, asc) :: orderBy_ =>
      let i := findExpressionColumn r (toString e) in
      match zget (schemas_ r) i with
      | Some s => [mk_OrderMeta i (attrType s) asc]
      | None => []
      end ++ order_metas r orderBy_
  end.

(** What [std::sort] asks of its comparison on a range: a strict weak order. *)
Definition strict_weak_order {A} (lt : A -> A -> option bool) (l : list A) : Prop :=
  (forall a b, a ∈ l -> b ∈ l -> is_Some (lt a b)) /\
  (forall a, a ∈ l -> lt a a = Some false) /\
  (forall a b c, a ∈ l -> b ∈ l -> c ∈ l -> lt a b = Some true -> lt b c = Some true -> lt a c = Some true) /\
  (forall a b c, a ∈ l -> b ∈ l -> c ∈ l -> lt a b = Some false -> lt b a = Some false -> lt b c = Some false ->
     lt c b = Some false -> lt a c = Some false).

(** ** Plans *)

Inductive QueryOperator : Type :=
| QScan (s : ScanOperator)
| QJoin (subs : list QueryOperator) (us : list FilterUnit)
| QPredicate (sub : QueryOperator) (f : FilterStmt)
| QProject (sub : QueryOperator) (es : list Expr)
| QSimple (es : list Expr).

Definition drop_state {S A} (o : outcome S A) : outcome unit A :=
  match o with Ret a _ => Ret a tt | Err rc _ => Err rc tt | Stuck => Stuck end.

(** The first evaluation of a plan that is no sub-query. *)
Fixpoint evaluate (q : QueryOperator) : outcome unit Relation :=
  match q with
  | QScan s => drop_state (scan_evaluate s)
  | QJoin subs us => drop_state (join_evaluate (map evaluate subs) us new_JoinOperator)
  | QPredicate sub f => predicate_evaluate [] [] (evaluate sub) f
  | QProject sub es => project_evaluate [] [] (evaluate sub) es
  | QSimple es => simple_evaluate es
  end.

(** An inner join: its first table and the joined ones with their conditions. *)
Record InnerJoin : Type := mk_InnerJoin { head_table : string; joined : list (string * list FilterUnit) }.

Record SelectStmt : Type := mk_SelectStmt {
  expressions_ : list Expr; inner_joins_ : list InnerJoin; filter_stmt_ : FilterStmt; scans : list (string * ScanOperator)
}.

Fixpoint scanMap (scans : list (string * ScanOperator)) (table : string) : option QueryOperator :=
  match scans with
  | [] => None
  | (t, s) :: scans => if bool_decide (t = table) then Some (QScan s) else scanMap scans table
  end.

(** The chain of an inner join: each table is joined in front of the ones before. *)
Fixpoint join_chain (st : SelectStmt) (last : QueryOperator) (js : list (string * list FilterUnit)) : option QueryOperator :=
  match js with
  | [] => Some last
  | (t, us) :: js => q ← scanMap (scans st) t; join_chain st (QJoin [q; last] us) js
  end.
Definition inner_join (st : SelectStmt) (j : InnerJoin) : option QueryOperator :=
  q ← scanMap (scans st) (head_table j); join_chain st q (joined j).

(** [generateOperatorFlow] without aggregates, HAVING and ORDER BY. *)
Definition generateOperatorFlow (st : SelectStmt) : option QueryOperator :=
  match inner_joins_ st with
  | [] => Some (QSimple (expressions_ st))
  | js =>
      innerJoinList ← mapM (inner_join st) js;
      let beforeTransform := match innerJoinList with [q] => q | qs => QJoin qs [] end in
      Some (QProject (QPredicate beforeTransform (filter_stmt_ st)) (expressions_ st))
  end.
