(* ===== verification/SelectSpec.v ===== *)
(** * The answer of a query

    The algebra of queries without state: a product of lists, a selection by a
    function of the row, a projection row by row.  The operators of Select.v compute
    it, errors included: [evaluate_algebra].  The join enumerates the product with
    an odometer of indexes, [ordinal] is the position it stands for. *)

From Stdlib Require Import ZArith Lia SpecFloat String.
From stdpp Require Import base list strings.
From S2P Require Import Prelude.
From S2P Require Import Monad.
From S2P Require Import Comparator.
From S2P Require Import Float.
From S2P Require Import Item.
From S2P Require Import Expr.
From S2P Require Import Filter.
From S2P Require Import ExprSpec.
From S2P Require Import FilterSpec.
From S2P Require Import Select.
#[local] Open Scope Z_scope.

(** ** The algebra *)

Definition obind {A B} (o : outcome unit A) (f : A -> outcome unit B) : outcome unit B :=
  match o with Ret a _ => f a | Err rc _ => Err rc tt | Stuck => Stuck end.

Fixpoint traverse {A B} (f : A -> outcome unit B) (l : list A) : outcome unit (list B) :=
  match l with
  | [] => Ret [] tt
  | a :: l => obind (f a) (fun b => map_outcome (cons b) (traverse f l))
  end.

Lemma traverse_length {A B} (f : A -> outcome unit B) l l' v : traverse f l = Ret l' v -> zlen l' = zlen l.
Proof.
  revert l' v. induction l as [|a l IH]; intros l' v; simpl; [by intros [= <-]|].
  destruct (f a) as [b []|rc []|]; simpl; [|done|done]. destruct (traverse f l) as [k []|rc []|]; simpl; intros [= <-].
  specialize (IH _ _ eq_refl). unfold zlen in *. simpl. lia.
Qed.

(** The rows that a condition keeps. *)
Fixpoint select (P : Row -> outcome unit bool) (rows : list Row) : outcome unit (list Row) :=
  match rows with
  | [] => Ret [] tt
  | row :: rows => obind (P row) (fun b => map_outcome (if (b : bool) then cons row else id) (select P rows))
  end.

(** All combinations, the last operand running fastest. *)
Fixpoint combine (r rest : list Row) : list Row :=
  match r with [] => [] | a :: r => ((fun b : Row => a ++ b : Row) <$> rest) ++ combine r rest end.
Fixpoint product (rs : list (list Row)) : list Row :=
  match rs with
  | [] => [[]]
  | r :: rs => combine r (product rs)
  end.

(** What a filter says of a row when it is asked for the first time. *)
Definition decides (f : FilterStmt) (row : Row) : outcome unit bool := map_outcome snd (filter_row row f).

(** The items of the projected expressions. *)
Definition project_row (es : list Expr) (row : Row) : outcome unit Row :=
  traverse (fun e => obind (shows row e) (fun i => match i with Some i => Ret i tt | None => Err GENERIC_ERROR tt end)) es.

Fixpoint algebra (q : QueryOperator) : outcome unit Relation :=
  match q with
  | QScan s => drop_state (scan_evaluate s)
  | QJoin subs us =>
      obind (traverse id (map algebra subs)) (fun rels =>
      let schemas := concat (schemas_ <$> rels) in
      obind (units_map (new_Relation schemas) us) (fun us =>
      map_outcome (mk_Relation schemas) (select (decides (mk_FilterStmt us false)) (product (rows_ <$> rels)))))
  | QPredicate sub f =>
      obind (algebra sub) (fun r =>
      obind (units_map (new_Relation (schemas_ r)) (filter_units_ f)) (fun us =>
      map_outcome (mk_Relation (schemas_ r)) (select (decides (mk_FilterStmt us (or_mode_ f))) (rows_ r))))
  | QProject sub es =>
      obind (algebra sub) (fun r =>
      obind (map_exprs (new_Relation (schemas_ r)) es) (fun es =>
      map_outcome (mk_Relation (new_Schema <$> es)) (traverse (project_row es) (rows_ r))))
  | QSimple es => simple_evaluate es
  end.

(** A filter of comparisons without aggregates, as [create] or [create_tree] make it. *)
Definition plain_filter (f : FilterStmt) : Prop :=
  match or_mode_ f with
  | false => Forall plain_unit (filter_units_ f)
  | true => exists t, plain_tree t /\ filter_units_ f = layout 0 t
  end.

Fixpoint plain_plan (q : QueryOperator) : Prop :=
  match q with
  | QScan s => relation_ s = None
  | QJoin subs us => subs <> [] /\ foldr (fun q P => plain_plan q /\ P) True subs /\ Forall plain_unit us
  | QPredicate sub f => plain_plan sub /\ plain_filter f
  | QProject sub es => plain_plan sub /\ Forall plain es
  | QSimple _ => True
  end.

(** ** Filters *)

Lemma implements_decides f P row : implements f P -> decides f row = P row.
Proof.
  intros (Inv & Hf & H). specialize (H f row Hf). unfold decides.
  destruct (filter_row row f) as [[f' b] []|rc []|], (P row) as [b' []|rc' []|]; try done; simpl.
  - by destruct H as [-> _].
  - by subst.
Qed.

Lemma plain_implements f : plain_filter f -> implements f (decides f).
Proof.
  intros Hp. assert (exists P, implements f P) as [P HP].
  { destruct f as [us m]. unfold plain_filter in Hp. simpl in Hp. destruct m.
    - destruct Hp as (t & Hp & ->). eexists. by apply tree_implements.
    - eexists. by apply all_implements. }
  pose proof (fun row => implements_decides f P row HP) as E. destruct HP as (Inv & Hf & H).
  exists Inv. split; [done|]. intros g row Hg. specialize (H g row Hg). rewrite E. done.
Qed.

Lemma units_map_plain r us us' v : Forall plain_unit us -> units_map r us = Ret us' v -> Forall plain_unit us'.
Proof.
  intros Hp. revert us' v. induction Hp as [|u us Hu Hus IH]; intros us' v; simpl; [by intros [= <-]|].
  destruct (unit_map r u) as [u' []|rc []|] eqn:Eu; [|done|done].
  destruct (units_map r us) as [us2 []|rc []|]; simpl; intros [= <-]. constructor; [|by eapply IH].
  by apply (unit_map_plain _ _ _ _ Hu Eu).
Qed.

Lemma plain_filter_mapped r f us v :
  plain_filter f -> units_map r (filter_units_ f) = Ret us v -> plain_filter (mk_FilterStmt us (or_mode_ f)).
Proof.
  destruct f as [us0 m]. unfold plain_filter. simpl. destruct m; [|by apply units_map_plain].
  intros (t & Hp & ->). rewrite units_map_layout. destruct (map_tree r t) as [t' []|rc []|] eqn:Et; intros [= <-].
  exists t'. split; [by eapply map_tree_plain|done].
Qed.

(** ** Rows that fit *)

Definition wf_rel (r : Relation) : Prop := Forall (fun row => zlen row = getWidth r) (rows_ r).

Lemma insert_row_ok row r : zlen row = getWidth r -> insert_row row r = mk_Relation (schemas_ r) (rows_ r ++ [row]).
Proof. intros E. unfold insert_row. by rewrite insertRow_ok. Qed.

Lemma insert_row_wf row r : wf_rel r -> wf_rel (insert_row row r).
Proof.
  intros H. unfold insert_row, insertRow. destruct (Z.eqb_spec (zlen row) (getWidth r)) as [E|]; [|done].
  unfold wf_rel, getWidth in *. simpl. apply Forall_app. split; [done|]. by constructor.
Qed.

Lemma select_wf P rows rows' v n :
  Forall (fun row : Row => zlen row = n) rows -> select P rows = Ret rows' v -> Forall (fun row : Row => zlen row = n) rows'.
Proof.
  intros H. revert rows' v. induction H as [|row rows Hr Hrs IH]; intros rows' v; simpl; [by intros [= <-]|].
  destruct (P row) as [b []|rc []|]; simpl; [|done|done]. destruct (select P rows) as [rs []|rc []|]; simpl; [|done|done].
  intros [= <-]. destruct b; [constructor; [done|]|]; by eapply IH.
Qed.

Lemma product_wf (rs : list (list Row)) (ns : list Z) :
  Forall2 (fun rows n => Forall (fun row : Row => zlen row = n) rows) rs ns ->
  Forall (fun row : Row => zlen row = foldr Z.add 0 ns) (product rs).
Proof.
  induction 1 as [|r n rs ns Hr Hrs IH]; simpl; [by constructor|].
  induction Hr as [|a r Ha Hr IHr]; simpl; [constructor|]. apply Forall_app. split; [|done].
  apply Forall_fmap. eapply Forall_impl; [exact IH|]. intros b Hb. simpl. unfold zlen in *. rewrite length_app. lia.
Qed.

(** ** [PredicateOperator1] *)

Lemma predicate_rows_select rows : forall f P ret,
  implements f P -> Forall (fun row => zlen row = getWidth ret) rows ->
  predicate_rows [] rows f ret = map_outcome (fun rs => mk_Relation (schemas_ ret) (rows_ ret ++ rs)) (select P rows).
Proof.
  induction rows as [|row rows IH]; intros f P ret Hf Hw; simpl.
  { rewrite app_nil_r. by destruct ret. }
  apply Forall_cons in Hw as [Hr Hw]. rewrite app_nil_r.
  pose proof Hf as (Inv & Hi & H). specialize (H f row Hi) as Hrow.
  destruct (filter_row row f) as [[f' b] []|rc []|], (P row) as [b' []|rc' []|]; try done; simpl; [|by subst].
  destruct Hrow as [<- Hf']. rewrite (IH f' P); [|by exists Inv|destruct b; [by rewrite insert_row_ok|done]].
  destruct (select P rows) as [rs []|rc []|]; simpl; [|done|done]. destruct b; [|done].
  rewrite insert_row_ok by done. simpl. by rewrite <- app_assoc.
Qed.

(** ** [TransformerAndProjectOperator] *)

Lemma constructRow_spec row es1 es2 :
  Forall plain es1 -> fresh <$> es1 = fresh <$> es2 ->
  match constructRow [] row es1, project_row es2 row with
  | Ret (es', r) _, Ret r' _ => r = r' /\ fresh <$> es' = fresh <$> es2 /\ zlen r = zlen es2
  | Err rc _, Err rc' _ => rc = rc'
  | Stuck, Stuck => True
  | _, _ => False
  end.
Proof.
  intros Hp. revert es2. induction Hp as [|e1 es1 He Hes IH]; intros [|e2 es2]; try done.
  intros [E Es]%cons_eq. specialize (IH es2 Es). unfold project_row in *. cbn [constructRow traverse]. rewrite app_nil_r.
  pose proof (calculate_same row e1 e2 He E) as H. unfold shows.
  destruct (calculate row e1) as [v1 []|rc []|], (calculate row e2) as [v2 []|rc' []|]; try done. simpl in H.
  destruct H as [[Ef Ei] Ek]. cbn [map_outcome obind]. rewrite <- Ei. destruct (toItem v1) as [i|]; [|done]. cbn [obind].
  destruct (constructRow [] row es1) as [[es' r] []|rc []|], (traverse _ es2) as [r' []|rc' []|]; try done.
  destruct IH as (-> & Ek' & El). cbn [map_outcome fst snd]. split; [done|].
  rewrite !fmap_cons, Ek, Ek', E. split; [done|]. unfold zlen in *. simpl. lia.
Qed.

Lemma fresh_plain_all es1 es2 : fresh <$> es1 = fresh <$> es2 -> Forall plain es2 -> Forall plain es1.
Proof.
  revert es2. induction es1 as [|e1 es1 IH]; intros [|e2 es2]; try done. intros [E Es]%cons_eq [He Hes]%Forall_cons.
  constructor; [by apply (same_plain e2)|by eapply IH].
Qed.

Lemma project_rows_traverse es rows : forall es' ret,
  Forall plain es -> fresh <$> es' = fresh <$> es -> zlen es = getWidth ret ->
  project_rows [] rows es' ret =
  map_outcome (fun rs => mk_Relation (schemas_ ret) (rows_ ret ++ rs)) (traverse (project_row es) rows).
Proof.
  induction rows as [|row rows IH]; intros es' ret Hp E Hw; simpl.
  { rewrite app_nil_r. by destruct ret. }
  pose proof (constructRow_spec row es' es (fresh_plain_all _ _ E Hp) E) as H.
  destruct (constructRow [] row es') as [[es2 r] []|rc []|], (project_row es row) as [r' []|rc' []|]; try done; simpl; [|by subst].
  destruct H as (<- & E2 & El). rewrite insert_row_ok by congruence. rewrite IH by done. simpl.
  destruct (traverse (project_row es) rows) as [rs []|rc []|]; simpl; [|done|done]. by rewrite <- app_assoc.
Qed.

Lemma map_exprs_spec r es es' v :
  Forall plain es -> map_exprs r es = Ret es' v -> Forall plain es' /\ zlen es' = zlen es.
Proof.
  intros Hp. revert es' v. induction Hp as [|e es He Hes IH]; intros es' v; simpl; [by intros [= <-]|].
  destruct (mapToRelation r e) as [e' []|rc []|] eqn:Ee; [|done|done].
  destruct (map_exprs r es) as [es2 []|rc []|]; simpl; intros [= <-]. destruct (IH _ _ eq_refl) as [Hp' El].
  split; [constructor; [by eapply map_plain|done]|]. unfold zlen in *. simpl. lia.
Qed.

Lemma project_wf es rows rows' v :
  traverse (project_row es) rows = Ret rows' v -> Forall (fun row : Row => zlen row = zlen es) rows'.
Proof.
  revert rows' v. induction rows as [|row rows IH]; intros rows' v; simpl; [intros [= <-]; constructor|].
  destruct (project_row es row) as [r []|rc []|] eqn:Er; simpl; [|done|done].
  destruct (traverse (project_row es) rows) as [rs []|rc []|]; simpl; intros [= <-]. constructor; [|by eapply IH].
  by eapply traverse_length.
Qed.

(** ** The odometer *)

(** The number that the indexes stand for, with the lengths as digits' bases. *)
Fixpoint ordinal (ids lens : list Z) : Z :=
  match ids, lens with
  | i :: ids, l :: lens => i * foldr Z.mul 1 lens + ordinal ids lens
  | _, _ => 0
  end.
Definition in_range (ids lens : list Z) : Prop := Forall2 (fun i l => 0 <= i < l) ids lens.

Lemma ordinal_bound ids lens : in_range ids lens -> 0 <= ordinal ids lens < foldr Z.mul 1 lens.
Proof. induction 1 as [|i l ids lens Hi _ IH]; simpl; [lia|nia]. Qed.

(** One step of the odometer adds 1; the carry out of it is the wrap-around. *)
Lemma push_indexes_spec ids lens :
  in_range ids lens ->
  exists ids' c, push_indexes (length ids) ids lens = Some (ids', c) /\ in_range ids' lens /\ 0 <= c <= 1 /\
    ordinal ids' lens + c * foldr Z.mul 1 lens = ordinal ids lens + 1.
Proof.
  induction 1 as [|i l ids lens Hi Hids IH]; simpl.
  { exists [], 1. split; [done|]. split; [constructor|]. simpl. lia. }
  destruct IH as (ids' & c & -> & Hr & Hc & E). simpl. destruct (Z.eqb_spec l 0) as [|Hl]; [lia|].
  eexists _, _. split; [done|]. split; [constructor; [apply Z.rem_bound_pos; lia|done]|].
  split; [split; [apply Z.quot_pos; lia|]|].
  - rewrite Z.quot_div_nonneg by lia. assert ((i + c) / l < 2); [|lia]. apply Z.div_lt_upper_bound; nia.
  - simpl. pose proof (Z.quot_rem (i + c) l Hl) as Hq. nia.
Qed.

(** The rows at the indexes are at the ordinal in the product. *)
Lemma product_length_spec (rs : list (list Row)) : Z.of_nat (length (product rs)) = foldr Z.mul 1 (zlen <$> rs).
Proof.
  induction rs as [|r rs IH]; csimpl; [done|]. rewrite <- IH. clear IH.
  induction r as [|a r IHr]; csimpl; [done|]. rewrite length_app, length_fmap, Nat2Z.inj_add, IHr.
  unfold Row, zlen. cbn [length]. rewrite Nat2Z.inj_succ. ring.
Qed.

Lemma product_lookup (r : list Row) rs a b (i k : nat) :
  r !! i = Some a -> product rs !! k = Some b -> combine r (product rs) !! (i * length (product rs) + k)%nat = Some (a ++ b).
Proof.
  revert i. induction r as [|x r IH]; intros i Ha Hb; [done|]. simpl. destruct i as [|i]; simpl in Ha.
  - injection Ha as ->. rewrite lookup_app_l by (rewrite length_fmap; by eapply lookup_lt_Some).
    simpl. rewrite list_lookup_fmap. by replace (product rs !! k) with (Some b).
  - rewrite lookup_app_r by (rewrite length_fmap; lia). rewrite length_fmap. simpl.
    replace (length (product rs) + i * length (product rs) + k - length (product rs))%nat with (i * length (product rs) + k)%nat by lia.
    by apply IH.
Qed.

Lemma rows_at_spec rels : forall ids,
  in_range ids (getLength <$> rels) ->
  exists row, rows_at (length rels) (Some <$> rels) ids = Some row /\
    product (rows_ <$> rels) !! Z.to_nat (ordinal ids (getLength <$> rels)) = Some row.
Proof.
  induction rels as [|r rels IH]; intros ids H; inversion H as [|i l ids' lens Hi Hids E1 E2]; subst; csimpl;
    try change (list_fmap Relation Z getLength rels) with (getLength <$> rels) in *.
  { by exists []. }
  destruct (IH _ Hids) as (row & -> & Erow). destruct (zget_is_Some (rows_ r) i ltac:(unfold getLength in Hi; lia)) as [a Ea].
  rewrite Ea. simpl. eexists. split; [done|].
  unfold zget in Ea. rewrite decide_True in Ea by lia.
  pose proof (product_lookup _ _ _ _ _ _ Ea Erow) as Ep. pose proof (ordinal_bound _ _ Hids) as Hb.
  pose proof (product_length_spec (rows_ <$> rels)) as El. rewrite <- list_fmap_compose in El.
  change (zlen ∘ rows_) with getLength in El. rewrite <- El in *.
  rewrite Z2Nat.inj_add, Z2Nat.inj_mul, Nat2Z.id by lia. exact Ep.
Qed.

(** ** [JoinOperator] *)

Lemma existsb_ordinal ids lens : in_range ids lens -> existsb (fun i => negb (i =? 0)) ids = negb (ordinal ids lens =? 0).
Proof.
  induction 1 as [|i l ids lens Hi Hids IH]; simpl; [done|]. rewrite IH.
  pose proof (ordinal_bound _ _ Hids) as Hb.
  destruct (Z.eqb_spec i 0), (Z.eqb_spec (ordinal ids lens) 0), (Z.eqb_spec (i * foldr Z.mul 1 lens + ordinal ids lens) 0); simpl; nia.
Qed.

Lemma filter_row_all row us :
  filter_row row (mk_FilterStmt us false) = map_outcome (fun x => (mk_FilterStmt x.1 false, x.2)) (filter_all row us).
Proof. by destruct us. Qed.

(** The body of the loop once a row is there. *)
Lemma join_loop_row n fuel us r s s1 s2 row :
  hasNext n s = Ret true s1 -> nextRow n s1 = Ret row s2 -> zlen row = getWidth r ->
  join_loop n (S fuel) us r s =
  match filter_all row us with
  | Ret (us, b) _ => join_loop n fuel us (if b then insert_row row r else r) s2
  | Err rc _ => Err rc s2
  | Stuck => Stuck
  end.
Proof.
  intros E1 E2 Hw. cbn [join_loop]. rewrite (bind_Ret _ _ _ _ _ E1). rewrite (bind_Ret _ _ _ _ _ E2).
  rewrite insert_row_ok, insertRow_ok by done. destruct us as [|u us]; [done|].
  by destruct (filter_all row (u :: us)) as [[us' []] []|rc []|].
Qed.

Section loop.
Context (rels : list Relation) (P : Row -> outcome unit bool).
Let lens := getLength <$> rels.
Let rows := product (rows_ <$> rels).

Definition at_index (ids : list Z) (b : bool) : JoinOperator := mk_JoinOperator (Some <$> rels) ids lens b.

(** The rows that are left: all before the first, none when the odometer is back at zero. *)
Definition rows_left (ids : list Z) (b : bool) : list Row :=
  if b then rows else if ordinal ids lens =? 0 then [] else drop (Z.to_nat (ordinal ids lens)) rows.

Lemma in_range_length ids : in_range ids lens -> length ids = length rels.
Proof. intros H%Forall2_length. subst lens. by rewrite length_fmap in H. Qed.

Lemma hasNext_spec ids b :
  in_range ids lens -> (b = true -> ordinal ids lens = 0) ->
  hasNext (length rels) (at_index ids b) = Ret (negb (bool_decide (rows_left ids b = []))) (at_index ids false).
Proof.
  intros Hr Hb. unfold hasNext. mrun. cbn [at_index indexes flag]. pose proof (ordinal_bound _ _ Hr) as Ho.
  rewrite take_ge by (rewrite (in_range_length _ Hr); lia). rewrite (existsb_ordinal _ _ Hr).
  pose proof (product_length_spec (rows_ <$> rels)) as El. rewrite <- list_fmap_compose in El.
  change (zlen ∘ rows_) with getLength in El. fold lens rows in El. unfold rows_left.
  destruct (Z.eqb_spec (ordinal ids lens) 0) as [Ez|Ez]; simpl.
  - destruct b; [|done]. rewrite bool_decide_false; [done|]. intros E. rewrite E in El. simpl in El. lia.
  - destruct b; [by specialize (Hb eq_refl)|]. rewrite bool_decide_false; [done|].
    intros E%(f_equal length). rewrite length_drop in E. simpl in E. lia.
Qed.

Lemma nextRow_spec ids b :
  rels <> [] -> in_range ids lens -> (b = true -> ordinal ids lens = 0) -> rows_left ids b <> [] ->
  exists row ids', nextRow (length rels) (at_index ids false) = Ret row (at_index ids' false) /\
    in_range ids' lens /\ rows_left ids b = row :: rows_left ids' false.
Proof.
  intros Hn Hr Hb Hl. destruct (rows_at_spec rels ids Hr) as (row & Erow & Elk).
  destruct (push_indexes_spec ids lens Hr) as (ids' & c & Epush & Hr' & Hc & Eo).
  rewrite (in_range_length _ Hr) in Epush. exists row, ids'. split; [|split; [done|]].
  { unfold nextRow. mrun. cbn [at_index relations indexes relLengths].
    assert ((0 <? Z.of_nat (length rels)) = true) as -> by (apply Z.ltb_lt; assert (length rels <> O) by (by intros E%nil_length_inv); lia).
    rewrite Erow.
    fold lens. by rewrite Epush. }
  fold lens rows in Elk. pose proof (ordinal_bound _ _ Hr) as Ho. pose proof (ordinal_bound _ _ Hr') as Ho'.
  assert (El : rows_left ids b = drop (Z.to_nat (ordinal ids lens)) rows).
  { unfold rows_left in *. destruct b; [by rewrite (Hb eq_refl)|]. by destruct (ordinal ids lens =? 0). }
  rewrite El, (drop_S _ _ _ Elk). f_equal. unfold rows_left.
  pose proof (product_length_spec (rows_ <$> rels)) as Et. rewrite <- list_fmap_compose in Et.
  change (zlen ∘ rows_) with getLength in Et. fold lens rows in Et.
  destruct (Z.eqb_spec (ordinal ids' lens) 0) as [Ez|Ez].
  - apply drop_ge. assert (c = 0 \/ c = 1) as [-> | ->] by lia; lia.
  - f_equal. assert (c = 0 \/ c = 1) as [-> | ->] by lia; lia.
Qed.

(** From any position the loop selects among the rows that are left. *)
Lemma join_loop_spec : rels <> [] -> forall fuel us r ids b,
  implements (mk_FilterStmt us false) P -> Forall (fun row => zlen row = getWidth r) rows ->
  in_range ids lens -> (b = true -> ordinal ids lens = 0) -> (length (rows_left ids b) < fuel)%nat ->
  match join_loop (length rels) fuel us r (at_index ids b), select P (rows_left ids b) with
  | Ret r' s, Ret rs _ => r' = mk_Relation (schemas_ r) (rows_ r ++ rs) /\ relations s = Some <$> rels
  | Err rc _, Err rc' _ => rc = rc'
  | Stuck, Stuck => True
  | _, _ => False
  end.
Proof.
  intros Hn. induction fuel as [|fuel IH]; intros us r ids b Hus Hw Hr Hb Hf; [lia|].
  pose proof (hasNext_spec ids b Hr Hb) as Eh.
  destruct (decide (rows_left ids b = [])) as [El|El].
  - rewrite bool_decide_true in Eh by done. cbn [join_loop]. rewrite (bind_Ret _ _ _ _ _ Eh), El. simpl.
    rewrite app_nil_r. by destruct r.
  - rewrite bool_decide_false in Eh by done. destruct (nextRow_spec ids b Hn Hr Hb El) as (row & ids' & En & Hr' & Erow).
    assert (zlen row = getWidth r) as Hrow.
    { rewrite Forall_forall in Hw. apply Hw. assert (row ∈ rows_left ids b) as Hin by (rewrite Erow; left).
      unfold rows_left in Hin. destruct b; [done|]. destruct (_ =? 0); [by apply elem_of_nil in Hin|].
      by eapply subseteq_drop in Hin. }
    rewrite (join_loop_row _ _ _ _ _ _ _ _ Eh En Hrow), Erow. cbn [select].
    pose proof Hus as (Inv & Hi & H). specialize (H _ row Hi) as Hd. rewrite filter_row_all in Hd.
    destruct (filter_all row us) as [[us' keep] []|rc []|], (P row) as [keep' []|rc' []|]; simpl in Hd; try done.
    destruct Hd as [<- Hi']. cbn [obind].
    set (r2 := if keep then insert_row row r else r).
    assert (Er2 : schemas_ r2 = schemas_ r /\ rows_ r2 = rows_ r ++ (if keep then [row] else [])).
    { subst r2. destruct keep; [by rewrite insert_row_ok|]. by rewrite app_nil_r. }
    destruct Er2 as [Es Er2]. rewrite Erow in Hf. cbn [length] in Hf.
    specialize (IH us' r2 ids' false ltac:(by exists Inv) ltac:(unfold getWidth; by rewrite Es) Hr' ltac:(done) ltac:(lia)).
    destruct (join_loop _ fuel us' r2 _) as [r3 s3|rc s3|], (select P (rows_left ids' false)) as [rs []|rc' []|];
      simpl; try done.
    destruct IH as [-> Hs]. split; [|done]. rewrite Es, Er2, <- app_assoc. by destruct keep.
Qed.
End loop.

Lemma zset_at {A} (pre post : list A) n x y : n = zlen pre -> zset (pre ++ x :: post) n y = Some (pre ++ y :: post).
Proof. intros ->. apply zset_mid. Qed.

(** The operands fill the slots. *)
Lemma join_operands_spec rels2 : forall rels1 rest1 rest2 ids ls schemas b n,
  length rest1 = length rels2 -> length rest2 = length rels2 -> ls = getLength <$> rels1 -> n = zlen rels1 ->
  join_operands ((fun r => Ret r tt) <$> rels2) n schemas
    (mk_JoinOperator ((Some <$> rels1) ++ rest1) ids (ls ++ rest2) b) =
  Ret (schemas ++ concat (schemas_ <$> rels2))
    (mk_JoinOperator (Some <$> (rels1 ++ rels2)) ids (getLength <$> (rels1 ++ rels2))
       (b && forallb (fun r => negb (getLength r =? 0)) rels2)).
Proof.
  induction rels2 as [|r rels2 IH]; intros rels1 rest1 rest2 ids ls schemas b n E1 E2 -> ->; csimpl.
  - destruct rest1, rest2; try done. by rewrite !app_nil_r, andb_true_r.
  - destruct rest1 as [|x rest1], rest2 as [|y rest2]; try done. simplify_eq/=.
    mrun. cbn [relations relLengths].
    rewrite zset_at by (unfold zlen; by rewrite length_fmap). rewrite zset_at by (unfold zlen; by rewrite length_fmap).
    cbn [indexes flag].
    pose proof (IH (rels1 ++ [r]) rest1 rest2 ids _ (schemas ++ schemas_ r) (if b then negb (getLength r =? 0) else b) _ E1 E2 eq_refl eq_refl) as H.
    rewrite !fmap_app, <- !app_assoc in H. cbn [fmap list_fmap app] in H.
    replace (zlen (rels1 ++ [r])) with (zlen rels1 + 1) in H by (unfold zlen; rewrite length_app; simpl; lia).
    rewrite !fmap_app. etrans; [exact H|]. do 2 f_equal. by destruct b.
Qed.

(** The first operand that fails ends the join with its code. *)
Lemma join_operands_fails subs : forall n schemas s,
  0 <= n -> n + zlen subs <= zlen (relations s) -> n + zlen subs <= zlen (relLengths s) ->
  match traverse id subs with
  | Ret _ _ => True
  | Err rc _ => exists s', join_operands subs n schemas s = Err rc s'
  | Stuck => join_operands subs n schemas s = Stuck
  end.
Proof.
  induction subs as [|o subs IH]; intros n schemas s Hn H1 H2; [done|]. unfold zlen in H1, H2. cbn [length] in H1, H2.
  destruct o as [r []|rc []|]; simpl; [|by eexists|done].
  mrun. rewrite !zset_Some by (unfold zlen; lia).
  match goal with |- context [join_operands subs (n + 1) ?sc ?st] => specialize (IH (n + 1) sc st) end.
  cbn [relations relLengths] in IH. unfold zlen in IH. rewrite !length_insert in IH.
  specialize (IH ltac:(lia) ltac:(lia) ltac:(lia)). by destruct (traverse id subs) as [rs []|rc []|].
Qed.

Lemma traverse_id_Ret {A} (subs : list (outcome unit A)) rels v :
  traverse id subs = Ret rels v -> subs = (fun r => Ret r tt) <$> rels.
Proof.
  revert rels v. induction subs as [|o subs IH]; intros rels v; simpl; [by intros [= <-]|].
  destruct o as [r []|rc []|]; simpl; [|done|done].
  destruct (traverse id subs) as [rs []|rc []|]; simpl; intros [= <-]. csimpl. by rewrite (IH _ _ eq_refl).
Qed.

Lemma product_length_nat (rels : list Relation) :
  product_length (getLength <$> rels) = length (product (rows_ <$> rels)).
Proof.
  unfold product_length. pose proof (product_length_spec (rows_ <$> rels)) as E. rewrite <- list_fmap_compose in E.
  change (zlen ∘ rows_) with getLength in E. rewrite <- E. lia.
Qed.

Lemma product_empty (rels : list Relation) :
  forallb (fun r => negb (getLength r =? 0)) rels = false -> product (rows_ <$> rels) = [].
Proof.
  induction rels as [|r rels IH]; csimpl; [done|]. intros [E|E]%andb_false_iff.
  - apply negb_false_iff, Z.eqb_eq in E. unfold getLength, zlen in E. destruct (rows_ r); [done|simpl in E; lia].
  - rewrite (IH E). by induction (rows_ r).
Qed.

Lemma product_nonempty (rels : list Relation) :
  forallb (fun r => negb (getLength r =? 0)) rels = true -> in_range (replicate (length rels) 0) (getLength <$> rels).
Proof.
  induction rels as [|r rels IH]; csimpl; [constructor|]. intros [E1 E2]%andb_true_iff. constructor; [|by apply IH].
  unfold getLength, zlen in *. lia.
Qed.

Lemma ordinal_zeros n lens : ordinal (replicate n 0) lens = 0.
Proof. revert lens. induction n as [|n IH]; intros [|l lens]; simpl; try done. by rewrite IH. Qed.

Lemma existsb_zeros n : existsb (fun i => negb (i =? 0)) (replicate n 0) = false.
Proof. by induction n. Qed.

Lemma product_width rels :
  Forall wf_rel rels -> Forall (fun row => zlen row = getWidth (new_Relation (concat (schemas_ <$> rels)))) (product (rows_ <$> rels)).
Proof.
  intros H. eapply Forall_impl; [apply (product_wf _ (getWidth <$> rels))|].
  - induction H as [|r rels Hr Hrs IH]; csimpl; constructor; done.
  - intros row ->. clear H. unfold getWidth. simpl. induction rels as [|r rels IH]; csimpl; [done|].
    rewrite IH. unfold zlen. rewrite length_app. lia.
Qed.

Lemma bind_get {S B} (f : S -> M S B) s : (get_state ≫= f) s = f s s.
Proof. done. Qed.

Lemma all_filled (rels : list Relation) : forallb (fun x => bool_decide (is_Some x)) (Some <$> rels) = true.
Proof. induction rels as [|r rels IH]; csimpl; [done|]. by rewrite IH. Qed.

(** The loop from the first position, where an empty operand leaves nothing to do. *)
Lemma join_from_start rels us :
  rels <> [] -> Forall wf_rel rels -> Forall plain_unit us ->
  let schemas := concat (schemas_ <$> rels) in
  match join_loop (length rels) (S (length (product (rows_ <$> rels)))) us (new_Relation schemas)
          (mk_JoinOperator (Some <$> rels) (replicate (length rels) 0) (getLength <$> rels)
             (forallb (fun r => negb (getLength r =? 0)) rels)),
        select (decides (mk_FilterStmt us false)) (product (rows_ <$> rels)) with
  | Ret r s, Ret rs _ => r = mk_Relation schemas rs /\ relations s = Some <$> rels
  | Err rc _, Err rc' _ => rc = rc'
  | Stuck, Stuck => True
  | _, _ => False
  end.
Proof.
  intros Hn Hw Hp schemas. destruct (forallb _ rels) eqn:Ef.
  - pose proof (join_loop_spec rels (decides (mk_FilterStmt us false)) Hn (S (length (product (rows_ <$> rels)))) us
      (new_Relation schemas) (replicate (length rels) 0) true) as H.
    apply H; [by apply plain_implements|by apply product_width|by apply product_nonempty|by rewrite ordinal_zeros|].
    cbn [rows_left]. lia.
  - rewrite (product_empty _ Ef). cbn [length join_loop select]. unfold hasNext. mrun. cbn [indexes flag].
    by rewrite take_ge, existsb_zeros by (by rewrite length_replicate).
Qed.

(** The join of relations: the selection of their product. *)
Lemma join_evaluate_spec rels us :
  rels <> [] -> Forall wf_rel rels -> Forall plain_unit us ->
  let schemas := concat (schemas_ <$> rels) in
  drop_state (join_evaluate ((fun r => Ret r tt) <$> rels) us new_JoinOperator) =
  obind (units_map (new_Relation schemas) us) (fun us =>
  map_outcome (mk_Relation schemas) (select (decides (mk_FilterStmt us false)) (product (rows_ <$> rels)))).
Proof.
  intros Hn Hw Hp schemas. unfold join_evaluate. rewrite bind_modify. cbn [new_JoinOperator relations indexes relLengths app].
  rewrite length_fmap.
  pose proof (join_operands_spec rels [] (replicate (length rels) None) (replicate (length rels) 0) (replicate (length rels) 0)
    [] [] true 0 (length_replicate _ _) (length_replicate _ _) eq_refl eq_refl) as Eo. cbn [fmap list_fmap app andb] in Eo.
  erewrite bind_Ret by exact Eo. fold schemas.
  destruct (units_map (new_Relation schemas) us) as [us' []|rc []|] eqn:Em; cbn [obind]; [|done|done].
  pose proof (units_map_plain _ _ _ _ Hp Em) as Hp'. rewrite bind_get. cbn [relLengths].
  rewrite take_ge by (by rewrite length_fmap). rewrite product_length_nat.
  pose proof (join_from_start rels us' Hn Hw Hp') as H. cbv zeta in H. fold schemas in H.
  unfold mbind at 1, M_bind at 1.
  destruct (join_loop (length rels) _ us' (new_Relation schemas) _) as [r s|rc s|], (select _ _) as [rs []|rc' []|]; try done.
  - destruct H as [-> Hs]. mrun. rewrite Hs. by rewrite all_filled.
  - by rewrite H.
Qed.

Lemma join_evaluate_any subs us :
  subs <> [] -> (forall rels v, traverse id subs = Ret rels v -> Forall wf_rel rels) -> Forall plain_unit us ->
  drop_state (join_evaluate subs us new_JoinOperator) =
  obind (traverse id subs) (fun rels =>
  let schemas := concat (schemas_ <$> rels) in
  obind (units_map (new_Relation schemas) us) (fun us =>
  map_outcome (mk_Relation schemas) (select (decides (mk_FilterStmt us false)) (product (rows_ <$> rels))))).
Proof.
  intros Hn Hw Hp. destruct (traverse id subs) as [rels []|rc []|] eqn:Et; cbn [obind].
  - specialize (Hw rels tt eq_refl). apply traverse_id_Ret in Et as ->. apply join_evaluate_spec; [|done|done].
    by intros ->.
  - unfold join_evaluate. rewrite bind_modify. cbn [new_JoinOperator relations indexes relLengths app].
    pose proof (join_operands_fails subs 0 [] (mk_JoinOperator (replicate (length subs) None) (replicate (length subs) 0) (replicate (length subs) 0) true)) as H.
    cbn [relations relLengths] in H. unfold zlen in H. rewrite !length_replicate, Et in H.
    destruct H as [s' H]; [lia..|]. by erewrite bind_Err by exact H.
  - unfold join_evaluate. rewrite bind_modify. cbn [new_JoinOperator relations indexes relLengths app].
    pose proof (join_operands_fails subs 0 [] (mk_JoinOperator (replicate (length subs) None) (replicate (length subs) 0) (replicate (length subs) 0) true)) as H.
    cbn [relations relLengths] in H. unfold zlen in H. rewrite !length_replicate, Et in H.
    unfold mbind, M_bind. by rewrite H by lia.
Qed.

(** ** Plans *)

Section ind.
Context (P : QueryOperator -> Prop).
Context (Hscan : forall s, P (QScan s)) (Hjoin : forall subs us, Forall P subs -> P (QJoin subs us)).
Context (Hpred : forall q f, P q -> P (QPredicate q f)) (Hproj : forall q es, P q -> P (QProject q es)) (Hsimple : forall es, P (QSimple es)).

Fixpoint QueryOperator_nested_ind (q : QueryOperator) : P q :=
  match q with
  | QScan s => Hscan s
  | QJoin subs us =>
      Hjoin subs us ((fix all l : Forall P l :=
        match l with [] => Forall_nil_2 P | q :: l => Forall_cons_2 P q l (QueryOperator_nested_ind q) (all l) end) subs)
  | QPredicate q f => Hpred q f (QueryOperator_nested_ind q)
  | QProject q es => Hproj q es (QueryOperator_nested_ind q)
  | QSimple es => Hsimple es
  end.
End ind.

Lemma plain_subs subs : foldr (fun q P => plain_plan q /\ P) True subs <-> Forall plain_plan subs.
Proof. induction subs as [|q subs IH]; simpl; [by split; [constructor|]|]. by rewrite IH, Forall_cons. Qed.

Lemma scan_rows_wf fs n ds r r' : wf_rel r -> scan_rows fs n ds r = Some r' -> wf_rel r'.
Proof.
  revert r. induction ds as [|d ds IH]; intros r Hr; simpl; [by intros [= <-]|].
  destruct (tupleToRow fs n d) as [row|]; simpl; [|done]. apply IH. by apply insert_row_wf.
Qed.

(** Every row of an answer has the width of its schema. *)
Lemma algebra_wf q : forall r v, plain_plan q -> algebra q = Ret r v -> wf_rel r.
Proof.
  induction q as [s|subs us IH|q f IH|q es IH|es] using QueryOperator_nested_ind; intros r v Hp; cbn [algebra].
  - simpl in Hp. unfold scan_evaluate. rewrite Hp. case_decide; [|done].
    destruct (scan_rows _ _ _ _) as [r'|] eqn:E; intros [= <-]. eapply scan_rows_wf; [|exact E]. constructor.
  - destruct Hp as (_ & Hs & _). apply plain_subs in Hs.
    assert (Hw : forall rels v, traverse id (map algebra subs) = Ret rels v -> Forall wf_rel rels).
    { clear r v. induction IH as [|q subs Hq _ IHs]; intros rels v; simpl; [intros [= <-]; constructor|].
      apply Forall_cons in Hs as [Hq' Hs]. destruct (algebra q) as [x []|rc []|]; simpl; [|done|done].
      destruct (traverse id (map algebra subs)) as [rs []|rc []|]; simpl; intros [= <-]. constructor; [by eapply Hq|by eapply IHs]. }
    destruct (traverse id (map algebra subs)) as [rels []|rc []|]; cbn [obind]; [|done|done].
    destruct (units_map _ us) as [us' []|rc []|]; cbn [obind]; [|done|done].
    destruct (select _ _) as [rs []|rc []|] eqn:Es; simpl; intros [= <-].
    unfold wf_rel. simpl. eapply select_wf; [|exact Es]. apply product_width. by eapply Hw.
  - destruct Hp as [Hp _]. destruct (algebra q) as [x []|rc []|]; cbn [obind]; [|done|done].
    destruct (units_map _ _) as [us' []|rc []|]; cbn [obind]; [|done|done].
    destruct (select _ _) as [rs []|rc []|] eqn:Es; simpl; intros [= <-].
    exact (select_wf _ _ _ _ _ (IH x tt Hp eq_refl) Es).
  - destruct Hp as [Hp Hes]. destruct (algebra q) as [x []|rc []|]; cbn [obind]; [|done|done].
    destruct (map_exprs _ es) as [es' []|rc []|] eqn:Em; cbn [obind]; [|done|done].
    destruct (traverse _ _) as [rs []|rc []|] eqn:Es; simpl; intros [= <-].
    unfold wf_rel, getWidth. simpl. unfold zlen at 2. rewrite length_fmap. by eapply project_wf.
  - unfold simple_evaluate. destruct (simple_row es) as [row []|rc []|]; simpl; intros [= <-]. apply insert_row_wf. constructor.
Qed.

(** The operators compute the algebra. *)
Lemma evaluate_is_algebra q : plain_plan q -> evaluate q = algebra q.
Proof.
  induction q as [s|subs us IH|q f IH|q es IH|es] using QueryOperator_nested_ind; intros Hp; cbn [algebra evaluate]; [done| | | |done].
  - destruct Hp as (Hn & Hs & Hu). apply plain_subs in Hs.
    assert (map evaluate subs = map algebra subs) as ->.
    { clear Hn. induction IH as [|q subs Hq _ IHs]; simpl; [done|]. apply Forall_cons in Hs as [Hq' Hs]. by rewrite Hq, IHs. }
    apply join_evaluate_any; [by destruct subs| |done]. intros rels v Et.
    clear -Hs Et. revert rels v Et. induction Hs as [|q subs Hq Hs IHs]; intros rels v; simpl; [intros [= <-]; constructor|].
    destruct (algebra q) as [x []|rc []|] eqn:Eq; simpl; [|done|done].
    destruct (traverse id (map algebra subs)) as [rs []|rc []|]; simpl; intros [= <-].
    constructor; [by eapply algebra_wf|by eapply IHs].
  - destruct Hp as [Hp Hf]. rewrite (IH Hp). pose proof (fun r v => algebra_wf q r v Hp) as Hw. unfold predicate_evaluate.
    destruct (algebra q) as [r []|rc []|]; cbn [obind]; [|done|done]. rewrite app_nil_r.
    destruct (units_map _ (filter_units_ f)) as [us []|rc []|] eqn:Eu; cbn [obind]; [|done|done].
    rewrite (predicate_rows_select (rows_ r) _ (decides (mk_FilterStmt us (or_mode_ f)))); [done| |exact (Hw r tt eq_refl)].
    apply plain_implements. by eapply plain_filter_mapped.
  - destruct Hp as [Hp Hes]. rewrite (IH Hp). unfold project_evaluate.
    destruct (algebra q) as [r []|rc []|]; cbn [obind]; [|done|done]. rewrite app_nil_r.
    destruct (map_exprs _ es) as [es' []|rc []|] eqn:Em; cbn [obind]; [|done|done].
    destruct (map_exprs_spec _ _ _ _ Hes Em) as [Hp' El].
    rewrite (project_rows_traverse es'); [done|done|done|]. unfold getWidth, zlen. simpl. by rewrite length_fmap.
Qed.
