(* ===== verification/Aggregate.v ===== *)
(** * Aggregates

    sql/expr/expresions/Aggregate.cpp and AggregateFunction.cpp: an aggregate goes
    over the rows of a relation, makes a text key of the expressions to group by and
    keeps, by key, the item so far ([context]) or sums and counts; [order] has the
    keys in the order they came up.  [AggregateOperator] puts the columns of several
    aggregates side by side. *)

From Stdlib Require Import ZArith Lia SpecFloat String.
From stdpp Require Import base list strings gmap.
From S2P Require Import Prelude.
From S2P Require Import Monad.
From S2P Require Import Comparator.
From S2P Require Import Float.
From S2P Require Import Item.
From S2P Require Import Expr.
From S2P Require Import Select.
#[local] Open Scope Z_scope.

Definition Key : Type := list Z.

(** The members of [Aggregate] and of its subclasses; the [sum] of [Avg] is [sumFloat]. *)
Record Tables : Type := mk_Tables {
  order : list Key; context : gmap Key Item; sumInt : gmap Key Z; sumFloat : gmap Key float; count : gmap Key Z
}.
Definition no_tables : Tables := mk_Tables [] ∅ ∅ ∅ ∅.
Definition push_order (k : Key) (t : Tables) : Tables := mk_Tables (order t ++ [k]) (context t) (sumInt t) (sumFloat t) (count t).
Definition put_context (k : Key) (i : Item) (t : Tables) : Tables :=
  mk_Tables (order t) (<[k := i]> (context t)) (sumInt t) (sumFloat t) (count t).
Definition put_sumInt (k : Key) (v : Z) (t : Tables) : Tables :=
  mk_Tables (order t) (context t) (<[k := v]> (sumInt t)) (sumFloat t) (count t).
Definition put_sumFloat (k : Key) (v : float) (t : Tables) : Tables :=
  mk_Tables (order t) (context t) (sumInt t) (<[k := v]> (sumFloat t)) (count t).
Definition put_count (k : Key) (v : Z) (t : Tables) : Tables :=
  mk_Tables (order t) (context t) (sumInt t) (sumFloat t) (<[k := v]> (count t)).

(** ** The key of a row *)

Definition no_group : Key := chars "non#key#set#".

(** The texts of the items with a mark behind each; no key when one of them is null. *)
Fixpoint group_key (row : Row) (gs : list Expr) (keyString : Key) : outcome unit (list Expr * option Key) :=
  match gs with
  | [] => Ret ([], Some keyString) tt
  | g :: gs =>
      match calculate row g with
      | Ret g _ =>
          if isCurrentNull g then Ret (g :: gs, None) tt
          else match toItem g with
               | None => Stuck
               | Some i =>
                   map_outcome (fun x => (g :: x.1, x.2)) (group_key row gs (keyString ++ item_to_string i ++ chars "#"))
               end
      | Err rc _ => Err rc tt
      | Stuck => Stuck
      end
  end.
Definition row_key (row : Row) (gs : list Expr) : outcome unit (list Expr * option Key) :=
  group_key row gs (match gs with [] => no_group | _ => [] end).

(** ** [treatRow], once the key and the value of the row are there *)

(** [Max] and [Min]: whether the new item takes the place of the old; [None] is the
    exception of an item without a value. *)
Definition better (k : AggregateKind) (t : AttrType) (old new : Item) : option bool :=
  match t with
  | INTS | DATES => a ← getInt old; b ← getInt new; Some (match k with Max => a <? b | _ => b <? a end)
  | FLOATS => a ← getFloat old; b ← getFloat new; Some (match k with Max => SFltb a b | _ => SFltb b a end)
  | _ => a ← getText old; b ← getText new; Some (match k with Max => strcmp a b <? 0 | _ => 0 <? strcmp a b end)
  end.

(** The number that an average or a sum adds; sums of integers stay integers. *)
Definition float_value (t : AttrType) (c : Current) : float :=
  match t with
  | INTS => float_of_int (intValue c)
  | FLOATS => floatValue c
  | _ => float_of_double (char2double (textValue c))
  end.

Definition treat_identity (type_ : AttrType) (key : Key) (sub : Expr) : M Tables unit :=
  match type_ with
  | INTS | DATES | FLOATS | CHARS =>
      t ← get_state;
      match context t !! key with
      | None => i ← of_option (toItem sub); modify (put_context key i);; modify (push_order key)
      | Some _ => mret tt
      end
  | _ => throw UNKNOWN_TYPE
  end.

Definition treat_extremum (k : AggregateKind) (type_ : AttrType) (key : Key) (sub : Expr) : M Tables unit :=
  match type_ with
  | INTS | DATES | FLOATS | CHARS =>
      t ← get_state;
      new ← of_option (toItem sub);
      match context t !! key with
      | None => modify (push_order key);; modify (put_context key new)
      | Some old =>
          if isNull old then modify (put_context key new)
          else b ← of_option (better k type_ old new); if (b : bool) then modify (put_context key new) else mret tt
      end
  | _ => throw ERROR_INPUT_TYPE
  end.

(** The count that goes with a sum. *)
Definition first_count (sub : Expr) : Z := if isCurrentNull sub then 0 else 1.
Definition bump_count (key : Key) : M Tables unit := modify (fun t => put_count key (to_int32 (default 0 (count t !! key) + 1)) t).

(** [Avg], and [Sum] of floats and of texts. *)
Definition treat_float (subExprType : AttrType) (key : Key) (sub : Expr) : M Tables unit :=
  t ← get_state;
  match sumFloat t !! key with
  | None =>
      modify (push_order key);;
      modify (put_sumFloat key (if isCurrentNull sub then float_of_int 0 else float_value subExprType (current sub)));;
      modify (put_count key (first_count sub))
  | Some s =>
      if isCurrentNull sub then mret tt
      else modify (put_sumFloat key (float_add s (float_value subExprType (current sub))));; bump_count key
  end.

Definition treat_int (key : Key) (sub : Expr) : M Tables unit :=
  t ← get_state;
  match sumInt t !! key with
  | None =>
      modify (push_order key);;
      modify (put_sumInt key (if isCurrentNull sub then 0 else intValue (current sub)));;
      modify (put_count key (first_count sub))
  | Some s =>
      if isCurrentNull sub then mret tt
      else modify (put_sumInt key (to_int32 (s + intValue (current sub))));; bump_count key
  end.

Definition treat_count (key : Key) (sub : Expr) : M Tables unit :=
  t ← get_state;
  match count t !! key with
  | None => modify (push_order key);; modify (put_count key (first_count sub))
  | Some _ => if isCurrentNull sub then mret tt else bump_count key
  end.

Definition treat_value (k : AggregateKind) (type_ subExprType : AttrType) (key : Key) (sub : Expr) : M Tables unit :=
  match k with
  | Identity => treat_identity type_ key sub
  | Max | Min => treat_extremum k type_ key sub
  | Avg =>
      match subExprType with
      | INTS | FLOATS | CHARS => treat_float subExprType key sub
      | _ => throw ERROR_INPUT_TYPE
      end
  | Sum =>
      match subExprType with
      | INTS => treat_int key sub
      | FLOATS | CHARS => treat_float subExprType key sub
      | _ => throw ERROR_INPUT_TYPE
      end
  | Count | CountStar => treat_count key sub
  end.

(** ** The aggregate of a relation *)

Record Aggregate : Type := mk_Aggregate {
  kind : AggregateKind; groupBy_ : list Expr; subExpression_ : Expr; type_ : AttrType; tables : Tables
}.
Definition set_tables (t : Tables) (a : Aggregate) : Aggregate := mk_Aggregate (kind a) (groupBy_ a) (subExpression_ a) (type_ a) t.
Definition set_group (gs : list Expr) (a : Aggregate) : Aggregate := mk_Aggregate (kind a) gs (subExpression_ a) (type_ a) (tables a).
Definition set_sub (e : Expr) (a : Aggregate) : Aggregate := mk_Aggregate (kind a) (groupBy_ a) e (type_ a) (tables a).
Definition set_type (t : AttrType) (a : Aggregate) : Aggregate := mk_Aggregate (kind a) (groupBy_ a) (subExpression_ a) t (tables a).

(** A result of an expression inside the computation on the aggregate. *)
Definition lift {A} (o : outcome unit A) : M Aggregate A := fun a =>
  match o with Ret x _ => Ret x a | Err rc _ => Err rc a | Stuck => Stuck end.

(** [beforeStart]: the type of the aggregate, from its own so far and that of its expression. *)
Definition start_type (k : AggregateKind) (own sub : AttrType) : AttrType :=
  match k with
  | Identity => sub
  | Max | Min => own
  | Avg => FLOATS
  | Sum => if bool_decide (sub = CHARS) then FLOATS else sub
  | Count | CountStar => INTS
  end.
Definition beforeStart : M Aggregate unit :=
  modify (fun a => set_type (start_type (kind a) (type_ a) (type (subExpression_ a))) a).

(** [treatRow]; [Identity] maps its expression again at every row. *)
Definition treatRow (r : Relation) (row : Row) : M Aggregate unit :=
  a ← get_state;
  let sub := match kind a, mapToRelation r (subExpression_ a) with Identity, Ret e _ => e | _, _ => subExpression_ a end in
  x ← lift (row_key row (groupBy_ a));
  modify (set_group x.1);;
  match x.2 with
  | None => mret tt
  | Some key =>
      sub ← lift (calculate row sub);
      modify (set_sub sub);;
      a ← get_state;
      zoom tables set_tables (treat_value (kind a) (type_ a) (type sub) key sub)
  end.

Fixpoint treat_rows (r : Relation) (rows : list Row) : M Aggregate unit :=
  match rows with
  | [] => mret tt
  | row :: rows => treatRow r row;; treat_rows r rows
  end.

Definition emptyTable : Key := chars "emptyTable".
Definition dealWithEmptyRelation : M Aggregate unit :=
  modify (fun a =>
    let i := match kind a with Count | CountStar => IntItem 0 false | _ => NullItem end in
    set_tables (put_context emptyTable i (push_order emptyTable (tables a))) a).

(** [afterDealAllRow]: the items of sums and counts. *)
Definition final_item (k : AggregateKind) (type_ : AttrType) (t : Tables) (key : Key) : option Item :=
  let n := default 0 (count t !! key) in
  match k with
  | Avg => Some (if n =? 0 then NullItem else FloatItem (float_div (default (float_of_int 0) (sumFloat t !! key)) (float_of_int n)) false)
  | Sum =>
      match type_ with
      | INTS => Some (if n =? 0 then NullItem else IntItem (default 0 (sumInt t !! key)) false)
      | _ => Some (if n =? 0 then NullItem else FloatItem (default (float_of_int 0) (sumFloat t !! key)) false)
      end
  | Count | CountStar => Some (IntItem n false)
  | _ => None
  end.
Definition final_items (k : AggregateKind) (type_ : AttrType) (t : Tables) : Tables :=
  foldl (fun t' key => match final_item k type_ t key with Some i => put_context key i t' | None => t' end) t (order t).
Definition afterDealAllRow : M Aggregate unit :=
  a ← get_state;
  match kind a, type_ a with
  | Sum, (INTS | FLOATS) => modify (set_tables (final_items (kind a) (type_ a) (tables a)))
  | Sum, _ => throw ERROR_INPUT_TYPE
  | _, _ => modify (set_tables (final_items (kind a) (type_ a) (tables a)))
  end.

Fixpoint map_group (r : Relation) (gs : list Expr) : outcome unit (list Expr) :=
  match gs with
  | [] => Ret [] tt
  | g :: gs =>
      match mapToRelation r g with
      | Ret g _ => map_outcome (cons g) (map_group r gs)
      | Err rc _ => Err rc tt
      | Stuck => Stuck
      end
  end.

(** [Aggregate::evaluate] *)
Definition aggregate_run (r : Relation) : M Aggregate unit :=
  a ← get_state;
  gs ← lift (map_group r (groupBy_ a));
  modify (set_group gs);;
  beforeStart;;
  (if getLength r =? 0 then dealWithEmptyRelation else treat_rows r (rows_ r));;
  afterDealAllRow.

(** [getColumn]; a key without an item would be a null pointer. *)
Definition getColumn (a : Aggregate) : option (list Item) := mapM (fun key => context (tables a) !! key) (order (tables a)).

(** ** [AggregateOperator] *)

Definition new_run (e : Expr) (groupBy : list Expr) : option Aggregate :=
  match e with
  | AggregateFunction k s t _ _ => Some (mk_Aggregate k groupBy s t no_tables)
  | _ => None
  end.

(** Each aggregate is mapped and evaluated in turn. *)
Fixpoint aggregate_columns (r : Relation) (groupBy : list Expr) (aggregates_ : list Expr) : outcome unit (list (list Item)) :=
  match aggregates_ with
  | [] => Ret [] tt
  | e :: aggregates_ =>
      match mapToRelation r e with
      | Ret e _ =>
          match new_run e groupBy with
          | None => Stuck
          | Some a =>
              match aggregate_run r a with
              | Ret _ a =>
                  match getColumn a with
                  | Some c => map_outcome (cons c) (aggregate_columns r groupBy aggregates_)
                  | None => Stuck
                  end
              | Err rc _ => Err rc tt
              | Stuck => Stuck
              end
          end
      | Err rc _ => Err rc tt
      | Stuck => Stuck
      end
  end.

(** The rows of the columns, up to the length of the first. *)
Fixpoint column_rows (n : nat) (columns : list (list Item)) (i : Z) (r : Relation) : outcome unit Relation :=
  match n with
  | O => Ret r tt
  | S n =>
      match mapM (fun c => zget c i) columns with
      | None => Stuck
      | Some row =>
          match insertRow row r with
          | Ret _ r => column_rows n columns (i + 1) r
          | Err rc _ => Err rc tt
          | Stuck => Stuck
          end
      end
  end.

(** [AggregateOperator::evaluate] *)
Definition aggregate_evaluate (sub : outcome unit Relation) (aggregates_ groupBy : list Expr) : outcome unit Relation :=
  match sub with
  | Ret r _ =>
      match aggregate_columns r groupBy aggregates_ with
      | Ret (c :: columns) _ => column_rows (length c) (c :: columns) 0 (new_Relation (new_Schema <$> aggregates_))
      | Ret [] _ => Stuck
      | Err rc _ => Err rc tt
      | Stuck => Stuck
      end
  | Err rc _ => Err rc tt
  | Stuck => Stuck
  end.
