(* ===== verification/AggregateSpec.v ===== *)
(** * Aggregates group by group

    The tables of an aggregate are indexed by the keys of the groups; a row changes
    the entries of its key and looks at no others.  So the item of a group is the
    aggregate of the rows of that group alone. *)

From Stdlib Require Import ZArith Lia SpecFloat String.
From stdpp Require Import base list strings gmap.
From S2P Require Import Prelude.
From S2P Require Import Monad.
From S2P Require Import Comparator.
From S2P Require Import Float.
From S2P Require Import Item.
From S2P Require Import Expr.
From S2P Require Import ExprSpec.
From S2P Require Import FilterSpec.
From S2P Require Import Select.
From S2P Require Import SelectSpec.
From S2P Require Import Aggregate.
#[local] Open Scope Z_scope.

(** ** The entries of a key *)

Definition cell (key : Key) (t : Tables) : option Item * option Z * option float * option Z :=
  (context t !! key, sumInt t !! key, sumFloat t !! key, count t !! key).

(** Whether a key has come up, by the table that the kind of aggregate asks. *)
Definition seen (k : AggregateKind) (st : AttrType) (key : Key) (t : Tables) : bool :=
  match k with
  | Identity | Max | Min => bool_decide (is_Some (context t !! key))
  | Avg => bool_decide (is_Some (sumFloat t !! key))
  | Sum => match st with INTS => bool_decide (is_Some (sumInt t !! key)) | _ => bool_decide (is_Some (sumFloat t !! key)) end
  | Count | CountStar => bool_decide (is_Some (count t !! key))
  end.

(** Two tables that agree on a key, and what a row of that key does to both. *)
Definition same_step (k : AggregateKind) (st : AttrType) (key : Key) (t1 t2 : Tables) (o1 o2 : outcome Tables unit) : Prop :=
  match o1, o2 with
  | Ret _ t1', Ret _ t2' =>
      cell key t1' = cell key t2' /\
      order t1' = order t1 ++ (if seen k st key t1 then [] else [key]) /\
      order t2' = order t2 ++ (if seen k st key t1 then [] else [key]) /\
      seen k st key t1' = true /\
      (forall key', key' <> key -> cell key' t1' = cell key' t1)
  | Err r1 _, Err r2 _ => r1 = r2
  | Stuck, Stuck => True
  | _, _ => False
  end.

(** Closes a step after its case analysis: the maps are looked up at the key, and beside it. *)
Ltac close_step :=
  try match goal with H : forall t, seen _ _ _ t = _ |- _ => rewrite !H end;
  unfold cell, push_order, put_context, put_sumInt, put_sumFloat, put_count; cbn [seen order context sumInt sumFloat count];
  rewrite ?lookup_insert_eq; repeat match goal with H : ?m !! ?k = _ |- _ => rewrite H in * end;
  repeat match goal with H : _ = ?m !! ?k |- _ => rewrite <- H end;
  simpl; rewrite ?app_nil_r; split_and!; try done;
  first [congruence | intros key' Hkey; by rewrite ?lookup_insert_ne by done].

#[local] Arguments better : simpl never.

Section step.
Context (ty st : AttrType) (key : Key) (s1 s2 : Expr) (t1 t2 : Tables).
Context (Hi : toItem s1 = toItem s2) (Hn : isCurrentNull s1 = isCurrentNull s2).
Context (Hc : cell key t1 = cell key t2).

Lemma treat_identity_step : same_step Identity st key t1 t2 (treat_identity ty key s1 t1) (treat_identity ty key s2 t2).
Proof.
  destruct t1 as [o1 c1 i1 f1 n1], t2 as [o2 c2 i2 f2 n2]. unfold cell in Hc. simpl in Hc. injection Hc as Ec Ei Ef En.
  unfold treat_identity. rewrite <- Hi. destruct ty; try done; mrun; cbn [context]; rewrite <- Ec;
    (destruct (c1 !! key) as [i|] eqn:E1; [simpl; close_step|destruct (toItem s1) as [i|]; [simpl; close_step|done]]).
Qed.

Lemma treat_extremum_step k :
  k = Max \/ k = Min -> same_step k st key t1 t2 (treat_extremum k ty key s1 t1) (treat_extremum k ty key s2 t2).
Proof.
  intros Hk. assert (Es : forall t, seen k st key t = bool_decide (is_Some (context t !! key))) by (by destruct Hk as [-> | ->]).
  unfold same_step. destruct t1 as [o1 c1 i1 f1 n1], t2 as [o2 c2 i2 f2 n2]. unfold cell in Hc. simpl in Hc. injection Hc as Ec Ei Ef En.
  unfold treat_extremum. rewrite <- Hi. destruct ty; try done; mrun; cbn [context]; rewrite <- Ec.
  all: destruct (toItem s1) as [i|]; [|done]; destruct (c1 !! key) as [old|] eqn:E1; simpl;
    [|close_step]; destruct (isNull old); [close_step|]; destruct (better k _ old i) as [[]|]; try done; close_step.
Qed.

Lemma treat_count_step k :
  k = Count \/ k = CountStar -> same_step k st key t1 t2 (treat_count key s1 t1) (treat_count key s2 t2).
Proof.
  intros Hk. assert (Es : forall t, seen k st key t = bool_decide (is_Some (count t !! key))) by (by destruct Hk as [-> | ->]).
  unfold same_step. destruct t1 as [o1 c1 i1 f1 n1], t2 as [o2 c2 i2 f2 n2]. unfold cell in Hc. simpl in Hc. injection Hc as Ec Ei Ef En.
  unfold treat_count, bump_count, first_count. rewrite <- Hn. mrun; cbn [count]; rewrite <- En.
  destruct (n1 !! key) as [n|] eqn:E1; [destruct (isCurrentNull s1)|]; simpl; close_step.
Qed.

Lemma treat_int_step :
  (isCurrentNull s1 = false -> intValue (current s1) = intValue (current s2)) ->
  same_step Sum INTS key t1 t2 (treat_int key s1 t1) (treat_int key s2 t2).
Proof.
  intros Hv. destruct t1 as [o1 c1 i1 f1 n1], t2 as [o2 c2 i2 f2 n2]. unfold cell in Hc. simpl in Hc. injection Hc as Ec Ei Ef En.
  unfold same_step, treat_int, bump_count, first_count. rewrite <- Hn. mrun; cbn [sumInt]; rewrite <- Ei.
  destruct (i1 !! key) as [n|] eqn:E1; (destruct (isCurrentNull s1); [|rewrite <- (Hv eq_refl)]); simpl; close_step.
Qed.

Lemma treat_float_step k :
  (k = Sum /\ st <> INTS) \/ k = Avg ->
  (isCurrentNull s1 = false -> float_value st (current s1) = float_value st (current s2)) ->
  same_step k st key t1 t2 (treat_float st key s1 t1) (treat_float st key s2 t2).
Proof.
  intros Hk Hv. assert (Es : forall t, seen k st key t = bool_decide (is_Some (sumFloat t !! key)))
    by (destruct Hk as [[-> Hk] | ->]; [by destruct st|done]).
  destruct t1 as [o1 c1 i1 f1 n1], t2 as [o2 c2 i2 f2 n2]. unfold cell in Hc. simpl in Hc. injection Hc as Ec Ei Ef En.
  unfold same_step, treat_float, bump_count, first_count. rewrite <- Hn. mrun; cbn [sumFloat]; rewrite <- Ef.
  destruct (f1 !! key) as [n|] eqn:E1; (destruct (isCurrentNull s1); [|rewrite <- (Hv eq_refl)]); simpl; close_step.
Qed.
End step.

Lemma treat_value_step k ty st key s1 s2 t1 t2 :
  same_expr s1 s2 -> type s1 = st -> cell key t1 = cell key t2 ->
  same_step k st key t1 t2 (treat_value k ty st key s1 t1) (treat_value k ty st key s2 t2).
Proof.
  intros Hs Ht Hc. pose proof (same_expr_null _ _ Hs) as Hn. pose proof (proj2 Hs) as Hi.
  apply same_expr_value in Hs as [_ [_ Hv]]. rewrite Ht in Hv. unfold treat_value.
  destruct k; [by apply treat_identity_step|by (apply treat_extremum_step; auto)|by (apply treat_extremum_step; auto)| | |
    by (apply treat_count_step; auto)|by (apply treat_count_step; auto)].
  - destruct st; try done; apply treat_float_step; auto; intros Hf; simpl; by rewrite (Hv Hf).
  - destruct st; try done; [|by apply treat_int_step|]; apply treat_float_step; auto; intros Hf; simpl; by rewrite (Hv Hf).
Qed.

(** ** Mapping once more changes nothing *)

Lemma fresh_isConst e : isConst (fresh e) = isConst e.
Proof. induction e as [| | | |k|]; simpl; try congruence. by destruct k. Qed.
Lemma fresh_isId e : isId (fresh e) = isId e.
Proof. by destruct e. Qed.
Lemma fresh_toString e : toString (fresh e) = toString e.
Proof.
  induction e; simpl; rewrite ?fresh_isConst, ?fresh_isId; repeat match goal with H : toString _ = _ |- _ => rewrite H end; done.
Qed.

Lemma map_names r e e' v : mapToRelation r e = Ret e' v -> toString e' = toString e /\ isConst e' = isConst e /\ isId e' = isId e.
Proof.
  revert e' v. induction e as [l t|t f a col c|s IH a i col c|l IHl rr IHr op a i col c|k s IH a col c|b rr]; intros e' v; simpl;
    intros E; simplify_eq/=; try done; case_match; simplify_eq/=; try done.
  - destruct (mapToRelation r s) as [s' []|rc []|]; simplify_eq. destruct (IH _ _ eq_refl) as (E1 & E2 & E3). simpl.
    by rewrite E1, E2, E3.
  - destruct (mapToRelation r l) as [l' []|rc []|]; simplify_eq. destruct (mapToRelation r rr) as [r' []|rc []|]; simplify_eq.
    destruct (IHl _ _ eq_refl) as (E1 & E2 & E3), (IHr _ _ eq_refl) as (E4 & E5 & E6). simpl. by rewrite E1, E2, E3, E4, E5, E6.
  - destruct (mapToRelation r s) as [s' []|rc []|]; simplify_eq. destruct (IH _ _ eq_refl) as (E1 & E2 & E3). simpl.
    by rewrite E1, E2.
Qed.

Lemma map_fresh r e1 : forall e2, fresh e1 = fresh e2 ->
  match mapToRelation r e1, mapToRelation r e2 with
  | Ret x _, Ret y _ => fresh x = fresh y
  | Err rc _, Err rc' _ => rc = rc'
  | Stuck, Stuck => True
  | _, _ => False
  end.
Proof.
  induction e1 as [l t|t f a col c|s IH a i col c|l IHl rr IHr op a i col c|k s IH a col c|b rr]; intros e2 E;
    pose proof (f_equal toString E) as Et; rewrite !fresh_toString in Et; destruct e2; simpl in E; try done.
  - injection E as -> -> -> ->. cbn [mapToRelation]. rewrite Et. by destruct (_ =? -1).
  - injection E as Es -> _ _. cbn [mapToRelation]. rewrite Et. destruct (_ =? -1); [|simpl; by rewrite Es].
    specialize (IH _ Es). destruct (mapToRelation r s) as [? []|? []|], (mapToRelation r e2) as [? []|? []|]; try done.
    simpl. by rewrite IH.
  - injection E as El Er -> -> _ _. cbn [mapToRelation]. rewrite Et. destruct (_ =? -1); [|simpl; by rewrite El, Er].
    specialize (IHl _ El). specialize (IHr _ Er).
    destruct (mapToRelation r l) as [? []|? []|], (mapToRelation r e2_1) as [? []|? []|]; try done.
    destruct (mapToRelation r rr) as [? []|? []|], (mapToRelation r e2_2) as [? []|? []|]; try done. simpl. by rewrite IHl, IHr.
  - injection E as -> Es -> _. cbn [mapToRelation]. rewrite Et. destruct (_ =? -1); [|simpl; by rewrite Es].
    specialize (IH _ Es). destruct (mapToRelation r s) as [? []|? []|], (mapToRelation r e2) as [? []|? []|]; try done.
    simpl. by rewrite IH.
Qed.

Lemma map_twice r e e' v : mapToRelation r e = Ret e' v -> exists e2, mapToRelation r e' = Ret e2 tt /\ fresh e2 = fresh e'.
Proof.
  revert e' v. induction e as [l t|t f a col c|s IH a i col c|l IHl rr IHr op a i col c|k s IH a col c|b rr]; intros e' v E;
    pose proof (map_names _ _ _ _ E) as (En & _ & _).
  - injection E as <-. by eexists.
  - cbn [mapToRelation] in E. destruct (_ =? -1) eqn:Ec; [done|]. injection E as <- _. cbn [mapToRelation]. rewrite En, Ec. by eexists.
  - cbn [mapToRelation] in E. destruct (_ =? -1) eqn:Ec.
    + destruct (mapToRelation r s) as [s' []|rc []|]; simplify_eq. destruct (IH _ _ eq_refl) as (e2 & E2 & Ef).
      cbn [mapToRelation]. rewrite En, Ec, E2. eexists. split; [done|]. simpl. by rewrite Ef.
    + injection E as <- _. cbn [mapToRelation]. rewrite En, Ec. by eexists.
  - cbn [mapToRelation] in E. destruct (_ =? -1) eqn:Ec.
    + destruct (mapToRelation r l) as [l' []|rc []|]; simplify_eq. destruct (mapToRelation r rr) as [r' []|rc []|]; simplify_eq.
      destruct (IHl _ _ eq_refl) as (e2 & E2 & Ef), (IHr _ _ eq_refl) as (e3 & E3 & Ef3).
      cbn [mapToRelation]. rewrite En, Ec, E2, E3. eexists. split; [done|]. simpl. by rewrite Ef, Ef3.
    + injection E as <- _. cbn [mapToRelation]. rewrite En, Ec. by eexists.
  - cbn [mapToRelation] in E. destruct (_ =? -1) eqn:Ec.
    + destruct (mapToRelation r s) as [s' []|rc []|]; simplify_eq. destruct (IH _ _ eq_refl) as (e2 & E2 & Ef).
      cbn [mapToRelation]. rewrite En, Ec, E2. eexists. split; [done|]. simpl. by rewrite Ef.
    + injection E as <- _. cbn [mapToRelation]. rewrite En, Ec. by eexists.
  - injection E as <-. by eexists.
Qed.

(** The expression that a row is calculated with. *)
Definition row_sub (k : AggregateKind) (r : Relation) (e : Expr) : Expr :=
  match k, mapToRelation r e with Identity, Ret e _ => e | _, _ => e end.

Lemma row_sub_fresh k r e1 e2 : fresh e1 = fresh e2 -> fresh (row_sub k r e1) = fresh (row_sub k r e2).
Proof.
  intros E. unfold row_sub. destruct k; try done. pose proof (map_fresh r e1 e2 E) as H.
  by destruct (mapToRelation r e1) as [? []|? []|], (mapToRelation r e2) as [? []|? []|].
Qed.
Lemma row_sub_twice k r e : fresh (row_sub k r (row_sub k r e)) = fresh (row_sub k r e).
Proof.
  unfold row_sub. destruct k; try done. destruct (mapToRelation r e) as [e' []|rc []|] eqn:Em; [|by rewrite Em..].
  by destruct (map_twice _ _ _ _ Em) as (e2 & -> & E).
Qed.
Lemma row_sub_plain k r e : plain e -> plain (row_sub k r e).
Proof. intros Hp. unfold row_sub. destruct k; try done. destruct (mapToRelation r e) as [e' []|rc []|] eqn:Em; [by eapply map_plain|done..]. Qed.
Lemma row_sub_type k r e : type (row_sub k r e) = type e.
Proof. unfold row_sub. destruct k; try done. destruct (mapToRelation r e) as [e' []|rc []|] eqn:Em; [by eapply map_type|done..]. Qed.

(** ** Runs without objects *)

Definition key_of (gs : list Expr) (row : Row) : outcome unit (option Key) := map_outcome snd (row_key row gs).

Lemma group_key_same row gs1 gs2 acc :
  Forall plain gs1 -> fresh <$> gs1 = fresh <$> gs2 ->
  match group_key row gs1 acc, group_key row gs2 acc with
  | Ret (g1, k1) _, Ret (g2, k2) _ => k1 = k2 /\ fresh <$> g1 = fresh <$> gs2
  | Err rc _, Err rc' _ => rc = rc'
  | Stuck, Stuck => True
  | _, _ => False
  end.
Proof.
  intros Hp. revert gs2 acc. induction Hp as [|g1 gs1 Hg Hgs IH]; intros [|g2 gs2] acc; try done.
  intros [Eg Egs]%cons_eq. cbn [group_key]. pose proof (calculate_same row g1 g2 Hg Eg) as H.
  destruct (calculate row g1) as [v1 []|rc []|], (calculate row g2) as [v2 []|rc' []|]; try done. simpl in H.
  destruct H as [Hs Ek]. rewrite <- (same_expr_null _ _ Hs), <- (proj2 Hs). destruct (isCurrentNull v1).
  { split; [done|]. rewrite !fmap_cons, Ek, Eg. by f_equal. }
  destruct (toItem v1) as [i|]; [|done].
  specialize (IH gs2 (acc ++ item_to_string i ++ chars "#") Egs).
  destruct (group_key row gs1 _) as [[g1' k1] []|rc []|], (group_key row gs2 _) as [[g2' k2] []|rc' []|]; try done.
  cbn [map_outcome fst snd]. destruct IH as [-> E]. split; [done|]. rewrite !fmap_cons, Ek, Eg. by f_equal.
Qed.

Lemma row_key_same row gs1 gs2 :
  Forall plain gs1 -> fresh <$> gs1 = fresh <$> gs2 ->
  match row_key row gs1, key_of gs2 row with
  | Ret (g1, k1) _, Ret k2 _ => k1 = k2 /\ fresh <$> g1 = fresh <$> gs2
  | Err rc _, Err rc' _ => rc = rc'
  | Stuck, Stuck => True
  | _, _ => False
  end.
Proof.
  intros Hp E. unfold key_of, row_key.
  assert (match gs1 with [] => no_group | _ => [] end = match gs2 with [] => no_group | _ => [] end) as -> by (by destruct gs1, gs2).
  pose proof (group_key_same row gs1 gs2 (match gs2 with [] => no_group | _ => [] end) Hp E) as H.
  by destruct (group_key row gs1 _) as [[g1 k1] []|rc []|], (group_key row gs2 _) as [[g2 k2] []|rc' []|].
Qed.

Lemma treat_value_same k ty st key s1 s2 t :
  same_expr s1 s2 -> type s1 = st -> treat_value k ty st key s1 t = treat_value k ty st key s2 t.
Proof.
  intros Hs Ht. pose proof (same_expr_null _ _ Hs) as Hn. pose proof (proj2 Hs) as Hi.
  apply same_expr_value in Hs as [_ [_ Hv]]. rewrite Ht in Hv. unfold isCurrentNull in Hn.
  unfold treat_value, treat_identity, treat_extremum, treat_count, treat_int, treat_float, first_count, isCurrentNull.
  rewrite <- Hi, <- Hn. destruct (isNull_ (current s1)); [done|]. specialize (Hv eq_refl).
  destruct st; unfold float_value; by rewrite ?Hv.
Qed.

(** The rows one after the other, each with the key and the value it has by itself. *)
Fixpoint run (k : AggregateKind) (ty : AttrType) (gs : list Expr) (e : Expr) (rows : list Row) (t : Tables) : outcome unit Tables :=
  match rows with
  | [] => Ret t tt
  | row :: rows =>
      obind (key_of gs row) (fun key =>
      match key with
      | None => run k ty gs e rows t
      | Some key =>
          obind (calculate row e) (fun sub =>
          match treat_value k ty (type e) key sub t with
          | Ret _ t => run k ty gs e rows t
          | Err rc _ => Err rc tt
          | Stuck => Stuck
          end)
      end)
  end.

Lemma treat_rows_run r gs e rows : forall a,
  Forall plain gs -> plain e -> fresh <$> groupBy_ a = fresh <$> gs ->
  fresh (row_sub (kind a) r (subExpression_ a)) = fresh e -> fresh (row_sub (kind a) r e) = fresh e ->
  match treat_rows r rows a, run (kind a) (type_ a) gs e rows (tables a) with
  | Ret _ a', Ret t _ => tables a' = t /\ kind a' = kind a /\ type_ a' = type_ a
  | Err rc _, Err rc' _ => rc = rc'
  | Stuck, Stuck => True
  | _, _ => False
  end.
Proof.
  induction rows as [|row rows IH]; intros a Hgs He Eg Ee Eee; [done|].
  assert (Hpg : Forall plain (groupBy_ a)) by (by eapply fresh_plain_all).
  assert (Hpe : plain (row_sub (kind a) r (subExpression_ a))) by (by eapply same_plain).
  cbn [treat_rows run]. unfold treatRow. mrun. fold (row_sub (kind a) r (subExpression_ a)). unfold lift at 1.
  pose proof (row_key_same row (groupBy_ a) gs Hpg Eg) as Hk.
  destruct (row_key row (groupBy_ a)) as [[g1 k1] []|rc []|], (key_of gs row) as [k2 []|rc' []|]; try done.
  cbn [obind fst snd]. destruct Hk as [-> Eg1]. destruct k2 as [key|]; [|by apply (IH (set_group g1 a))].
  unfold lift. pose proof (calculate_same row _ e Hpe Ee) as Hc.
  destruct (calculate row (row_sub (kind a) r (subExpression_ a))) as [v1 []|rc []|], (calculate row e) as [v2 []|rc' []|]; try done.
  simpl in Hc. destruct Hc as [Hs Ek]. cbn [obind]. unfold zoom. cbn [tables kind type_ set_sub set_group].
  assert (type v1 = type e) as Et by (apply same_type; congruence).
  rewrite Et, (treat_value_same _ _ _ _ _ _ _ Hs Et).
  destruct (treat_value _ _ _ _ v2 (tables a)) as [[] t|rc t|]; [|done|done].
  apply (IH (set_tables t (set_sub v1 (set_group g1 a)))); try done. simpl. rewrite <- Eee. apply row_sub_fresh. congruence.
Qed.

(** ** Groups *)

Definition in_group (gs : list Expr) (key : Key) (row : Row) : bool :=
  match key_of gs row with Ret (Some k) _ => bool_decide (k = key) | _ => false end.
Definition group_rows (gs : list Expr) (key : Key) (rows : list Row) : list Row := List.filter (in_group gs key) rows.

(** The keys of the rows, each when it comes up first. *)
Fixpoint distinct_keys (gs : list Expr) (rows : list Row) (keys : list Key) : list Key :=
  match rows with
  | [] => keys
  | row :: rows =>
      distinct_keys gs rows
        (match key_of gs row with
         | Ret (Some k) _ => if bool_decide (k ∈ keys) then keys else keys ++ [k]
         | _ => keys
         end)
  end.

Lemma distinct_keys_mono gs rows keys key : key ∈ keys -> key ∈ distinct_keys gs rows keys.
Proof.
  revert keys. induction rows as [|row rows IH]; intros keys H; simpl; [done|]. apply IH.
  destruct (key_of gs row) as [[k|] []|rc []|]; try done. case_bool_decide; [done|]. apply elem_of_app. by left.
Qed.

(** A new key belongs to one of the rows. *)
Lemma distinct_keys_rows gs rows keys key :
  key ∈ distinct_keys gs rows keys -> key ∈ keys \/ group_rows gs key rows <> [].
Proof.
  revert keys. induction rows as [|row rows IH]; intros keys; simpl; [by left|]. intros [H|H]%IH.
  - unfold in_group. destruct (key_of gs row) as [[k|] []|rc []|]; try by left. case_bool_decide; [by left|].
    apply elem_of_app in H as [H|H]; [by left|right]. apply list_elem_of_singleton in H as ->. by rewrite bool_decide_true.
  - right. by destruct (in_group gs key row).
Qed.

Definition seen_ordered (k : AggregateKind) (st : AttrType) (t : Tables) : Prop :=
  forall key, seen k st key t = true <-> key ∈ order t.

Lemma seen_cell k st key t1 t2 : cell key t1 = cell key t2 -> seen k st key t1 = seen k st key t2.
Proof. intros E. injection E as E1 E2 E3 E4. unfold seen. by rewrite E1, E2, E3, E4. Qed.

(** One row, seen from the order and from another key. *)
Lemma treat_value_order k ty st key s t t' u :
  plain s -> type s = st -> seen_ordered k st t -> treat_value k ty st key s t = Ret u t' ->
  order t' = (if bool_decide (key ∈ order t) then order t else order t ++ [key]) /\ seen_ordered k st t' /\
  (forall key', key' <> key -> cell key' t' = cell key' t).
Proof.
  intros Hp Ht Ho E. pose proof (treat_value_step k ty st key s s t t (conj eq_refl eq_refl) Ht eq_refl) as H.
  rewrite E in H. destruct H as (_ & Eo & _ & Hs & Hother).
  assert (order t' = if bool_decide (key ∈ order t) then order t else order t ++ [key]) as Eo'.
  { rewrite Eo. specialize (Ho key). destruct (seen k st key t).
    - rewrite bool_decide_true by (by apply Ho). by rewrite app_nil_r.
    - rewrite bool_decide_false; [done|]. intros Hin. by apply Ho in Hin. }
  split; [done|]. split; [|done]. intros key'. rewrite Eo'. destruct (decide (key' = key)) as [->|Hne].
  - rewrite Hs. split; [|done]. intros _. case_bool_decide; [done|]. apply elem_of_app. right. by apply list_elem_of_singleton.
  - rewrite (seen_cell _ _ _ _ _ (Hother _ Hne)). rewrite (Ho key'). case_bool_decide; [done|].
    rewrite elem_of_app, list_elem_of_singleton. naive_solver.
Qed.

Lemma run_order k ty gs e rows : forall t t' u,
  plain e -> seen_ordered k (type e) t -> run k ty gs e rows t = Ret t' u ->
  order t' = distinct_keys gs rows (order t) /\ seen_ordered k (type e) t'.
Proof.
  induction rows as [|row rows IH]; intros t t' u Hp Ho; cbn [run distinct_keys]; [by intros [= <-]|].
  destruct (key_of gs row) as [[key|] []|rc []|]; cbn [obind]; try done; [|by apply IH].
  destruct (calculate row e) as [sub []|rc []|] eqn:Ec; cbn [obind]; try done.
  assert (plain sub /\ type sub = type e) as [Hps Ets].
  { pose proof (calculate_keeps _ _ _ _ Hp Ec) as Ef. split; [by eapply same_plain|by apply same_type]. }
  destruct (treat_value k ty (type e) key sub t) as [[] t1|rc t1|] eqn:Et; try done.
  destruct (treat_value_order _ _ _ _ _ _ _ _ Hps Ets Ho Et) as (Eo & Ho1 & _). rewrite <- Eo. by apply IH.
Qed.

(** The entries of a key after all rows are those after the rows of its group. *)
Lemma run_group k ty gs e key rows : forall t t' u t2,
  plain e -> cell key t2 = cell key t -> run k ty gs e rows t = Ret t' u ->
  exists t2', run k ty gs e (group_rows gs key rows) t2 = Ret t2' tt /\ cell key t2' = cell key t' /\
    order t2' = order t2 ++ (if seen k (type e) key t then [] else match group_rows gs key rows with [] => [] | _ => [key] end).
Proof.
  induction rows as [|row rows IH]; intros t t' u t2 Hp Hc; cbn [run group_rows List.filter].
  { intros [= <-]. exists t2. by destruct (seen _ _ _ _); rewrite app_nil_r. }
  fold (group_rows gs key rows). unfold in_group.
  destruct (key_of gs row) as [[key'|] []|rc []|] eqn:Ek; cbn [obind]; try done; [|by apply IH].
  destruct (calculate row e) as [sub []|rc []|] eqn:Ec; cbn [obind]; try done.
  assert (plain sub /\ type sub = type e) as [Hps Ets].
  { pose proof (calculate_keeps _ _ _ _ Hp Ec) as Ef. split; [by eapply same_plain|by apply same_type]. }
  destruct (treat_value k ty (type e) key' sub t) as [[] t1|rc t1|] eqn:Et; try done. intros Er.
  case_bool_decide as Hkey.
  - subst key'. pose proof (treat_value_step k ty (type e) key sub sub t t2 (conj eq_refl eq_refl) Ets (eq_sym Hc)) as H.
    rewrite Et in H. cbn [run]. rewrite Ek. cbn [obind]. rewrite Ec. cbn [obind].
    destruct (treat_value k ty (type e) key sub t2) as [[] t3|rc t3|]; try done.
    destruct H as (Hc3 & _ & Eo3 & Hs & _). destruct (IH _ _ _ t3 Hp (eq_sym Hc3) Er) as (t2' & E2 & Hc' & Eo').
    exists t2'. split; [done|]. split; [done|]. rewrite Eo', Eo3, Hs, app_nil_r. by destruct (seen k (type e) key t).
  - pose proof (treat_value_step k ty (type e) key' sub sub t t (conj eq_refl eq_refl) Ets eq_refl) as H.
    rewrite Et in H. destruct H as (_ & _ & _ & _ & Hother). specialize (Hother key ltac:(congruence)).
    rewrite <- (seen_cell _ _ _ _ _ Hother). apply (IH t1 t' u t2 Hp); [congruence|done].
Qed.

(** ** The column *)

(** The item that [getColumn] finds for a key after [afterDealAllRow]. *)
Definition shown_item (k : AggregateKind) (ty : AttrType) (t : Tables) (key : Key) : option Item :=
  match final_item k ty t key with Some i => Some i | None => context t !! key end.

Lemma shown_cell k ty t1 t2 key : cell key t1 = cell key t2 -> shown_item k ty t1 key = shown_item k ty t2 key.
Proof. intros E. injection E as E1 E2 E3 E4. unfold shown_item, final_item. by rewrite E1, E2, E3, E4. Qed.

Lemma final_items_order k ty t : order (final_items k ty t) = order t.
Proof.
  unfold final_items. assert (H : forall l t0, order (foldl (fun t' key => match final_item k ty t key with Some i => put_context key i t' | None => t' end) t0 l) = order t0).
  { induction l as [|key l IH]; intros t0; simpl; [done|]. rewrite IH. by destruct (final_item k ty t key). }
  apply H.
Qed.

Lemma final_items_context k ty t key : key ∈ order t -> context (final_items k ty t) !! key = shown_item k ty t key.
Proof.
  unfold final_items, shown_item.
  assert (H : forall l t0, context (foldl (fun t' key => match final_item k ty t key with Some i => put_context key i t' | None => t' end) t0 l) !! key
    = if bool_decide (key ∈ l) then match final_item k ty t key with Some i => Some i | None => context t0 !! key end else context t0 !! key).
  { induction l as [|x l IH]; intros t0; simpl; [done|]. rewrite IH. destruct (decide (key = x)) as [<-|Hne].
    - rewrite (bool_decide_true (key ∈ key :: l)) by left.
      destruct (final_item k ty t key) as [i|]; simpl; rewrite ?lookup_insert_eq; by destruct (bool_decide _).
    - assert (bool_decide (key ∈ x :: l) = bool_decide (key ∈ l)) as -> by (apply bool_decide_ext; rewrite elem_of_cons; tauto).
      destruct (final_item k ty t x) as [i|]; simpl; by rewrite ?lookup_insert_ne by done. }
  intros Hin. rewrite H, bool_decide_true by done. by destruct (final_item k ty t key).
Qed.

Lemma column_items k ty t :
  mapM (fun key => context (final_items k ty t) !! key) (order (final_items k ty t)) = mapM (shown_item k ty t) (order t).
Proof.
  rewrite final_items_order. assert (H : forall l, (forall key, key ∈ l -> key ∈ order t) ->
    mapM (fun key => context (final_items k ty t) !! key) l = mapM (shown_item k ty t) l).
  { induction l as [|key l IH]; intros Hl; simpl; [done|]. rewrite final_items_context by (apply Hl; left).
    rewrite IH; [done|]. intros key' Hk. apply Hl. by right. }
  by apply H.
Qed.

(** A key that has come up has an item. *)
Lemma shown_seen k ty st t key : seen k st key t = true -> is_Some (shown_item k ty t key).
Proof.
  unfold shown_item, final_item. destruct k; simpl; try (by intros [? ->]%bool_decide_eq_true); try done. by destruct ty.
Qed.

(** The outcome of an aggregate, its column instead of its state. *)
Definition column_of (o : outcome Aggregate unit) : outcome unit (option (list Item)) :=
  match o with Ret _ a => Ret (getColumn a) tt | Err rc _ => Err rc tt | Stuck => Stuck end.

(** The types that [afterDealAllRow] accepts. *)
Definition summable (k : AggregateKind) (ty : AttrType) : bool :=
  match k, ty with Sum, (INTS | FLOATS) => true | Sum, _ => false | _, _ => true end.

Lemma afterDealAllRow_spec a :
  column_of (afterDealAllRow a) =
  if summable (kind a) (type_ a) then Ret (mapM (shown_item (kind a) (type_ a) (tables a)) (order (tables a))) tt
  else Err ERROR_INPUT_TYPE tt.
Proof.
  rewrite <- column_items. unfold afterDealAllRow. mrun. by destruct (kind a), (type_ a).
Qed.

(** [Aggregate::evaluate] on rows, without objects. *)
Lemma aggregate_run_spec r a gs u :
  map_group r (groupBy_ a) = Ret gs u -> Forall plain gs -> plain (subExpression_ a) -> tables a = no_tables -> rows_ r <> [] ->
  let k := kind a in
  let ty := start_type k (type_ a) (type (subExpression_ a)) in
  column_of (aggregate_run r a) =
  obind (run k ty gs (row_sub k r (subExpression_ a)) (rows_ r) no_tables) (fun t =>
  if summable k ty then Ret (mapM (shown_item k ty t) (order t)) tt else Err ERROR_INPUT_TYPE tt).
Proof.
  intros Hg Hgs Hp Ht Hr k ty. unfold aggregate_run. rewrite bind_get. unfold lift at 1.
  erewrite bind_Ret by (by rewrite Hg). rewrite bind_modify. unfold beforeStart. rewrite bind_modify.
  destruct (Z.eqb_spec (getLength r) 0) as [E|_].
  { exfalso. apply Hr. unfold getLength, zlen in E. by destruct (rows_ r). }
  set (a1 := set_type _ _).
  pose proof (treat_rows_run r gs (row_sub k r (subExpression_ a)) (rows_ r) a1 Hgs (row_sub_plain _ _ _ Hp) eq_refl eq_refl
    (row_sub_twice _ _ _)) as H.
  change (kind a1) with k in H. change (type_ a1) with ty in H. change (tables a1) with (tables a) in H. rewrite Ht in H.
  unfold mbind, M_bind.
  destruct (treat_rows r (rows_ r) a1) as [[] a2|rc a2|], (run k ty gs _ (rows_ r) no_tables) as [t []|rc' []|]; try done; cbn [obind].
  - destruct H as (E1 & E2 & E3). rewrite afterDealAllRow_spec, E1, E2, E3. done.
  - by rewrite <- H.
Qed.

(** The relation of the rows of a group. *)
Definition group_relation (gs : list Expr) (key : Key) (r : Relation) : Relation :=
  mk_Relation (schemas_ r) (group_rows gs key (rows_ r)).

Lemma map_schema r1 r2 e : schemas_ r1 = schemas_ r2 -> mapToRelation r1 e = mapToRelation r2 e.
Proof.
  intros E. assert (Ef : forall s, findExpressionColumn r1 s = findExpressionColumn r2 s) by (intros s; unfold findExpressionColumn; by rewrite E).
  induction e as [l t|t f a col c|s IH a i col c|l IHl rr IHr op a i col c|k s IH a col c|b rr]; cbn [mapToRelation];
    rewrite ?Ef; try done; by rewrite ?IH, ?IHl, ?IHr.
Qed.
Lemma map_group_schema r1 r2 gs : schemas_ r1 = schemas_ r2 -> map_group r1 gs = map_group r2 gs.
Proof. intros E. induction gs as [|g gs IH]; simpl; [done|]. by rewrite (map_schema _ _ _ E), IH. Qed.
Lemma row_sub_schema k r1 r2 e : schemas_ r1 = schemas_ r2 -> row_sub k r1 e = row_sub k r2 e.
Proof. intros E. unfold row_sub. by rewrite (map_schema _ _ _ E). Qed.

Lemma map_group_plain r gs gs' u : Forall plain gs -> map_group r gs = Ret gs' u -> Forall plain gs'.
Proof.
  intros Hp. revert gs' u. induction Hp as [|g gs Hg Hgs IH]; intros gs' u; simpl; [by intros [= <-]|].
  destruct (mapToRelation r g) as [g' []|rc []|] eqn:E; [|done|done].
  destruct (map_group r gs) as [gs2 []|rc []|]; simpl; intros [= <-]. constructor; [by eapply map_plain|by eapply IH].
Qed.

Lemma seen_no_tables k st : seen_ordered k st no_tables.
Proof. intros key. split; [|by intros ?%elem_of_nil]. by destruct k; [..|destruct st| |]. Qed.

(** The item of a group is the aggregate of its rows alone, and the groups come in
    the order of their first rows. *)
Lemma aggregate_by_group r a gs u a' :
  map_group r (groupBy_ a) = Ret gs u -> Forall plain (groupBy_ a) -> plain (subExpression_ a) -> tables a = no_tables ->
  rows_ r <> [] -> aggregate_run r a = Ret tt a' ->
  exists column, getColumn a' = Some column /\
    Forall2 (fun key i => exists ag, aggregate_run (group_relation gs key r) a = Ret tt ag /\ getColumn ag = Some [i])
      (distinct_keys gs (rows_ r) []) column.
Proof.
  intros Hg Hgs Hp Ht Hr E. pose proof (map_group_plain _ _ _ _ Hgs Hg) as Hgs'.
  pose proof (aggregate_run_spec r a gs u Hg Hgs' Hp Ht Hr) as Hs. cbv zeta in Hs. rewrite E in Hs. cbn [column_of] in Hs.
  set (k := kind a) in *. set (ty := start_type k _ _) in *. set (e := row_sub k r (subExpression_ a)) in *.
  destruct (run k ty gs e (rows_ r) no_tables) as [t []|rc []|] eqn:Er; cbn [obind] in Hs; try done.
  destruct (summable k ty) eqn:Esum; [|done]. injection Hs as Hs.
  destruct (run_order k ty gs e _ _ _ _ (row_sub_plain _ _ _ Hp) (seen_no_tables _ _) Er) as [Eo Ho]. cbn [order no_tables] in Eo.
  destruct (mapM_is_Some_2 (shown_item k ty t) (order t)) as [column Ecol].
  { apply Forall_forall. intros key Hk. apply (shown_seen k ty (type e)). by apply Ho. }
  exists column. split; [by rewrite Hs|]. apply mapM_Some_1 in Ecol. rewrite <- Eo.
  assert (Hall : forall key i, key ∈ order t -> shown_item k ty t key = Some i ->
    exists ag, aggregate_run (group_relation gs key r) a = Ret tt ag /\ getColumn ag = Some [i]).
  { intros key i Hk Ei. rewrite Eo in Hk. destruct (distinct_keys_rows _ _ _ _ Hk) as [Hn|Hg']; [by apply elem_of_nil in Hn|].
    destruct (run_group k ty gs e key _ _ _ _ no_tables (row_sub_plain _ _ _ Hp) eq_refl Er) as (t2 & E2 & Hc2 & Eo2).
    assert (seen k (type e) key no_tables = false) as Hns.
    { destruct (seen k (type e) key no_tables) eqn:Hsn; [|done]. apply seen_no_tables in Hsn. by apply elem_of_nil in Hsn. }
    rewrite Hns in Eo2. cbn [order no_tables app] in Eo2.
    assert (order t2 = [key]) as Eo2' by (rewrite Eo2; by destruct (group_rows gs key (rows_ r))).
    pose proof (aggregate_run_spec (group_relation gs key r) a gs tt) as Hgr. cbv zeta in Hgr.
    rewrite (map_group_schema (group_relation gs key r) r) in Hgr by done. destruct u.
    specialize (Hgr Hg Hgs' Hp Ht Hg'). fold k ty in Hgr. rewrite (row_sub_schema k (group_relation gs key r) r) in Hgr by done.
    fold e in Hgr. cbn [rows_ group_relation] in Hgr. rewrite E2 in Hgr. cbn [obind] in Hgr. rewrite Esum, Eo2' in Hgr.
    cbn [mapM] in Hgr. rewrite (shown_cell _ _ _ _ _ Hc2), Ei in Hgr.
    destruct (aggregate_run (group_relation gs key r) a) as [[] ag|rc ag|]; try done. exists ag. split; [done|]. by injection Hgr. }
  assert (Hsub : forall l c, (forall key, key ∈ l -> key ∈ order t) -> Forall2 (fun key i => shown_item k ty t key = Some i) l c ->
    Forall2 (fun key i => exists ag, aggregate_run (group_relation gs key r) a = Ret tt ag /\ getColumn ag = Some [i]) l c).
  { intros l c Hl. induction 1 as [|key i l c Hi _ IH]; constructor; [apply Hall; [apply Hl; left|done]|].
    apply IH. intros key' Hk. apply Hl. by right. }
  by apply Hsub.
Qed.
