(* ===== verification/Queries.v ===== *)
(** * Queries

    The theorems on the query engine: a plan computes the algebra of SelectSpec.v, a
    join enumerates the product of its operands, a WHERE clause means its tree, an
    aggregate is taken group by group; and two ways in which an answer goes wrong. *)

From Stdlib Require Import ZArith Lia SpecFloat String.
From stdpp Require Import base list strings gmap.
From S2P Require Import Prelude.
From S2P Require Import Monad.
From S2P Require Import Comparator.
From S2P Require Import Float.
From S2P Require Import Item.
From S2P Require Import Expr.
From S2P Require Import Filter.
From S2P Require Import ExprSpec.
From S2P Require Import FilterSpec.
From S2P Require Import Select.
From S2P Require Import SelectSpec.
From S2P Require Import Aggregate.
From S2P Require Import AggregateSpec.
#[local] Open Scope Z_scope.

(** ** Statements *)

(** A statement before its first evaluation, without aggregates in it. *)
Record plain_stmt (st : SelectStmt) : Prop := {
  plain_expressions : Forall plain (expressions_ st);
  plain_where : plain_filter (filter_stmt_ st);
  plain_scans : Forall (fun x => relation_ x.2 = None) (scans st);
  plain_joins : Forall (fun j => Forall (fun x => Forall plain_unit x.2) (joined j)) (inner_joins_ st)
}.

Lemma scanMap_plain ss t q : Forall (fun x => relation_ x.2 = None) ss -> scanMap ss t = Some q -> plain_plan q.
Proof.
  induction 1 as [|[n s] ss Hs Hss IH]; simpl; [done|]. case_bool_decide; [|done]. by intros [= <-].
Qed.

Lemma join_chain_plain st js : forall last q,
  Forall (fun x => relation_ x.2 = None) (scans st) -> Forall (fun x => Forall plain_unit x.2) js ->
  plain_plan last -> join_chain st last js = Some q -> plain_plan q.
Proof.
  induction js as [|[t us] js IH]; intros last q Hs Hj Hl; simpl; [by intros [= <-]|].
  apply Forall_cons in Hj as [Hu Hj]. destruct (scanMap (scans st) t) as [s|] eqn:Es; simpl; [|done].
  apply IH; [done|done|]. simpl. split; [done|]. split; [|done]. split; [by eapply scanMap_plain|by split].
Qed.

Lemma inner_join_plain st j q :
  plain_stmt st -> j ∈ inner_joins_ st -> inner_join st j = Some q -> plain_plan q.
Proof.
  intros [_ _ Hs Hj] Hin. unfold inner_join. destruct (scanMap (scans st) (head_table j)) as [s|] eqn:Es; simpl; [|done].
  rewrite Forall_forall in Hj. apply join_chain_plain; [done|by apply Hj|by eapply scanMap_plain].
Qed.

Lemma flow_plain st q : plain_stmt st -> generateOperatorFlow st = Some q -> plain_plan q.
Proof.
  intros Hst. unfold generateOperatorFlow. pose proof (fun j => inner_join_plain st j) as Hj.
  destruct (inner_joins_ st) as [|j js] eqn:Ej; [by intros [= <-]|].
  destruct (mapM (inner_join st) (j :: js)) as [qs|] eqn:Em; simpl; [|done]. intros [= <-].
  assert (Hqs : Forall plain_plan qs).
  { apply mapM_Some_1 in Em. assert (Hsub : forall x, x ∈ j :: js -> x ∈ j :: js) by done. revert Hsub Em.
    generalize (j :: js) at 1 3 as l. intros l Hsub Em. induction Em as [|x y l k Hxy _ IH]; constructor.
    - eapply Hj; [done| |exact Hxy]. apply Hsub. left.
    - apply IH. intros z Hz. apply Hsub. by right. }
  destruct Hst as [He Hf _ _]. simpl. split; [|done]. split; [|done].
  destruct qs as [|q1 [|q2 qs]]; [by apply mapM_Some_1, Forall2_length in Em|by apply Forall_cons in Hqs as [? _]|].
  simpl. split; [done|]. split; [|constructor]. by apply (plain_subs (q1 :: q2 :: qs)).
Qed.

(** C12: The plan that [generateOperatorFlow] builds for a query without aggregates computes the algebra: rows and errors
    are those of the product of the tables, the selections by the join conditions and by WHERE, and the projection, though
    the operators work with an odometer, mutable expressions and filters in arrays. *)
Theorem select_computes_algebra st q :
  plain_stmt st -> generateOperatorFlow st = Some q -> evaluate q = algebra q.
Proof. intros Hst E. apply evaluate_is_algebra. by eapply flow_plain. Qed.

(** C13: [JoinOperator::evaluate] over relations whose rows fit their schemas ends, and returns the rows of the product,
    the last operand running fastest, that satisfy the join conditions; a condition that fails to evaluate ends it with
    its code. *)
Theorem join_selects_product rels us us' :
  let schemas := concat (schemas_ <$> rels) in
  rels <> [] -> Forall wf_rel rels -> Forall plain_unit us -> units_map (new_Relation schemas) us = Ret us' tt ->
  drop_state (join_evaluate ((fun r => Ret r tt) <$> rels) us new_JoinOperator) =
  map_outcome (mk_Relation schemas) (select (fun row => all_hold row us') (product (rows_ <$> rels))).
Proof.
  intros schemas Hn Hw Hp Em. rewrite (join_evaluate_spec rels us Hn Hw Hp). fold schemas. rewrite Em. cbn [obind].
  f_equal. assert (H : forall row, decides (mk_FilterStmt us' false) row = all_hold row us')
    by (intros row; apply (implements_decides _ (fun row => all_hold row us')), all_implements; by eapply units_map_plain).
  induction (product _) as [|row rows IH]; simpl; [done|]. by rewrite H, IH.
Qed.

(** C14: The array of units that [create_tree] makes of a WHERE clause, once it is mapped to a relation, decides every row
    as the tree of the clause does, AND and OR from left to right and no further than needed, whatever rows the units have
    seen before. *)
Theorem where_means_its_tree {P} (constructExpression : P -> option Expr) cs t ft ft' r :
  stored cs (zlen cs - 1) t -> build constructExpression t = Ret ft tt -> plain_tree ft -> map_tree r ft = Ret ft' tt ->
  exists f us, create_tree constructExpression cs = Ret f tt /\ units_map r (filter_units_ f) = Ret us tt /\
    implements (mk_FilterStmt us (or_mode_ f)) (fun row => tree_holds row ft').
Proof.
  intros Hs Hb Hp Hm. pose proof (create_tree_spec constructExpression cs t Hs) as H. rewrite Hb in H.
  destruct (create_tree constructExpression cs) as [f []|rc []|]; try done. subst f. exists (mk_FilterStmt (layout 0 ft) true), (layout 0 ft').
  split; [done|]. cbn [filter_units_ or_mode_]. rewrite units_map_layout, Hm. split; [done|].
  apply tree_implements. by eapply map_tree_plain.
Qed.

(** C15: When an aggregate of a non-empty relation succeeds, its column has one item for each distinct key, in the order
    the keys come up, and the item of a key is what the same aggregate gives for the rows with that key alone. *)
Theorem aggregate_per_group r a gs a' :
  map_group r (groupBy_ a) = Ret gs tt -> Forall plain (groupBy_ a) -> plain (subExpression_ a) -> tables a = no_tables ->
  rows_ r <> [] -> aggregate_run r a = Ret tt a' ->
  exists column, getColumn a' = Some column /\
    Forall2 (fun key i => exists ag, aggregate_run (group_relation gs key r) a = Ret tt ag /\ getColumn ag = Some [i])
      (distinct_keys gs (rows_ r) []) column.
Proof. apply aggregate_by_group. Qed.

(** ** COUNT *)

Definition value_count (i : option Item) : Z := match i with Some NullItem => 0 | _ => 1 end.
Definition values_count (l : list (option Item)) : Z := foldr (fun i n => value_count i + n) 0 l.

Lemma first_count_shown e : first_count e = value_count (toItem e).
Proof. unfold first_count, toItem. destruct (isCurrentNull e); [done|]. by destruct (type e). Qed.
Lemma values_count_bound l : 0 <= values_count l <= zlen l.
Proof.
  unfold zlen. induction l as [|i l IH]; simpl; [lia|].
  assert (0 <= value_count i <= 1) by (by destruct i as [[]|]). lia.
Qed.

(** The table of counts after rows that are all in the one group. *)
Definition counted (n : Z) (t : Tables) : Prop := order t = [no_group] /\ count t !! no_group = Some n.

Lemma run_count e rows : forall items t n,
  traverse (fun row => shows row e) rows = Ret items tt -> counted n t -> 0 <= n -> n + zlen rows <= INT_MAX ->
  exists t', run Count INTS [] e rows t = Ret t' tt /\ counted (n + values_count items) t'.
Proof.
  induction rows as [|row rows IH]; intros items t n; cbn [traverse run].
  { intros [= <-] Ht _ _. exists t. by rewrite Z.add_0_r. }
  unfold shows at 1. intros E [Ho Hc] Hn Hb. cbn [key_of row_key group_key map_outcome snd obind].
  destruct (calculate row e) as [v []|rc []|]; try done. cbn [map_outcome obind] in *.
  destruct (traverse _ rows) as [items' []|rc []|] eqn:Et; try done. cbn [map_outcome] in E. injection E as <-.
  pose proof (first_count_shown v) as Ef. unfold first_count in Ef. change (zlen (row :: rows)) with (zlen (row :: rows)) in Hb.
  assert (zlen (row :: rows) = 1 + zlen rows) as El by (unfold zlen; cbn [length]; lia). rewrite El in Hb.
  cbn [treat_value values_count foldr]. unfold treat_count, bump_count. mrun. rewrite Hc. pose proof (values_count_bound items').
  fold (values_count items'). rewrite <- Ef. destruct (isCurrentNull v).
  - destruct (IH items' t n eq_refl (conj Ho Hc)) as (t' & -> & H'); [lia..|]. exists t'. split; [done|]. by rewrite Z.add_0_l.
  - assert (Hp : counted (n + 1) (put_count no_group (to_int32 (n + 1)) t)).
    { split; [done|]. simpl. rewrite lookup_insert_eq, to_int32_small; [done|]. unfold is_int32, INT_MIN, INT_MAX, zlen in *. lia. }
    rewrite Hc. change (default 0 (Some n)) with n. destruct (IH items' _ _ eq_refl Hp) as (t' & -> & H'); [unfold zlen in *; lia..|].
    exists t'. split; [done|]. by replace (n + (1 + values_count items')) with (n + 1 + values_count items') by lia.
Qed.

Lemma run_first_count e row rows items :
  traverse (fun row => shows row e) (row :: rows) = Ret items tt -> zlen (row :: rows) <= INT_MAX ->
  exists t', run Count INTS [] e (row :: rows) no_tables = Ret t' tt /\ counted (values_count items) t'.
Proof.
  cbn [traverse run]. unfold shows at 1. intros E Hb. cbn [key_of row_key group_key map_outcome snd obind].
  destruct (calculate row e) as [v []|rc []|]; try done. cbn [map_outcome obind] in *.
  destruct (traverse _ rows) as [items' []|rc []|] eqn:Et; try done. cbn [map_outcome] in E. injection E as <-.
  assert (zlen (row :: rows) = 1 + zlen rows) as El by (unfold zlen; cbn [length]; lia). rewrite El in Hb.
  cbn [treat_value values_count foldr]. unfold treat_count. mrun. cbn [count no_tables]. rewrite lookup_empty.
  fold (values_count items'). rewrite <- first_count_shown.
  assert (Hv : 0 <= first_count v <= 1) by (unfold first_count; by destruct (isCurrentNull v)).
  assert (Hp : counted (first_count v) (put_count no_group (first_count v) (push_order no_group no_tables))).
  { split; [done|]. simpl. by rewrite lookup_insert_eq. }
  destruct (run_count e rows items' _ _ Et Hp) as (t' & -> & H'); [lia..|]. by exists t'.
Qed.

(** C16: COUNT(e) without GROUP BY gives one item, the number of rows where e is not null, and 0 for no rows at all. *)
Theorem count_of_values r a items :
  kind a = Count -> groupBy_ a = [] -> plain (subExpression_ a) -> tables a = no_tables -> zlen (rows_ r) <= INT_MAX ->
  traverse (fun row => shows row (subExpression_ a)) (rows_ r) = Ret items tt ->
  column_of (aggregate_run r a) = Ret (Some [IntItem (values_count items) false]) tt.
Proof.
  intros Hk Hg Hp Ht Hb Ei. destruct (rows_ r) as [|row rows] eqn:Er.
  { injection Ei as <-. destruct a as [k gs e ty t]. simpl in *. subst. unfold aggregate_run, getLength, lift. mrun.
    rewrite Er. reflexivity. }
  pose proof (aggregate_run_spec r a [] tt) as H. rewrite Hg, Hk, Er in H. cbv zeta in H.
  rewrite (H eq_refl (Forall_nil_2 _) Hp Ht ltac:(done)). clear H. cbn [row_sub start_type].
  destruct (run_first_count (subExpression_ a) row rows items Ei Hb) as (t & -> & Ho & Hc). cbn [obind summable].
  rewrite Ho. cbn [mapM]. unfold shown_item. cbn [final_item]. by rewrite Hc.
Qed.


(** ** Order *)

(** Floats that are numbers, as [sortRow] compares them with themselves. *)
Definition finite_item (i : Item) : Prop :=
  match i with FloatItem (S754_zero _) _ | FloatItem (S754_finite _ _ _) _ => True | FloatItem _ _ => False | _ => True end.

Lemma float_sub_self x : match x with S754_zero _ | S754_finite _ _ _ => True | _ => False end -> exists s, float_sub x x = S754_zero s.
Proof.
  destruct x as [s|s| |s m e]; try done; intros _; [by destruct s; eexists|].
  unfold float_sub, SFsub. rewrite Z.min_id, Z.sub_diag. by eexists.
Qed.

Lemma zget_finite r i a : Forall finite_item r -> zget r i = Some a -> finite_item a.
Proof. unfold zget. intros H. case_decide; [|done]. intros E. by eapply Forall_lookup_1. Qed.

(** A row is never found to be before itself as [false]. *)
Lemma sortRow_self metas r b : Forall finite_item r -> sortRow metas r r = Some b -> b = true.
Proof.
  intros Hf. induction metas as [|m metas IH]; simpl; [by intros [= <-]|].
  destruct (zget r (om_idx m)) as [a|] eqn:Ea; simpl; [|done]. pose proof (zget_finite _ _ _ Hf Ea) as Ha.
  destruct (isNull a); simpl; [done|].
  assert (Hint : forall X, (x ← getInt a; y ← getInt a; if x =? y then sortRow metas r r else X x y) = Some b -> b = true).
  { intros X. destruct (getInt a) as [x|]; simpl; [|done]. by rewrite Z.eqb_refl. }
  assert (Htext : forall X, (x ← getText a; y ← getText a; if strcmp x y =? 0 then sortRow metas r r else X x y) = Some b -> b = true).
  { intros X. destruct (getText a) as [x|]; simpl; [|done]. by rewrite strcmp_refl. }
  destruct (om_type m); try exact (Htext _); try exact (Hint _).
  clear Hint Htext. destruct a as [|v n|v n|v n|v n|v n|v n]; try done; simpl.
  destruct (float_sub_self v) as [s Es]; [by destruct v|]. rewrite Es. by destruct s.
Qed.

(** C40: [sortRow] is no comparison for [std::sort], which asks for a strict weak order: a row is placed before itself, so
    ORDER BY is undefined for every relation with a row of finite numbers. *)
Theorem order_by_is_undefined metas row rows :
  Forall finite_item row -> ~ strict_weak_order (sortRow metas) (row :: rows).
Proof.
  intros Hf (_ & Hirr & _). specialize (Hirr row ltac:(left)). by apply sortRow_self in Hirr.
Qed.

(** ** Samples *)

(** Records with a stamp, a null map and one integer. *)
Definition sample_fields : list FieldMeta :=
  [mk_FieldMeta "__trx" INTS 0 4; mk_FieldMeta "__null" INTS 4 4; mk_FieldMeta "v" INTS 8 4].
Definition sample_record (v : option Z) : list Z :=
  [0; 0; 0; 0] ++ match v with Some v => [0; 0; 0; 0; v; 0; 0; 0] | None => [0; 0; 0; 128; 0; 0; 0; 0] end.
Definition sample_scan (table : string) (vs : list (option Z)) : ScanOperator :=
  mk_ScanOperator SUCCESS (sample_record <$> vs) sample_fields 4 [mk_Schema (table +:+ ".v") INTS] None.

Definition col_t : Expr := new_Identifier "t" "v" INTS.
Definition col_u : Expr := new_Identifier "u" "v" INTS.

(** WHERE t.v = u.v OR t.v > 2, with the inner node behind its children. *)
Definition sample_conditions : list (Condition (P := Expr)) :=
  [mk_Condition col_t EQUAL_TO col_u (-1) (-1); mk_Condition col_t GREAT_THAN (ConstExpression "2" INTS) (-1) (-1);
   mk_Condition col_t OR_OP col_t 0 1].
Definition sample_tree : FTree :=
  Node OR_OP (Leaf (mk_FilterUnit EQUAL_TO (Some col_t) (Some col_u) (-1) (-1)))
    (Leaf (mk_FilterUnit GREAT_THAN (Some col_t) (Some (ConstExpression "2" INTS)) (-1) (-1))).

(** SELECT t.v, u.v + t.v FROM t, u WHERE ... *)
Definition sample_stmt : SelectStmt :=
  mk_SelectStmt [col_t; new_Binary col_u col_t OP_ADD] [mk_InnerJoin "t" []; mk_InnerJoin "u" []]
    (mk_FilterStmt (layout 0 sample_tree) true)
    [("t"%string, sample_scan "t" [Some 1; Some 3; None]); ("u"%string, sample_scan "u" [Some 1; Some 2])].
Definition sample_plan : QueryOperator := default (QSimple []) (generateOperatorFlow sample_stmt).

Lemma plain_sample : plain_stmt sample_stmt.
Proof.
  split; simpl.
  - repeat constructor.
  - exists sample_tree. by split.
  - repeat constructor.
  - repeat constructor.
Qed.

Lemma select_computes_algebra_witness :
  evaluate sample_plan = algebra sample_plan /\
  algebra sample_plan = Ret (mk_Relation [mk_Schema "t.v" INTS; mk_Schema "u.v+t.v" INTS]
    [[IntItem 1 false; IntItem 2 false]; [IntItem 3 false; IntItem 4 false]; [IntItem 3 false; IntItem 5 false]]) tt.
Proof.
  split; [|vm_compute; reflexivity].
  apply (select_computes_algebra sample_stmt sample_plan); [exact plain_sample|vm_compute; reflexivity].
Defined.

Definition sample_rel (table : string) (vs : list Z) : Relation :=
  mk_Relation [mk_Schema (table +:+ ".v") INTS] ((fun v => [IntItem v false]) <$> vs).
Definition sample_join : list FilterUnit := [mk_FilterUnit LESS_THAN (Some col_t) (Some col_u) (-1) (-1)].
Definition sample_join_mapped : list FilterUnit :=
  [mk_FilterUnit LESS_THAN (Some (IdentifierExpression "t" "v" INTS 0 no_value)) (Some (IdentifierExpression "u" "v" INTS 1 no_value)) (-1) (-1)].

Lemma join_selects_product_witness :
  drop_state (join_evaluate ((fun r => Ret r tt) <$> [sample_rel "t" [1; 2]; sample_rel "u" [1; 2; 3]]) sample_join new_JoinOperator) =
  map_outcome (mk_Relation [mk_Schema "t.v" INTS; mk_Schema "u.v" INTS])
    (select (fun row => all_hold row sample_join_mapped) (product (rows_ <$> [sample_rel "t" [1; 2]; sample_rel "u" [1; 2; 3]]))).
Proof.
  apply (join_selects_product [sample_rel "t" [1; 2]; sample_rel "u" [1; 2; 3]] sample_join sample_join_mapped);
    [done|repeat constructor|repeat constructor|vm_compute; reflexivity].
Defined.

(** The tree after it is mapped to the columns of t and u. *)
Definition sample_mapped : FTree :=
  Node OR_OP
    (Leaf (mk_FilterUnit EQUAL_TO (Some (IdentifierExpression "t" "v" INTS 0 no_value))
       (Some (IdentifierExpression "u" "v" INTS 1 no_value)) (-1) (-1)))
    (Leaf (mk_FilterUnit GREAT_THAN (Some (IdentifierExpression "t" "v" INTS 0 no_value)) (Some (ConstExpression "2" INTS)) (-1) (-1))).

Lemma where_means_its_tree_witness :
  exists f us, create_tree Some sample_conditions = Ret f tt /\
    units_map (new_Relation [mk_Schema "t.v" INTS; mk_Schema "u.v" INTS]) (filter_units_ f) = Ret us tt /\
    implements (mk_FilterStmt us (or_mode_ f)) (fun row => tree_holds row sample_mapped).
Proof.
  apply (where_means_its_tree Some sample_conditions
    (CondNode OR_OP (CondLeaf (mk_Condition col_t EQUAL_TO col_u (-1) (-1)))
       (CondLeaf (mk_Condition col_t GREAT_THAN (ConstExpression "2" INTS) (-1) (-1)))) sample_tree sample_mapped).
  - apply (stored_node sample_conditions 2 (mk_Condition col_t OR_OP col_t 0 1)); [done|done|done|done|by apply stored_leaf|by apply stored_leaf].
  - vm_compute; reflexivity.
  - by vm_compute.
  - vm_compute; reflexivity.
Defined.

(** SUM(u.v) ... GROUP BY t.v on the rows of both columns. *)
Definition sample_table : Relation :=
  mk_Relation [mk_Schema "t.v" INTS; mk_Schema "u.v" INTS]
    [[IntItem 1 false; IntItem 10 false]; [IntItem 2 false; IntItem 20 false]; [IntItem 1 false; IntItem 30 false]].
Definition sample_aggregate (k : AggregateKind) (groupBy : list Expr) : Aggregate :=
  mk_Aggregate k groupBy (IdentifierExpression "u" "v" INTS 1 no_value) INTS no_tables.
Definition sample_result : Aggregate :=
  match aggregate_run sample_table (sample_aggregate Sum [col_t]) with Ret _ a => a | _ => sample_aggregate Sum [col_t] end.

Lemma aggregate_per_group_witness :
  (exists column, getColumn sample_result = Some column /\
    Forall2 (fun key i => exists ag, aggregate_run (group_relation [IdentifierExpression "t" "v" INTS 0 no_value] key sample_table)
                                       (sample_aggregate Sum [col_t]) = Ret tt ag /\ getColumn ag = Some [i])
      (distinct_keys [IdentifierExpression "t" "v" INTS 0 no_value] (rows_ sample_table) []) column) /\
  getColumn sample_result = Some [IntItem 40 false; IntItem 20 false].
Proof.
  split; [|vm_compute; reflexivity].
  apply (aggregate_per_group sample_table (sample_aggregate Sum [col_t])); [vm_compute; reflexivity|repeat constructor|done|done|done|].
  vm_compute; reflexivity.
Defined.

Lemma count_of_values_witness :
  column_of (aggregate_run sample_table (sample_aggregate Count [])) = Ret (Some [IntItem 3 false]) tt.
Proof.
  apply (count_of_values sample_table (sample_aggregate Count [])
    [Some (IntItem 10 false); Some (IntItem 20 false); Some (IntItem 30 false)]); try done; vm_compute; done.
Defined.


Lemma order_by_is_undefined_witness :
  ~ strict_weak_order (sortRow [mk_OrderMeta 0 INTS true]) [[IntItem 1 false]; [IntItem 2 false]].
Proof. apply (order_by_is_undefined [mk_OrderMeta 0 INTS true] [IntItem 1 false]). repeat constructor. Defined.
